(* ===== verification/_CoqProject ===== *)
-Q . S2P
Prelude.v
Bytes.v
Text.v
BTree.v
Clock.v
TimedMap.v
Store.v
Tric.v
DataBus.v
BusSpec.v
Sqlite.v
Instances.v
Permutive.v
Buses.v
Slots.v
Interleave.v
Metrics.v
Auth.v
Handshake.v
Codec.v
Replies.v
Modules.v
Sql.v
Query.v
Files.v
Analyser.v
Import.v
Export.v
Transfer.v
Router.v
Cli.v
Admin.v
Server.v
Supervision.v
Logger.v
Main.v
