(* ===== verification/Prelude.v ===== *)
(** * TRIC+, a permutive key-value database: verification development

    The program (src/src/) is a key-value server.  A value with a time-to-live
    lives in memory (the transient tier), one without lives in SQLite (the
    persistent tier), and the permutive bus makes one store of the two.  A router
    turns requests, which local and network workers receive as datagrams, into
    calls of that bus; a supervisor watches the modules.  The development embeds
    the code as executable functions and proves what each part promises.

    ** How the code is written down

    A method of a type [Σ] is a function [Σ → Outcome A * Σ] (the monad [M]
    below).  [Outcome] is how a call ends: it returns, it panics, or it ends the
    process.  The state survives a panic, as it does behind a lock.  Code that
    reads the clock runs on a [World]: a state and the number of readings so far;
    the clock itself is a parameter, a monotone sequence of instants (class
    [Clock]).  Integers are [N] with the wrap-around, truncation or bounds check
    of the Rust type written out; indexing and slicing panic out of range; byte
    strings are lists of [byte]; a [BTreeMap] or [HashMap] is a [gmap], with the
    order of iteration written out where the code observes it.

    Code outside src/ is a parameter with its documented behaviour as laws:
    rusqlite ([Rusqlite], [RusqliteSpec] in Sqlite.v), ChaCha20-Poly1305 ([Aead]
    in Auth.v), the random generator ([Entropy], [OsRng] in Codec.v and Server.v),
    sqlparser ([SqlParser] in Sql.v), the curves of the handshake ([Signatures],
    [KeyExchange] in Handshake.v), tar and brotli ([Archives] in Files.v,
    [ArchiveLaws] in Transfer.v), the file system ([FileSystem] in Files.v, the
    directory calls [FsEvents] in Slots.v).  Two parts of the standard library are
    parameters too, because any answer is right: the order in which a hash map is
    iterated ([HashOrder]) and the tables of Unicode beyond ASCII
    ([UnicodeTables]).  Instances.v and the ends of the files that need them give
    concrete instances, on which the concrete runs ([*_witness]) evaluate.

    ** What a bus cannot hold

    The server runs on the permutive bus, and that bus panics when a value without a
    time-to-live is written to a namespace whose database cannot be opened
    ([bus_writable] is [openable] there; [unopenable_write_disables_bus]).  No theorem
    assumes that every key is writable.  The theorems of the router, the server and
    the commands ask it of the keys that the input itself names to be stored:
    [query_writes] (Query.v), [request_writes] (Router.v), [datagram_writes]
    (Server.v), [command_writes] (Admin.v), and of the writes of an import.  The laws
    of [RusqliteSpec] are those of statements that succeed; the definitions go on
    when one fails, as the code does, and [failed_write_acknowledged] (Buses.v) is
    what a client sees then.

    ** The parts, from the bottom

    - Bytes.v, Text.v, BTree.v, Clock.v, Files.v: the parts of the Rust standard
      library the sources use (big-endian integers, slices, UTF-8 and the string
      methods, ordered maps, [Duration] and [Instant], files).
    - TimedMap.v: the abstract store, a map from keys to a value and an optional
      expiry instant, and its contents at an instant.
    - Store.v (store.rs): the three maps of the transient tier.  [store_wf] is the
      invariant of the two expiry indexes, [store_abs] the timed map a store
      represents; every operation keeps the one and acts on the other as
      specified, [expire_loop] removes exactly what has expired ([purge_exact]).
    - Tric.v (lib.rs): the locked public methods, which purge and then act.
    - DataBus.v (core/data_bus.rs): the trait [DataBus] as a class of operations and
      its contract [TimedBus], against which the clients are proved.
    - Sqlite.v (core/sqlite_bus.rs): the persistent tier, with its namespaces, its
      lazily opened databases and the lock that a panic poisons.
    - Permutive.v (core/permutive_bus.rs): each method as a procedure [Proc] of
      calls of the two tiers; run alone it keeps the contract [TimedBus].
    - BusSpec.v, Buses.v: operations as data, the abstract machine, and the
      refinement: any sequence of operations on either bus answers as the abstract
      machine does, the remaining time-to-live included: of a key that does not
      expire the transient bus answers none, the permutive bus none or at most the
      sixty seconds of a cached copy ([TtlPromise]).  What that means for one key (a
      value written is read; a time-to-live ends when it should), what a database
      that cannot be opened does to the whole bus, and what a full disk does.
    - Slots.v (core/sqlite_bus.rs, core/permutive_bus.rs): the directory of a slot:
      the start that opens its databases, listing and cloning of slots.  What a
      restart keeps, what it loses, and what a clone has.
    - Interleave.v: the same procedures on several threads, call by call
      ([run_schedule], which is executable): every schedule is free of panics and
      can be completed, in at most four calls a thread; one of them shows a stale
      value.
    - Metrics.v (modules/metrics.rs): wrapping atomic counters; a method is the list
      of its atomic operations, and the theorem is about every permutation of the
      operations of any calls.
    - Auth.v, Handshake.v (modules/auth.rs): the session table, counter nonces,
      base64; which keys an authorized_keys file gives and which lines it drops, and
      that the two sides of a handshake get one session.
    - Codec.v (modules/codec.rs): local and network datagrams, what a request of each
      opcode is decoded to, with its noise or without, and that no datagram makes
      the decoder panic.
    - Modules.v (core/module.rs, modules/health.rs, modules/placeholder.rs): the
      context of a module and the two smallest ones.
    - Replies.v, Sql.v, Query.v (modules/query.rs), Router.v (modules/router.rs): the
      SQL statements and the request handlers over any [TimedBus]: a well-formed
      request runs its operation and answers with its reply, a malformed one is
      refused without effect, and no request panics that stores no key the bus
      cannot hold.
    - Server.v (modules/server.rs): one turn of a worker, from datagram to
      datagrams: what is served, what is counted, and that no turns, whatever
      they were and however they ended, let a network client be answered.
    - Supervision.v (core/mod.rs): the registry, the threads, the check that
      respawns modules, and when it blocks.
    - Analyser.v (modules/analyser.rs): CREATE TABLE statements to a storage plan,
      and the plan to schema entries.
    - Import.v (modules/import.rs): SQL dumps to keys ([import_writes] is the list of
      writes an import makes), and the difference of two archives: what it writes
      and deletes in whatever order it is visited, but for the keys that
      time-to-live entries name ([ttl_keys]), where the order decides.
    - Export.v (modules/export.rs): the SQL file and the archive.  What was imported
      is exported, and no value makes the INSERT line of one row look like another's.
    - Transfer.v: export, archive and import together: which keys keep their name,
      and that an archive copies a store whose keys do, but for pairs that expire.
    - Cli.v, Admin.v (modules/cli.rs): the administration commands, their dispatch
      and a turn of the module's loop, which answers every command but those that
      store a key the bus cannot hold; dump and restore
      as a round trip, and what the time-to-live of a cached entry does to it.
    - Main.v (main.rs): the arguments, the start of the server, the client of the admin
      socket, the shell and the slot commands; a command line is served as typed.
    - Logger.v (modules/logger.rs): dates against the Gregorian calendar, and the
      width of a timestamp.

    ** Loops

    Loops whose recursion is not structural carry fuel, and a theorem says the
    fuel is enough.  The purge runs at most once per instant of the expiry index,
    which is its fuel ([purge_exact]: nothing expired is left); a turn of the restore
    loop consumes sixteen bytes or ends, and its fuel is the length of the
    file plus one ([restore_reads_dump]: more fuel changes nothing).

    ** What is not modelled

    Sockets and thread handles: I/O.  The benchmarks: timing loops over the public
    operations.  The client bridges: other languages.  A write to a file that could
    be created is taken to succeed, and the text of an error message of the system
    is whatever the parameter says. *)
From stdpp Require Import prelude gmap sorting strings.
From Stdlib Require Import NArith.
From Stdlib Require Strings.Byte.
From Stdlib Require Import ZArith Lia.

#[global] Open Scope N_scope.
#[global] Open Scope list_scope.

(** * Outcomes and the state monad *)

(** What a call of the program ends in: it returns, it unwinds with a panic
    (an [unwrap] of [None], an index out of range, [panic!]), or it ends the
    process ([std::process::exit]). *)
Inductive Outcome (A : Type) : Type :=
| Returned (a : A)
| Panicked
| Exited (code : N).
Arguments Returned {A} _.
Arguments Panicked {A}.
Arguments Exited {A} _.

#[global] Instance Outcome_ret : MRet Outcome := λ A a, Returned a.
#[global] Instance Outcome_bind : MBind Outcome := λ A B f m,
  match m with
  | Returned a => f a
  | Panicked => Panicked
  | Exited c => Exited c
  end.

(** [Option::unwrap]. *)
Definition unwrap {A} (o : option A) : Outcome A :=
  match o with Some a => Returned a | None => Panicked end.

(** A method on a [&mut self] of type [Σ].  The state survives a panic: what
    was written before the panic stays written. *)
Definition M (Σ A : Type) : Type := Σ → Outcome A * Σ.

#[global] Instance M_ret Σ : MRet (M Σ) := λ A a σ, (Returned a, σ).
#[global] Instance M_bind Σ : MBind (M Σ) := λ A B f m σ,
  match m σ with
  | (Returned a, σ') => f a σ'
  | (Panicked, σ') => (Panicked, σ')
  | (Exited c, σ') => (Exited c, σ')
  end.

Definition lift_outcome {Σ A} (o : Outcome A) : M Σ A := λ σ, (o, σ).
Definition panic {Σ A} : M Σ A := λ σ, (Panicked, σ).
Definition exit_process {Σ A} (code : N) : M Σ A := λ σ, (Exited code, σ).
Definition get {Σ} : M Σ Σ := λ σ, (Returned σ, σ).
Definition gets {Σ A} (f : Σ → A) : M Σ A := λ σ, (Returned (f σ), σ).
Definition modify {Σ} (f : Σ → Σ) : M Σ unit := λ σ, (Returned (), f σ).

(** A method of a field, run on the structure that owns the field. *)
Definition zoom {Σ Τ A} (proj : Σ → Τ) (upd : Τ → Σ → Σ) (m : M Τ A) : M Σ A :=
  λ σ, let '(o, τ) := m (proj σ) in (o, upd τ σ).

Fixpoint mfor {Σ A} (l : list A) (body : A → M Σ unit) : M Σ unit :=
  match l with
  | [] => mret ()
  | x :: l' => body x ;; mfor l' body
  end.

Fixpoint mmap {Σ A B} (f : A → M Σ B) (l : list A) : M Σ (list B) :=
  match l with
  | [] => mret []
  | x :: l' => y ← f x; ys ← mmap f l'; mret (y :: ys)
  end.

Lemma bind_returned {Σ A B} (m : M Σ A) (f : A → M Σ B) σ a σ' :
  m σ = (Returned a, σ') → (m ≫= f) σ = f a σ'.
Proof. unfold mbind, M_bind. by intros ->. Qed.

Lemma bind_inv {Σ A B} (m : M Σ A) (f : A → M Σ B) σ b σ'' :
  (m ≫= f) σ = (Returned b, σ'') → ∃ a σ', m σ = (Returned a, σ') ∧ f a σ' = (Returned b, σ'').
Proof. unfold mbind, M_bind. destruct (m σ) as [[a| |] σ']; intros Hf; try done. by exists a, σ'. Qed.

Lemma bind_panicked {Σ A B} (m : M Σ A) (f : A → M Σ B) σ σ' :
  m σ = (Panicked, σ') → (m ≫= f) σ = (Panicked, σ').
Proof. unfold mbind, M_bind. by intros ->. Qed.

Lemma list_omap_fmap_Some {A} (l : list A) : omap id (Some <$> l) = l.
Proof. induction l as [|x l IH]; [done|]. csimpl. by rewrite IH. Qed.

Lemma omap_cons_Some {A B} (f : A → option B) x y l : f x = Some y → omap f (x :: l) = y :: omap f l.
Proof. intros Hf. cbn. by rewrite Hf. Qed.
Lemma filter_all {A} (P : A → Prop) `{∀ x, Decision (P x)} (l : list A) : Forall P l → filter P l = l.
Proof. intros Hall. induction Hall as [|x l Hx Hall IH]; [done|]. by rewrite filter_cons, decide_True, IH. Qed.

Lemma omap_cons_None {A B} (f : A → option B) x l : f x = None → omap f (x :: l) = omap f l.
Proof. intros Hf. cbn. by rewrite Hf. Qed.

Lemma mmap_app {Σ A B} (f : A → M Σ B) l1 l2 σ r1 σ1 r2 σ2 :
  mmap f l1 σ = (Returned r1, σ1) → mmap f l2 σ1 = (Returned r2, σ2) →
  mmap f (l1 ++ l2) σ = (Returned (r1 ++ r2), σ2).
Proof.
  revert σ r1. induction l1 as [|x l1 IH]; intros σ r1 H1 H2; simpl in *.
  - by injection H1 as <- <-.
  - unfold mbind, M_bind in *. destruct (f x σ) as [[y| |] σ']; try done.
    destruct (mmap f l1 σ') as [[ys| |] σ''] eqn:E; try done. injection H1 as <- ->.
    by rewrite (IH _ _ E H2).
Qed.

Lemma mmap_single {Σ A B} (f : A → M Σ B) x σ r σ' :
  f x σ = (Returned r, σ') → mmap f [x] σ = (Returned [r], σ').
Proof. intros Hf. simpl. unfold mbind, M_bind. by rewrite Hf. Qed.

Lemma gets_bind {Σ A B} (f : Σ → A) (k : A → M Σ B) σ : (gets f ≫= k) σ = k (f σ) σ.
Proof. reflexivity. Qed.

Lemma bind_ret_l {Σ A B} (a : A) (f : A → M Σ B) σ : (mret a ≫= f) σ = f a σ.
Proof. done. Qed.

Lemma zoom_returned {Σ Τ A} (proj : Σ → Τ) (upd : Τ → Σ → Σ) (m : M Τ A) σ a τ :
  m (proj σ) = (Returned a, τ) → zoom proj upd m σ = (Returned a, upd τ σ).
Proof. unfold zoom. by intros ->. Qed.

(** Sums and maxima of lists of machine integers. *)
Definition nsum (l : list N) : N := foldr N.add 0 l.
Definition nmax (l : list N) : N := foldr N.max 0 l.

#[global] Instance nsum_perm : Proper ((≡ₚ) ==> (=)) nsum.
Proof. apply foldr_permutation_proper; [apply _..|]. intros x y b. lia. Qed.
#[global] Instance nmax_perm : Proper ((≡ₚ) ==> (=)) nmax.
Proof. apply foldr_permutation_proper; [apply _..|]. intros x y b. lia. Qed.

Lemma nsum_app l1 l2 : nsum (l1 ++ l2) = nsum l1 + nsum l2.
Proof. induction l1 as [|x l1 IH]; simpl; [done|]. rewrite IH. lia. Qed.
Lemma nmax_app l1 l2 : nmax (l1 ++ l2) = nmax l1 `max` nmax l2.
Proof. induction l1 as [|x l1 IH]; simpl; [lia|]. rewrite IH. lia. Qed.

(** Run the first command of a sequence with an equation for its result. *)
Ltac run_with H := rewrite (bind_returned _ _ _ _ _ H).
Ltac run := first [erewrite bind_returned by eassumption
                  | erewrite bind_returned by reflexivity ]; cbn beta iota.

(** The lemmas on calls that cannot fail (BusSpec.v and its clients). *)
Create HintDb returns.

(** [lia] with division and remainder by constants. *)
Ltac div_lia := zify; Z.to_euclidean_division_equations; lia.
