(* ===== verification/Bytes.v ===== *)
(** Byte strings: the machine integers of the wire format and their big-endian
    encoding, indexing and slicing with Rust's bounds checks, the lexicographic
    order of [&[u8]], and UTF-8 validation.  Everything here models the Rust
    standard library as the sources use it. *)
From stdpp Require Import prelude gmap sorting strings.
From Stdlib Require Strings.Byte.
From Stdlib Require Import NArith Lia.
From S2P Require Import Prelude.

(** * Bytes *)

Abbreviation byte := Corelib.Init.Byte.byte.
(** [&[u8]], [Vec<u8>], [bytes::Bytes] and, as UTF-8, [&str] and [String]. *)
Abbreviation bytes := (list byte).

Definition byte_val (b : byte) : N := Byte.to_N b.

(** The byte of a string literal of the source. *)
Definition bs (s : string) : bytes := String.list_byte_of_string s.

#[global] Instance byte_eq_decision : EqDecision byte := Byte.byte_eq_dec.

#[global] Program Instance byte_countable : Countable byte :=
  inj_countable Byte.to_N Byte.of_N _.
Next Obligation. intros b. apply Byte.of_to_N. Qed.

Lemma byte_val_inj b1 b2 : byte_val b1 = byte_val b2 → b1 = b2.
Proof.
  unfold byte_val. intros H.
  pose proof (Byte.of_to_N b1) as H1. pose proof (Byte.of_to_N b2) as H2. congruence.
Qed.

Lemma byte_val_bound b : byte_val b < 256.
Proof. pose proof (Byte.to_N_bounded b). unfold byte_val. lia. Qed.

(** [x as u8]. *)
Definition as_u8 (x : N) : byte := default Byte.x00 (Byte.of_N (x mod 256)).

Lemma byte_val_as_u8 x : byte_val (as_u8 x) = x mod 256.
Proof.
  unfold as_u8, byte_val.
  assert (x mod 256 < 256) by (apply N.mod_lt; lia).
  destruct (Byte.of_N (x mod 256)) as [b|] eqn:E; simpl.
  - by apply Byte.to_of_N in E.
  - apply Byte.of_N_None_iff in E. lia.
Qed.

Lemma as_u8_byte_val b : as_u8 (byte_val b) = b.
Proof.
  apply byte_val_inj. rewrite byte_val_as_u8. apply N.mod_small, byte_val_bound.
Qed.

(** * Lengths, indexing and slicing (usize is 64 bits wide) *)

Definition blen (l : bytes) : N := N.of_nat (length l).
Definition btake (n : N) (l : bytes) : bytes := take (N.to_nat n) l.
Definition bdrop (n : N) (l : bytes) : bytes := drop (N.to_nat n) l.

(** [l[i]]: panics out of range. *)
Definition index (l : bytes) (i : N) : Outcome byte := unwrap (l !! N.to_nat i).

(** [&l[a..b]]: panics when [a > b] or [b > l.len()]. *)
Definition slice (l : bytes) (a b : N) : Outcome bytes :=
  if (a <=? b) && (b <=? blen l) then Returned (btake (b - a) (bdrop a l)) else Panicked.

(** [&l[a..]]. *)
Definition slice_from (l : bytes) (a : N) : Outcome bytes := slice l a (blen l).

(** * Big-endian integers *)

Definition of_be (l : bytes) : N := foldl (λ acc b, acc * 256 + byte_val b) 0 l.

Fixpoint be_bytes (w : nat) (x : N) : bytes :=
  match w with
  | O => []
  | S w' => as_u8 (x / 256 ^ N.of_nat w') :: be_bytes w' x
  end.

(** [x.to_be_bytes()] for the unsigned types. *)
Definition u16_be (x : N) : bytes := be_bytes 2 x.
Definition u32_be (x : N) : bytes := be_bytes 4 x.
Definition u64_be (x : N) : bytes := be_bytes 8 x.

(** [x as u16], [x as u32], [x as u64]. *)
Definition as_u16 (x : N) : N := x mod 2 ^ 16.
Definition as_u32 (x : N) : N := x mod 2 ^ 32.
Definition as_u64 (x : N) : N := x mod 2 ^ 64.

(** [u32::from_be_bytes([l[i], l[i + 1], l[i + 2], l[i + 3]])]. *)
Definition u32_at (l : bytes) (i : N) : Outcome N :=
  b0 ← index l i; b1 ← index l (i + 1); b2 ← index l (i + 2); b3 ← index l (i + 3);
  mret (of_be [b0; b1; b2; b3]).

(** [u64::from_be_bytes([l[i], .., l[i + 7]])]. *)
Definition u64_at (l : bytes) (i : N) : Outcome N :=
  b0 ← index l i; b1 ← index l (i + 1); b2 ← index l (i + 2); b3 ← index l (i + 3);
  b4 ← index l (i + 4); b5 ← index l (i + 5); b6 ← index l (i + 6); b7 ← index l (i + 7);
  mret (of_be [b0; b1; b2; b3; b4; b5; b6; b7]).

(** * The order of byte slices *)

Fixpoint bytes_leb (x y : bytes) : bool :=
  match x, y with
  | [], _ => true
  | _ :: _, [] => false
  | a :: x', b :: y' =>
      if byte_val a =? byte_val b then bytes_leb x' y' else byte_val a <? byte_val b
  end.

Definition bytes_le (x y : bytes) : Prop := bytes_leb x y = true.

(** [haystack.starts_with(prefix)]. *)
Fixpoint starts_with (l prefix : bytes) {struct prefix} : bool :=
  match prefix, l with
  | [], _ => true
  | _ :: _, [] => false
  | p :: ps, x :: xs => bool_decide (x = p) && starts_with xs ps
  end.

(** [s.strip_prefix(prefix)]. *)
Definition strip_prefix (l prefix : bytes) : option bytes :=
  if starts_with l prefix then Some (drop (length prefix) l) else None.

(** The index of the first byte [c] ([str::find] of an ASCII character). *)
Fixpoint find_byte (c : byte) (l : bytes) : option N :=
  match l with
  | [] => None
  | x :: l' => if bool_decide (x = c) then Some 0 else N.succ <$> find_byte c l'
  end.

(** * UTF-8 *)

Definition in_range (lo hi : N) (b : byte) : bool := (lo <=? byte_val b) && (byte_val b <=? hi).
Definition continuation (b : byte) : bool := in_range 0x80 0xBF b.

(** [std::str::from_utf8(l).is_ok()]: the table of well-formed byte sequences
    of the Unicode standard (no overlong forms, no surrogates). *)
Fixpoint utf8_valid (l : bytes) : bool :=
  match l with
  | [] => true
  | b0 :: l1 =>
      if byte_val b0 <? 0x80 then utf8_valid l1
      else if in_range 0xC2 0xDF b0 then
        match l1 with
        | b1 :: l2 => continuation b1 && utf8_valid l2
        | _ => false
        end
      else if in_range 0xE0 0xEF b0 then
        match l1 with
        | b1 :: b2 :: l3 =>
            (if byte_val b0 =? 0xE0 then in_range 0xA0 0xBF b1
             else if byte_val b0 =? 0xED then in_range 0x80 0x9F b1
             else continuation b1) && continuation b2 && utf8_valid l3
        | _ => false
        end
      else if in_range 0xF0 0xF4 b0 then
        match l1 with
        | b1 :: b2 :: b3 :: l4 =>
            (if byte_val b0 =? 0xF0 then in_range 0x90 0xBF b1
             else if byte_val b0 =? 0xF4 then in_range 0x80 0x8F b1
             else continuation b1) && continuation b2 && continuation b3 && utf8_valid l4
        | _ => false
        end
      else false
  end.

(** * Lemmas *)

Lemma blen_app l1 l2 : blen (l1 ++ l2) = blen l1 + blen l2.
Proof. unfold blen. rewrite length_app. lia. Qed.
Lemma blen_nil : blen [] = 0.
Proof. done. Qed.
Lemma blen_cons b l : blen (b :: l) = 1 + blen l.
Proof. unfold blen. simpl. lia. Qed.

Lemma length_be_bytes w x : length (be_bytes w x) = w.
Proof. induction w; simpl; congruence. Qed.
Lemma blen_be_bytes w x : blen (be_bytes w x) = N.of_nat w.
Proof. unfold blen. by rewrite length_be_bytes. Qed.
Lemma blen_u16_be x : blen (u16_be x) = 2.
Proof. apply blen_be_bytes. Qed.
Lemma blen_u32_be x : blen (u32_be x) = 4.
Proof. apply blen_be_bytes. Qed.
Lemma blen_u64_be x : blen (u64_be x) = 8.
Proof. apply blen_be_bytes. Qed.

Lemma foldl_be_shift l acc :
  foldl (λ acc b, acc * 256 + byte_val b) acc l = acc * 256 ^ blen l + of_be l.
Proof.
  unfold of_be. revert acc. induction l as [|b l IH]; intros acc.
  - simpl. unfold blen; simpl. lia.
  - cbn [foldl]. rewrite IH, (IH (0 * 256 + byte_val b)), blen_cons.
    replace (1 + blen l) with (N.succ (blen l)) by lia. rewrite N.pow_succ_r'. lia.
Qed.

Lemma of_be_cons b l : of_be (b :: l) = byte_val b * 256 ^ blen l + of_be l.
Proof. unfold of_be at 1. simpl. by rewrite foldl_be_shift. Qed.

Lemma of_be_bound l : of_be l < 256 ^ blen l.
Proof.
  induction l as [|b l IH]; [done|].
  rewrite of_be_cons, blen_cons. replace (1 + blen l) with (N.succ (blen l)) by lia.
  rewrite N.pow_succ_r'. pose proof (byte_val_bound b). nia.
Qed.

(** Decoding an encoded integer truncates it to the width. *)
Lemma of_be_be_bytes w x : of_be (be_bytes w x) = x mod 256 ^ N.of_nat w.
Proof.
  induction w as [|w IH].
  - simpl. by rewrite N.mod_1_r.
  - cbn [be_bytes]. rewrite of_be_cons, IH, blen_be_bytes, byte_val_as_u8.
    replace (N.of_nat (S w)) with (N.succ (N.of_nat w)) by lia.
    rewrite N.pow_succ_r', (N.mul_comm 256), N.Div0.mod_mul_r. lia.
Qed.

Lemma be_bytes_of_be l : be_bytes (length l) (of_be l) = l.
Proof.
  assert (∀ l x, be_bytes (length l) (x * 256 ^ blen l + of_be l) = l) as H.
  { clear l. induction l as [|b l IH]; intros x; [done|].
    cbn [length be_bytes]. rewrite of_be_cons, blen_cons. fold (blen l).
    replace (1 + blen l) with (N.succ (blen l)) by lia. rewrite N.pow_succ_r'.
    assert (256 ^ blen l ≠ 0) by (apply N.pow_nonzero; lia).
    pose proof (of_be_bound l). pose proof (byte_val_bound b).
    generalize dependent (256 ^ blen l); intros p IH Hp Hb. f_equal.
    - rewrite <- (as_u8_byte_val b) at 2. apply byte_val_inj. rewrite !byte_val_as_u8.
      replace ((x * (256 * p) + (byte_val b * p + of_be l)) / p) with (x * 256 + byte_val b).
      + rewrite N.add_comm, N.Div0.mod_add. done.
      + apply (N.div_unique _ _ _ (of_be l)); nia.
    - etrans; [|apply (IH (x * 256 + byte_val b))]. f_equal. nia. }
  specialize (H l 0). by rewrite N.mul_0_l, N.add_0_l in H.
Qed.

Lemma of_be_u32_be x : of_be (u32_be x) = x mod 2 ^ 32.
Proof. unfold u32_be. by rewrite of_be_be_bytes. Qed.
Lemma of_be_u64_be x : of_be (u64_be x) = x mod 2 ^ 64.
Proof. unfold u64_be. by rewrite of_be_be_bytes. Qed.
Lemma of_be_u16_be x : of_be (u16_be x) = x mod 2 ^ 16.
Proof. unfold u16_be. by rewrite of_be_be_bytes. Qed.
Lemma u32_be_of_be l : length l = 4%nat → u32_be (of_be l) = l.
Proof. intros H. unfold u32_be. rewrite <- H. apply be_bytes_of_be. Qed.
Lemma u64_be_of_be l : length l = 8%nat → u64_be (of_be l) = l.
Proof. intros H. unfold u64_be. rewrite <- H. apply be_bytes_of_be. Qed.
Lemma u16_be_of_be l : length l = 2%nat → u16_be (of_be l) = l.
Proof. intros H. unfold u16_be. rewrite <- H. apply be_bytes_of_be. Qed.

(** ** Slices *)

Lemma blen_btake n l : n ≤ blen l → blen (btake n l) = n.
Proof. unfold blen, btake. rewrite length_take. lia. Qed.
Lemma blen_bdrop n l : blen (bdrop n l) = blen l - n.
Proof. unfold blen, bdrop. rewrite length_drop. lia. Qed.
Lemma btake_bdrop n l : btake n l ++ bdrop n l = l.
Proof. apply take_drop. Qed.
Lemma btake_app l1 l2 : btake (blen l1) (l1 ++ l2) = l1.
Proof. unfold btake, blen. by rewrite Nat2N.id, take_app_length. Qed.
Lemma bdrop_app l1 l2 : bdrop (blen l1) (l1 ++ l2) = l2.
Proof. unfold bdrop, blen. by rewrite Nat2N.id, drop_app_length. Qed.

Lemma slice_ok l a b : a ≤ b → b ≤ blen l → slice l a b = Returned (btake (b - a) (bdrop a l)).
Proof.
  intros H1 H2. unfold slice. apply N.leb_le in H1, H2. by rewrite H1, H2.
Qed.

(** A slice in the middle of a concatenation. *)
Lemma slice_app l1 l2 l3 a b :
  a = blen l1 → b = blen l1 + blen l2 → slice (l1 ++ l2 ++ l3) a b = Returned l2.
Proof.
  intros -> ->. rewrite slice_ok by (rewrite ?blen_app; lia).
  rewrite bdrop_app. replace (blen l1 + blen l2 - blen l1) with (blen l2) by lia.
  by rewrite btake_app.
Qed.

Lemma slice_from_app l1 l2 a : a = blen l1 → slice_from (l1 ++ l2) a = Returned l2.
Proof.
  intros ->. unfold slice_from. rewrite <- (app_nil_r l2) at 1.
  apply slice_app; [done|]. by rewrite blen_app.
Qed.

Lemma slice_from_ok l a : a ≤ blen l → slice_from l a = Returned (bdrop a l).
Proof.
  intros H. unfold slice_from. rewrite slice_ok by lia. f_equal.
  unfold btake, bdrop, blen in *. rewrite take_ge; [done|]. rewrite length_drop. lia.
Qed.

(** ** Indexing *)

Lemma index_ok l i : i < blen l → ∃ b, index l i = Returned b ∧ l !! N.to_nat i = Some b.
Proof.
  intros H. unfold index. destruct (l !! N.to_nat i) as [b|] eqn:E; [eauto|].
  apply lookup_ge_None in E. unfold blen in H. lia.
Qed.

Lemma index_nth_ok l (i : N) j b : l !! j = Some b → j = N.to_nat i → index l i = Returned b.
Proof. intros H ->. unfold index. by rewrite H. Qed.

(** The four bytes at [i] of a string that has them, wherever they came from. *)
Lemma index_app_add l1 l2 d : index (l1 ++ l2) (blen l1 + d) = index l2 d.
Proof.
  unfold index, blen. rewrite N2Nat.inj_add, Nat2N.id.
  rewrite lookup_app_r by lia. do 2 f_equal. lia.
Qed.
Lemma index_app_0 l1 l2 : index (l1 ++ l2) (blen l1) = index l2 0.
Proof. rewrite <- (N.add_0_r (blen l1)). apply index_app_add. Qed.

Lemma u32_at_app l1 l2 l3 i :
  i = blen l1 → length l2 = 4%nat → u32_at (l1 ++ l2 ++ l3) i = Returned (of_be l2).
Proof.
  intros -> H. destruct l2 as [|b0 [|b1 [|b2 [|b3 [|]]]]]; try done. unfold u32_at.
  by rewrite index_app_0, !index_app_add.
Qed.
Lemma u64_at_app l1 l2 l3 i :
  i = blen l1 → length l2 = 8%nat → u64_at (l1 ++ l2 ++ l3) i = Returned (of_be l2).
Proof.
  intros -> H. destruct l2 as [|b0 [|b1 [|b2 [|b3 [|b4 [|b5 [|b6 [|b7 [|]]]]]]]]]; try done.
  unfold u64_at. by rewrite index_app_0, !index_app_add.
Qed.

(** Reading inside the string: the value is that of the bytes there. *)
Lemma split_at (l : bytes) (i w : N) :
  i + w ≤ blen l →
  ∃ l1 l2 l3, l = l1 ++ l2 ++ l3 ∧ blen l1 = i ∧ blen l2 = w ∧ l2 = btake w (bdrop i l).
Proof.
  intros H. exists (btake i l), (btake w (bdrop i l)), (bdrop w (bdrop i l)).
  rewrite !btake_bdrop, !blen_btake by (rewrite ?blen_bdrop; lia). done.
Qed.

Lemma u32_at_ok l i :
  i + 4 ≤ blen l → u32_at l i = Returned (of_be (btake 4 (bdrop i l))).
Proof.
  intros H. destruct (split_at l i 4 H) as (l1 & l2 & l3 & -> & <- & H2 & <-).
  apply u32_at_app; [done|]. unfold blen in H2. lia.
Qed.
Lemma u64_at_ok l i :
  i + 8 ≤ blen l → u64_at l i = Returned (of_be (btake 8 (bdrop i l))).
Proof.
  intros H. destruct (split_at l i 8 H) as (l1 & l2 & l3 & -> & <- & H2 & <-).
  apply u64_at_app; [done|]. unfold blen in H2. lia.
Qed.

Lemma u32_at_bound l i n : u32_at l i = Returned n → n < 2 ^ 32.
Proof.
  unfold u32_at, mbind, Outcome_bind. repeat case_match; try done. intros [= <-].
  apply (of_be_bound [_; _; _; _]).
Qed.
Lemma u64_at_bound l i n : u64_at l i = Returned n → n < 2 ^ 64.
Proof.
  unfold u64_at, mbind, Outcome_bind. repeat case_match; try done. intros [= <-].
  apply (of_be_bound [_; _; _; _; _; _; _; _]).
Qed.

(** ** The order *)

#[global] Instance bytes_le_dec : RelDecision bytes_le.
Proof. intros x y. unfold bytes_le. apply _. Defined.

#[global] Instance bytes_le_total_order : TotalOrder bytes_le.
Proof.
  unfold bytes_le. repeat split.
  - intros x. induction x as [|a x IH]; [done|]. simpl. by rewrite N.eqb_refl.
  - intros x. induction x as [|a x IH]; intros [|b y] [|c z]; try done. simpl.
    destruct (N.eqb_spec (byte_val a) (byte_val b)) as [E1|E1],
      (N.eqb_spec (byte_val b) (byte_val c)) as [E2|E2],
      (N.eqb_spec (byte_val a) (byte_val c)) as [E3|E3];
      rewrite ?N.ltb_lt; try lia; [apply IH].
  - intros x. induction x as [|a x IH]; intros [|b y]; try done. simpl.
    destruct (N.eqb_spec (byte_val a) (byte_val b)) as [E|E];
      rewrite (N.eqb_sym (byte_val b)).
    + rewrite E, N.eqb_refl. intros H1 H2. apply byte_val_inj in E. f_equal; [done|by apply IH].
    + apply N.eqb_neq in E. rewrite E. intros H1%N.ltb_lt H2%N.ltb_lt. lia.
  - intros x. induction x as [|a x IH]; intros [|b y]; [by right; left|by left; split|by right; right; split|].
    unfold strict. simpl. rewrite (N.eqb_sym (byte_val b)).
    destruct (N.eqb_spec (byte_val a) (byte_val b)) as [E|E].
    + destruct (IH y) as [H1|[->|H1]]; [by left| |by right; right].
      apply byte_val_inj in E as ->. right; by left.
    + destruct (N.ltb_spec (byte_val a) (byte_val b)).
      * left. split; [done|]. by intros ?%N.ltb_lt%N.lt_asymm.
      * right; right. split; [apply N.ltb_lt; lia|]. done.
Qed.

Lemma starts_with_app l prefix : starts_with l prefix = true ↔ ∃ rest, l = prefix ++ rest.
Proof.
  revert l. induction prefix as [|p ps IH]; intros l; simpl; [by split; eauto|].
  destruct l as [|x xs]; simpl; [split; [done|by intros [? ?]]|].
  rewrite andb_true_iff, bool_decide_eq_true, IH.
  split; [intros [-> [r ->]]; eauto|intros [r [= -> ->]]; eauto].
Qed.

Lemma starts_with_prefix_of l prefix : starts_with l prefix = true ↔ prefix `prefix_of` l.
Proof. apply starts_with_app. Qed.

Lemma starts_with_nil l : starts_with l [] = true.
Proof. by destruct l. Qed.

Lemma strip_prefix_app prefix rest : strip_prefix (prefix ++ rest) prefix = Some rest.
Proof.
  unfold strip_prefix. replace (starts_with (prefix ++ rest) prefix) with true.
  - by rewrite drop_app_length.
  - symmetry. apply starts_with_app. eauto.
Qed.

Lemma strip_prefix_Some l prefix rest :
  strip_prefix l prefix = Some rest ↔ l = prefix ++ rest.
Proof.
  split; [|intros ->; apply strip_prefix_app].
  unfold strip_prefix. destruct (starts_with l prefix) eqn:E; [|done].
  apply starts_with_app in E as [r ->]. rewrite drop_app_length. by intros [= <-].
Qed.

Lemma bytes_le_prefix prefix rest : bytes_le prefix (prefix ++ rest).
Proof.
  unfold bytes_le. induction prefix as [|a p IH]; simpl; [done|]. by rewrite N.eqb_refl.
Qed.

(** The keys that start with a prefix are an interval of the order: what lies
    between the prefix and one of them starts with the prefix too. *)
Lemma starts_with_convex prefix x y :
  bytes_le prefix x → bytes_le x y → starts_with y prefix = true → starts_with x prefix = true.
Proof.
  unfold bytes_le. revert x y. induction prefix as [|p ps IH]; intros x y; [by rewrite starts_with_nil|].
  destruct x as [|a x]; [done|]. destruct y as [|b y]; [done|]. simpl.
  rewrite !andb_true_iff, !bool_decide_eq_true. intros H1 H2 [-> H3].
  destruct (N.eqb_spec (byte_val p) (byte_val a)) as [E|E].
  - rewrite <- E, N.eqb_refl in H2. apply byte_val_inj in E as ->. eauto.
  - apply N.ltb_lt in H1. destruct (N.eqb_spec (byte_val a) (byte_val p)); [congruence|].
    apply N.ltb_lt in H2. lia.
Qed.

Lemma find_byte_Some c l n :
  find_byte c l = Some n → btake n l ++ c :: bdrop (n + 1) l = l ∧ c ∉ btake n l ∧ n < blen l.
Proof.
  unfold btake, bdrop. revert n. induction l as [|x l IH]; intros n; simpl; [done|].
  case_bool_decide as E; [intros [= <-]; subst; cbn; repeat split; try set_solver; rewrite blen_cons; lia|].
  destruct (find_byte c l) as [m|] eqn:F; [|done]. intros [= <-].
  destruct (IH m eq_refl) as (H1 & H2 & H3).
  replace (N.to_nat (N.succ m)) with (S (N.to_nat m)) by lia.
  replace (N.to_nat (N.succ m + 1)) with (S (N.to_nat (m + 1))) by lia. simpl.
  rewrite H1, blen_cons. split_and!; [done| |lia]. set_solver.
Qed.

Lemma find_byte_None c l : find_byte c l = None ↔ c ∉ l.
Proof.
  induction l as [|x l IH]; simpl; [set_solver|].
  case_bool_decide; [set_solver|]. rewrite fmap_None, IH. set_solver.
Qed.

Lemma find_byte_app c l1 l2 : c ∉ l1 → find_byte c (l1 ++ c :: l2) = Some (blen l1).
Proof.
  intros H. induction l1 as [|x l1 IH]; simpl.
  - by rewrite bool_decide_eq_true_2.
  - rewrite bool_decide_eq_false_2 by set_solver. rewrite IH by set_solver.
    rewrite blen_cons. cbn. f_equal. lia.
Qed.
