(* ===== verification/Text.v ===== *)
(** UTF-8 text as the sources use it: [String::from_utf8_lossy] and the string
    operations of the query and the file formats.  A [&str] is its bytes.
    Everything here models the Rust standard library. *)
From stdpp Require Import prelude gmap sorting strings.
From Stdlib Require Import NArith Lia.
From S2P Require Import Prelude.
From S2P Require Import Bytes.

(** U+FFFD. *)
Definition replacement : bytes := [Byte.xef; Byte.xbf; Byte.xbd].

(** The bytes allowed after the lead byte of a three- or four-byte sequence. *)
Definition second_of_three (b0 b1 : byte) : bool :=
  if byte_val b0 =? 0xE0 then in_range 0xA0 0xBF b1
  else if byte_val b0 =? 0xED then in_range 0x80 0x9F b1
  else continuation b1.
Definition second_of_four (b0 b1 : byte) : bool :=
  if byte_val b0 =? 0xF0 then in_range 0x90 0xBF b1
  else if byte_val b0 =? 0xF4 then in_range 0x80 0x8F b1
  else continuation b1.

(** [String::from_utf8_lossy(l)]: every maximal part of an ill-formed sequence
    becomes one replacement character. *)
Fixpoint from_utf8_lossy (l : bytes) : bytes :=
  match l with
  | [] => []
  | b0 :: l1 =>
      if byte_val b0 <? 0x80 then b0 :: from_utf8_lossy l1
      else if in_range 0xC2 0xDF b0 then
        match l1 with
        | b1 :: l2 =>
            if continuation b1 then b0 :: b1 :: from_utf8_lossy l2
            else replacement ++ from_utf8_lossy l1
        | [] => replacement
        end
      else if in_range 0xE0 0xEF b0 then
        match l1 with
        | b1 :: l2 =>
            if second_of_three b0 b1 then
              match l2 with
              | b2 :: l3 =>
                  if continuation b2 then b0 :: b1 :: b2 :: from_utf8_lossy l3
                  else replacement ++ from_utf8_lossy l2
              | [] => replacement
              end
            else replacement ++ from_utf8_lossy l1
        | [] => replacement
        end
      else if in_range 0xF0 0xF4 b0 then
        match l1 with
        | b1 :: l2 =>
            if second_of_four b0 b1 then
              match l2 with
              | b2 :: l3 =>
                  if continuation b2 then
                    match l3 with
                    | b3 :: l4 =>
                        if continuation b3 then b0 :: b1 :: b2 :: b3 :: from_utf8_lossy l4
                        else replacement ++ from_utf8_lossy l3
                    | [] => replacement
                    end
                  else replacement ++ from_utf8_lossy l2
              | [] => replacement
              end
            else replacement ++ from_utf8_lossy l1
        | [] => replacement
        end
      else replacement ++ from_utf8_lossy l1
  end.

(** [s.replace(chars, "")], for characters of one byte. *)
Definition remove_bytes (chars s : bytes) : bytes := filter (λ b, b ∉ chars) s.

(** [parts.join(sep)]. *)
Fixpoint join (sep : bytes) (parts : list bytes) : bytes :=
  match parts with
  | [] => []
  | [p] => p
  | p :: parts' => p ++ sep ++ join sep parts'
  end.

(** A line feed. *)
Definition newline : bytes := [Byte.x0a].

(** [s.strip_suffix(suffix)]. *)
Definition strip_suffix (s suffix : bytes) : option bytes :=
  reverse <$> strip_prefix (reverse s) (reverse suffix).

(** [s.to_lowercase() == "key"]: three characters, of which the first may also
    be the Kelvin sign, the only other one whose lower case is ASCII [k]. *)
Definition lowercase_is_key (s : bytes) : bool :=
  bool_decide (s ∈ (k ← [[Byte.x6b]; [Byte.x4b]; [Byte.xe2; Byte.x84; Byte.xaa]];
                    e ← [[Byte.x65]; [Byte.x45]];
                    y ← [[Byte.x79]; [Byte.x59]];
                    [k ++ e ++ y])).

(** The characters of [char::is_whitespace], as UTF-8. *)
Definition whitespace_chars : list bytes :=
  [[Byte.x09]; [Byte.x0a]; [Byte.x0b]; [Byte.x0c]; [Byte.x0d]; [Byte.x20];
   [Byte.xc2; Byte.x85]; [Byte.xc2; Byte.xa0]; [Byte.xe1; Byte.x9a; Byte.x80]] ++
  ((λ b, [Byte.xe2; Byte.x80; b]) <$>
     [Byte.x80; Byte.x81; Byte.x82; Byte.x83; Byte.x84; Byte.x85; Byte.x86; Byte.x87; Byte.x88; Byte.x89; Byte.x8a;
      Byte.xa8; Byte.xa9; Byte.xaf]) ++
  [[Byte.xe2; Byte.x81; Byte.x9f]; [Byte.xe3; Byte.x80; Byte.x80]].

(** The length of the whitespace character a string starts with; zero if it
    starts with another one. *)
Definition whitespace_prefix (s : bytes) : nat :=
  match list_find (λ c, starts_with s c = true) whitespace_chars with
  | Some (_, c) => length c
  | None => 0
  end.

(** [s.split_whitespace()]: [skip] bytes of a whitespace character are left, and
    [word] is what has been read of the current word. *)
Fixpoint split_words (skip : nat) (word s : bytes) : list bytes :=
  let flush := match word with [] => [] | _ => [word] end in
  match s with
  | [] => flush
  | b :: s' =>
      match skip with
      | S skip' => split_words skip' word s'
      | O =>
          match whitespace_prefix s with
          | O => split_words 0 (word ++ [b]) s'
          | S rest => flush ++ split_words rest [] s'
          end
      end
  end.
Definition split_whitespace (s : bytes) : list bytes := split_words 0 [] s.

(** [n.to_string()] for an unsigned integer. *)
Fixpoint decimal_digits (fuel : nat) (n : N) : bytes :=
  match fuel with
  | O => []
  | S fuel' => (if n <? 10 then [] else decimal_digits fuel' (n / 10)) ++ [as_u8 (0x30 + n mod 10)]
  end.
Definition decimal (n : N) : bytes := decimal_digits (S (N.to_nat (N.log2 n))) n.

(** [s.parse::<u32>()]. *)
Definition digit (b : byte) : option N :=
  if in_range 0x30 0x39 b then Some (byte_val b - 0x30) else None.
Definition digits_value (digits : bytes) : option N :=
  foldl (λ acc b, value ← acc; d ← digit b; Some (value * 10 + d)) (Some 0) digits.
Definition parse_u32 (text : bytes) : option N :=
  let digits := match text with Byte.x2b :: rest => rest | _ => text end in
  if bool_decide (digits = []) then None
  else
    value ← digits_value digits;
    if value <? 2 ^ 32 then Some value else None.

(** [s.split(c)], for a character of one byte: always one part or more. *)
Fixpoint split_on (c : byte) (s : bytes) : list bytes :=
  match s with
  | [] => [[]]
  | b :: s' =>
      if bool_decide (b = c) then [] :: split_on c s'
      else match split_on c s' with
           | [] => [[b]]
           | part :: parts => (b :: part) :: parts
           end
  end.

(** [s.lines()]: what line feeds end, without a carriage return before it, and
    what is left behind the last one, if anything. *)
Definition strip_cr (line : bytes) : bytes := default line (strip_suffix line [Byte.x0d]).
Definition lines (s : bytes) : list bytes :=
  let parts := split_on Byte.x0a s in
  (strip_cr <$> take (length parts - 1) parts) ++
  match last parts with Some (b :: rest) => [b :: rest] | _ => [] end.

(** [s.replace(c, r)] and [s.replacen(c, r, 1)], for a character of one byte. *)
Definition replace_byte (c : byte) (r s : bytes) : bytes := b ← s; if bool_decide (b = c) then r else [b].
Definition replace_first (c : byte) (r s : bytes) : bytes :=
  match find_byte c s with
  | Some i => btake i s ++ r ++ bdrop (i + 1) s
  | None => s
  end.

(** [s.trim_start()], [s.trim_end()] and [s.trim()]. *)
Fixpoint trim_start_loop (fuel : nat) (s : bytes) : bytes :=
  match fuel with
  | O => s
  | S fuel' => match whitespace_prefix s with O => s | n => trim_start_loop fuel' (drop n s) end
  end.
Definition trim_start (s : bytes) : bytes := trim_start_loop (length s) s.
Fixpoint trim_end_loop (fuel : nat) (s : bytes) : bytes :=
  match fuel with
  | O => s
  | S fuel' =>
      match head (omap (strip_suffix s) whitespace_chars) with
      | Some s' => trim_end_loop fuel' s'
      | None => s
      end
  end.
Definition trim_end (s : bytes) : bytes := trim_end_loop (length s) s.
Definition trim (s : bytes) : bytes := trim_end (trim_start s).

(** [s.chars()]: a character is a byte and the continuation bytes behind it. *)
Fixpoint chars (s : bytes) : list bytes :=
  match s with
  | [] => []
  | b :: s' =>
      match chars s' with
      | (b' :: c) :: cs => if continuation b' then (b :: b' :: c) :: cs else [b] :: (b' :: c) :: cs
      | cs => [b] :: cs
      end
  end.

(** [format!("{s:<width$}")]: the width counts characters. *)
Definition pad_right (width : nat) (s : bytes) : bytes := s ++ replicate (width - length (chars s)) Byte.x20.

(** [char::is_alphanumeric]: the tables of Unicode, beyond ASCII, are a parameter. *)
Class UnicodeTables : Type := { unicode_alphanumeric : bytes → bool }.
Definition is_alphanumeric `{UnicodeTables} (c : bytes) : bool :=
  match c with
  | [b] => in_range 0x30 0x39 b || in_range 0x41 0x5a b || in_range 0x61 0x7a b
  | _ => unicode_alphanumeric c
  end.

(** [s.to_lowercase()], as far as a comparison with ASCII text without the letter k
    can see it: no character but the ASCII capitals becomes one of those. *)
Definition ascii_lowercase (s : bytes) : bytes :=
  (λ b, if in_range 0x41 0x5a b then as_u8 (byte_val b + 0x20) else b) <$> s.

(** [s.to_uppercase()], as far as a comparison with ASCII text can see it: the
    ASCII letters, and the other characters whose upper case begins with ASCII. *)
Definition upper_char (c : bytes) : bytes :=
  match c with
  | [b] => if in_range 0x61 0x7a b then [as_u8 (byte_val b - 0x20)] else [b]
  | [Byte.xc4; Byte.xb1] => bs "I"
  | [Byte.xc5; Byte.xbf] => bs "S"
  | [Byte.xc3; Byte.x9f] => bs "SS"
  | [Byte.xc7; Byte.xb0] => bs "J" ++ [Byte.xcc; Byte.x8c]
  | [Byte.xe1; Byte.xba; Byte.x96] => bs "H" ++ [Byte.xcc; Byte.xb1]
  | [Byte.xe1; Byte.xba; Byte.x97] => bs "T" ++ [Byte.xcc; Byte.x88]
  | [Byte.xe1; Byte.xba; Byte.x98] => bs "W" ++ [Byte.xcc; Byte.x8a]
  | [Byte.xe1; Byte.xba; Byte.x99] => bs "Y" ++ [Byte.xcc; Byte.x8a]
  | [Byte.xe1; Byte.xba; Byte.x9a] => bs "A" ++ [Byte.xca; Byte.xbe]
  | [Byte.xef; Byte.xac; Byte.x80] => bs "FF"
  | [Byte.xef; Byte.xac; Byte.x81] => bs "FI"
  | [Byte.xef; Byte.xac; Byte.x82] => bs "FL"
  | [Byte.xef; Byte.xac; Byte.x83] => bs "FFI"
  | [Byte.xef; Byte.xac; Byte.x84] => bs "FFL"
  | [Byte.xef; Byte.xac; Byte.x85] => bs "ST"
  | [Byte.xef; Byte.xac; Byte.x86] => bs "ST"
  | _ => c
  end.
Definition ascii_uppercase (s : bytes) : bytes := chars s ≫= upper_char.

(** [s.parse::<u64>()]. *)
Definition parse_u64 (text : bytes) : option N :=
  let digits := match text with Byte.x2b :: rest => rest | _ => text end in
  if bool_decide (digits = []) then None
  else
    value ← digits_value digits;
    if value <? 2 ^ 64 then Some value else None.

(** * Lemmas *)

(** Induction along the reading of a well-formed string. *)
Lemma from_utf8_lossy_valid l : utf8_valid l = true → from_utf8_lossy l = l.
Proof.
  induction l as [l IH] using (induction_ltof1 _ length); unfold ltof in IH.
  destruct l as [|b0 l1]; [done|]. simpl. unfold second_of_three, second_of_four.
  repeat case_match; simpl; rewrite ?andb_true_iff in *; try done;
    intros Hv; destruct_and?; simplify_eq; simpl in *; rewrite ?andb_true_iff in *; destruct_and?;
    try done; repeat f_equal; (apply IH; [simpl; lia|done]).
Qed.

(** A well-formed start of a string is read for itself. *)
Lemma from_utf8_lossy_app p l : utf8_valid p = true → from_utf8_lossy (p ++ l) = p ++ from_utf8_lossy l.
Proof.
  induction p as [p IH] using (induction_ltof1 _ length); unfold ltof in IH.
  destruct p as [|b0 p1]; [done|]. simpl. unfold second_of_three, second_of_four.
  repeat case_match; simpl; rewrite ?andb_true_iff in *; try done;
    intros Hv; destruct_and?; simplify_eq/=; rewrite ?andb_true_iff in *; destruct_and?;
    try congruence; repeat f_equal; (apply IH; [simpl; lia|done]).
Qed.

(** The result is well-formed. *)
Lemma from_utf8_lossy_utf8 l : utf8_valid (from_utf8_lossy l) = true.
Proof.
  induction l as [l IH] using (induction_ltof1 _ length); unfold ltof in IH.
  destruct l as [|b0 l1]; [done|]. simpl. unfold second_of_three, second_of_four.
  repeat case_match; simplify_eq/=;
    repeat match goal with E : ?b = _ |- context [if ?b then _ else _] => rewrite E end;
    rewrite ?andb_true_iff; repeat split; try congruence; try first [apply IH; simpl; lia | apply (IH (_ :: _)); simpl; lia].
Qed.

Lemma strip_suffix_app rest suffix : strip_suffix (rest ++ suffix) suffix = Some rest.
Proof. unfold strip_suffix. rewrite reverse_app, strip_prefix_app. simpl. by rewrite reverse_involutive. Qed.

Lemma strip_suffix_Some s suffix rest : strip_suffix s suffix = Some rest ↔ s = rest ++ suffix.
Proof.
  split; [|intros ->; apply strip_suffix_app]. unfold strip_suffix.
  intros (r & Hr & ->)%fmap_Some. apply strip_prefix_Some in Hr.
  by rewrite <- (reverse_involutive s), Hr, reverse_app, !reverse_involutive.
Qed.

(** The digits of a number, read back, are the number. *)
Lemma digit_as_u8 d : d < 10 → digit (as_u8 (0x30 + d)) = Some d.
Proof.
  intros Hd. unfold digit, in_range. rewrite byte_val_as_u8, N.mod_small by lia.
  rewrite (proj2 (N.leb_le _ _)), (proj2 (N.leb_le _ _)) by lia. cbn. f_equal. lia.
Qed.

Lemma decimal_digits_value fuel n : n < 10 ^ N.of_nat fuel → (0 < fuel)%nat →
  digits_value (decimal_digits fuel n) = Some n.
Proof.
  revert n. induction fuel as [|fuel IH]; intros n Hn Hf; [lia|]. cbn [decimal_digits].
  unfold digits_value in *. rewrite foldl_app. cbn [foldl].
  pose proof (N.mod_lt n 10 ltac:(done)). rewrite digit_as_u8 by done.
  destruct (N.ltb_spec n 10) as [Hlt|Hge].
  - cbn. by rewrite N.mod_small.
  - rewrite IH.
    + cbn. f_equal. pose proof (N.div_mod n 10 ltac:(done)). lia.
    + apply N.Div0.div_lt_upper_bound. by rewrite <- N.pow_succ_r', <- Nat2N.inj_succ.
    + destruct fuel; [|lia]. cbn in Hn. lia.
Qed.

Lemma decimal_value n : digits_value (decimal n) = Some n.
Proof.
  apply decimal_digits_value; [|lia]. rewrite Nat2N.inj_succ, N2Nat.id.
  destruct (N.eq_dec n 0) as [->|Hn]; [done|].
  eapply N.lt_le_trans; [apply N.log2_spec; lia|]. apply N.pow_le_mono_l. lia.
Qed.

Lemma decimal_last n : ∃ init d, decimal n = init ++ [as_u8 (0x30 + d)] ∧ d < 10.
Proof. unfold decimal. cbn [decimal_digits]. eexists _, (n mod 10). split; [done|]. by apply N.mod_lt. Qed.

Lemma decimal_head n : ∃ d rest, decimal n = as_u8 (0x30 + d) :: rest ∧ d < 10.
Proof.
  unfold decimal. generalize (N.to_nat (N.log2 n)) as fuel. intros fuel. revert n.
  induction fuel as [|fuel IH]; intros n; cbn [decimal_digits].
  - exists (n mod 10). case_match; (eexists; split; [done|by apply N.mod_lt]).
  - destruct (n <? 10); [exists (n mod 10); eexists; split; [done|by apply N.mod_lt]|].
    destruct (IH (n / 10)) as (d & rest & Hd & Hlt). cbn [decimal_digits] in Hd. rewrite Hd. by exists d; eexists.
Qed.

(** [n.to_string().parse::<u32>()]. *)
Lemma parse_u32_decimal n : n < 2 ^ 32 → parse_u32 (decimal n) = Some n.
Proof.
  intros Hn. unfold parse_u32. destruct (decimal_head n) as (d & rest & Hd & Hlt).
  assert (match decimal n with Byte.x2b :: rest => rest | _ => decimal n end = decimal n) as ->.
  { rewrite Hd. assert (as_u8 (0x30 + d) ≠ Byte.x2b) as Hne.
    { intros E. apply (f_equal byte_val) in E. rewrite byte_val_as_u8, N.mod_small in E by lia. cbn in E. lia. }
    by destruct (as_u8 (0x30 + d)). }
  rewrite bool_decide_eq_false_2 by (by rewrite Hd). rewrite decimal_value. cbn.
  by rewrite (proj2 (N.ltb_lt _ _)).
Qed.

Lemma split_on_nonempty c s : split_on c s ≠ [].
Proof. destruct s as [|b s]; simpl; [done|]. case_bool_decide; [done|]. by destruct (split_on c s). Qed.

Lemma split_on_plain c s : c ∉ s → split_on c s = [s].
Proof.
  induction s as [|b s IH]; intros Hc; [done|]. simpl. rewrite bool_decide_eq_false_2 by set_solver.
  by rewrite IH by set_solver.
Qed.

Lemma split_on_app c part rest : c ∉ part → split_on c (part ++ c :: rest) = part :: split_on c rest.
Proof.
  induction part as [|b part IH]; intros Hc; simpl; [by rewrite bool_decide_eq_true_2|].
  rewrite bool_decide_eq_false_2 by set_solver. by rewrite IH by set_solver.
Qed.

(** Splitting undoes joining, for parts without the separator. *)
Lemma join_split_on c s : join [c] (split_on c s) = s.
Proof.
  induction s as [s IH] using (induction_ltof1 _ length); unfold ltof in IH.
  destruct (decide (c ∈ s)) as [(a & b & -> & Ha)%list_elem_of_split_l|Hn]; [|by rewrite split_on_plain].
  rewrite split_on_app by done.
  assert (join [c] (split_on c b) = b) as Hb by (apply IH; rewrite length_app; simpl; lia).
  destruct (split_on c b) as [|p parts] eqn:E; [by destruct (split_on_nonempty c b)|].
  change (join [c] (a :: p :: parts)) with (a ++ [c] ++ join [c] (p :: parts)). by rewrite Hb.
Qed.

Lemma split_on_join c parts :
  parts ≠ [] → Forall (λ p, c ∉ p) parts → split_on c (join [c] parts) = parts.
Proof.
  intros Hne Hall. induction Hall as [|p parts Hp Hall IH]; [done|].
  destruct parts as [|q parts]; [by apply split_on_plain|].
  change (join [c] (p :: q :: parts)) with (p ++ c :: join [c] (q :: parts)).
  by rewrite split_on_app, IH.
Qed.

Lemma lines_cons line rest : Byte.x0a ∉ line → lines (line ++ Byte.x0a :: rest) = strip_cr line :: lines rest.
Proof.
  intros Hl. unfold lines. rewrite split_on_app by done.
  destruct (split_on Byte.x0a rest) as [|p ps] eqn:E; [by destruct (split_on_nonempty Byte.x0a rest)|].
  replace (length (line :: p :: ps) - 1)%nat with (Datatypes.S (length (p :: ps) - 1)) by (simpl; lia).
  by rewrite last_cons_cons.
Qed.

(** The lines of text each of whose lines is ended. *)
Lemma lines_ended (ls : list bytes) :
  Forall (λ l, Byte.x0a ∉ l) ls → lines (mjoin ((λ l, l ++ [Byte.x0a]) <$> ls)) = strip_cr <$> ls.
Proof.
  intros Hall. induction Hall as [|l ls Hl Hall IH]; [done|]. csimpl. rewrite <- app_assoc.
  change ([Byte.x0a] ++ ?r) with (Byte.x0a :: r). by rewrite lines_cons, IH.
Qed.

Lemma strip_cr_plain line : last line ≠ Some Byte.x0d → strip_cr line = line.
Proof.
  intros Hl. unfold strip_cr. destruct (strip_suffix line [Byte.x0d]) as [rest|] eqn:E; [|done].
  apply strip_suffix_Some in E as ->. by rewrite last_snoc in Hl.
Qed.

Lemma replace_byte_plain c r s : c ∉ s → replace_byte c r s = s.
Proof.
  intros Hc. unfold replace_byte. induction s as [|b s IH]; [done|]. csimpl.
  rewrite bool_decide_eq_false_2 by set_solver. by rewrite IH by set_solver.
Qed.

Lemma replace_byte_app c r s1 s2 : replace_byte c r (s1 ++ s2) = replace_byte c r s1 ++ replace_byte c r s2.
Proof. apply bind_app. Qed.

Lemma replace_first_app c r s1 s2 : c ∉ s1 → replace_first c r (s1 ++ c :: s2) = s1 ++ r ++ s2.
Proof.
  intros Hc. unfold replace_first. rewrite find_byte_app by done. rewrite btake_app. do 2 f_equal.
  replace (s1 ++ c :: s2) with ((s1 ++ [c]) ++ s2) by (by rewrite <- app_assoc).
  replace (blen s1 + 1) with (blen (s1 ++ [c])) by (by rewrite blen_app). apply bdrop_app.
Qed.

Lemma replace_first_plain c r s : c ∉ s → replace_first c r s = s.
Proof. intros Hc. unfold replace_first. by rewrite (proj2 (find_byte_None c s) Hc). Qed.

(** A character of UTF-8 text starts at an index behind well-formed text. *)
Lemma utf8_head b s : utf8_valid (b :: s) = true → continuation b = false.
Proof.
  cbn [utf8_valid]. unfold continuation, in_range. intros Hv. destruct (byte_val b <? 0x80) eqn:E1.
  - apply N.ltb_lt in E1. apply andb_false_iff. left. apply N.leb_gt. lia.
  - destruct ((0xC2 <=? byte_val b) && (byte_val b <=? 0xDF)) eqn:E2.
    { apply andb_true_iff in E2 as [E2 _]. apply N.leb_le in E2. apply andb_false_iff. right. apply N.leb_gt. lia. }
    destruct ((0xE0 <=? byte_val b) && (byte_val b <=? 0xEF)) eqn:E3.
    { apply andb_true_iff in E3 as [E3 _]. apply N.leb_le in E3. apply andb_false_iff. right. apply N.leb_gt. lia. }
    destruct ((0xF0 <=? byte_val b) && (byte_val b <=? 0xF4)) eqn:E4; [|done].
    apply andb_true_iff in E4 as [E4 _]. apply N.leb_le in E4. apply andb_false_iff. right. apply N.leb_gt. lia.
Qed.

Lemma utf8_valid_app p l : utf8_valid p = true → utf8_valid (p ++ l) = utf8_valid l.
Proof.
  induction p as [p IH] using (induction_ltof1 _ length); unfold ltof in IH.
  destruct p as [|b0 p1]; [done|]. simpl.
  repeat case_match; simpl; rewrite ?andb_true_iff in *; try done;
    intros Hv; destruct_and?; simplify_eq/=; rewrite ?andb_true_iff in *; destruct_and?;
    repeat match goal with E : ?b = true |- context [?b] => rewrite E end; try congruence; cbn [andb];
    (apply IH; [simpl; lia|done]).
Qed.

(** Text ends before each of its ASCII characters. *)
Lemma utf8_valid_split p c s : byte_val c < 0x80 → utf8_valid (p ++ c :: s) = true →
  utf8_valid p = true ∧ utf8_valid (c :: s) = true.
Proof.
  intros Hc. assert (∀ lo hi, 0x80 ≤ lo → in_range lo hi c = false) as Hr.
  { intros lo hi Hlo. unfold in_range. apply andb_false_iff. left. apply N.leb_gt. lia. }
  assert (continuation c = false) as Hcont by (by apply Hr).
  assert (∀ b0, second_of_three b0 c = false) as H3 by (intros b0; unfold second_of_three; repeat case_match; by apply Hr).
  assert (∀ b0, second_of_four b0 c = false) as H4 by (intros b0; unfold second_of_four; repeat case_match; by apply Hr).
  induction p as [p IH] using (induction_ltof1 _ length); unfold ltof in IH.
  destruct p as [|b0 p1]; [done|]. cbn [app utf8_valid].
  destruct (byte_val b0 <? 0x80); [apply IH; simpl; lia|].
  destruct (in_range 0xC2 0xDF b0).
  { destruct p1 as [|b1 p2]; cbn [app]; rewrite ?Hcont; [done|].
    intros [-> Hv]%andb_true_iff. apply IH; [simpl; lia|done]. }
  destruct (in_range 0xE0 0xEF b0).
  { destruct p1 as [|b1 [|b2 p3]]; cbn [app].
    - destruct s as [|b2 s]; [done|]. fold (second_of_three b0 c). by rewrite H3.
    - by rewrite Hcont, andb_false_r.
    - intros [Hb Hv]%andb_true_iff. rewrite Hb. apply IH; [simpl; lia|done]. }
  destruct (in_range 0xF0 0xF4 b0); [|done].
  destruct p1 as [|b1 [|b2 [|b3 p4]]]; cbn [app].
  - destruct s as [|b2 [|b3 s]]; [done..|]. fold (second_of_four b0 c). by rewrite H4.
  - destruct s as [|b3 s]; [done|]. by rewrite Hcont, andb_false_r.
  - by rewrite Hcont, andb_false_r.
  - intros [Hb Hv]%andb_true_iff. rewrite Hb. apply IH; [simpl; lia|done].
Qed.

Lemma utf8_valid_join sep parts :
  utf8_valid sep = true → Forall (λ p, utf8_valid p = true) parts → utf8_valid (join sep parts) = true.
Proof.
  intros Hsep Hall. induction Hall as [|p [|q parts] Hp Hall IH]; [done..|].
  change (join sep (p :: q :: parts)) with (p ++ sep ++ join sep (q :: parts)). by rewrite !utf8_valid_app.
Qed.

Lemma elem_of_join b sep parts : b ∈ join sep parts → b ∈ sep ∨ ∃ p, p ∈ parts ∧ b ∈ p.
Proof.
  induction parts as [|p [|q parts] IH]; intros Hb; [by apply elem_of_nil in Hb|right; exists p; by split; [left|]|].
  change (join sep (p :: q :: parts)) with (p ++ sep ++ join sep (q :: parts)) in Hb.
  rewrite !elem_of_app in Hb. destruct Hb as [Hb|[Hb|Hb]]; [right; exists p; by split; [left|]|by left|].
  destruct (IH Hb) as [|(p' & ? & ?)]; [by left|]. right. exists p'. by split; [right|].
Qed.

(** Replacing one ASCII character by another leaves text well-formed. *)
Lemma utf8_valid_replace c r s : byte_val c < 0x80 → byte_val r < 0x80 →
  utf8_valid s = true → utf8_valid (replace_byte c [r] s) = true.
Proof.
  intros Hc Hr. unfold replace_byte. apply N.ltb_lt in Hr.
  assert (∀ b, (byte_val b <? 0x80) = false → bool_decide (b = c) = false) as Hne.
  { intros b Hb. apply bool_decide_eq_false. intros ->. apply N.ltb_ge in Hb. lia. }
  assert (∀ b, in_range 0xA0 0xBF b = true ∨ in_range 0x80 0x9F b = true ∨ in_range 0x90 0xBF b = true ∨
    in_range 0x80 0x8F b = true ∨ continuation b = true → bool_decide (b = c) = false) as Hcont.
  { intros b Hb. apply Hne. unfold continuation, in_range in Hb. rewrite !andb_true_iff, !N.leb_le in Hb.
    apply N.ltb_ge. lia. }
  induction s as [s IH] using (induction_ltof1 _ length); unfold ltof in IH.
  destruct s as [|b0 s1]; [done|]. csimpl. destruct (byte_val b0 <? 0x80) eqn:E0.
  - destruct (bool_decide (b0 = c)); cbn [app utf8_valid]; rewrite ?Hr, ?E0; apply IH; simpl; lia.
  - rewrite (Hne b0) by done. cbn [utf8_valid app]. rewrite E0.
    destruct (in_range 0xC2 0xDF b0).
    { destruct s1 as [|b1 s2]; [done|]. intros [H1 Hv]%andb_true_iff. csimpl. rewrite (Hcont b1) by tauto. cbn [app].
      rewrite H1. apply IH; [simpl; lia|done]. }
    destruct (in_range 0xE0 0xEF b0).
    { destruct s1 as [|b1 [|b2 s3]]; [done..|]. intros [[H1 H2]%andb_true_iff Hv]%andb_true_iff. csimpl.
      rewrite (Hcont b1), (Hcont b2) by (repeat case_match; tauto). cbn [app]. rewrite H1, H2. apply IH; [simpl; lia|done]. }
    destruct (in_range 0xF0 0xF4 b0); [|done].
    destruct s1 as [|b1 [|b2 [|b3 s4]]]; [done..|]. intros [[[H1 H2]%andb_true_iff H3]%andb_true_iff Hv]%andb_true_iff. csimpl.
    rewrite (Hcont b1), (Hcont b2), (Hcont b3) by (repeat case_match; tauto). cbn [app]. rewrite H1, H2, H3.
    apply IH; [simpl; lia|done].
Qed.

Lemma elem_of_replace_byte b c r s : b ∈ replace_byte c [r] s → b = r ∨ (b ∈ s ∧ b ≠ c).
Proof.
  unfold replace_byte. intros (x & Hb & Hx)%list_elem_of_bind. case_bool_decide.
  - apply list_elem_of_singleton in Hb. by left.
  - apply list_elem_of_singleton in Hb as ->. by right.
Qed.

(** ** Words of visible ASCII characters *)

Definition graphic (b : byte) : bool := in_range 0x21 0x7e b.

Lemma whitespace_not_graphic c : c ∈ whitespace_chars →
  (∃ b rest, c = b :: rest ∧ graphic b = false) ∧ (∃ rest b, c = rest ++ [b] ∧ graphic b = false).
Proof.
  intros Hc. assert (forallb (λ c, match c, last c with
    | b :: _, Some b' => negb (graphic b) && negb (graphic b') | _, _ => false end) whitespace_chars = true) as Hall
    by (vm_compute; reflexivity).
  rewrite forallb_forall in Hall. specialize (Hall c (proj1 (list_elem_of_In _ _) Hc)).
  destruct c as [|b rest]; [done|]. destruct (last (b :: rest)) as [b'|] eqn:E; [|done].
  apply andb_true_iff in Hall as [Hb Hb']. apply negb_true_iff in Hb, Hb'. apply last_Some in E as [l' Hl'].
  split; [by exists b, rest|by exists l', b'].
Qed.

Lemma whitespace_prefix_graphic b s : graphic b = true → whitespace_prefix (b :: s) = 0%nat.
Proof.
  intros Hb. unfold whitespace_prefix. destruct (list_find _ _) as [[i c]|] eqn:E; [|done].
  apply list_find_Some in E as (Hc & Hs & _). apply list_elem_of_lookup_2, whitespace_not_graphic in Hc as [(b' & rest & -> & Hb') _].
  cbn [starts_with] in Hs. apply andb_true_iff in Hs as [Hs _]. apply bool_decide_eq_true in Hs. congruence.
Qed.

Lemma trim_graphic b s b' : graphic b = true → graphic b' = true → trim (b :: s ++ [b']) = b :: s ++ [b'].
Proof.
  intros Hb Hb'. unfold trim. assert (trim_start (b :: s ++ [b']) = b :: s ++ [b']) as ->.
  { unfold trim_start. cbn [length trim_start_loop]. by rewrite whitespace_prefix_graphic. }
  unfold trim_end. cbn [length trim_end_loop].
  destruct (head (omap (strip_suffix (b :: s ++ [b'])) whitespace_chars)) as [s'|] eqn:E; [|done].
  apply head_Some_elem_of, list_elem_of_omap in E as (c & Hc & Hs).
  apply whitespace_not_graphic in Hc as [_ (rest & b'' & -> & Hb'')]. apply strip_suffix_Some in Hs.
  rewrite app_comm_cons, app_assoc in Hs. apply app_inj_tail in Hs as [_ ->]. congruence.
Qed.

Lemma split_words_graphic p word s : Forall (λ b, graphic b = true) p →
  split_words 0 word (p ++ s) = split_words 0 (word ++ p) s.
Proof.
  intros Hp. revert word. induction Hp as [|b p Hb Hp IH]; intros word; [by rewrite app_nil_r|].
  cbn [app split_words]. rewrite whitespace_prefix_graphic by done. by rewrite IH, <- app_assoc.
Qed.

(** A word before a space, a tab or a carriage return, or at the end. *)
Definition blank (b : byte) : bool := bool_decide (b ∈ [Byte.x20; Byte.x09; Byte.x0d]).
Definition blank_head (s : bytes) : Prop := match s with [] => True | b :: _ => blank b = true end.

Lemma split_words_blank b s : blank b = true → split_words 0 [] (b :: s) = split_words 0 [] s.
Proof.
  unfold blank. rewrite bool_decide_eq_true, !elem_of_cons, elem_of_nil. by intros [-> |[-> |[-> |[]]]].
Qed.

Lemma split_words_blanks bl s : Forall (λ b, blank b = true) bl → split_words 0 [] (bl ++ s) = split_words 0 [] s.
Proof. induction 1 as [|b bl Hb Hbl IH]; [done|]. cbn [app]. by rewrite split_words_blank. Qed.

Lemma split_word p s : p ≠ [] → Forall (λ b, graphic b = true) p → blank_head s →
  split_words 0 [] (p ++ s) = p :: split_words 0 [] s.
Proof.
  intros Hne Hp Hs. rewrite split_words_graphic by done. cbn [app]. destruct s as [|b s]; [by destruct p|].
  cbn [blank_head] in Hs. unfold blank in Hs. rewrite bool_decide_eq_true, !elem_of_cons, elem_of_nil in Hs.
  destruct p; [done|]. by destruct Hs as [-> |[-> |[-> |[]]]].
Qed.

Lemma split_two_words p1 bl p2 s : p1 ≠ [] → p2 ≠ [] → bl ≠ [] →
  Forall (λ b, graphic b = true) p1 → Forall (λ b, blank b = true) bl → Forall (λ b, graphic b = true) p2 → blank_head s →
  split_whitespace (p1 ++ bl ++ p2 ++ s) = p1 :: p2 :: split_whitespace s.
Proof.
  intros H1 H2 Hbl Hp1 Hb Hp2 Hs. unfold split_whitespace.
  rewrite split_word; [|done|done|destruct Hb; done]. by rewrite split_words_blanks, split_word.
Qed.

(** Text that begins with a visible character is not blank. *)
Lemma trim_visible b s : graphic b = true → trim (b :: s) ≠ [].
Proof.
  intros Hb. unfold trim. assert (trim_start (b :: s) = b :: s) as ->.
  { unfold trim_start. cbn [length trim_start_loop]. by rewrite whitespace_prefix_graphic. }
  unfold trim_end. generalize (length (b :: s)). intros n. revert s. induction n as [|n IH]; intros s; [done|].
  cbn [trim_end_loop]. destruct (head (omap (strip_suffix (b :: s)) whitespace_chars)) as [s'|] eqn:E; [|done].
  apply head_Some_elem_of, list_elem_of_omap in E as (c & Hc & Hs).
  apply whitespace_not_graphic in Hc as [(b' & rest & -> & Hb') _]. apply strip_suffix_Some in Hs.
  destruct s' as [|b'' s']; injection Hs as <- _; [congruence|]. apply IH.
Qed.

(** Words of visible characters, joined by spaces, are read back as they are. *)
Lemma split_joined_words (ws : list bytes) : Forall (λ w, w ≠ [] ∧ Forall (λ b, graphic b = true) w) ws →
  split_whitespace (join (bs " ") ws) = ws.
Proof.
  intros Hws. unfold split_whitespace. induction Hws as [|w ws [Hne Hw] Hws IH]; [done|].
  assert (∀ s, split_words 0 [] (w ++ Byte.x20 :: s) = w :: split_words 0 [] s) as Hword.
  { intros s. rewrite split_words_graphic by done. cbn [app split_words].
    change (whitespace_prefix (Byte.x20 :: s)) with 1%nat. cbn [split_words]. by destruct w. }
  destruct ws as [|w' ws].
  - cbn [join]. rewrite <- (app_nil_r w) at 1. rewrite split_words_graphic by done. cbn [app split_words]. by destruct w.
  - change (join (bs " ") (w :: w' :: ws)) with (w ++ Byte.x20 :: join (bs " ") (w' :: ws)). by rewrite Hword, IH.
Qed.

Lemma utf8_valid_graphic s : Forall (λ b, graphic b = true) s → utf8_valid s = true.
Proof.
  induction 1 as [|b s Hb Hs IH]; [done|]. cbn [utf8_valid]. unfold graphic, in_range in Hb.
  apply andb_true_iff in Hb as [_ Hb]. apply N.leb_le in Hb. by rewrite (proj2 (N.ltb_lt (byte_val b) 0x80)) by lia.
Qed.

(** Such text has no white space at its ends. *)
Lemma trim_joined_words (ws : list bytes) : Forall (λ w, w ≠ [] ∧ Forall (λ b, graphic b = true) w) ws →
  trim (join (bs " ") ws) = join (bs " ") ws.
Proof.
  intros Hws. destruct ws as [|w ws]; [done|].
  assert (∃ b s, join (bs " ") (w :: ws) = b :: s ∧ graphic b = true) as (b & s & Hj & Hb).
  { apply Forall_cons in Hws as [[Hne Hw] _]. destruct w as [|b w]; [done|]. apply Forall_cons in Hw as [Hb _].
    exists b. destruct ws as [|w' ws]; by eexists. }
  assert (∃ s b, join (bs " ") (w :: ws) = s ++ [b] ∧ graphic b = true) as (s' & b' & Hj' & Hb').
  { clear Hj. revert w Hws. induction ws as [|w' ws IH]; intros w [[Hne Hw] Hws]%Forall_cons.
    - destruct w as [|z w] using rev_ind; [done|]. apply Forall_app in Hw as [_ [Hz _]%Forall_cons]. by exists w, z.
    - destruct (IH w' Hws) as (s0 & z & Hz & Hgz). exists (w ++ bs " " ++ s0), z. split; [|done].
      change (join (bs " ") (w :: w' :: ws)) with (w ++ bs " " ++ join (bs " ") (w' :: ws)). by rewrite Hz, <- !app_assoc. }
  rewrite Hj'. destruct s' as [|b0 s'].
  - rewrite Hj' in Hj. injection Hj as -> _. unfold trim, trim_start, trim_end. cbn [app length trim_start_loop].
    rewrite whitespace_prefix_graphic by done. cbn [length trim_end_loop].
    destruct (head (omap (strip_suffix [b]) whitespace_chars)) as [r|] eqn:E; [|done].
    apply head_Some_elem_of, list_elem_of_omap in E as (c & Hc & Hs).
    apply whitespace_not_graphic in Hc as [_ (rest & b'' & -> & Hb'')]. apply strip_suffix_Some in Hs.
    rewrite app_assoc in Hs. change [b] with ([] ++ [b]) in Hs. apply app_inj_tail in Hs as [_ ->]. congruence.
  - rewrite Hj' in Hj. injection Hj as -> _. cbn [app]. by apply trim_graphic.
Qed.
