(* ===== verification/BTree.v ===== *)
(** [std::collections::BTreeMap]: a finite map whose iteration follows the
    order of its keys, and the two range queries the store makes.  The map is
    a [gmap]; the order of iteration is that of the sorted list of entries. *)
From stdpp Require Import prelude gmap sorting strings.
From Stdlib Require Import NArith Lia.
From S2P Require Import Prelude.
From S2P Require Import Bytes.

(** [Ord] of a key type. *)
Class KeyOrd (K : Type) := key_le : relation K.
#[global] Hint Mode KeyOrd ! : typeclass_instances.

#[global] Instance bytes_ord : KeyOrd bytes := bytes_le.
#[global] Instance N_ord : KeyOrd N := N.le.
#[global] Instance bytes_key_le_dec : RelDecision (key_le (K := bytes)) := bytes_le_dec.
#[global] Instance N_key_le_dec : RelDecision (key_le (K := N)) := N.le_dec.
#[global] Instance bytes_key_total_order : TotalOrder (key_le (K := bytes)) := bytes_le_total_order.
#[global] Instance N_key_total_order : TotalOrder (key_le (K := N)).
Proof.
  split; [apply _|]. intros x y. unfold strict, key_le, N_ord.
  destruct (N.lt_trichotomy x y) as [|[]]; [left|right; left|right; right]; lia.
Qed.

(** The order on entries used by [sort_by(|(a, _), (b, _)| a.cmp(b))]. *)
Definition entry_le {K V} `{KeyOrd K} (x y : K * V) : Prop := key_le x.1 y.1.
#[global] Instance entry_le_dec {K V} `{KeyOrd K, !RelDecision (key_le (K := K))} :
  RelDecision (entry_le (K := K) (V := V)) := λ x y, decide (key_le x.1 y.1).

(** [l.sort_by(|(a, _), (b, _)| a.cmp(b))]. *)
Definition sort_by_key {K V} `{KeyOrd K, !RelDecision (key_le (K := K))} (l : list (K * V)) :
  list (K * V) := merge_sort entry_le l.

(** [map.iter()]. *)
Definition btree_iter {K V} `{Countable K, KeyOrd K, !RelDecision (key_le (K := K))}
  (m : gmap K V) : list (K * V) := sort_by_key (map_to_list m).

(** [map.range(..=hi).next()]. *)
Definition btree_first_to {K V} `{Countable K, KeyOrd K, !RelDecision (key_le (K := K))}
  (hi : K) (m : gmap K V) : option (K * V) :=
  head (filter (λ e, key_le e.1 hi) (btree_iter m)).

(** [map.range(lo..)]. *)
Definition btree_range_from {K V} `{Countable K, KeyOrd K, !RelDecision (key_le (K := K))}
  (lo : K) (m : gmap K V) : list (K * V) := filter (λ e, key_le lo e.1) (btree_iter m).

(** [Iterator::take_while]. *)
Fixpoint take_while {A} (p : A → bool) (l : list A) : list A :=
  match l with
  | [] => []
  | x :: l' => if p x then x :: take_while p l' else []
  end.

Section btree.
Context {K V : Type} `{Countable K, KeyOrd K, !RelDecision (key_le (K := K)),
  !TotalOrder (key_le (K := K))}.
Implicit Types m : gmap K V.

#[global] Instance entry_le_transitive : Transitive (entry_le (K := K) (V := V)).
Proof. intros x y z. unfold entry_le. apply (transitivity (R := key_le)). Qed.
#[global] Instance entry_le_total : Total (entry_le (K := K) (V := V)).
Proof. intros x y. unfold entry_le. apply (total key_le). Qed.

Lemma sort_by_key_permutation (l : list (K * V)) : sort_by_key l ≡ₚ l.
Proof. apply merge_sort_Permutation. Qed.
Lemma sort_by_key_sorted (l : list (K * V)) : StronglySorted entry_le (sort_by_key l).
Proof. apply (StronglySorted_merge_sort _). Qed.

(** Sorted lists with distinct keys and the same entries are equal. *)
Lemma sorted_entries_unique (l1 l2 : list (K * V)) :
  NoDup l1.*1 → StronglySorted entry_le l1 → StronglySorted entry_le l2 → l1 ≡ₚ l2 → l1 = l2.
Proof.
  intros Hnd H1 H2 Hp. apply (StronglySorted_unique_strong entry_le); [|done..].
  intros [k1 v1] [k2 v2] Hx1 Hx2 Hle1 Hle2. unfold entry_le in *; simpl in *.
  assert (k1 = k2) as -> by (by apply (anti_symm key_le)).
  rewrite <- Hp in Hx2. apply list_elem_of_lookup in Hx1 as [i Hi], Hx2 as [j Hj].
  assert (i = j) as ->; [|congruence].
  apply (NoDup_lookup l1.*1 i j k2); [done|..]; rewrite list_lookup_fmap; [by rewrite Hi|by rewrite Hj].
Qed.

Lemma btree_iter_permutation m : btree_iter m ≡ₚ map_to_list m.
Proof. apply sort_by_key_permutation. Qed.
Lemma btree_iter_sorted m : StronglySorted entry_le (btree_iter m).
Proof. apply sort_by_key_sorted. Qed.
Lemma elem_of_btree_iter m k v : (k, v) ∈ btree_iter m ↔ m !! k = Some v.
Proof. by rewrite btree_iter_permutation, elem_of_map_to_list. Qed.
Lemma btree_iter_NoDup m : NoDup (btree_iter m).*1.
Proof. rewrite btree_iter_permutation. apply NoDup_fst_map_to_list. Qed.

(** A sorted list with distinct keys that holds the entries of the map is the
    iteration of the map. *)
Lemma btree_iter_unique m (l : list (K * V)) :
  NoDup l.*1 → StronglySorted entry_le l → (∀ k v, (k, v) ∈ l ↔ m !! k = Some v) →
  l = btree_iter m.
Proof.
  intros Hnd Hs Hl. apply sorted_entries_unique; [done|done|apply btree_iter_sorted|].
  apply NoDup_Permutation.
  - by eapply NoDup_fmap_1.
  - eapply NoDup_fmap_1, btree_iter_NoDup.
  - intros [k v]. by rewrite Hl, elem_of_btree_iter.
Qed.

Lemma StronglySorted_filter {A} (R : relation A) (P : A → Prop) `{!∀ x, Decision (P x)} l :
  StronglySorted R l → StronglySorted R (filter P l).
Proof.
  induction 1 as [|x l Hs IH Hx]; [constructor|]. rewrite filter_cons.
  case_decide; [|done]. constructor; [done|]. apply Forall_forall. intros y Hy.
  rewrite Forall_forall in Hx. apply Hx. by apply list_elem_of_filter in Hy as [_ ?].
Qed.

Lemma btree_filter (P : K * V → Prop) `{!∀ x, Decision (P x)} m :
  btree_iter (filter P m) = filter P (btree_iter m).
Proof.
  symmetry. apply btree_iter_unique.
  - eapply sublist_NoDup; [apply (btree_iter_NoDup m)|]. apply fmap_sublist, sublist_filter.
  - apply StronglySorted_filter, btree_iter_sorted.
  - intros k v. rewrite list_elem_of_filter, elem_of_btree_iter, map_lookup_filter_Some. tauto.
Qed.

Lemma btree_first_to_Some hi m k v :
  btree_first_to hi m = Some (k, v) →
  m !! k = Some v ∧ key_le k hi ∧ ∀ k' v', m !! k' = Some v' → key_le k' hi → key_le k k'.
Proof.
  unfold btree_first_to. intros Hh.
  pose proof (StronglySorted_filter entry_le (λ e, key_le e.1 hi) _ (btree_iter_sorted m)) as Hs.
  assert (∀ e, e ∈ filter (λ e, key_le e.1 hi) (btree_iter m) ↔ m !! e.1 = Some e.2 ∧ key_le e.1 hi) as Hin.
  { intros [k' v']. rewrite list_elem_of_filter, elem_of_btree_iter. simpl. tauto. }
  destruct (filter _ _) as [|e l]; [done|]. injection Hh as ->.
  apply StronglySorted_cons in Hs as [Hall _].
  destruct (Hin (k, v)) as [[Hk Hle] _]; [set_solver|]. split_and!; [done..|].
  intros k' v' Hk' Hle'. destruct (Hin (k', v')) as [_ H']. simpl in H'.
  apply elem_of_cons in H' as [[= -> ->]|Hl]; [done| |done].
  rewrite Forall_forall in Hall. by apply Hall in Hl.
Qed.

Lemma btree_first_to_None hi m :
  btree_first_to hi m = None ↔ ∀ k v, m !! k = Some v → ¬ key_le k hi.
Proof.
  unfold btree_first_to. split.
  - intros Hh k v Hk Hle.
    assert ((k, v) ∈ filter (λ e, key_le e.1 hi) (btree_iter m)) as Hin.
    { by rewrite list_elem_of_filter, elem_of_btree_iter. }
    destruct (filter _ _); [by apply elem_of_nil in Hin|done].
  - intros Hn. destruct (filter _ _) as [|[k v] l] eqn:E; [done|].
    assert ((k, v) ∈ filter (λ e, key_le e.1 hi) (btree_iter m)) as Hin by (rewrite E; set_solver).
    rewrite list_elem_of_filter, elem_of_btree_iter in Hin. destruct Hin as [? ?].
    by destruct (Hn k v).
Qed.

Lemma elem_of_btree_range_from lo m k v :
  (k, v) ∈ btree_range_from lo m ↔ m !! k = Some v ∧ key_le lo k.
Proof.
  unfold btree_range_from. rewrite list_elem_of_filter, elem_of_btree_iter. simpl. tauto.
Qed.
Lemma btree_range_from_sorted lo m : StronglySorted entry_le (btree_range_from lo m).
Proof. apply StronglySorted_filter, btree_iter_sorted. Qed.
Lemma btree_range_from_NoDup lo m : NoDup (btree_range_from lo m).*1.
Proof.
  eapply sublist_NoDup; [apply (btree_iter_NoDup m)|]. apply fmap_sublist, sublist_filter.
Qed.
End btree.

Lemma take_while_sublist {A} (p : A → bool) l : take_while p l `sublist_of` l.
Proof.
  induction l as [|x l IH]; simpl; [constructor|].
  destruct (p x); [by constructor|apply sublist_nil_l].
Qed.

(** On a list where [p] is not reached again once it has failed, [take_while]
    is a filter. *)
Lemma take_while_filter {A} (R : relation A) (p : A → bool) l :
  StronglySorted R l → (∀ x y, x ∈ l → R x y → p y = true → p x = true) →
  take_while p l = filter (λ x, p x = true) l.
Proof.
  induction 1 as [|x l Hs IH Hx]; intros Hp; [done|]. simpl. rewrite filter_cons.
  case_decide as E.
  - rewrite E, IH; [done|]. intros y z Hy. apply Hp. set_solver.
  - destruct (p x) eqn:E'; [done|]. symmetry. destruct (filter _ l) as [|y l'] eqn:F; [done|].
    assert (y ∈ filter (λ x, p x = true) l) as Hy by (rewrite F; set_solver).
    apply list_elem_of_filter in Hy as [Hpy Hy]. rewrite Forall_forall in Hx.
    rewrite (Hp x y) in E'; [done|set_solver|by apply Hx|done].
Qed.
