(* ===== verification/Clock.v ===== *)
(** Time: [std::time::Duration], [std::time::Instant] and the monotonic clock.
    A duration is its number of nanoseconds; an instant is its number of
    nanoseconds since the origin of the clock.  [Instant] holds its seconds in
    an [i64] on the Unix targets of the program, so an addition past
    [instant_max] panics. *)
From stdpp Require Import prelude gmap.
From Stdlib Require Import NArith Lia.
From S2P Require Import Prelude.

Abbreviation Duration := N.
Abbreviation Instant := N.

Definition nanos_per_milli : N := 1000000.
Definition nanos_per_sec : N := 1000000000.

(** [Duration::from_secs], [Duration::from_millis]. *)
Definition from_secs (s : N) : Duration := s * nanos_per_sec.
Definition from_millis (ms : N) : Duration := ms * nanos_per_milli.
(** [Duration::as_secs], [Duration::as_millis], [Duration::as_micros]. *)
Definition as_secs (d : Duration) : N := d / nanos_per_sec.
Definition as_millis (d : Duration) : N := d / nanos_per_milli.
Definition as_micros (d : Duration) : N := d / 1000.

Definition instant_max : Instant := (2 ^ 63 - 1) * nanos_per_sec + (nanos_per_sec - 1).

(** [instant + duration]. *)
Definition instant_add (i : Instant) (d : Duration) : Outcome Instant :=
  if i + d <=? instant_max then Returned (i + d) else Panicked.

(** [instant.checked_duration_since(earlier)]. *)
Definition checked_duration_since (i earlier : Instant) : option Duration :=
  if earlier <=? i then Some (i - earlier) else None.

(** The time until which the clock is assumed to run: 2^62 seconds, half of what
    an [Instant] can hold. *)
Definition clock_horizon : Instant := 2 ^ 62 * nanos_per_sec.

(** The monotonic clock of the process: the n-th call of [Instant::now], over
    the whole run, returns [sample n]. *)
Class Clock : Type := {
  sample : nat → Instant;
  sample_mono : ∀ i j, (i ≤ j)%nat → sample i ≤ sample j;
  sample_bound : ∀ i, sample i ≤ clock_horizon;
}.

(** A component's state together with the number of clock readings so far. *)
Record World (S : Type) : Type := mkWorld { tick : nat; st : S }.
Arguments mkWorld {S} _ _.
Arguments tick {S} _.
Arguments st {S} _.

(** [Instant::now()]. *)
Definition instant_now {S} `{Clock} : M (World S) Instant :=
  λ w, (Returned (sample (tick w)), mkWorld (Datatypes.S (tick w)) (st w)).

(** A method of the state that does not read the clock. *)
Definition stateful {S A} (m : M S A) : M (World S) A :=
  zoom st (λ s w, mkWorld (tick w) s) m.

(** A method of a field of the state, which may read the clock. *)
Definition zoom_world {S T A} (proj : S → T) (upd : T → S → S) (m : M (World T) A) :
  M (World S) A :=
  λ w, let '(o, w') := m (mkWorld (tick w) (proj (st w))) in
       (o, mkWorld (tick w') (upd (st w') (st w))).

Lemma instant_add_ok i d : i + d ≤ instant_max → instant_add i d = Returned (i + d).
Proof. intros H. unfold instant_add. by apply N.leb_le in H as ->. Qed.

(** The durations that can be added to any clock reading. *)
Definition duration_ok (d : Duration) : Prop := clock_horizon + d ≤ instant_max.

Lemma instant_add_sample_ok `{Clock} n d :
  duration_ok d → instant_add (sample n) d = Returned (sample n + d).
Proof. intros Hd. apply instant_add_ok. pose proof (sample_bound n). unfold duration_ok in Hd. lia. Qed.

(** Every duration that fits the 64-bit millisecond field of the protocol. *)
Lemma duration_ok_millis ms : ms < 2 ^ 64 → duration_ok (from_millis ms).
Proof.
  unfold duration_ok, clock_horizon, instant_max, from_millis, nanos_per_milli, nanos_per_sec. lia.
Qed.

Lemma duration_ok_secs s : s < 2 ^ 61 → duration_ok (from_secs s).
Proof. unfold duration_ok, clock_horizon, instant_max, from_secs, nanos_per_sec. lia. Qed.

Lemma instant_now_run {S} `{Clock} n (s : S) :
  instant_now (mkWorld n s) = (Returned (sample n), mkWorld (Datatypes.S n) s).
Proof. done. Qed.

Lemma stateful_returned {S A} (m : M S A) n s a s' :
  m s = (Returned a, s') → stateful m (mkWorld n s) = (Returned a, mkWorld n s').
Proof. unfold stateful, zoom. simpl. by intros ->. Qed.

Lemma zoom_world_returned {S T A} (proj : S → T) (upd : T → S → S) (m : M (World T) A) n s a n' t' :
  m (mkWorld n (proj s)) = (Returned a, mkWorld n' t') →
  zoom_world proj upd m (mkWorld n s) = (Returned a, mkWorld n' (upd t' s)).
Proof. unfold zoom_world. simpl. by intros ->. Qed.
