(* ===== verification/TimedMap.v ===== *)
(** The abstract specification of a key-value store with time-to-live: a finite
    map from keys to a value and an optional expiry instant, and what a reader
    sees of it at a given time. *)
From stdpp Require Import prelude gmap sorting strings.
From Stdlib Require Import NArith Lia.
From S2P Require Import Prelude.
From S2P Require Import Bytes.
From S2P Require Import BTree.
From S2P Require Import Clock.

Abbreviation timed_map := (gmap bytes (bytes * option Instant)).

(** An entry is visible strictly before its expiry instant. *)
Definition live (now : Instant) (e : bytes * option Instant) : Prop :=
  match e.2 with Some i => now < i | None => True end.
#[global] Instance live_dec now e : Decision (live now e).
Proof. unfold live. destruct (e.2); apply _. Defined.

Definition tm_purge (now : Instant) (m : timed_map) : timed_map :=
  filter (λ e, live now e.2) m.

(** The values a reader sees at time [now]. *)
Definition tm_contents (m : timed_map) (now : Instant) : gmap bytes bytes := fst <$> tm_purge now m.

Definition tm_write (k v : bytes) (m : timed_map) : timed_map := <[k := (v, None)]> m.
Definition tm_write_with_ttl (k v : bytes) (i : Instant) (m : timed_map) : timed_map :=
  <[k := (v, Some i)]> m.
Definition tm_write_ttl (k : bytes) (i : Instant) (m : timed_map) : timed_map :=
  alter (λ e, (e.1, Some i)) k m.
Definition tm_delete_ttl (k : bytes) (m : timed_map) : timed_map := alter (λ e, (e.1, None)) k m.
Definition tm_ttl_remaining (k : bytes) (now : Instant) (m : timed_map) : option Duration :=
  e ← m !! k; i ← e.2; checked_duration_since i now.

(** The entries under a prefix, in key order. *)
Definition prefix_entries (prefix : bytes) (c : gmap bytes bytes) : list (bytes * bytes) :=
  filter (λ e, starts_with e.1 prefix = true) (btree_iter c).

(** ** Readers *)

Lemma tm_contents_lookup m now k v :
  tm_contents m now !! k = Some v ↔ ∃ e, m !! k = Some (v, e) ∧ live now (v, e).
Proof.
  unfold tm_contents, tm_purge. rewrite lookup_fmap, fmap_Some. split.
  - intros ([v' e] & [H1 H2]%map_lookup_filter_Some & ->). eauto.
  - intros (e & H1 & H2). exists (v, e). by rewrite map_lookup_filter_Some.
Qed.

Lemma live_mono t t' e : t ≤ t' → live t' e → live t e.
Proof. unfold live. destruct (e.2); [lia|done]. Qed.

(** What a purge removes was not visible any more. *)
Lemma tm_contents_purge m now t : now ≤ t → tm_contents (tm_purge now m) t = tm_contents m t.
Proof.
  intros H. unfold tm_contents, tm_purge. f_equal. rewrite map_filter_filter.
  apply map_filter_ext. intros k e _. split; [tauto|eauto using live_mono].
Qed.

Lemma tm_contents_purged m now : fst <$> tm_purge now m = tm_contents m now.
Proof. done. Qed.

Lemma tm_contents_write k v m t : tm_contents (tm_write k v m) t = <[k := v]> (tm_contents m t).
Proof. unfold tm_contents, tm_purge, tm_write. by rewrite map_filter_insert_True, fmap_insert. Qed.

Lemma tm_contents_delete k m t : tm_contents (delete k m) t = delete k (tm_contents m t).
Proof. unfold tm_contents, tm_purge. by rewrite map_filter_delete, fmap_delete. Qed.

Lemma tm_contents_write_with_ttl k v i m t :
  tm_contents (tm_write_with_ttl k v i m) t =
  if decide (t < i) then <[k := v]> (tm_contents m t) else delete k (tm_contents m t).
Proof.
  unfold tm_contents, tm_purge, tm_write_with_ttl. case_decide as E.
  - rewrite map_filter_insert_True by done. by rewrite fmap_insert.
  - rewrite map_filter_insert_False by done. by rewrite map_filter_delete, fmap_delete.
Qed.

Lemma tm_contents_write_ttl k i m t v e :
  m !! k = Some (v, e) →
  tm_contents (tm_write_ttl k i m) t =
  if decide (t < i) then <[k := v]> (tm_contents m t) else delete k (tm_contents m t).
Proof.
  intros H. unfold tm_write_ttl. rewrite <- tm_contents_write_with_ttl. f_equal.
  unfold tm_write_with_ttl. apply map_eq. intros k'. rewrite lookup_alter, lookup_insert.
  case_decide; subst; [|done]. by rewrite H.
Qed.

(** Every key starts with the empty prefix. *)
Lemma elem_of_prefix_entries (p : bytes) (c : gmap bytes bytes) k v :
  (k, v) ∈ prefix_entries p c ↔ starts_with k p = true ∧ c !! k = Some v.
Proof. unfold prefix_entries. by rewrite list_elem_of_filter, elem_of_btree_iter. Qed.

Lemma prefix_entries_NoDup (p : bytes) (c : gmap bytes bytes) : NoDup (prefix_entries p c).*1.
Proof.
  unfold prefix_entries. eapply sublist_NoDup; [apply (btree_iter_NoDup c)|].
  apply fmap_sublist, sublist_filter.
Qed.

Lemma prefix_entries_nil (c : gmap bytes bytes) : prefix_entries [] c = btree_iter c.
Proof.
  unfold prefix_entries. induction (btree_iter c) as [|e l IH]; [done|]. rewrite filter_cons.
  by rewrite decide_True, IH by apply starts_with_nil.
Qed.
