(* ===== verification/Store.v ===== *)
(** The transient tier, src/store.rs: the values, the time-to-live of the keys
    that have one, and the index from expiry instants to keys.  The section
    [spec] states what the store promises: a map from keys to a value and an
    optional expiry instant. *)
From stdpp Require Import prelude gmap sorting strings.
From Stdlib Require Import NArith Lia.
From S2P Require Import Prelude.
From S2P Require Import Bytes.
From S2P Require Import BTree.
From S2P Require Import Clock.
From S2P Require Import TimedMap.

Record Store := mkStore {
  data : gmap bytes bytes;
  expiry : gmap Instant (list bytes);
  ttl : gmap bytes Instant;
}.

Definition create_store : Store := mkStore ∅ ∅ ∅.

Definition with_data (f : gmap bytes bytes → gmap bytes bytes) (s : Store) : Store :=
  mkStore (f (data s)) (expiry s) (ttl s).
Definition with_expiry (f : gmap Instant (list bytes) → gmap Instant (list bytes)) (s : Store) : Store :=
  mkStore (data s) (f (expiry s)) (ttl s).
Definition with_ttl (f : gmap bytes Instant → gmap bytes Instant) (s : Store) : Store :=
  mkStore (data s) (expiry s) (f (ttl s)).

(** [Vec::swap_remove]: swap with the last element, then pop. *)
Definition swap_remove {A} (l : list A) (i : nat) : Outcome (list A) :=
  if (i <? length l)%nat then
    z ← unwrap (last l);
    mret (take (pred (length l)) (<[i := z]> l))
  else Panicked.

(** The body of the [while let] loop: one expired instant. *)
Definition expire_instant (exp : Instant) : M Store unit :=
  keys ← gets (λ s, expiry s !! exp);
  modify (with_expiry (delete exp)) ;;
  keys ← lift_outcome (unwrap keys);
  mfor keys (λ key,
    modify (with_ttl (delete key)) ;;
    modify (with_data (delete key))).

Fixpoint expire_loop (fuel : nat) (now : Instant) : M Store unit :=
  match fuel with
  | O => mret ()
  | S fuel' =>
      first ← gets (λ s, btree_first_to now (expiry s));
      match first with
      | None => mret ()
      | Some (exp, _) => expire_instant exp ;; expire_loop fuel' now
      end
  end.

Definition delete_expired_entries (now : Instant) : M Store unit :=
  n ← gets (λ s, size (expiry s));
  expire_loop n now.

Definition delete_ttl (key : bytes) : M Store unit :=
  removed ← gets (λ s, ttl s !! key);
  match removed with
  | None => mret ()
  | Some instant =>
      modify (with_ttl (delete key)) ;;
      keys ← gets (λ s, expiry s !! instant);
      keys ← lift_outcome (unwrap keys);
      index ← lift_outcome (unwrap (fst <$> list_find (λ candidate, candidate = key) keys));
      keys ← lift_outcome (swap_remove keys index);
      modify (with_expiry <[instant := keys]>) ;;
      match keys with
      | [] => modify (with_expiry (delete instant))
      | _ :: _ => mret ()
      end
  end.

Definition read_value (key : bytes) (s : Store) : option bytes := data s !! key.

Definition write_value (key value : bytes) : M Store unit :=
  delete_ttl key ;;
  modify (with_data <[key := value]>).

Definition delete_value (key : bytes) : M Store unit :=
  delete_ttl key ;;
  modify (with_data (delete key)).

(** [self.expiry.entry(instant).or_default().push(key)]. *)
Definition push_expiry (instant : Instant) (key : bytes) (e : gmap Instant (list bytes)) :
  gmap Instant (list bytes) := <[instant := default [] (e !! instant) ++ [key]]> e.

Definition write_ttl (key : bytes) (instant : Instant) : M Store unit :=
  present ← gets (λ s, bool_decide (is_Some (data s !! key)));
  if negb present then mret ()
  else
    delete_ttl key ;;
    modify (with_ttl <[key := instant]>) ;;
    modify (with_expiry (push_expiry instant key)).

Definition write_value_with_ttl (key value : bytes) (instant : Instant) : M Store unit :=
  delete_ttl key ;;
  modify (with_data <[key := value]>) ;;
  modify (with_ttl <[key := instant]>) ;;
  modify (with_expiry (push_expiry instant key)).

Definition delete_value_if_match (key expected : bytes) : M Store bool :=
  stored ← gets (λ s, data s !! key);
  if bool_decide (stored = Some expected) then
    delete_ttl key ;;
    modify (with_data (delete key)) ;;
    mret true
  else mret false.

Definition read_ttl_remaining (key : bytes) (now : Instant) (s : Store) : option Duration :=
  expiry_instant ← ttl s !! key;
  checked_duration_since expiry_instant now.

Definition find_by_prefix (prefix : bytes) (s : Store) : list (bytes * bytes) :=
  take_while (λ e, starts_with e.1 prefix) (btree_range_from prefix (data s)).

(** * The invariant and the abstraction *)

(** The two TTL structures are inverse to each other, the buckets of the expiry
    index are non-empty and without repetition, and only keys with a value have
    a time-to-live. *)
Record store_wf (s : Store) : Prop := {
  wf_bucket : ∀ i ks, expiry s !! i = Some ks →
    ks ≠ [] ∧ NoDup ks ∧ ∀ k, k ∈ ks ↔ ttl s !! k = Some i;
  wf_indexed : ∀ k i, ttl s !! k = Some i → is_Some (expiry s !! i);
  wf_valued : ∀ k, is_Some (ttl s !! k) → is_Some (data s !! k);
}.

(** The timed map a store represents. *)
Definition store_abs (s : Store) : timed_map := map_imap (λ k v, Some (v, ttl s !! k)) (data s).

(** [m], run on [s], returns [a] in a well-formed store that represents [T]. *)
Definition store_ok {A} (m : M Store A) (s : Store) (a : A) (T : timed_map) : Prop :=
  ∃ s', m s = (Returned a, s') ∧ store_wf s' ∧ store_abs s' = T.

Create HintDb store.

Lemma store_abs_lookup s k : store_abs s !! k = (λ v, (v, ttl s !! k)) <$> data s !! k.
Proof. unfold store_abs. rewrite map_lookup_imap. by destruct (data s !! k). Qed.

Lemma store_data_abs s : data s = fst <$> store_abs s.
Proof.
  apply map_eq. intros k. rewrite lookup_fmap, store_abs_lookup.
  by destruct (data s !! k).
Qed.

Lemma store_ttl_abs s k : store_wf s → ttl s !! k = (e ← store_abs s !! k; e.2).
Proof.
  intros Hwf. rewrite store_abs_lookup. destruct (data s !! k) eqn:E; [done|]. simpl.
  destruct (ttl s !! k) eqn:E'; [|done]. destruct (wf_valued s Hwf k); [eauto|congruence].
Qed.

Lemma store_abs_eq s T :
  data s = fst <$> T → (∀ k e, T !! k = Some e → ttl s !! k = e.2) → store_abs s = T.
Proof.
  intros Hd Ht. apply map_eq. intros k. rewrite store_abs_lookup, Hd, lookup_fmap.
  destruct (T !! k) as [[v e]|] eqn:E; [|done]. simpl. by rewrite (Ht k (v, e)).
Qed.

Lemma store_ok_bind {A B} (m : M Store A) (f : A → M Store B) s a b T T' :
  store_ok m s a T → (∀ s', store_wf s' → store_abs s' = T → store_ok (f a) s' b T') →
  store_ok (m ≫= f) s b T'.
Proof. intros (s' & Hm & Hwf & HT) Hf. unfold store_ok. run_with Hm. by apply Hf. Qed.

Lemma store_ok_ret {A} (a : A) s T : store_wf s → store_abs s = T → store_ok (mret a) s a T.
Proof. intros. by exists s. Qed.

Lemma create_store_wf : store_wf create_store.
Proof. split; simpl; intros *; rewrite ?lookup_empty; [done|done|by intros []]. Qed.
Lemma create_store_abs : store_abs create_store = ∅.
Proof. apply map_imap_empty. Qed.

(** * Expiry *)

Definition without_keys {V} (ks : list bytes) (m : gmap bytes V) : gmap bytes V :=
  filter (λ e, e.1 ∉ ks) m.

Lemma without_keys_lookup {V} (ks : list bytes) (m : gmap bytes V) (k : bytes) :
  without_keys ks m !! k = if decide (k ∈ ks) then None else m !! k.
Proof.
  unfold without_keys. rewrite map_lookup_filter. destruct (m !! k); simpl; [|by case_decide].
  unfold guard. repeat case_decide; naive_solver.
Qed.

Lemma without_keys_nil {V} (m : gmap bytes V) : without_keys [] m = m.
Proof. apply map_eq. intros k. rewrite without_keys_lookup. by rewrite decide_False by set_solver. Qed.

Lemma without_keys_cons {V} (k : bytes) (ks : list bytes) (m : gmap bytes V) :
  without_keys (k :: ks) m = without_keys ks (delete k m).
Proof.
  apply map_eq. intros k'. rewrite !without_keys_lookup, lookup_delete.
  repeat case_decide; set_solver.
Qed.

Lemma mfor_delete_keys ks s :
  mfor ks (λ key, modify (with_ttl (delete key)) ;; modify (with_data (delete key))) s =
  (Returned (), mkStore (without_keys ks (data s)) (expiry s) (without_keys ks (ttl s))).
Proof.
  revert s. induction ks as [|k ks IH]; intros s; simpl.
  - rewrite !without_keys_nil. by destruct s.
  - rewrite (bind_returned _ _ s () (with_data (delete k) (with_ttl (delete k) s))) by done.
    by rewrite IH, !without_keys_cons.
Qed.

Lemma expire_instant_spec s exp ks :
  store_wf s → expiry s !! exp = Some ks →
  store_ok (expire_instant exp) s () (filter (λ e, e.2.2 ≠ Some exp) (store_abs s)) ∧
  expiry (expire_instant exp s).2 = delete exp (expiry s).
Proof.
  intros Hwf Hks. destruct (wf_bucket s Hwf exp ks Hks) as (_ & _ & Hin).
  assert (expire_instant exp s =
    (Returned (), mkStore (without_keys ks (data s)) (delete exp (expiry s)) (without_keys ks (ttl s)))) as Hrun.
  { unfold expire_instant. run. rewrite Hks. run. run. by rewrite mfor_delete_keys. }
  rewrite Hrun. split; [|done]. eexists. split; [exact Hrun|]. split.
  - split; simpl.
    + intros i ks' [Hne H]%lookup_delete_Some. destruct (wf_bucket s Hwf i ks' H) as (? & ? & Hin').
      split_and!; [done..|]. intros k. rewrite without_keys_lookup, Hin'. case_decide as E; [|done].
      apply Hin in E. naive_solver.
    + intros k i. rewrite without_keys_lookup. case_decide as E; [done|]. intros Hk.
      rewrite lookup_delete_ne; [by apply (wf_indexed s Hwf k)|]. intros <-. by apply E, Hin.
    + intros k. rewrite !without_keys_lookup. case_decide; [by intros []|]. apply (wf_valued s Hwf).
  - apply map_eq. intros k. rewrite store_abs_lookup. simpl. rewrite !without_keys_lookup.
    case_decide as E; symmetry.
    + apply map_lookup_filter_None. right. intros e. rewrite store_abs_lookup.
      intros (v & _ & ->)%fmap_Some. simpl. apply Hin in E. tauto.
    + destruct (data s !! k) as [v|] eqn:Ev; simpl.
      * apply map_lookup_filter_Some. rewrite store_abs_lookup, Ev. simpl. by rewrite <- Hin.
      * apply map_lookup_filter_None. left. by rewrite store_abs_lookup, Ev.
Qed.

(** Every turn of the loop removes one bucket, so the number of buckets is
    enough fuel; the loop removes exactly what has expired. *)
Lemma expire_loop_spec fuel now s :
  store_wf s → (size (expiry s) ≤ fuel)%nat →
  store_ok (expire_loop fuel now) s () (tm_purge now (store_abs s)) ∧
  btree_first_to now (expiry (expire_loop fuel now s).2) = None.
Proof.
  assert (∀ s, store_wf s → btree_first_to now (expiry s) = None →
            tm_purge now (store_abs s) = store_abs s) as Hdone.
  { clear s. intros s Hwf Hnone. unfold tm_purge. apply map_filter_id.
    intros k [v [i|]] Hk; [|done]. unfold live; simpl.
    rewrite store_abs_lookup in Hk. apply fmap_Some in Hk as (? & _ & [= -> Hi]).
    destruct (wf_indexed s Hwf k i) as [ks Hks]; [done|].
    pose proof (proj1 (btree_first_to_None _ _) Hnone i ks Hks) as Hn.
    unfold key_le, N_ord in Hn. lia. }
  revert s. induction fuel as [|fuel IH]; intros s Hwf Hsize; simpl.
  - assert (btree_first_to now (expiry s) = None) as Hn.
    { apply btree_first_to_None. intros k v Hk. assert (expiry s = ∅) as He.
      { apply map_size_empty_iff. lia. }
      by rewrite He in Hk. }
    split; [|done]. apply store_ok_ret; [done|]. symmetry. by apply Hdone.
  - destruct (btree_first_to now (expiry s)) as [[exp ks]|] eqn:Hf.
    + apply btree_first_to_Some in Hf as Hfs. destruct Hfs as (Hks & Hle & _).
      destruct (expire_instant_spec s exp ks Hwf Hks) as [(s' & Hrun & Hwf' & Habs) Hexp].
      rewrite Hrun in Hexp; simpl in Hexp.
      destruct (IH s') as [(s'' & Hrun' & Hwf'' & Habs') Hn]; [done| |].
      { rewrite Hexp. rewrite map_size_delete_Some by eauto. lia. }
      assert ((gets (λ s, btree_first_to now (expiry s)) ≫= λ first,
        match first with
        | Some (e, _) => expire_instant e ;; expire_loop fuel now
        | None => mret ()
        end) s = expire_loop fuel now s') as Heq.
      { run. rewrite Hf. by run_with Hrun. }
      rewrite Heq. split; [|done]. exists s''. rewrite Heq. split_and!; [done..|].
      rewrite Habs', Habs. unfold tm_purge. rewrite map_filter_filter.
      apply map_filter_ext. intros k [v [i|]] _; simpl; [|naive_solver].
      unfold live; simpl. unfold key_le, N_ord in Hle. split; [tauto|].
      intros Hlt. split; [done|]. intros [= ->]. lia.
    + assert ((gets (λ s, btree_first_to now (expiry s)) ≫= λ first,
        match first with
        | Some (e, _) => expire_instant e ;; expire_loop fuel now
        | None => mret ()
        end) s = (Returned (), s)) as Heq.
      { run. by rewrite Hf. }
      rewrite Heq. split; [|done]. exists s. rewrite Heq. split_and!; [done..|]. symmetry. by apply Hdone.
Qed.

Lemma delete_expired_entries_ok now s :
  store_wf s → store_ok (delete_expired_entries now) s () (tm_purge now (store_abs s)).
Proof. intros Hwf. unfold delete_expired_entries. by apply expire_loop_spec. Qed.

(** * Detaching and attaching a time-to-live *)

Lemma swap_remove_spec {A} (l : list A) (i : nat) (x : A) :
  l !! i = Some x → ∃ l', swap_remove l i = Returned l' ∧ l ≡ₚ x :: l'.
Proof.
  intros Hi. pose proof (lookup_lt_Some _ _ _ Hi) as Hlt.
  unfold swap_remove. rewrite (proj2 (Nat.ltb_lt _ _) Hlt).
  destruct l as [|y l _] using rev_ind; [simpl in *; lia|].
  rewrite last_snoc. simpl. eexists; split; [done|].
  rewrite length_app in *. simpl in *. replace (pred (length l + 1)) with (length l) by lia.
  destruct (decide (i = length l)) as [->|Hne].
  - rewrite take_insert_ge, take_app_length by lia.
    rewrite lookup_app_r, Nat.sub_diag in Hi by lia. injection Hi as ->.
    by rewrite Permutation_app_comm.
  - rewrite insert_app_l by lia. rewrite take_app_le by (rewrite length_insert; lia).
    rewrite take_ge by (rewrite length_insert; lia).
    rewrite lookup_app_l in Hi by lia.
    rewrite <- (take_drop_middle l i x Hi) at 1. rewrite insert_take_drop by lia.
    rewrite <- !app_assoc. simpl. rewrite <- Permutation_middle.
    apply perm_skip, Permutation_app_head. by rewrite Permutation_app_comm.
Qed.

Lemma position_spec {A} `{EqDecision A} (x : A) (l : list A) :
  x ∈ l → ∃ i, fst <$> list_find (λ y, y = x) l = Some i ∧ l !! i = Some x.
Proof.
  intros Hx. destruct (list_find_elem_of (λ y, y = x) l x Hx eq_refl) as [[i y] Hf].
  rewrite Hf. apply list_find_Some in Hf as (Hi & -> & _). eauto.
Qed.

(** [delete_ttl] never reaches its two [unwrap]s with [None]. *)
Lemma delete_ttl_spec key s :
  store_wf s →
  ∃ e', delete_ttl key s = (Returned (), mkStore (data s) e' (delete key (ttl s))) ∧
        store_wf (mkStore (data s) e' (delete key (ttl s))).
Proof.
  intros Hwf. unfold delete_ttl. run. destruct (ttl s !! key) as [i|] eqn:Hk.
  2:{ exists (expiry s). rewrite delete_id by done. by destruct s. }
  destruct (wf_indexed s Hwf key i Hk) as [ks Hks].
  destruct (wf_bucket s Hwf i ks Hks) as (Hne & Hnd & Hin).
  destruct (position_spec key ks) as (j & Hj & Hlk); [by apply Hin|].
  destruct (swap_remove_spec ks j key Hlk) as (ks' & Hsr & Hperm).
  rewrite Hperm in Hnd. apply NoDup_cons in Hnd as [Hnin Hnd'].
  assert (∀ k, k ∈ ks' ↔ delete key (ttl s) !! k = Some i) as Hin'.
  { intros k. rewrite lookup_delete_Some, <- Hin, Hperm. set_solver. }
  assert (∀ (e' : gmap Instant (list bytes)),
    (∀ i', i ≠ i' → e' !! i' = expiry s !! i') →
    e' !! i = (if decide (ks' = []) then None else Some ks') →
    store_wf (mkStore (data s) e' (delete key (ttl s)))) as Hgen.
  { intros e' Hother Hi'. split; simpl.
    - intros i' l Hl. destruct (decide (i = i')) as [<-|Hni].
      + rewrite Hi' in Hl. case_decide; [done|]. injection Hl as <-. split_and!; [done..|].
        intros k. by rewrite Hin'.
      + rewrite Hother in Hl by done. destruct (wf_bucket s Hwf i' l Hl) as (? & ? & Hl').
        split_and!; [done..|]. intros k. rewrite Hl', lookup_delete_Some.
        split; [|tauto]. intros Hk'. split; [|done]. intros <-. congruence.
    - intros k i' [Hnk Hk']%lookup_delete_Some. destruct (decide (i = i')) as [<-|Hni].
      + rewrite Hi'. case_decide as E; [|done]. exfalso. subst ks'.
        assert (k ∈ ([] : list bytes)) as Hk0 by (apply Hin'; by rewrite lookup_delete_ne).
        by apply elem_of_nil in Hk0.
      + rewrite Hother by done. by apply (wf_indexed s Hwf k).
    - intros k [i' [_ Hk']%lookup_delete_Some]. apply (wf_valued s Hwf). eauto. }
  run. run. simpl. rewrite Hks. run. rewrite Hj. run. rewrite Hsr. run.
  destruct ks' as [|k0 ks'].
  - eexists; split; [done|]. apply Hgen.
    + intros i' Hi'. simpl. by rewrite lookup_delete_ne, lookup_insert_ne.
    + simpl. by rewrite lookup_delete_eq.
  - eexists; split; [done|]. apply Hgen.
    + intros i' Hi'. simpl. by rewrite lookup_insert_ne.
    + simpl. by rewrite lookup_insert_eq.
Qed.

Lemma store_abs_delete_ttl s k e' :
  store_abs (mkStore (data s) e' (delete k (ttl s))) = tm_delete_ttl k (store_abs s).
Proof.
  apply map_eq. intros k'. unfold tm_delete_ttl. rewrite store_abs_lookup, lookup_alter, !store_abs_lookup.
  simpl. rewrite lookup_delete. case_decide; subst; by destruct (data s !! _).
Qed.

Lemma delete_ttl_ok key s :
  store_wf s → store_ok (delete_ttl key) s () (tm_delete_ttl key (store_abs s)).
Proof.
  intros Hwf. destruct (delete_ttl_spec key s Hwf) as (e' & Hrun & Hwf').
  eexists; split_and!; [exact Hrun|done|apply store_abs_delete_ttl].
Qed.

(** A key without a time-to-live, but with a value, receives one. *)
Lemma store_wf_push key i s :
  store_wf s → ttl s !! key = None → is_Some (data s !! key) →
  store_wf (mkStore (data s) (push_expiry i key (expiry s)) (<[key := i]> (ttl s))).
Proof.
  intros Hwf Hnone Hdata. split; simpl; unfold push_expiry.
  - intros i' l. destruct (decide (i = i')) as [<-|Hne].
    + rewrite lookup_insert_eq. intros [= <-].
      assert (∀ k, k ∈ default [] (expiry s !! i) ↔ ttl s !! k = Some i) as Hin.
      { destruct (expiry s !! i) as [ks|] eqn:E; simpl; [by apply (wf_bucket s Hwf)|].
        intros k. split; [by intros ?%elem_of_nil|]. intros Hk.
        apply (wf_indexed s Hwf) in Hk as [? ?]. congruence. }
      split_and!; [by destruct (default _ _)| |].
      * apply NoDup_app. split_and!.
        -- destruct (expiry s !! i) as [ks|] eqn:E; simpl; [by apply (wf_bucket s Hwf i)|constructor].
        -- intros k Hk ->%list_elem_of_singleton. apply Hin in Hk. congruence.
        -- apply NoDup_singleton.
      * intros k. rewrite elem_of_app, Hin, list_elem_of_singleton, lookup_insert.
        case_decide; subst; [rewrite Hnone; naive_solver|naive_solver].
    + rewrite lookup_insert_ne by done. intros Hl. destruct (wf_bucket s Hwf i' l Hl) as (? & ? & Hl').
      split_and!; [done..|]. intros k. rewrite Hl', lookup_insert. case_decide; [|done]. subst.
      rewrite Hnone. naive_solver.
  - intros k i'. rewrite !lookup_insert. case_decide; [intros [= <-]; by rewrite decide_True|].
    intros Hk. case_decide; [eauto|]. by apply (wf_indexed s Hwf k).
  - intros k. rewrite lookup_insert. case_decide; [by subst|]. apply (wf_valued s Hwf).
Qed.

Lemma store_wf_data f s :
  store_wf s → (∀ k, is_Some (ttl s !! k) → is_Some (f (data s) !! k)) → store_wf (with_data f s).
Proof. intros Hwf Hf. split; [apply (wf_bucket s Hwf)|apply (wf_indexed s Hwf)|exact Hf]. Qed.

(** Equality of the timed maps of two stores, key by key. *)
Ltac solve_store_abs :=
  apply map_eq; intros ?k;
  unfold tm_write, tm_write_with_ttl, tm_write_ttl, tm_delete_ttl;
  rewrite ?lookup_alter, ?store_abs_lookup; simpl;
  rewrite ?lookup_insert, ?lookup_delete, ?lookup_alter, ?store_abs_lookup; simpl;
  repeat case_decide; subst; simplify_option_eq; try done;
  try (by destruct (data _ !! _)).

Lemma write_value_ok key value s :
  store_wf s → store_ok (write_value key value) s () (tm_write key value (store_abs s)).
Proof.
  intros Hwf. destruct (delete_ttl_spec key s Hwf) as (e' & Hrun & Hwf').
  unfold write_value. eexists. run_with Hrun. split_and!; [done| |solve_store_abs].
  apply store_wf_data; [done|]. intros k Hk. rewrite lookup_insert. case_decide; [done|].
  by apply (wf_valued _ Hwf').
Qed.

Lemma delete_value_ok key s :
  store_wf s → store_ok (delete_value key) s () (delete key (store_abs s)).
Proof.
  intros Hwf. destruct (delete_ttl_spec key s Hwf) as (e' & Hrun & Hwf').
  unfold delete_value. eexists. run_with Hrun. split_and!; [done| |solve_store_abs].
  apply store_wf_data; [done|]. simpl. intros k [i Hk]. rewrite lookup_delete.
  case_decide; subst; [by rewrite lookup_delete_eq in Hk|]. apply (wf_valued _ Hwf'). by exists i.
Qed.

Lemma write_value_with_ttl_ok key value i s :
  store_wf s →
  store_ok (write_value_with_ttl key value i) s () (tm_write_with_ttl key value i (store_abs s)).
Proof.
  intros Hwf. destruct (delete_ttl_spec key s Hwf) as (e' & Hrun & Hwf').
  unfold write_value_with_ttl. eexists. run_with Hrun. split_and!; [done| |solve_store_abs].
  apply (store_wf_push key i (mkStore (<[key := value]> (data s)) e' (delete key (ttl s)))); simpl.
  - apply (store_wf_data <[key := value]> _ Hwf'). intros k Hk. rewrite lookup_insert.
    case_decide; [done|]. by apply (wf_valued _ Hwf').
  - apply lookup_delete_eq.
  - rewrite lookup_insert_eq. eauto.
Qed.

Lemma write_ttl_ok key i s :
  store_wf s → store_ok (write_ttl key i) s () (tm_write_ttl key i (store_abs s)).
Proof.
  intros Hwf. unfold write_ttl, store_ok. destruct (decide (is_Some (data s !! key))) as [Hin|Hin].
  - destruct (delete_ttl_spec key s Hwf) as (e' & Hrun & Hwf').
    eexists. run. rewrite bool_decide_eq_true_2 by done. cbn [negb]. run_with Hrun.
    split_and!; [done| |solve_store_abs].
    apply (store_wf_push key i (mkStore (data s) e' (delete key (ttl s)))); simpl; [done| |done].
    apply lookup_delete_eq.
  - exists s. run. rewrite bool_decide_eq_false_2 by done. split_and!; [done..|].
    solve_store_abs. apply eq_None_not_Some in Hin. by rewrite Hin.
Qed.

Lemma delete_value_if_match_ok key expected s :
  store_wf s →
  store_ok (delete_value_if_match key expected) s
    (bool_decide (fst <$> store_abs s !! key = Some expected))
    (if decide (fst <$> store_abs s !! key = Some expected) then delete key (store_abs s) else store_abs s).
Proof.
  intros Hwf. unfold store_ok, delete_value_if_match.
  assert (data s !! key = fst <$> store_abs s !! key) as Hd by (by rewrite store_data_abs, lookup_fmap).
  run. rewrite Hd. case_bool_decide as E.
  - rewrite decide_True by done. destruct (delete_value_ok key s Hwf) as (s' & Hrun & Hwf' & Habs).
    unfold delete_value in Hrun. exists s'. split_and!; [|done..].
    destruct (delete_ttl_spec key s Hwf) as (e' & Hrun' & _). run_with Hrun'.
    rewrite (bind_returned _ _ _ _ _ Hrun') in Hrun. by run_with Hrun.
  - rewrite decide_False by done. by exists s.
Qed.

Lemma read_value_ok key s : read_value key s = fst <$> store_abs s !! key.
Proof. unfold read_value. by rewrite store_data_abs, lookup_fmap. Qed.

Lemma read_ttl_remaining_ok key now s :
  store_wf s → read_ttl_remaining key now s = tm_ttl_remaining key now (store_abs s).
Proof.
  intros Hwf. unfold read_ttl_remaining, tm_ttl_remaining. rewrite (store_ttl_abs s key Hwf).
  by destruct (store_abs s !! key) as [[v [i|]]|].
Qed.

(** The range query from the prefix on, cut at the first key without it, finds
    every key that has it: those keys are an interval of the order. *)
Lemma find_by_prefix_ok prefix s :
  find_by_prefix prefix s = prefix_entries prefix (fst <$> store_abs s).
Proof.
  unfold find_by_prefix, prefix_entries. rewrite <- store_data_abs.
  rewrite (take_while_filter entry_le).
  - unfold btree_range_from. rewrite list_filter_filter.
    apply list_filter_iff. intros [k v]; simpl. split; [tauto|]. intros H. split; [done|].
    apply starts_with_app in H as [r ->]. apply bytes_le_prefix.
  - apply btree_range_from_sorted.
  - intros [k1 v1] [k2 v2] Hin. apply elem_of_btree_range_from in Hin as [_ Hle].
    unfold entry_le; simpl. by apply starts_with_convex.
Qed.

#[export] Hint Resolve create_store_wf delete_expired_entries_ok write_value_ok delete_value_ok
  write_value_with_ttl_ok write_ttl_ok delete_value_if_match_ok : store.

(** What a purge at [now] leaves of a key's value or instant. *)
Definition survives (now : Instant) (s : Store) {V : Type} (k : bytes) (x : option V) : option V :=
  match ttl s !! k with
  | Some i => if i <=? now then None else x
  | None => x
  end.

Lemma tm_purge_lookup now s (k : bytes) :
  tm_purge now (store_abs s) !! k = survives now s k (store_abs s !! k).
Proof.
  apply option_eq. intros [v e]. unfold survives, tm_purge. rewrite map_lookup_filter_Some, store_abs_lookup.
  destruct (data s !! k) as [v'|]; simpl; [|split; [by intros []|by repeat case_match]].
  destruct (ttl s !! k) as [i|]; unfold live; simpl; [|naive_solver].
  destruct (N.leb_spec i now); split; [|done| |]; intros; destruct_and?; simplify_eq; simpl in *;
    try split; try done; lia.
Qed.

(** C10: a purge ends with no expired instant left in the index, so the loop has
    run to its end; it removes exactly the keys whose instant has come, with their
    time-to-live, and keeps the others as they were. *)
Theorem purge_exact now s :
  store_wf s →
  ∃ s', delete_expired_entries now s = (Returned (), s') ∧ store_wf s' ∧
    btree_first_to now (expiry s') = None ∧
    ∀ k, data s' !! k = survives now s k (data s !! k) ∧ ttl s' !! k = survives now s k (ttl s !! k).
Proof.
  intros Hwf. destruct (expire_loop_spec (size (expiry s)) now s Hwf) as [(s' & Hrun & Hwf' & Habs) Hend]; [done|].
  exists s'. rewrite Hrun in Hend. split_and!; [exact Hrun|done|done|]. intros k.
  assert (store_abs s' !! k = survives now s k (store_abs s !! k)) as Hk by (by rewrite Habs, tm_purge_lookup).
  rewrite (store_ttl_abs s') by done. rewrite !store_data_abs, !lookup_fmap, Hk, (store_ttl_abs s k Hwf).
  unfold survives. rewrite (store_ttl_abs s k Hwf).
  destruct (store_abs s !! k) as [[v [i|]]|]; simpl; [|done..]. by destruct (i <=? now).
Qed.

Lemma purge_exact_witness :
  let s := (write_value_with_ttl (bs "b") (bs "2") 9 (write_value_with_ttl (bs "a") (bs "1") 5 create_store).2).2 in
  ∃ s', delete_expired_entries 5 s = (Returned (), s') ∧ store_wf s' ∧
    btree_first_to 5 (expiry s') = None ∧
    ∀ k, data s' !! k = survives 5 s k (data s !! k) ∧ ttl s' !! k = survives 5 s k (ttl s !! k).
Proof.
  intros s. apply (purge_exact 5 s). subst s.
  destruct (write_value_with_ttl_ok (bs "a") (bs "1") 5 create_store create_store_wf) as (s1 & -> & Hwf1 & _).
  cbn [snd].
  by destruct (write_value_with_ttl_ok (bs "b") (bs "2") 9 s1 Hwf1) as (s2 & -> & Hwf2 & _).
Defined.
