(* ===== verification/Tric.v ===== *)
(** The public handle of the transient engine, src/lib.rs: every method takes
    the write lock, reads the clock, drops what has expired, and runs one
    operation of the store.  The lock makes each method one atomic step. *)
From stdpp Require Import prelude gmap sorting strings.
From Stdlib Require Import NArith Lia.
From S2P Require Import Prelude.
From S2P Require Import Bytes.
From S2P Require Import BTree.
From S2P Require Import Clock.
From S2P Require Import TimedMap.
From S2P Require Import Store.

(** What the lock guards. *)
Abbreviation Tric := Store.

Definition create_tric : Tric := create_store.

Section tric.
Context `{Clock}.

Definition read_value (key : bytes) : M (World Tric) (option bytes) :=
  now ← instant_now;
  stateful (delete_expired_entries now) ;;
  stateful (gets (Store.read_value key)).

Definition write_value (key value : bytes) : M (World Tric) unit :=
  now ← instant_now;
  stateful (delete_expired_entries now) ;;
  stateful (Store.write_value key value).

Definition delete_value (key : bytes) : M (World Tric) unit :=
  now ← instant_now;
  stateful (delete_expired_entries now) ;;
  stateful (Store.delete_value key).

Definition delete_value_if_match (key expected : bytes) : M (World Tric) bool :=
  now ← instant_now;
  stateful (delete_expired_entries now) ;;
  stateful (Store.delete_value_if_match key expected).

Definition write_ttl (key : bytes) (duration : Duration) : M (World Tric) unit :=
  now ← instant_now;
  stateful (delete_expired_entries now) ;;
  instant ← lift_outcome (instant_add now duration);
  stateful (Store.write_ttl key instant).

Definition write_value_with_ttl (key value : bytes) (duration : Duration) : M (World Tric) unit :=
  now ← instant_now;
  stateful (delete_expired_entries now) ;;
  instant ← lift_outcome (instant_add now duration);
  stateful (Store.write_value_with_ttl key value instant).

Definition read_ttl_remaining (key : bytes) : M (World Tric) (option Duration) :=
  now ← instant_now;
  stateful (delete_expired_entries now) ;;
  stateful (gets (Store.read_ttl_remaining key now)).

Definition find_by_prefix (prefix : bytes) : M (World Tric) (list (bytes * bytes)) :=
  now ← instant_now;
  stateful (delete_expired_entries now) ;;
  stateful (gets (Store.find_by_prefix prefix)).

(** * What each method does, in terms of the timed map of the store *)

(** [m] takes the store [s], at the [n]-th clock reading, to a well-formed store
    that represents [T], and reads the clock once. *)
Definition tric_ok {A} (m : M (World Tric) A) (n : nat) (s : Tric) (a : A) (T : timed_map) : Prop :=
  ∃ s', m (mkWorld n s) = (Returned a, mkWorld (S n) s') ∧ store_wf s' ∧ store_abs s' = T.

(** The common shape: purge, then one operation of the store. *)
Lemma purge_then_ok {A} (op : Instant → M Store A) n s a T :
  store_wf s →
  (∀ s', store_wf s' → store_abs s' = tm_purge (sample n) (store_abs s) →
    store_ok (op (sample n)) s' a T) →
  tric_ok (now ← instant_now; stateful (delete_expired_entries now) ;; stateful (op now)) n s a T.
Proof.
  intros Hwf Hop. destruct (delete_expired_entries_ok (sample n) s Hwf) as (s1 & Hp & Hwf1 & Habs1).
  destruct (Hop s1 Hwf1 Habs1) as (s2 & Hr & Hwf2 & Habs2).
  exists s2. split; [|done]. run_with (instant_now_run n s).
  run_with (stateful_returned _ (S n) s () s1 Hp).
  by apply stateful_returned.
Qed.

Lemma purge_then_add_ok {A} (op : Instant → M Store A) d n s a T :
  store_wf s → duration_ok d →
  (∀ s', store_wf s' → store_abs s' = tm_purge (sample n) (store_abs s) →
    store_ok (op (sample n + d)) s' a T) →
  tric_ok (now ← instant_now; stateful (delete_expired_entries now) ;;
           instant ← lift_outcome (instant_add now d); stateful (op instant)) n s a T.
Proof.
  intros Hwf Hd Hop. destruct (delete_expired_entries_ok (sample n) s Hwf) as (s1 & Hp & Hwf1 & Habs1).
  destruct (Hop s1 Hwf1 Habs1) as (s2 & Hr & Hwf2 & Habs2).
  exists s2. split; [|done]. run_with (instant_now_run n s).
  run_with (stateful_returned _ (S n) s () s1 Hp).
  rewrite (instant_add_sample_ok n d Hd). run. by apply stateful_returned.
Qed.

(** A pure query of the store. *)
Lemma gets_ok {A} (f : Store → A) s a T :
  store_wf s → store_abs s = T → f s = a → store_ok (gets f) s a T.
Proof. intros Hwf HT Ha. exists s. unfold gets. by rewrite Ha. Qed.

Lemma purged_lookup n (s : Store) k :
  fst <$> tm_purge (sample n) (store_abs s) !! k = tm_contents (store_abs s) (sample n) !! k.
Proof. unfold tm_contents. by rewrite lookup_fmap. Qed.

Lemma read_value_tric key n s :
  store_wf s →
  tric_ok (read_value key) n s (tm_contents (store_abs s) (sample n) !! key)
    (tm_purge (sample n) (store_abs s)).
Proof.
  intros Hwf. apply (purge_then_ok (λ _, gets (Store.read_value key))); [done|].
  intros s' Hwf' Habs. apply gets_ok; [done..|]. by rewrite read_value_ok, Habs, purged_lookup.
Qed.

Lemma write_value_tric key value n s :
  store_wf s →
  tric_ok (write_value key value) n s () (tm_write key value (tm_purge (sample n) (store_abs s))).
Proof.
  intros Hwf. apply (purge_then_ok (λ _, Store.write_value key value)); [done|].
  intros s' Hwf' <-. by apply write_value_ok.
Qed.

Lemma delete_value_tric key n s :
  store_wf s →
  tric_ok (delete_value key) n s () (delete key (tm_purge (sample n) (store_abs s))).
Proof.
  intros Hwf. apply (purge_then_ok (λ _, Store.delete_value key)); [done|].
  intros s' Hwf' <-. by apply delete_value_ok.
Qed.

Lemma delete_value_if_match_tric key expected n s :
  store_wf s →
  tric_ok (delete_value_if_match key expected) n s
    (bool_decide (tm_contents (store_abs s) (sample n) !! key = Some expected))
    (if decide (tm_contents (store_abs s) (sample n) !! key = Some expected)
     then delete key (tm_purge (sample n) (store_abs s)) else tm_purge (sample n) (store_abs s)).
Proof.
  intros Hwf. apply (purge_then_ok (λ _, Store.delete_value_if_match key expected)); [done|].
  intros s' Hwf' Habs. rewrite <- purged_lookup, <- Habs. by apply delete_value_if_match_ok.
Qed.

Lemma write_ttl_tric key d n s :
  store_wf s → duration_ok d →
  tric_ok (write_ttl key d) n s ()
    (tm_write_ttl key (sample n + d) (tm_purge (sample n) (store_abs s))).
Proof.
  intros Hwf Hd. apply (purge_then_add_ok (Store.write_ttl key)); [done..|].
  intros s' Hwf' <-. by apply write_ttl_ok.
Qed.

Lemma write_value_with_ttl_tric key value d n s :
  store_wf s → duration_ok d →
  tric_ok (write_value_with_ttl key value d) n s ()
    (tm_write_with_ttl key value (sample n + d) (tm_purge (sample n) (store_abs s))).
Proof.
  intros Hwf Hd. apply (purge_then_add_ok (Store.write_value_with_ttl key value)); [done..|].
  intros s' Hwf' <-. by apply write_value_with_ttl_ok.
Qed.

Lemma read_ttl_remaining_tric key n s :
  store_wf s →
  tric_ok (read_ttl_remaining key) n s
    (tm_ttl_remaining key (sample n) (tm_purge (sample n) (store_abs s)))
    (tm_purge (sample n) (store_abs s)).
Proof.
  intros Hwf. apply (purge_then_ok (λ now, gets (Store.read_ttl_remaining key now))); [done|].
  intros s' Hwf' Habs. apply gets_ok; [done..|]. by rewrite read_ttl_remaining_ok, Habs.
Qed.

Lemma find_by_prefix_tric prefix n s :
  store_wf s →
  tric_ok (find_by_prefix prefix) n s
    (prefix_entries prefix (tm_contents (store_abs s) (sample n)))
    (tm_purge (sample n) (store_abs s)).
Proof.
  intros Hwf. apply (purge_then_ok (λ _, gets (Store.find_by_prefix prefix))); [done|].
  intros s' Hwf' Habs. apply gets_ok; [done..|]. by rewrite find_by_prefix_ok, Habs.
Qed.
End tric.
