(* ===== verification/DataBus.v ===== *)
(** The storage interface of the server, src/core/data_bus.rs.  [DataBus] is the
    trait; [TimedBus] is what its clients rely on: a bus is a key-value map whose
    entries may expire, and each method answers from, and changes, the contents
    a reader sees.  The transient implementation [TricBus] is here; the permutive
    one is in Permutive.v. *)
From stdpp Require Import prelude gmap sorting strings.
From Stdlib Require Import NArith Lia.
From S2P Require Import Prelude.
From S2P Require Import Bytes.
From S2P Require Import BTree.
From S2P Require Import Clock.
From S2P Require Import TimedMap.
From S2P Require Import Store.
From S2P Require Import Tric.

Class DataBus (S : Type) : Type := {
  read_value : bytes → M (World S) (option bytes);
  write_value : bytes → bytes → M (World S) unit;
  delete_value : bytes → M (World S) unit;
  delete_value_if_match : bytes → bytes → M (World S) bool;
  write_ttl : bytes → Duration → M (World S) unit;
  write_value_with_ttl : bytes → bytes → Duration → M (World S) unit;
  read_ttl_remaining : bytes → M (World S) (option Duration);
  find_by_prefix : bytes → M (World S) (list (bytes * bytes));
}.

(** [impl DataBus for TricBus]. *)
Definition TricBus : Type := Tric.
Definition create_tric_bus : TricBus := create_tric.

#[export] Instance TricBus_DataBus `{Clock} : DataBus TricBus := {
  read_value := Tric.read_value;
  write_value := Tric.write_value;
  delete_value := Tric.delete_value;
  delete_value_if_match := Tric.delete_value_if_match;
  write_ttl := Tric.write_ttl;
  write_value_with_ttl := Tric.write_value_with_ttl;
  read_ttl_remaining := Tric.read_ttl_remaining;
  find_by_prefix := Tric.find_by_prefix;
}.

(** [m], run on a world, returns [a]; [now] is a clock reading made by the call,
    and from [now] on the state shows the contents [f] makes of the old ones. *)
Definition bus_returns {S A : Type} `{Clock} (wf : S → Prop) (contents : S → Instant → gmap bytes bytes)
  (m : M (World S) A) (w : World S) (a : A) (now : Instant)
  (f : Instant → gmap bytes bytes → gmap bytes bytes) : Prop :=
  ∃ w', m w = (Returned a, w') ∧ (tick w ≤ tick w')%nat ∧ wf (st w') ∧
        sample (tick w) ≤ now ≤ sample (tick w') ∧
        ∀ t, now ≤ t → contents (st w') t = f t (contents (st w) t).

(** The contents after a key was given an expiry instant. *)
Definition expiring (k v : bytes) (i t : Instant) (c : gmap bytes bytes) : gmap bytes bytes :=
  if decide (t < i) then <[k := v]> c else delete k c.

(** What the remaining time-to-live of a key says at [now]: it is only reported
    of a key that is there, and of a key that expires it is reported, exactly.
    Of a key that does not expire a cache may report its own. *)
Definition remaining_ok (c : Instant → gmap bytes bytes) (k : bytes) (now : Instant) (r : option Duration) : Prop :=
  (is_Some r → is_Some (c now !! k)) ∧
  ∀ i, now < i → (∀ t, now ≤ t → is_Some (c t !! k) ↔ t < i) → r = Some (i - now).

Class TimedBus (S : Type) `{Clock, !DataBus S} : Type := {
  bus_wf : S → Prop;
  bus_contents : S → Instant → gmap bytes bytes;
  (** The keys the bus has a place for. *)
  bus_writable : bytes → Prop;

  bus_read_law : ∀ w k, bus_wf (st w) → ∃ now,
    bus_returns bus_wf bus_contents (read_value k) w
      (bus_contents (st w) (sample (tick w)) !! k) now (λ _ c, c);
  bus_write_law : ∀ w k v, bus_wf (st w) → bus_writable k → ∃ now,
    bus_returns bus_wf bus_contents (write_value k v) w () now (λ _ c, <[k := v]> c);
  bus_delete_law : ∀ w k, bus_wf (st w) → ∃ now,
    bus_returns bus_wf bus_contents (delete_value k) w () now (λ _ c, delete k c);
  bus_delete_if_match_law : ∀ w k e, bus_wf (st w) → ∃ now,
    let hit := bool_decide (bus_contents (st w) (sample (tick w)) !! k = Some e) in
    bus_returns bus_wf bus_contents (delete_value_if_match k e) w hit now
      (λ _ c, if hit then delete k c else c);
  bus_write_ttl_law : ∀ w k d, bus_wf (st w) → duration_ok d → ∃ now,
    bus_returns bus_wf bus_contents (write_ttl k d) w () now
      (λ t c, match bus_contents (st w) now !! k with
              | Some v => expiring k v (now + d) t c
              | None => c
              end);
  bus_write_value_with_ttl_law : ∀ w k v d, bus_wf (st w) → duration_ok d → ∃ now,
    bus_returns bus_wf bus_contents (write_value_with_ttl k v d) w () now
      (λ t c, expiring k v (now + d) t c);
  bus_read_ttl_remaining_law : ∀ w k, bus_wf (st w) → ∃ r now,
    bus_returns bus_wf bus_contents (read_ttl_remaining k) w r now (λ _ c, c) ∧
    remaining_ok (bus_contents (st w)) k (sample (tick w)) r;
  bus_find_by_prefix_law : ∀ w p, bus_wf (st w) → ∃ now,
    bus_returns bus_wf bus_contents (find_by_prefix p) w
      (prefix_entries p (bus_contents (st w) (sample (tick w)))) now (λ _ c, c);
}.

(** A key's contents at a later time, after an expiry was attached. *)
Lemma expiring_lookup k v i t c k' :
  expiring k v i t c !! k' = if decide (k = k') then (if decide (t < i) then Some v else None) else c !! k'.
Proof.
  unfold expiring. repeat case_decide; subst;
    rewrite ?lookup_insert_eq, ?lookup_delete_eq, ?lookup_insert_ne, ?lookup_delete_ne by done; done.
Qed.

(** The transient tier reports what it holds. *)
Lemma tm_remaining_ok T k now : remaining_ok (tm_contents T) k now (tm_ttl_remaining k now (tm_purge now T)).
Proof.
  unfold tm_ttl_remaining. split.
  - unfold tm_contents. rewrite lookup_fmap. destruct (tm_purge now T !! k) as [[v e]|]; [simpl; eauto|by intros []].
  - intros i Hi Hc. destruct (proj2 (Hc now (reflexivity _)) Hi) as [v Hv].
    apply tm_contents_lookup in Hv as (e & Hk & Hl).
    assert (∀ t, now ≤ t → live t (v, e) ↔ t < i) as Hlive.
    { intros t Ht. rewrite <- Hc by done. split.
      - intros Hlt. exists v. apply tm_contents_lookup. by exists e.
      - intros [v' (e' & Hk' & Hl')%tm_contents_lookup]. by simplify_eq. }
    assert (tm_purge now T !! k = Some (v, e)) as -> by (by apply map_lookup_filter_Some).
    unfold live in Hlive. simpl in *. destruct e as [j|]; simpl.
    + pose proof (Hlive i) as H1. pose proof (Hlive j) as H2. unfold live in Hl. simpl in Hl.
      assert (i = j) as <- by lia. unfold checked_duration_since. rewrite (proj2 (N.leb_le _ _)) by lia. done.
    + exfalso. destruct (Hlive i) as [H1 _]; [lia|]. specialize (H1 I). lia.
Qed.

(** * TricBus keeps the contract *)
Section tric_bus.
Context `{Clock}.

Lemma tric_ok_returns {A} (m : M (World TricBus) A) (w : World TricBus) a T f :
  tric_ok m (tick w) (st w) a T →
  (∀ t, sample (tick w) ≤ t → tm_contents T t = f t (tm_contents (store_abs (st w)) t)) →
  bus_returns store_wf (λ s, tm_contents (store_abs s)) m w a (sample (tick w)) f.
Proof.
  destruct w as [n s]. simpl. intros (s' & Hm & Hwf & <-) Hf.
  exists (mkWorld (S n) s'). split_and!; simpl; [done|lia|done|done| |done].
  apply sample_mono. lia.
Qed.

#[export] Program Instance TricBus_TimedBus : TimedBus TricBus := {|
  bus_wf := store_wf;
  bus_contents := λ s, tm_contents (store_abs s);
  bus_writable := λ _, True;
|}.
Next Obligation.
  intros w k Hwf. eexists. eapply tric_ok_returns; [by apply read_value_tric|].
  intros t Ht. by apply tm_contents_purge.
Qed.
Next Obligation.
  intros w k v Hwf _. eexists. eapply tric_ok_returns; [by apply write_value_tric|].
  intros t Ht. by rewrite tm_contents_write, tm_contents_purge.
Qed.
Next Obligation.
  intros w k Hwf. eexists. eapply tric_ok_returns; [by apply delete_value_tric|].
  intros t Ht. by rewrite tm_contents_delete, tm_contents_purge.
Qed.
Next Obligation.
  intros w k e Hwf. eexists. eapply tric_ok_returns; [by apply delete_value_if_match_tric|].
  intros t Ht. case_bool_decide; [rewrite decide_True by done|rewrite decide_False by done];
    by rewrite ?tm_contents_delete, tm_contents_purge.
Qed.
Next Obligation.
  intros w k d Hwf Hd. exists (sample (tick w)). eapply tric_ok_returns; [by apply write_ttl_tric|].
  intros t Ht. destruct (tm_purge (sample (tick w)) (store_abs (st w)) !! k) as [[v e]|] eqn:E.
  - rewrite (tm_contents_write_ttl k _ _ t v e E), tm_contents_purge by done.
    unfold tm_contents at 3. by rewrite lookup_fmap, E.
  - unfold tm_contents at 2. rewrite lookup_fmap, E. simpl.
    unfold tm_write_ttl. rewrite alter_id; [by apply tm_contents_purge|]. congruence.
Qed.
Next Obligation.
  intros w k v d Hwf Hd. exists (sample (tick w)).
  eapply tric_ok_returns; [by apply write_value_with_ttl_tric|].
  intros t Ht. by rewrite tm_contents_write_with_ttl, tm_contents_purge.
Qed.
Next Obligation.
  intros w k Hwf. eexists _, _. split.
  - eapply tric_ok_returns; [by apply read_ttl_remaining_tric|]. intros t Ht. by apply tm_contents_purge.
  - apply tm_remaining_ok.
Qed.
Next Obligation.
  intros w p Hwf. eexists. eapply tric_ok_returns; [by apply find_by_prefix_tric|].
  intros t Ht. by apply tm_contents_purge.
Qed.
End tric_bus.
