(* ===== verification/BusSpec.v ===== *)
(** What a storage bus promises, and that every implementation keeps it.  The
    operations of the [DataBus] trait as data, the abstract machine they run on
    (a map of values with expiry instants, [timed_map]), and the refinement: any
    sequence of operations on any bus with the contract [TimedBus] returns what
    the abstract machine returns; what the machine allows for the time-to-live of a
    key that does not expire is what the bus promises of it ([TtlPromise]).  Below, what the clients of a bus reason with:
    calls that cannot fail ([returns]), that change the contents in one way at all
    later times ([transforms]), or leave them alone ([observes]). *)
From stdpp Require Import prelude gmap sorting strings.
From Stdlib Require Import NArith Lia.
From S2P Require Import Prelude.
From S2P Require Import Bytes.
From S2P Require Import BTree.
From S2P Require Import Clock.
From S2P Require Import TimedMap.
From S2P Require Import Store.
From S2P Require Import Tric.
From S2P Require Import DataBus.

Inductive BusOp : Type :=
| OpRead (k : bytes)
| OpWrite (k v : bytes)
| OpDelete (k : bytes)
| OpDeleteIfMatch (k expected : bytes)
| OpWriteTtl (k : bytes) (d : Duration)
| OpWriteWithTtl (k v : bytes) (d : Duration)
| OpReadTtl (k : bytes)
| OpScan (prefix : bytes).

Inductive BusReply : Type :=
| ReplyValue (value : option bytes)
| ReplyUnit
| ReplyMatched (matched : bool)
| ReplyTtl (remaining : option Duration)
| ReplyPairs (pairs : list (bytes * bytes)).

(** The call of the trait an operation is. *)
Definition run_op {S} `{DataBus S} (op : BusOp) : M (World S) BusReply :=
  match op with
  | OpRead k => r ← read_value k; mret (ReplyValue r)
  | OpWrite k v => write_value k v ;; mret ReplyUnit
  | OpDelete k => delete_value k ;; mret ReplyUnit
  | OpDeleteIfMatch k e => r ← delete_value_if_match k e; mret (ReplyMatched r)
  | OpWriteTtl k d => write_ttl k d ;; mret ReplyUnit
  | OpWriteWithTtl k v d => write_value_with_ttl k v d ;; mret ReplyUnit
  | OpReadTtl k => r ← read_ttl_remaining k; mret (ReplyTtl r)
  | OpScan p => r ← find_by_prefix p; mret (ReplyPairs r)
  end.

Definition run_ops {S} `{DataBus S} (ops : list BusOp) : M (World S) (list BusReply) :=
  mmap run_op ops.

(** * The abstract machine *)
Section machine.

(** What a bus may answer for the remaining time-to-live of a key that does not
    expire: nothing, or, if it has a cache, what its cache says. *)
Variable free : option Duration → Prop.

(** The remaining time-to-live: exact for a key that expires, none for a key that
    is not there. *)
Definition ttl_reply (k : bytes) (now : Instant) (T : timed_map) (r : option Duration) : Prop :=
  match tm_purge now T !! k with
  | None => r = None
  | Some (_, Some i) => r = Some (i - now)
  | Some (_, None) => free r
  end.

(** One operation at time [now]. *)
Inductive spec_step (now : Instant) : BusOp → timed_map → BusReply → timed_map → Prop :=
| spec_read k T : spec_step now (OpRead k) T (ReplyValue (tm_contents T now !! k)) T
| spec_write k v T : spec_step now (OpWrite k v) T ReplyUnit (tm_write k v T)
| spec_delete k T : spec_step now (OpDelete k) T ReplyUnit (delete k T)
| spec_match k e T : tm_contents T now !! k = Some e →
    spec_step now (OpDeleteIfMatch k e) T (ReplyMatched true) (delete k T)
| spec_mismatch k e T : tm_contents T now !! k ≠ Some e →
    spec_step now (OpDeleteIfMatch k e) T (ReplyMatched false) T
| spec_write_ttl k d T :
    spec_step now (OpWriteTtl k d) T ReplyUnit (tm_write_ttl k (now + d) (tm_purge now T))
| spec_write_with_ttl k v d T :
    spec_step now (OpWriteWithTtl k v d) T ReplyUnit (tm_write_with_ttl k v (now + d) T)
| spec_read_ttl k r T : ttl_reply k now T r →
    spec_step now (OpReadTtl k) T (ReplyTtl r) T
| spec_scan p T : spec_step now (OpScan p) T (ReplyPairs (prefix_entries p (tm_contents T now))) T.

(** A run of the abstract machine between two times: each operation takes
    effect at one instant, in the order of the calls. *)
Inductive spec_run : Instant → list BusOp → timed_map → list BusReply → timed_map → Instant → Prop :=
| spec_done t t' T : t ≤ t' → spec_run t [] T [] T t'
| spec_next t now op ops T T' T'' r rs t' :
    t ≤ now → spec_step now op T r T' → spec_run now ops T' rs T'' t' →
    spec_run t (op :: ops) T (r :: rs) T'' t'.

Lemma spec_run_weaken t0 t ops T rs T' t' : t0 ≤ t → spec_run t ops T rs T' t' → spec_run t0 ops T rs T' t'.
Proof. intros Hle Hr. inversion Hr; subst; [apply spec_done; lia|]. eapply spec_next; [|eassumption..]. lia. Qed.

Lemma spec_run_time t ops T rs T' t' : spec_run t ops T rs T' t' → t ≤ t'.
Proof. induction 1; lia. Qed.
End machine.

(** The arguments the server passes: keys the bus has a place for, durations that
    can be added to the clock. *)
Definition op_admissible {S} `{TimedBus S} (op : BusOp) : Prop :=
  match op with
  | OpWrite k _ => bus_writable k
  | OpWriteTtl _ d | OpWriteWithTtl _ _ d => duration_ok d
  | _ => True
  end.

(** What a bus promises of the time-to-live of keys that do not expire: its runs
    keep an invariant, of its state and the clock, under which the answer for such
    a key is one of [free]. *)
Class TtlPromise (S : Type) `{TimedBus S} (free : option Duration → Prop) (inv : World S → Prop) : Prop := {
  promise_kept op w r w' : bus_wf (st w) → inv w → op_admissible op → run_op op w = (Returned r, w') → inv w';
  promise_reply k w r w' : bus_wf (st w) → inv w → run_op (OpReadTtl k) w = (Returned (ReplyTtl r), w') →
    (∀ t, sample (tick w) ≤ t → is_Some (bus_contents (st w) t !! k)) → free r;
}.

Section refinement.
Context {S : Type} `{TimedBus S} {free : option Duration → Prop} {inv : World S → Prop} {Hpromise : TtlPromise S free inv}.

(** From [now] on, the bus shows the contents of the abstract map. *)
Definition simulates (now : Instant) (s : S) (T : timed_map) : Prop :=
  ∀ t, now ≤ t → bus_contents s t = tm_contents T t.

Lemma simulates_mono now now' s T : now ≤ now' → simulates now s T → simulates now' s T.
Proof. intros Hle Hs t Ht. apply Hs. lia. Qed.

(** What an abstract step does to the contents. *)
Lemma contents_write_ttl k d now T t :
  now ≤ t →
  tm_contents (tm_write_ttl k (now + d) (tm_purge now T)) t =
  match tm_contents T now !! k with
  | Some v => expiring k v (now + d) t (tm_contents T t)
  | None => tm_contents T t
  end.
Proof.
  intros Ht. unfold tm_contents at 2. rewrite lookup_fmap.
  destruct (tm_purge now T !! k) as [[v e]|] eqn:E; simpl.
  - rewrite (tm_contents_write_ttl k _ _ t v e E), tm_contents_purge by done. done.
  - unfold tm_write_ttl. rewrite alter_id by congruence. by apply tm_contents_purge.
Qed.

Lemma remaining_reply c k now T r :
  (∀ t, now ≤ t → c t = tm_contents T t) → remaining_ok c k now r →
  ((∀ t, now ≤ t → is_Some (c t !! k)) → free r) → ttl_reply free k now T r.
Proof using Type.
  intros Hc [Hin Hex] Hfree. unfold ttl_reply. destruct (tm_purge now T !! k) as [[v [i|]]|] eqn:E.
  2: { apply map_lookup_filter_Some in E as [Hk _]. apply Hfree. intros t Ht. exists v.
       rewrite Hc by done. apply tm_contents_lookup. by exists None. }
  - apply map_lookup_filter_Some in E as [Hk Hl]. apply Hex; [done|]. intros t Ht. rewrite Hc by done. split.
    + intros [v' (e & He & Hle)%tm_contents_lookup]. by simplify_eq.
    + intros Hlt. exists v. apply tm_contents_lookup. by exists (Some i).
  - destruct r as [d|]; [|done]. destruct Hin as [v Hv]; [done|]. rewrite Hc in Hv by done.
    unfold tm_contents in Hv. by rewrite lookup_fmap, E in Hv.
Qed.

(** A call of the bus, seen from the abstract machine: if the abstract step, at
    an instant of the call, makes the same of the contents, the two agree after. *)
Lemma bus_step {A} (m : M (World S) A) w a now f (op : BusOp) at_ r T T' (g : A → BusReply) :
  bus_returns bus_wf bus_contents m w a now f →
  run_op op w = (x ← m; mret (g x)) w →
  simulates (sample (tick w)) (st w) T →
  at_ = sample (tick w) ∨ at_ = now → r = g a → spec_step free at_ op T r T' →
  (∀ t, now ≤ t → f t (tm_contents T t) = tm_contents T' t) →
  ∃ r w' at_ T', run_op op w = (Returned r, w') ∧ bus_wf (st w') ∧ (tick w ≤ tick w')%nat ∧
    sample (tick w) ≤ at_ ≤ sample (tick w') ∧ spec_step free at_ op T r T' ∧
    simulates (sample (tick w')) (st w') T'.
Proof using Type.
  intros (w' & Hm & Htick & Hwf & Hnow & Hc) Hrun Hs Hat -> Hstep Hf.
  exists (g a), w', at_, T'. rewrite Hrun. run_with Hm. split_and!; try done.
  - destruct Hat as [-> | ->]; lia.
  - destruct Hat as [-> | ->]; [by apply sample_mono|lia].
  - intros t Ht. rewrite Hc, Hs by lia. apply Hf. lia.
Qed.

(** Every operation refines a step of the abstract machine. *)
Lemma run_op_refines op w T :
  bus_wf (st w) → inv w → op_admissible op → simulates (sample (tick w)) (st w) T →
  ∃ r w' at_ T', run_op op w = (Returned r, w') ∧ bus_wf (st w') ∧ (tick w ≤ tick w')%nat ∧
    sample (tick w) ≤ at_ ≤ sample (tick w') ∧ spec_step free at_ op T r T' ∧
    simulates (sample (tick w')) (st w') T'.
Proof using Hpromise.
  intros Hwf Hinv Hadm Hs. pose proof (Hs (sample (tick w)) (reflexivity _)) as Hn0.
  destruct op as [k|k v|k|k e|k d|k v d|k|p]; simpl in Hadm.
  - destruct (bus_read_law w k Hwf) as [now Hl]. rewrite Hn0 in Hl.
    eapply (bus_step _ _ _ _ _ _ _ _ _ _ _ Hl); [reflexivity|done|by left|done|constructor|done].
  - destruct (bus_write_law w k v Hwf Hadm) as [now Hl].
    eapply (bus_step _ _ _ _ _ _ _ _ _ _ (λ _, ReplyUnit) Hl);
      [reflexivity|done|by left|done|constructor|]. intros t _. by rewrite tm_contents_write.
  - destruct (bus_delete_law w k Hwf) as [now Hl].
    eapply (bus_step _ _ _ _ _ _ _ _ _ _ (λ _, ReplyUnit) Hl);
      [reflexivity|done|by left|done|constructor|]. intros t _. by rewrite tm_contents_delete.
  - destruct (bus_delete_if_match_law w k e Hwf) as [now Hl]. cbv zeta in Hl. rewrite Hn0 in Hl.
    eapply (bus_step _ _ _ _ _ _ _ _ _ (if bool_decide (tm_contents T (sample (tick w)) !! k = Some e)
      then delete k T else T) _ Hl); [reflexivity|done|by left|done| |].
    + case_bool_decide; by constructor.
    + intros t _. case_bool_decide; by rewrite ?tm_contents_delete.
  - destruct (bus_write_ttl_law w k d Hwf Hadm) as [now Hl].
    assert (sample (tick w) ≤ now) as Hle by (destruct Hl; tauto). rewrite (Hs now Hle) in Hl.
    eapply (bus_step _ _ _ _ _ _ _ _ _ _ (λ _, ReplyUnit) Hl);
      [reflexivity|done|by right|done|constructor|]. intros t Ht. by rewrite contents_write_ttl.
  - destruct (bus_write_value_with_ttl_law w k v d Hwf Hadm) as [now Hl].
    eapply (bus_step _ _ _ _ _ _ _ _ _ _ (λ _, ReplyUnit) Hl);
      [reflexivity|done|by right|done|constructor|]. intros t _. by rewrite tm_contents_write_with_ttl.
  - destruct (bus_read_ttl_remaining_law w k Hwf) as (r & now & Hl & Hr).
    eapply (bus_step _ _ _ _ _ _ _ _ _ _ _ Hl); [reflexivity|done|by left|done| |done].
    constructor. apply (remaining_reply (bus_contents (st w))); [done|done|].
    destruct Hl as (w' & Hm & _). apply (promise_reply k w r w' Hwf Hinv). simpl. by run_with Hm.
  - destruct (bus_find_by_prefix_law w p Hwf) as [now Hl]. rewrite Hn0 in Hl.
    eapply (bus_step _ _ _ _ _ _ _ _ _ _ _ Hl); [reflexivity|done|by left|done|constructor|done].
Qed.

(** Every sequence of operations refines a run of the abstract machine. *)
Lemma run_ops_refines ops w T :
  bus_wf (st w) → inv w → Forall op_admissible ops → simulates (sample (tick w)) (st w) T →
  ∃ rs w' T', run_ops ops w = (Returned rs, w') ∧ bus_wf (st w') ∧ (tick w ≤ tick w')%nat ∧
    spec_run free (sample (tick w)) ops T rs T' (sample (tick w')) ∧ inv w' ∧ simulates (sample (tick w')) (st w') T'.
Proof using Hpromise.
  intros Hwf Hinv Hadm. revert w T Hwf Hinv. induction Hadm as [|op ops Hop Hops IH]; intros w T Hwf Hinv Hs.
  - exists [], w, T. split_and!; try done. by constructor.
  - destruct (run_op_refines op w T Hwf Hinv Hop Hs) as (r & w1 & at_ & T1 & Hrun & Hwf1 & Ht1 & [Hb Ha] & Hst & Hs1).
    destruct (IH w1 T1 Hwf1 (promise_kept op w r w1 Hwf Hinv Hop Hrun) Hs1) as (rs & w2 & T2 & Hrun2 & Hwf2 & Ht2 & Hst2 & Hinv2 & Hs2).
    exists (r :: rs), w2, T2. split_and!; try done; try lia.
    + unfold run_ops in *. simpl. run_with Hrun. by run_with Hrun2.
    + eapply spec_next; [done|done|]. eapply spec_run_weaken; [exact Ha|done].
Qed.
End refinement.

(** The transient bus has no cache: of a key that does not expire it answers
    nothing. *)
#[export] Instance TricBus_TtlPromise `{Clock} : TtlPromise TricBus (λ r, r = None) (λ _, True).
Proof.
  split; [done|]. intros k [n s] r w' Hwf _. unfold run_op. cbn [DataBus.read_ttl_remaining TricBus_DataBus st tick].
  destruct (read_ttl_remaining_tric k n s Hwf) as (s' & Hread & _). run_with Hread. intros [= <- _] Hstays.
  unfold tm_ttl_remaining. destruct (tm_purge (sample n) (store_abs s) !! k) as [[v [i|]]|] eqn:E; [|done..].
  apply map_lookup_filter_Some in E as [Hk Hl]. cbn in Hl. exfalso.
  destruct (Hstays i ltac:(lia)) as [v' (e & Hk' & Hl')%tm_contents_lookup]. simplify_eq. cbn in Hl'. lia.
Qed.

(** * Calls that cannot fail *)

(** [m] returns from every well-formed bus, in a well-formed bus, a value with
    the property. *)
Definition returns {S} `{TimedBus S} {A : Type} (m : M (World S) A) (P : A → Prop) : Prop :=
  ∀ w, bus_wf (st w) → ∃ a w', m w = (Returned a, w') ∧ bus_wf (st w') ∧ (tick w ≤ tick w')%nat ∧ P a.

Section returns.
Context {S : Type} `{TimedBus S}.

Lemma returns_ret {A} (a : A) (P : A → Prop) : P a → returns (S := S) (mret a) P.
Proof. intros HP w Hw. by exists a, w. Qed.

Lemma returns_bind {A B} (m : M (World S) A) (f : A → M (World S) B) P Q :
  returns m P → (∀ a, P a → returns (f a) Q) → returns (m ≫= f) Q.
Proof.
  intros Hm Hf w Hw. destruct (Hm w Hw) as (a & w1 & Hrun & Hw1 & Ht1 & HP).
  destruct (Hf a HP w1 Hw1) as (b & w2 & Hrun2 & Hw2 & Ht2 & HQ). exists b, w2. run_with Hrun.
  split_and!; try done. lia.
Qed.

Lemma returns_seq {B} (m : M (World S) unit) (f : unit → M (World S) B) Q :
  returns m (λ _, True) → returns (f ()) Q → returns (m ≫= f) Q.
Proof. intros Hm Hf. eapply returns_bind; [exact Hm|]. by intros []. Qed.

Lemma returns_weaken {A} (m : M (World S) A) (P Q : A → Prop) :
  returns m P → (∀ a, P a → Q a) → returns m Q.
Proof. intros Hm HPQ w Hw. destruct (Hm w Hw) as (a & w' & ? & ? & ? & ?). exists a, w'. eauto. Qed.

Lemma returns_lift {A} (o : Outcome A) a (P : A → Prop) :
  o = Returned a → P a → returns (S := S) (lift_outcome o) P.
Proof. intros -> HP w Hw. by exists a, w. Qed.

(** A call whose outcome is known. *)
Lemma returns_lift_bind {A B} (o : Outcome A) a (f : A → M (World S) B) (Q : B → Prop) :
  o = Returned a → returns (f a) Q → returns (lift_outcome o ≫= f) Q.
Proof. intros -> Hf w Hw. destruct (Hf w Hw) as (b & w' & ? & ? & ? & ?). by exists b, w'. Qed.

Lemma returns_mfor {A} (l : list A) (f : A → M (World S) unit) :
  (∀ x, returns (f x) (λ _, True)) → returns (mfor l f) (λ _, True).
Proof.
  intros Hf. induction l as [|x l IH]; simpl; [by apply returns_ret|].
  eapply returns_bind; [apply Hf|]. by intros [] _.
Qed.

Lemma returns_mfor_in {A} (l : list A) (f : A → M (World S) unit) :
  (∀ x, x ∈ l → returns (f x) (λ _, True)) → returns (mfor l f) (λ _, True).
Proof.
  intros Hf. induction l as [|x l IH]; simpl; [by apply returns_ret|].
  eapply returns_bind; [apply Hf; by left|]. intros [] _. apply IH. intros y Hy. apply Hf. by right.
Qed.

Lemma returns_mmap {A B} (f : A → M (World S) B) (P : B → Prop) l :
  (∀ x, returns (f x) P) → returns (mmap f l) (Forall P).
Proof.
  intros Hf. induction l as [|x l IH]; simpl; [by apply returns_ret|].
  eapply returns_bind; [apply Hf|]. intros y Hy. eapply returns_bind; [apply IH|].
  intros ys Hys. apply returns_ret. by constructor.
Qed.

Lemma bus_returns_returns {A} (m : M (World S) A) :
  (∀ w, bus_wf (st w) → ∃ a now f, bus_returns bus_wf bus_contents m w a now f) →
  returns m (λ _, True).
Proof.
  intros Hm w Hw. destruct (Hm w Hw) as (a & now & f & w' & Hrun & ? & ? & _). by exists a, w'.
Qed.

Lemma returns_read k : returns (read_value k) (λ _, True).
Proof. apply bus_returns_returns. intros w Hw. destruct (bus_read_law w k Hw). eauto. Qed.
Lemma returns_write k v : bus_writable k → returns (write_value k v) (λ _, True).
Proof. intros Hk. apply bus_returns_returns. intros w Hw. destruct (bus_write_law w k v Hw Hk). eauto. Qed.
Lemma returns_delete k : returns (delete_value k) (λ _, True).
Proof. apply bus_returns_returns. intros w Hw. destruct (bus_delete_law w k Hw). eauto. Qed.
Lemma returns_delete_if_match k e : returns (delete_value_if_match k e) (λ _, True).
Proof. apply bus_returns_returns. intros w Hw. destruct (bus_delete_if_match_law w k e Hw). eauto. Qed.
Lemma returns_write_ttl k d : duration_ok d → returns (write_ttl k d) (λ _, True).
Proof. intros Hd. apply bus_returns_returns. intros w Hw. destruct (bus_write_ttl_law w k d Hw Hd). eauto. Qed.
Lemma returns_write_value_with_ttl k v d : duration_ok d → returns (write_value_with_ttl k v d) (λ _, True).
Proof.
  intros Hd. apply bus_returns_returns. intros w Hw.
  destruct (bus_write_value_with_ttl_law w k v d Hw Hd). eauto.
Qed.
Lemma returns_read_ttl_remaining k : returns (read_ttl_remaining k) (λ _, True).
Proof.
  apply bus_returns_returns. intros w Hw. destruct (bus_read_ttl_remaining_law w k Hw) as (r & now & Hl & _). eauto.
Qed.
Lemma returns_find_by_prefix p : returns (find_by_prefix p) (λ _, True).
Proof. apply bus_returns_returns. intros w Hw. destruct (bus_find_by_prefix_law w p Hw). eauto. Qed.
End returns.

#[export] Hint Resolve returns_read returns_write returns_delete returns_delete_if_match returns_write_ttl
  returns_write_value_with_ttl returns_read_ttl_remaining returns_find_by_prefix : returns.

(** Follow the binds of a handler; every bus call is resolved by its lemma. *)
Ltac returns_step :=
  lazymatch goal with
  | |- returns (mret _) _ => apply returns_ret
  | |- returns (_ ≫= _) _ =>
      first [apply returns_seq; [try solve [eauto with returns]|]|
             eapply returns_bind; [try solve [eauto with returns]|intros ? ?]]
  | |- returns (if ?b then _ else _) _ => destruct b eqn:?
  | |- returns (match ?x with _ => _ end) _ => destruct x eqn:?
  end.

(** * Calls that change the contents in one way at all later times *)

(** From every well-formed bus, [m] returns [a], and a reader sees what [f] makes
    of the contents. *)
Definition transforms {S} `{TimedBus S} {A : Type} (m : M (World S) A) (a : A)
  (f : gmap bytes bytes → gmap bytes bytes) : Prop :=
  ∀ w, bus_wf (st w) → ∃ w', m w = (Returned a, w') ∧ bus_wf (st w') ∧ (tick w ≤ tick w')%nat ∧
    ∀ t, sample (tick w') ≤ t → bus_contents (st w') t = f (bus_contents (st w) t).

(** The contents after a list of writes. *)
Definition write_all (writes : list (bytes * bytes)) (c : gmap bytes bytes) : gmap bytes bytes :=
  foldl (λ c e, <[e.1 := e.2]> c) c writes.

Lemma write_all_app ws1 ws2 c : write_all (ws1 ++ ws2) c = write_all ws2 (write_all ws1 c).
Proof. apply foldl_app. Qed.

Lemma write_all_cons e ws c : write_all (e :: ws) c = write_all ws (<[e.1 := e.2]> c).
Proof. done. Qed.

Lemma write_all_other ws c k : k ∉ ws.*1 → write_all ws c !! k = c !! k.
Proof.
  revert c. induction ws as [|[k' v] ws IH]; intros c Hk; [done|]. csimpl in Hk.
  apply not_elem_of_cons in Hk as [Hne Hk]. rewrite write_all_cons, IH by done.
  by apply lookup_insert_ne.
Qed.

(** A key all of whose writes have the same value has that value. *)
Lemma write_all_lookup ws c k v :
  (k, v) ∈ ws → (∀ v', (k, v') ∈ ws → v' = v) → write_all ws c !! k = Some v.
Proof.
  revert c. induction ws as [|[k' v'] ws IH]; intros c Hin Hu; [by apply elem_of_nil in Hin|].
  rewrite write_all_cons. destruct (decide (k ∈ ws.*1)) as [Hk|Hk].
  - apply list_elem_of_fmap in Hk as ([k2 v2] & -> & Hk). assert (v2 = v) as -> by (apply Hu; by right).
    apply IH; [done|]. intros v3 Hv3. apply Hu. by right.
  - rewrite write_all_other by done. apply elem_of_cons in Hin as [[= <- <-]|Hin]; [apply lookup_insert_eq|].
    destruct Hk. apply list_elem_of_fmap. by exists (k, v).
Qed.

(** What a key has after the writes was written, or was there before. *)
Lemma write_all_inv ws c k v : write_all ws c !! k = Some v → (k, v) ∈ ws ∨ c !! k = Some v.
Proof.
  revert c. induction ws as [|[k' v'] ws IH]; intros c Hk; [by right|].
  destruct (IH _ Hk) as [Hin|Hc]; [left; by right|]. cbn [fst snd] in Hc.
  apply lookup_insert_Some in Hc as [[<- <-]|[_ Hc]]; [left; by left|by right].
Qed.

Section transforms.
Context {S : Type} `{TimedBus S}.

Lemma transforms_ret {A} (a : A) : transforms (mret a) a id.
Proof. intros w Hw. by exists w. Qed.

Lemma transforms_bind {A B} (m : M (World S) A) (k : A → M (World S) B) a b f g :
  transforms m a f → transforms (k a) b g → transforms (m ≫= k) b (λ c, g (f c)).
Proof.
  intros Hm Hk w Hw. destruct (Hm w Hw) as (w1 & Hrun & Hw1 & Ht1 & Hc1).
  destruct (Hk w1 Hw1) as (w2 & Hrun2 & Hw2 & Ht2 & Hc2). exists w2. run_with Hrun.
  split_and!; [done|done|lia|]. intros t Ht. pose proof (sample_mono _ _ Ht2).
  rewrite Hc2, Hc1 by lia. done.
Qed.

Lemma transforms_lift {A B} (o : Outcome A) (k : A → M (World S) B) a b g :
  o = Returned a → transforms (k a) b g → transforms (lift_outcome o ≫= k) b g.
Proof. intros -> Hk w Hw. destruct (Hk w Hw) as (w' & Hrun & ?). by exists w'. Qed.

Lemma transforms_ext {A} (m : M (World S) A) a f g :
  transforms m a f → (∀ c, f c = g c) → transforms m a g.
Proof. intros Hm Hfg w Hw. destruct (Hm w Hw) as (w' & ? & ? & ? & Hc). exists w'. by setoid_rewrite <- Hfg. Qed.

Lemma transforms_write k v : bus_writable k → transforms (write_value k v) () <[k := v]>.
Proof.
  intros Hk w Hw. destruct (bus_write_law w k v Hw Hk) as (now & w' & Hrun & Ht & Hw' & Hn & Hc).
  exists w'. split_and!; [done..|]. intros t Hle. apply Hc. lia.
Qed.

Lemma transforms_delete k : transforms (delete_value k) () (delete k).
Proof.
  intros w Hw. destruct (bus_delete_law w k Hw) as (now & w' & Hrun & Ht & Hw' & Hn & Hc).
  exists w'. split_and!; [done..|]. intros t Hle. apply Hc. lia.
Qed.

Lemma transforms_returns {A} (m : M (World S) A) a f : transforms m a f → returns m (λ _, True).
Proof. intros Hm w Hw. destruct (Hm w Hw) as (w' & ? & ? & ? & _). by exists a, w'. Qed.
End transforms.

(** * Calls that do so but for the lifetimes of some keys *)

(** A change of the contents that leaves each key alone or decides it. *)
Definition keywise (f : gmap bytes bytes → gmap bytes bytes) : Prop :=
  ∀ k, (∀ c, f c !! k = c !! k) ∨ ∃ x, ∀ c, f c !! k = x.

(** As [transforms], but the keys of the list may expire, or live on with what [f]
    makes of the contents of an earlier instant of the call or since. *)
Definition transforms_upto {S} `{TimedBus S} {A : Type} (ks : list bytes) (m : M (World S) A) (a : A)
  (f : gmap bytes bytes → gmap bytes bytes) : Prop :=
  ∀ w, bus_wf (st w) → ∃ w', m w = (Returned a, w') ∧ bus_wf (st w') ∧ (tick w ≤ tick w')%nat ∧
    ∀ t k, sample (tick w') ≤ t →
      (k ∉ ks → bus_contents (st w') t !! k = f (bus_contents (st w) t) !! k) ∧
      (bus_contents (st w') t !! k = None ∨
       ∃ t', sample (tick w) ≤ t' ≤ t ∧ bus_contents (st w') t !! k = f (bus_contents (st w) t') !! k).

Lemma keywise_id : keywise id.
Proof. by left. Qed.

Lemma keywise_compose f g : keywise f → keywise g → keywise (λ c, g (f c)).
Proof.
  intros Hf Hg k. destruct (Hg k) as [Hgk|[x Hgk]]; [|right; exists x; intros c; apply Hgk].
  destruct (Hf k) as [Hfk|[x Hfk]]; [left|right; exists x]; intros c; by rewrite Hgk, Hfk.
Qed.

Lemma keywise_insert (k v : bytes) : keywise <[k := v]>.
Proof.
  intros k'. destruct (decide (k' = k)) as [->|].
  - right. exists (Some v). intros c. apply lookup_insert_eq.
  - left. intros c. by apply lookup_insert_ne.
Qed.

Lemma keywise_write_all ws : keywise (write_all ws).
Proof.
  induction ws as [|e ws IH]; [apply keywise_id|].
  apply (keywise_compose <[e.1 := e.2]> (write_all ws)); [apply keywise_insert|done].
Qed.

Section upto.
Context {S : Type} `{TimedBus S}.

Lemma transforms_upto_exact {A} (m : M (World S) A) a f : transforms_upto [] m a f → transforms m a f.
Proof.
  intros Hm w Hw. destruct (Hm w Hw) as (w' & Hr & Hw' & Ht & Hc). exists w'. split_and!; [done..|].
  intros t Hle. apply map_eq. intros k. destruct (Hc t k Hle) as [Hk _]. apply Hk, not_elem_of_nil.
Qed.

Lemma transforms_upto_intro {A} ks (m : M (World S) A) a f : transforms m a f → transforms_upto ks m a f.
Proof.
  intros Hm w Hw. destruct (Hm w Hw) as (w' & Hr & Hw' & Ht & Hc). exists w'. split_and!; [done..|].
  pose proof (sample_mono _ _ Ht). intros t k Hle. rewrite Hc by done. split; [done|]. right. exists t. split; [lia|done].
Qed.

Lemma transforms_upto_ext {A} ks (m : M (World S) A) a f g :
  transforms_upto ks m a f → (∀ c, f c = g c) → transforms_upto ks m a g.
Proof. intros Hm Hfg w Hw. destruct (Hm w Hw) as (w' & ? & ? & ? & Hc). exists w'. by setoid_rewrite <- Hfg. Qed.

Lemma transforms_upto_bind {A B} ks (m : M (World S) A) (k : A → M (World S) B) a b f g :
  transforms_upto ks m a f → keywise g → transforms_upto ks (k a) b g →
  transforms_upto ks (m ≫= k) b (λ c, g (f c)).
Proof.
  intros Hm Hg Hk w Hw. destruct (Hm w Hw) as (w1 & Hrun & Hw1 & Ht1 & Hc1).
  destruct (Hk w1 Hw1) as (w2 & Hrun2 & Hw2 & Ht2 & Hc2). exists w2. run_with Hrun.
  pose proof (sample_mono _ _ Ht1). pose proof (sample_mono _ _ Ht2).
  split_and!; [done|done|lia|]. intros t key Ht. destruct (Hc2 t key Ht) as [Hoff Hon].
  destruct (Hg key) as [Hgk|[x Hgk]].
  - split.
    + intros Hkey. rewrite Hoff, !Hgk by done. by apply Hc1; [lia|].
    + destruct Hon as [Hn|(t1 & Hle1 & Hon)]; [by left|]. rewrite Hon, Hgk.
      destruct (Hc1 t1 key) as [_ [Hn|(t0 & Hle0 & Heq)]]; [lia|by left|].
      right. exists t0. split; [lia|]. by rewrite Hgk.
  - split; [intros Hkey; by rewrite Hoff, !Hgk by done|].
    destruct Hon as [Hn|(t1 & Hle1 & Hon)]; [by left|]. right. exists t. split; [lia|]. by rewrite Hon, !Hgk.
Qed.

(** A time-to-live, on a key of the list. *)
Lemma transforms_upto_ttl ks k d : duration_ok d → k ∈ ks → transforms_upto ks (write_ttl k d) () id.
Proof.
  intros Hd Hin w Hw. destruct (bus_write_ttl_law w k d Hw Hd) as (now & w' & Hrun & Ht & Hw' & Hn & Hc).
  exists w'. split_and!; [done..|]. pose proof (sample_mono _ _ Ht). intros t key Hle. cbn [id].
  rewrite Hc by lia. destruct (bus_contents (st w) now !! k) as [v|] eqn:Ev.
  - rewrite expiring_lookup. destruct (decide (key = k)) as [->|Hne].
    + split; [done|]. rewrite decide_True by done. case_decide; [|by left]. right. exists now. split; [lia|by rewrite Ev].
    + rewrite decide_False by done. split; [done|]. right. exists t. split; [lia|done].
  - split; [done|]. right. exists t. split; [lia|done].
Qed.
End upto.

(** * Calls that leave the contents alone *)
Section observes.
Context {S : Type} `{TimedBus S}.

(** From the present on, a reader sees the pair. *)
Definition shows (w : World S) (k v : bytes) : Prop := ∀ t, sample (tick w) ≤ t → bus_contents (st w) t !! k = Some v.

(** A call that returns and leaves all later contents alone. *)
Definition observes {A} (m : M (World S) A) (w : World S) (P : A → Prop) : Prop :=
  ∃ (a : A) (w' : World S), m w = (Returned a, w') ∧ P a ∧ bus_wf (st w') ∧ (tick w ≤ tick w')%nat ∧
    ∀ t, sample (tick w') ≤ t → bus_contents (st w') t = bus_contents (st w) t.

Lemma shows_later w w' k v :
  shows w k v → (tick w ≤ tick w')%nat →
  (∀ t, sample (tick w') ≤ t → bus_contents (st w') t = bus_contents (st w) t) → shows w' k v.
Proof. intros Hs Ht Hc t Hle. pose proof (sample_mono _ _ Ht). rewrite Hc by done. apply Hs. lia. Qed.

Lemma find_by_prefix_observes w p : bus_wf (st w) →
  observes (find_by_prefix p) w (λ r, r = prefix_entries p (bus_contents (st w) (sample (tick w)))).
Proof.
  intros Hwf. destruct (bus_find_by_prefix_law w p Hwf) as (now & w' & Hr & Ht & Hwf' & Hn & Hc).
  eexists _, w'. split_and!; [exact Hr|done|done|done|]. intros t Hle. apply Hc. lia.
Qed.

(** Steps that observe, one after the other. *)
Lemma mmap_observes {A B} (f : A → M (World S) B) (Q : B → Prop) (R : World S → Prop) l x0 w :
  (∀ x w, bus_wf (st w) → observes (f x) w (λ b, R w → x = x0 → Q b)) →
  (∀ w w', R w → (tick w ≤ tick w')%nat →
    (∀ t, sample (tick w') ≤ t → bus_contents (st w') t = bus_contents (st w) t) → R w') →
  bus_wf (st w) → observes (mmap f l) w (λ ys, R w → x0 ∈ l → ∃ y, y ∈ ys ∧ Q y).
Proof.
  intros Hf HR. revert w. induction l as [|x l IH]; intros w Hwf.
  - exists [], w. split_and!; try done. by intros _ []%elem_of_nil.
  - destruct (Hf x w Hwf) as (y & w1 & Hy & HQ & Hwf1 & Ht1 & Hc1).
    destruct (IH w1 Hwf1) as (ys & w2 & Hys & HQs & Hwf2 & Ht2 & Hc2). pose proof (sample_mono _ _ Ht2).
    exists (y :: ys), w2. split; [cbn [mmap]; run_with Hy; by run_with Hys|]. split_and!; [|done|lia|].
    + intros HRw Hin. apply elem_of_cons in Hin as [Hin|Hin]; [exists y; split; [by left|by apply HQ]|].
      destruct (HQs (HR w w1 HRw Ht1 Hc1) Hin) as (y' & ? & ?). exists y'. by split; [right|].
    + intros t Ht. rewrite Hc2, Hc1 by lia. done.
Qed.

Lemma observes_weaken {A} (m : M (World S) A) w (P Q : A → Prop) :
  observes m w P → (∀ a, P a → Q a) → observes m w Q.
Proof. intros (a & w' & Hm & HP & Hrest) HPQ. exists a, w'. split_and!; [done|by apply HPQ|apply Hrest..]. Qed.

Lemma observes_ret {A} (a : A) w (P : A → Prop) : bus_wf (st w) → P a → observes (mret a) w P.
Proof. intros Hwf HP. by exists a, w. Qed.

Lemma observes_bind {A B} (m : M (World S) A) (f : A → M (World S) B) w P Q :
  observes m w P →
  (∀ a w', bus_wf (st w') → (tick w ≤ tick w')%nat →
     (∀ t, sample (tick w') ≤ t → bus_contents (st w') t = bus_contents (st w) t) → P a → observes (f a) w' Q) →
  observes (m ≫= f) w Q.
Proof.
  intros (a & w1 & Hm & HP & Hwf1 & Ht1 & Hc1) Hf.
  destruct (Hf a w1 Hwf1 Ht1 Hc1 HP) as (b & w2 & Hb & HQ & Hwf2 & Ht2 & Hc2). pose proof (sample_mono _ _ Ht2).
  exists b, w2. run_with Hm. split_and!; [done..|lia|]. intros t Ht. rewrite Hc2, Hc1 by lia. done.
Qed.

Lemma read_ttl_remaining_observes w k : bus_wf (st w) → observes (read_ttl_remaining k) w (λ _, True).
Proof.
  intros Hwf. destruct (bus_read_ttl_remaining_law w k Hwf) as (r & now & (w' & Hr & Ht & Hwf' & Hn & Hc) & _).
  exists r, w'. split_and!; [done..|]. intros t Hle. apply Hc. lia.
Qed.

Lemma observes_returns {A} (m : M (World S) A) (P : A → Prop) : (∀ w, bus_wf (st w) → observes m w P) → returns m P.
Proof. intros Hm w Hw. destruct (Hm w Hw) as (a & w' & ? & ? & ? & ? & _). by exists a, w'. Qed.
End observes.
