(* ===== verification/Sqlite.v ===== *)
(** The persistent tier, src/core/sqlite_bus.rs: one SQLite database per key
    namespace, behind a [std::sync::Mutex] that a panic poisons.  The rusqlite
    crate is a parameter: [Rusqlite] is the interface the code calls,
    [RusqliteSpec] its documented behaviour on the statements the code sends. *)
From stdpp Require Import prelude gmap sorting strings.
From Stdlib Require Import NArith Lia.
From S2P Require Import Prelude.
From S2P Require Import Bytes.
From S2P Require Import BTree.
From S2P Require Import Clock.
From S2P Require Import TimedMap.
From S2P Require Import DataBus.

(** * The rusqlite interface *)

(** A failing call is [None]; what it leaves behind is the old connection. *)
Class Rusqlite : Type := {
  Connection : Type;
  connection_open : bytes → option Connection;
  execute_batch : Connection → bytes → option Connection;
  execute : Connection → bytes → list bytes → option Connection;
  (** [prepare_cached(sql).ok()?.query_row(params, |row| row.get(0)).ok()]. *)
  query_row : Connection → bytes → list bytes → option bytes;
  (** [prepare_cached(sql)] and [query_map]: [None] when either fails; a row that
      cannot be read is [None]. *)
  query_map : Connection → bytes → option (list (option (bytes * bytes)));
}.

Definition sql_schema : bytes := bs
  "PRAGMA journal_mode=WAL;PRAGMA synchronous=NORMAL;CREATE TABLE IF NOT EXISTS data (key BLOB PRIMARY KEY,value BLOB NOT NULL);".
Definition sql_select : bytes := bs "SELECT value FROM data WHERE key = ?1".
Definition sql_insert : bytes := bs "INSERT OR REPLACE INTO data (key, value) VALUES (?1, ?2)".
Definition sql_delete : bytes := bs "DELETE FROM data WHERE key = ?1".
Definition sql_scan : bytes := bs "SELECT key, value FROM data ORDER BY key".

(** * The bus *)

Record SqliteBus `{Rusqlite} : Type := mkSqliteBus {
  directory : bytes;
  databases : gmap bytes Connection;
  (** The mutex was poisoned: a thread panicked while it held the guard. *)
  poisoned : bool;
}.

Arguments mkSqliteBus {_} _ _ _.
Arguments directory {_} _.
Arguments databases {_} _.
Arguments poisoned {_} _.

(** [Path::join]: an absolute name replaces the base, and no separator is added
    behind one that is there, nor behind an empty base. *)
Definition path_join (base name : bytes) : bytes :=
  if starts_with name (bs "/") then name
  else if bool_decide (base = [] ∨ last base = Some Byte.x2f) then base ++ name
  else base ++ bs "/" ++ name.

Definition db_path (dir namespace : bytes) : bytes := path_join dir (namespace ++ bs ".db").

(** [SqliteBus::parse_namespace]: the part of the key before the first colon. *)
Definition parse_namespace (key : bytes) : bytes * bytes :=
  let key_str := if utf8_valid key then key else bs "_default" in
  let namespace :=
    match find_byte Byte.x3a key_str with
    | Some index => btake index key_str
    | None => bs "_default"
    end in
  (key, namespace).

Section sqlite.
Context `{Rusqlite}.

Definition with_databases (f : gmap bytes Connection → gmap bytes Connection) (s : SqliteBus) : SqliteBus :=
  mkSqliteBus (directory s) (f (databases s)) (poisoned s).
Definition poison (s : SqliteBus) : SqliteBus :=
  mkSqliteBus (directory s) (databases s) true.

(** [self.databases.lock().unwrap()]. *)
Definition lock_databases : M SqliteBus (gmap bytes Connection) :=
  p ← gets poisoned;
  if (p : bool) then panic else gets databases.

(** [panic!] while the guard is held: unwinding poisons the mutex. *)
Definition panic_holding_guard {A} : M SqliteBus A :=
  modify poison ;; panic.

Definition read_connection (namespace : bytes) : M SqliteBus (option unit) :=
  databases ← lock_databases;
  mret (if bool_decide (is_Some (databases !! namespace)) then Some () else None).

Definition write_connection (namespace : bytes) : M SqliteBus unit :=
  databases ← lock_databases;
  if bool_decide (is_Some (databases !! namespace)) then mret ()
  else
    dir ← gets directory;
    let path := db_path dir namespace in
    match connection_open path with
    | None => panic_holding_guard
    | Some connection =>
        match execute_batch connection sql_schema with
        | None => panic_holding_guard
        | Some connection => modify (with_databases <[namespace := connection]>)
        end
    end.

(** [let _ = connection.execute(..)]: an error is ignored. *)
Definition execute_ignoring (namespace : bytes) (connection : Connection) (sql : bytes)
  (params : list bytes) : M SqliteBus unit :=
  match execute connection sql params with
  | Some connection' => modify (with_databases <[namespace := connection']>)
  | None => mret ()
  end.

Definition read_value (key : bytes) : M SqliteBus (option bytes) :=
  let '(_, namespace) := parse_namespace key in
  found ← read_connection namespace;
  match found with
  | None => mret None
  | Some _ =>
      databases ← lock_databases;
      match databases !! namespace with
      | None => mret None
      | Some connection => mret (query_row connection sql_select [key])
      end
  end.

Definition write_value (key value : bytes) : M SqliteBus unit :=
  let '(_, namespace) := parse_namespace key in
  write_connection namespace ;;
  databases ← lock_databases;
  match databases !! namespace with
  | None => mret ()
  | Some connection => execute_ignoring namespace connection sql_insert [key; value]
  end.

Definition delete_value (key : bytes) : M SqliteBus unit :=
  let '(_, namespace) := parse_namespace key in
  found ← read_connection namespace;
  match found with
  | None => mret ()
  | Some _ =>
      databases ← lock_databases;
      match databases !! namespace with
      | None => mret ()
      | Some connection => execute_ignoring namespace connection sql_delete [key]
      end
  end.

Definition delete_value_if_match (key expected : bytes) : M SqliteBus bool :=
  let '(_, namespace) := parse_namespace key in
  found ← read_connection namespace;
  match found with
  | None => mret false
  | Some _ =>
      databases ← lock_databases;
      match databases !! namespace with
      | None => mret false
      | Some connection =>
          let current := query_row connection sql_select [key] in
          if bool_decide (current = Some expected) then
            execute_ignoring namespace connection sql_delete [key] ;;
            mret true
          else mret false
      end
  end.

(** Durations are ignored: this tier has no expiry. *)
Definition write_ttl (key : bytes) (duration : Duration) : M SqliteBus unit := mret ().
Definition write_value_with_ttl (key value : bytes) (duration : Duration) : M SqliteBus unit :=
  write_value key value.
Definition read_ttl_remaining (key : bytes) : M SqliteBus (option Duration) := mret None.

(** The rows of one database that start with the prefix. *)
Definition scan_connection (prefix : bytes) (connection : Connection) : list (bytes * bytes) :=
  match query_map connection sql_scan with
  | None => []
  | Some rows => filter (λ row, starts_with row.1 prefix = true) (omap id rows)
  end.

(** [databases.values()] in any order: the results are sorted at the end. *)
Definition find_by_prefix (prefix : bytes) : M SqliteBus (list (bytes * bytes)) :=
  databases ← lock_databases;
  mret (sort_by_key ((map_to_list databases).*2 ≫= scan_connection prefix)).

#[export] Instance SqliteBus_DataBus `{Clock} : DataBus SqliteBus := {
  DataBus.read_value := λ k, stateful (read_value k);
  DataBus.write_value := λ k v, stateful (write_value k v);
  DataBus.delete_value := λ k, stateful (delete_value k);
  DataBus.delete_value_if_match := λ k e, stateful (delete_value_if_match k e);
  DataBus.write_ttl := λ k d, stateful (write_ttl k d);
  DataBus.write_value_with_ttl := λ k v d, stateful (write_value_with_ttl k v d);
  DataBus.read_ttl_remaining := λ k, stateful (read_ttl_remaining k);
  DataBus.find_by_prefix := λ p, stateful (find_by_prefix p);
}.
End sqlite.

(** * What rusqlite promises *)

(** The table of a connection, the effect of the four statements on it, and
    that opening a path without a file creates an empty table.  The laws are those
    of statements that succeed: what the methods do when one fails is in their
    definitions (they go on), but the theorems that use this class are about runs in
    which the disk is not full, no other process holds the file, and so on. *)
Class RusqliteSpec `{Rusqlite} : Type := {
  rows : Connection → gmap bytes bytes;
  (** A database file was there when the bus was created. *)
  file_exists : bytes → Prop;
  query_row_spec c k : query_row c sql_select [k] = rows c !! k;
  execute_insert_spec c k v : ∃ c', execute c sql_insert [k; v] = Some c' ∧ rows c' = <[k := v]> (rows c);
  execute_delete_spec c k : ∃ c', execute c sql_delete [k] = Some c' ∧ rows c' = delete k (rows c);
  query_map_spec c : query_map c sql_scan = Some (Some <$> btree_iter (rows c));
  open_fresh_spec p c c' : ¬ file_exists p → connection_open p = Some c →
    execute_batch c sql_schema = Some c' → rows c' = ∅;
}.

(** The directory the process stores its databases in. *)
Class DbDirectory : Type := db_directory : bytes.

(** * The contents of the bus *)
Section sqlite_spec.
Context `{RusqliteSpec, DbDirectory}.

Definition namespace_of (key : bytes) : bytes := (parse_namespace key).2.

(** The namespace of the key is a file name (one with a slash is a path, and can
    lead out of the directory or to the database of another namespace), and its
    database can be opened or created. *)
Definition openable (key : bytes) : Prop :=
  Byte.x2f ∉ namespace_of key ∧
  ∃ c c', connection_open (db_path db_directory (namespace_of key)) = Some c ∧
          execute_batch c sql_schema = Some c'.

Record sqlite_wf (s : SqliteBus) : Prop := {
  sq_directory : directory s = db_directory;
  sq_not_poisoned : poisoned s = false;
  sq_scoped : ∀ ns c k, databases s !! ns = Some c → is_Some (rows c !! k) → namespace_of k = ns;
  sq_fresh : ∀ ns, Byte.x2f ∉ ns → databases s !! ns = None → ¬ file_exists (db_path db_directory ns);
}.

(** All rows of all databases. *)
Definition sqlite_contents (s : SqliteBus) : gmap bytes bytes :=
  ⋃ (rows <$> (map_to_list (databases s)).*2).

Lemma union_list_lookup_Some (ms : list (gmap bytes bytes)) k v :
  (⋃ ms) !! k = Some v → ∃ m, m ∈ ms ∧ m !! k = Some v.
Proof.
  induction ms as [|m ms IH]; simpl; [by rewrite lookup_empty|].
  intros [Hm|[_ Hms]]%lookup_union_Some_raw; [exists m; set_solver|].
  destruct (IH Hms) as (m' & ? & ?). exists m'. set_solver.
Qed.

Lemma union_list_lookup_agree (ms : list (gmap bytes bytes)) k v m :
  (∀ m1 m2 v1 v2, m1 ∈ ms → m2 ∈ ms → m1 !! k = Some v1 → m2 !! k = Some v2 → v1 = v2) →
  m ∈ ms → m !! k = Some v → (⋃ ms) !! k = Some v.
Proof.
  induction ms as [|m' ms IH]; intros Hag Hm Hk; [by apply elem_of_nil in Hm|]. simpl.
  apply lookup_union_Some_raw. destruct (m' !! k) as [v'|] eqn:E.
  - left. f_equal. apply (Hag m' m); set_solver.
  - right. split; [done|]. apply elem_of_cons in Hm as [->|Hm]; [congruence|].
    apply IH; [|done..]. intros m1 m2 v1 v2 Hm1 Hm2. apply Hag; set_solver.
Qed.

Lemma sqlite_contents_lookup s k :
  sqlite_wf s → sqlite_contents s !! k = (c ← databases s !! namespace_of k; rows c !! k).
Proof.
  intros Hwf. unfold sqlite_contents.
  assert (∀ m v, m ∈ rows <$> (map_to_list (databases s)).*2 → m !! k = Some v →
    ∃ c, databases s !! namespace_of k = Some c ∧ rows c = m) as Hin.
  { intros m v Hm Hv. apply list_elem_of_fmap in Hm as (c & -> & Hc).
    apply list_elem_of_fmap in Hc as ([ns c'] & -> & Hc). apply elem_of_map_to_list in Hc. simpl in *.
    exists c'. rewrite (sq_scoped s Hwf ns c' k); eauto. }
  apply option_eq. intros v. split.
  - intros Hu. apply union_list_lookup_Some in Hu as (m & Hm & Hv). destruct (Hin m v Hm Hv) as (c & Hc & Hr). subst m. by rewrite Hc.
  - intros (c & Hc & Hv)%bind_Some. apply union_list_lookup_agree with (m := rows c); [|
      |done].
    + intros m1 m2 v1 v2 Hm1 Hm2 Hv1 Hv2.
      destruct (Hin m1 v1 Hm1 Hv1) as (c1 & E1 & <-), (Hin m2 v2 Hm2 Hv2) as (c2 & E2 & <-). congruence.
    + apply list_elem_of_fmap. exists c. split; [done|]. apply list_elem_of_fmap.
      exists (namespace_of k, c). by rewrite elem_of_map_to_list.
Qed.

Lemma lock_ok s : sqlite_wf s → lock_databases s = (Returned (databases s), s).
Proof. intros Hwf. unfold lock_databases. run. by rewrite (sq_not_poisoned s Hwf). Qed.

Lemma read_connection_ok ns s :
  sqlite_wf s →
  read_connection ns s =
  (Returned (if bool_decide (is_Some (databases s !! ns)) then Some () else None), s).
Proof. intros Hwf. unfold read_connection. by run_with (lock_ok s Hwf). Qed.

(** Replacing the rows of the key's database keeps the invariant. *)
Lemma sqlite_wf_update s k c c' r :
  sqlite_wf s → databases s !! namespace_of k = Some c → rows c' = r →
  (∀ k', k' ≠ k → r !! k' = rows c !! k') →
  sqlite_wf (with_databases <[namespace_of k := c']> s) ∧
  (∀ v, r !! k = Some v → sqlite_contents (with_databases <[namespace_of k := c']> s) = <[k := v]> (sqlite_contents s)) ∧
  (r !! k = None → sqlite_contents (with_databases <[namespace_of k := c']> s) = delete k (sqlite_contents s)).
Proof.
  intros Hwf Hc <- Hr.
  assert (sqlite_wf (with_databases <[namespace_of k := c']> s)) as Hwf'.
  { destruct Hwf as [Hd Hp Hs Hf]. split; simpl; [done|done| |].
    - intros ns c0 k0. rewrite lookup_insert. case_decide as E; [|apply Hs].
      intros [= <-] Hk0. subst ns. destruct (decide (k0 = k)) as [->|Hne]; [done|].
      rewrite Hr in Hk0 by done. by apply (Hs _ c).
    - intros ns Hns. rewrite lookup_insert. case_decide; [done|]. by apply Hf. }
  assert (∀ k0, k0 ≠ k → sqlite_contents (with_databases <[namespace_of k := c']> s) !! k0 = sqlite_contents s !! k0) as Ho.
  { intros k0 Hne. rewrite !sqlite_contents_lookup by done. simpl. rewrite lookup_insert.
    case_decide as E; [|done]. rewrite <- E, Hc. simpl. by apply Hr. }
  split; [done|split].
  - intros v Hv. apply map_eq. intros k0. rewrite lookup_insert. case_decide; [subst k0|by apply Ho].
    rewrite sqlite_contents_lookup by done. simpl. by rewrite lookup_insert_eq.
  - intros Hv. apply map_eq. intros k0. rewrite lookup_delete. case_decide; [subst k0|by apply Ho].
    rewrite sqlite_contents_lookup by done. simpl. by rewrite lookup_insert_eq.
Qed.

(** [m], run on [s], returns [a] in a well-formed bus with contents [c]. *)
Definition sqlite_ok {A} (m : M SqliteBus A) (s : SqliteBus) (a : A) (c : gmap bytes bytes) : Prop :=
  ∃ s', m s = (Returned a, s') ∧ sqlite_wf s' ∧ sqlite_contents s' = c.

(** The key's database, if it has one, answers as the contents do. *)
Lemma select_ok k s :
  sqlite_wf s →
  sqlite_contents s !! k = (c ← databases s !! namespace_of k; query_row c sql_select [k]).
Proof.
  intros Hwf. rewrite sqlite_contents_lookup by done.
  destruct (databases s !! namespace_of k); [|done]. simpl. by rewrite query_row_spec.
Qed.

Lemma execute_insert_ok k v c s :
  sqlite_wf s → databases s !! namespace_of k = Some c →
  sqlite_ok (execute_ignoring (namespace_of k) c sql_insert [k; v]) s () (<[k := v]> (sqlite_contents s)).
Proof.
  intros Hwf Hc. destruct (execute_insert_spec c k v) as (c' & Hex & Hrows).
  destruct (sqlite_wf_update s k c c' _ Hwf Hc Hrows) as (Hwf' & Hins & _).
  { intros k' Hne. by rewrite lookup_insert_ne. }
  eexists. unfold execute_ignoring. rewrite Hex. split_and!; [done..|].
  apply Hins. apply lookup_insert_eq.
Qed.

Lemma execute_delete_ok k c s :
  sqlite_wf s → databases s !! namespace_of k = Some c →
  sqlite_ok (execute_ignoring (namespace_of k) c sql_delete [k]) s () (delete k (sqlite_contents s)).
Proof.
  intros Hwf Hc. destruct (execute_delete_spec c k) as (c' & Hex & Hrows).
  destruct (sqlite_wf_update s k c c' _ Hwf Hc Hrows) as (Hwf' & _ & Hdel).
  { intros k' Hne. by rewrite lookup_delete_ne. }
  eexists. unfold execute_ignoring. rewrite Hex. split_and!; [done..|].
  apply Hdel. apply lookup_delete_eq.
Qed.

Lemma no_database_contents k s :
  sqlite_wf s → databases s !! namespace_of k = None → sqlite_contents s !! k = None.
Proof. intros Hwf Hn. by rewrite sqlite_contents_lookup, Hn. Qed.

Lemma write_connection_ok k s :
  sqlite_wf s → openable k →
  ∃ s', write_connection (namespace_of k) s = (Returned (), s') ∧ sqlite_wf s' ∧
        sqlite_contents s' = sqlite_contents s ∧ is_Some (databases s' !! namespace_of k).
Proof.
  intros Hwf (Hslash & c & c' & Hopen & Hbatch). unfold write_connection. run_with (lock_ok s Hwf).
  case_bool_decide as Hin; [by exists s|].
  run. rewrite (sq_directory s Hwf), Hopen, Hbatch. apply eq_None_not_Some in Hin.
  pose proof (open_fresh_spec _ c c' (sq_fresh s Hwf _ Hslash Hin) Hopen Hbatch) as Hrows.
  assert (sqlite_wf (with_databases <[namespace_of k := c']> s)) as Hwf'.
  { destruct Hwf as [Hd Hp Hs Hf]. split; simpl; [done|done| |].
    - intros ns c0 k0. rewrite lookup_insert. case_decide; [|apply Hs].
      intros [= <-] Hk0. rewrite Hrows, lookup_empty in Hk0. by destruct Hk0.
    - intros ns Hns. rewrite lookup_insert. case_decide; [done|]. by apply Hf. }
  eexists. split_and!; [done|done| |simpl; rewrite lookup_insert_eq; eauto].
  apply map_eq. intros k0. rewrite !sqlite_contents_lookup by done. simpl.
  rewrite lookup_insert. case_decide as E; [|done]. rewrite <- E, Hin. simpl.
  by rewrite Hrows, lookup_empty.
Qed.

Lemma read_value_sqlite k s :
  sqlite_wf s → sqlite_ok (read_value k) s (sqlite_contents s !! k) (sqlite_contents s).
Proof.
  intros Hwf. unfold read_value, sqlite_ok. destruct (parse_namespace k) as [k' ns] eqn:E.
  assert (ns = namespace_of k) as -> by (unfold namespace_of; by rewrite E).
  run_with (read_connection_ok (namespace_of k) s Hwf). exists s. split; [|done].
  rewrite select_ok by done. case_bool_decide as Hin.
  - run_with (lock_ok s Hwf). by destruct Hin as [c ->].
  - apply eq_None_not_Some in Hin. by rewrite Hin.
Qed.

Lemma write_value_sqlite k v s :
  sqlite_wf s → openable k → sqlite_ok (write_value k v) s () (<[k := v]> (sqlite_contents s)).
Proof.
  intros Hwf Hopen. unfold write_value, sqlite_ok. destruct (parse_namespace k) as [k' ns] eqn:E.
  assert (ns = namespace_of k) as -> by (unfold namespace_of; by rewrite E).
  destruct (write_connection_ok k s Hwf Hopen) as (s1 & Hrun & Hwf1 & <- & [c Hc]).
  run_with Hrun. run_with (lock_ok s1 Hwf1). rewrite Hc. by apply execute_insert_ok.
Qed.

Lemma delete_value_sqlite k s :
  sqlite_wf s → sqlite_ok (delete_value k) s () (delete k (sqlite_contents s)).
Proof.
  intros Hwf. unfold delete_value, sqlite_ok. destruct (parse_namespace k) as [k' ns] eqn:E.
  assert (ns = namespace_of k) as -> by (unfold namespace_of; by rewrite E).
  run_with (read_connection_ok (namespace_of k) s Hwf). case_bool_decide as Hin.
  - run_with (lock_ok s Hwf). destruct Hin as [c Hc]. rewrite Hc. by apply execute_delete_ok.
  - exists s. split_and!; [done..|]. apply eq_None_not_Some in Hin.
    by rewrite delete_id by (by apply no_database_contents).
Qed.

Lemma delete_value_if_match_sqlite k e s :
  sqlite_wf s →
  let hit := bool_decide (sqlite_contents s !! k = Some e) in
  sqlite_ok (delete_value_if_match k e) s hit
    (if hit then delete k (sqlite_contents s) else sqlite_contents s).
Proof.
  intros Hwf hit. unfold delete_value_if_match, sqlite_ok. destruct (parse_namespace k) as [k' ns] eqn:E.
  assert (ns = namespace_of k) as -> by (unfold namespace_of; by rewrite E).
  run_with (read_connection_ok (namespace_of k) s Hwf). subst hit. rewrite select_ok by done.
  case_bool_decide as Hin.
  - run_with (lock_ok s Hwf). destruct Hin as [c Hc]. rewrite Hc. simpl. case_bool_decide.
    + destruct (execute_delete_ok k c s Hwf Hc) as (s' & Hrun & Hs'). exists s'. by run_with Hrun.
    + by exists s.
  - exists s. apply eq_None_not_Some in Hin. by rewrite Hin.
Qed.

(** ** Scanning *)

Lemma scan_connection_ok p c :
  scan_connection p c = filter (λ row, starts_with row.1 p = true) (btree_iter (rows c)).
Proof.
  unfold scan_connection. rewrite query_map_spec. f_equal.
  induction (btree_iter (rows c)) as [|r l IH]; [done|]. csimpl. by rewrite IH.
Qed.

Lemma elem_of_scan_connection p c k v :
  (k, v) ∈ scan_connection p c ↔ starts_with k p = true ∧ rows c !! k = Some v.
Proof. by rewrite scan_connection_ok, list_elem_of_filter, elem_of_btree_iter. Qed.

Lemma scan_connection_NoDup p c : NoDup (scan_connection p c).*1.
Proof.
  rewrite scan_connection_ok. eapply sublist_NoDup; [apply (btree_iter_NoDup (rows c))|].
  apply fmap_sublist, sublist_filter.
Qed.

(** No key is in two databases, so the concatenated scans repeat no key. *)
Lemma scan_databases_NoDup p (l : list (bytes * Connection)) :
  NoDup l.*1 → (∀ ns c k, (ns, c) ∈ l → is_Some (rows c !! k) → namespace_of k = ns) →
  NoDup (l.*2 ≫= scan_connection p).*1.
Proof.
  induction l as [|[ns c] l IH]; intros Hnd Hs; [constructor|]. csimpl in *.
  apply NoDup_cons in Hnd as [Hnin Hnd]. rewrite fmap_app. apply NoDup_app. split_and!.
  - apply scan_connection_NoDup.
  - intros k Hk1 Hk2. apply list_elem_of_fmap in Hk1 as ([k1 v1] & -> & Hk1).
    apply list_elem_of_fmap in Hk2 as ([k2 v2] & Heq & Hk2). simpl in *. subst k2.
    apply elem_of_scan_connection in Hk1 as [_ Hk1].
    apply list_elem_of_bind in Hk2 as (c2 & Hk2 & Hc2).
    apply elem_of_scan_connection in Hk2 as [_ Hk2].
    apply list_elem_of_fmap in Hc2 as ([ns2 c2'] & -> & Hc2). simpl in *.
    assert (ns = ns2) as <-.
    { rewrite <- (Hs ns c k1), <- (Hs ns2 c2' k1); [done|set_solver|eauto|set_solver|eauto]. }
    apply Hnin, list_elem_of_fmap. by exists (ns, c2').
  - apply IH; [done|]. intros ns' c' k' ?. apply Hs. set_solver.
Qed.

(** The sorted scan does not depend on the order of the databases. *)
Lemma scan_any_order p s (l : list (bytes * Connection)) :
  sqlite_wf s → l ≡ₚ map_to_list (databases s) →
  sort_by_key (l.*2 ≫= scan_connection p) = prefix_entries p (sqlite_contents s).
Proof.
  intros Hwf Hl. unfold prefix_entries. rewrite <- (btree_filter (λ e, starts_with e.1 p = true)).
  assert (NoDup (l.*2 ≫= scan_connection p).*1) as Hnd.
  { apply scan_databases_NoDup.
    - rewrite Hl. apply NoDup_fst_map_to_list.
    - intros ns c k. rewrite Hl, elem_of_map_to_list. apply (sq_scoped s Hwf). }
  apply btree_iter_unique.
  - by rewrite sort_by_key_permutation.
  - apply sort_by_key_sorted.
  - intros k v. rewrite sort_by_key_permutation, list_elem_of_bind, map_lookup_filter_Some.
    rewrite sqlite_contents_lookup by done. simpl. split.
    + intros (c & Hk & Hc). apply elem_of_scan_connection in Hk as [Hp Hk].
      apply list_elem_of_fmap in Hc as ([ns c'] & -> & Hc). rewrite Hl, elem_of_map_to_list in Hc.
      simpl in *. rewrite (sq_scoped s Hwf ns c' k) by eauto. by rewrite Hc.
    + intros [(c & Hc & Hk)%bind_Some Hp]. exists c. rewrite elem_of_scan_connection. split; [done|].
      apply list_elem_of_fmap. exists (namespace_of k, c). by rewrite Hl, elem_of_map_to_list.
Qed.

Lemma find_by_prefix_sqlite p s :
  sqlite_wf s →
  sqlite_ok (find_by_prefix p) s (prefix_entries p (sqlite_contents s)) (sqlite_contents s).
Proof.
  intros Hwf. exists s. unfold find_by_prefix. run_with (lock_ok s Hwf).
  split; [|done]. unfold mret, M_ret. by rewrite (scan_any_order p s _ Hwf).
Qed.
End sqlite_spec.
