(* ===== verification/Instances.v ===== *)
(** Concrete instances of the parameters of the model: a clock that ticks once a
    millisecond, and an in-memory table that keeps the contract of the rusqlite
    statements.  The concrete runs of the development use them; the general
    theorems do not depend on them. *)
From stdpp Require Import prelude gmap sorting strings.
From Stdlib Require Import NArith Lia.
From S2P Require Import Prelude.
From S2P Require Import Bytes.
From S2P Require Import BTree.
From S2P Require Import Clock.
From S2P Require Import Sqlite.

(** The n-th reading, stopped at the horizon. *)
#[export] Program Instance ticking_clock : Clock := {|
  sample n := N.min (N.of_nat n * nanos_per_milli) clock_horizon;
|}.
Next Obligation. intros i j Hij. simpl. unfold nanos_per_milli. lia. Qed.
Next Obligation. intros i. simpl. lia. Qed.

(** A table in memory; a path with a NUL byte cannot be opened. *)
#[export] Instance memory_sqlite : Rusqlite := {|
  Connection := gmap bytes bytes;
  connection_open path := if bool_decide (Byte.x00 ∈ path) then None else Some ∅;
  execute_batch c sql := Some c;
  execute c sql params :=
    match params with
    | [k; v] => if bool_decide (sql = sql_insert) then Some (<[k := v]> c) else None
    | [k] => if bool_decide (sql = sql_delete) then Some (delete k c) else None
    | _ => None
    end;
  query_row c sql params :=
    match params with
    | [k] => if bool_decide (sql = sql_select) then c !! k else None
    | _ => None
    end;
  query_map c sql := if bool_decide (sql = sql_scan) then Some (Some <$> btree_iter c) else None;
|}.

#[export] Program Instance memory_sqlite_spec : RusqliteSpec := {|
  rows c := c;
  file_exists _ := False;
|}.
Next Obligation. done. Qed.
Next Obligation. intros c k v. by eexists. Qed.
Next Obligation. intros c k. by eexists. Qed.
Next Obligation. done. Qed.
Next Obligation.
  intros p c c' _ Hopen Hbatch. simpl in *. case_bool_decide; [done|]. by simplify_eq.
Qed.

#[export] Instance memory_directory : DbDirectory := bs "/var/lib/tric/main_0".

(** The empty bus. *)
Definition memory_bus : SqliteBus := mkSqliteBus db_directory ∅ false.

Lemma memory_bus_wf : sqlite_wf memory_bus.
Proof.
  split; [done|done| |]; intros ns; [|tauto]. intros c k. unfold memory_bus; simpl. by rewrite lookup_empty.
Qed.
