(* ===== verification/Permutive.v ===== *)
(** The permutive bus, src/core/permutive_bus.rs: the transient tier in front of
    the persistent one.  Each method is written once, as a procedure ([Proc])
    whose steps are the calls it makes to the two tiers; every such call runs
    under the lock of its tier and is atomic, the method as a whole is not.
    [run_proc] runs a procedure alone; Interleave.v runs several at once. *)
From stdpp Require Import prelude gmap sorting strings.
From Stdlib Require Import NArith Lia.
From S2P Require Import Prelude.
From S2P Require Import Bytes.
From S2P Require Import Text.
From S2P Require Import BTree.
From S2P Require Import Clock.
From S2P Require Import TimedMap.
From S2P Require Import Store.
From S2P Require Import Tric.
From S2P Require Import DataBus.
From S2P Require Import BusSpec.
From S2P Require Import Sqlite.

Definition CACHE_PROMOTION_SECONDS : N := 60.

Record PermutiveBus `{Rusqlite} : Type := mkPermutiveBus {
  transient : Tric;
  persistent : SqliteBus;
  base_dir : bytes;
  instance : bytes;
  slot : N;
}.
Arguments mkPermutiveBus {_} _ _ _ _ _.
Arguments transient {_} _.
Arguments persistent {_} _.
Arguments base_dir {_} _.
Arguments instance {_} _.
Arguments slot {_} _.

(** A method body: the calls it makes to the two tiers, in order. *)
Inductive Proc `{Rusqlite} (A : Type) : Type :=
| Done (a : A)
| Transient (B : Type) (m : M (World Tric) B) (k : B → Proc A)
| Persistent (B : Type) (m : M (World SqliteBus) B) (k : B → Proc A).
Arguments Done {_ _} _.
Arguments Transient {_ _ _} _ _.
Arguments Persistent {_ _ _} _ _.

Section permutive.
Context `{Clock, Rusqlite}.

#[export] Instance Proc_ret : MRet Proc := λ A a, Done a.
#[export] Instance Proc_bind : MBind Proc := λ A B f,
  fix go p := match p with
  | Done a => f a
  | Transient m k => Transient m (λ b, go (k b))
  | Persistent m k => Persistent m (λ b, go (k b))
  end.

Definition on_transient {A} (m : M (World Tric) A) : Proc A := Transient m Done.
Definition on_persistent {A} (m : M (World SqliteBus) A) : Proc A := Persistent m Done.

Definition set_transient (t : Tric) (s : PermutiveBus) : PermutiveBus :=
  mkPermutiveBus t (persistent s) (base_dir s) (instance s) (slot s).
Definition set_persistent (p : SqliteBus) (s : PermutiveBus) : PermutiveBus :=
  mkPermutiveBus (transient s) p (base_dir s) (instance s) (slot s).

(** A procedure run alone. *)
Fixpoint run_proc {A} (p : Proc A) : M (World PermutiveBus) A :=
  match p with
  | Done a => mret a
  | Transient m k => b ← zoom_world transient set_transient m; run_proc (k b)
  | Persistent m k => b ← zoom_world persistent set_persistent m; run_proc (k b)
  end.

Definition read_value (key : bytes) : Proc (option bytes) :=
  hit ← on_transient (Tric.read_value key);
  match hit with
  | Some value => mret (Some value)
  | None =>
      stored ← on_persistent (DataBus.read_value key);
      match stored with
      | None => mret None
      | Some value =>
          on_transient (Tric.write_value key value) ;;
          on_transient (Tric.write_ttl key (from_secs CACHE_PROMOTION_SECONDS)) ;;
          mret (Some value)
      end
  end.

Definition write_value (key value : bytes) : Proc unit :=
  on_persistent (DataBus.write_value key value) ;;
  on_transient (Tric.delete_value key).

Definition delete_value (key : bytes) : Proc unit :=
  on_transient (Tric.delete_value key) ;;
  on_persistent (DataBus.delete_value key).

Definition delete_value_if_match (key expected : bytes) : Proc bool :=
  transient_match ← on_transient (Tric.delete_value_if_match key expected);
  persistent_match ← on_persistent (DataBus.delete_value_if_match key expected);
  mret (transient_match || persistent_match).

Definition write_ttl (key : bytes) (duration : Duration) : Proc unit :=
  stored ← on_persistent (DataBus.read_value key);
  match stored with
  | Some value =>
      on_persistent (DataBus.delete_value key) ;;
      on_transient (Tric.write_value key value)
  | None => mret ()
  end ;;
  on_transient (Tric.write_ttl key duration).

Definition write_value_with_ttl (key value : bytes) (duration : Duration) : Proc unit :=
  on_persistent (DataBus.delete_value key) ;;
  on_transient (Tric.write_value_with_ttl key value duration).

Definition read_ttl_remaining (key : bytes) : Proc (option Duration) :=
  on_transient (Tric.read_ttl_remaining key).

(** The entries of the persistent tier that the transient one does not have,
    after those it has, sorted by key. *)
Definition merge_tiers (transient_results persistent_results : list (bytes * bytes)) :
  list (bytes * bytes) :=
  let transient_keys : gset bytes := list_to_set transient_results.*1 in
  sort_by_key (transient_results ++ filter (λ e, e.1 ∉ transient_keys) persistent_results).

Definition find_by_prefix (prefix : bytes) : Proc (list (bytes * bytes)) :=
  transient_results ← on_transient (Tric.find_by_prefix prefix);
  persistent_results ← on_persistent (DataBus.find_by_prefix prefix);
  mret (merge_tiers transient_results persistent_results).

#[export] Instance PermutiveBus_DataBus : DataBus PermutiveBus := {
  DataBus.read_value := λ k, run_proc (read_value k);
  DataBus.write_value := λ k v, run_proc (write_value k v);
  DataBus.delete_value := λ k, run_proc (delete_value k);
  DataBus.delete_value_if_match := λ k e, run_proc (delete_value_if_match k e);
  DataBus.write_ttl := λ k d, run_proc (write_ttl k d);
  DataBus.write_value_with_ttl := λ k v d, run_proc (write_value_with_ttl k v d);
  DataBus.read_ttl_remaining := λ k, run_proc (read_ttl_remaining k);
  DataBus.find_by_prefix := λ p, run_proc (find_by_prefix p);
}.

(** [write_registry], for the slots found on disk: an entry per slot, written
    straight into the transient tier, without a time-to-live. *)
Definition write_registry (slots : list (N * N)) : M (World PermutiveBus) unit :=
  instance ← gets (λ w, instance (st w));
  mfor slots (λ '(slot_id, _),
    let key := bs "_instance:" ++ instance ++ bs "_" ++ decimal slot_id in
    if slot_id =? 0 then
      zoom_world transient set_transient (Tric.write_value key (bs "active"))
    else
      let origin := bs "clone:" ++ instance ++ bs "_" ++ decimal 0 in
      zoom_world transient set_transient (Tric.write_value key origin)).
End permutive.

(** * The invariant and the contents *)
Section permutive_spec.
Context `{Clock, RusqliteSpec, DbDirectory}.

(** A key held by both tiers has the same value in both. *)
Definition coherent (t : timed_map) (p : gmap bytes bytes) : Prop :=
  ∀ k v e v', t !! k = Some (v, e) → p !! k = Some v' → v = v'.

Record permutive_wf (s : PermutiveBus) : Prop := {
  pw_transient : store_wf (transient s);
  pw_persistent : sqlite_wf (persistent s);
  pw_coherent : coherent (store_abs (transient s)) (sqlite_contents (persistent s));
}.

(** What a reader sees: the live entries of the transient tier over the rows of
    the persistent one. *)
Definition tiers_contents (t : timed_map) (p : gmap bytes bytes) (now : Instant) : gmap bytes bytes :=
  tm_contents t now ∪ p.
Definition permutive_contents (s : PermutiveBus) : Instant → gmap bytes bytes :=
  tiers_contents (store_abs (transient s)) (sqlite_contents (persistent s)).

(** The bus [s] shows the timed map [T] and the rows [P]. *)
Definition shows (s : PermutiveBus) (T : timed_map) (P : gmap bytes bytes) : Prop :=
  store_wf (transient s) ∧ store_abs (transient s) = T ∧
  sqlite_wf (persistent s) ∧ sqlite_contents (persistent s) = P.

Lemma run_transient {A B} (m : M (World Tric) B) (k : B → Proc A) n s T P b T' :
  shows s T P → tric_ok m n (transient s) b T' →
  ∃ s', shows s' T' P ∧
    run_proc (on_transient m ≫= k) (mkWorld n s) = run_proc (k b) (mkWorld (S n) s').
Proof.
  intros (Ht & <- & Hp & <-) (t' & Hm & Hwf & <-). exists (set_transient t' s).
  split; [done|]. simpl. by rewrite (bind_returned _ _ _ _ _ (zoom_world_returned _ _ _ _ _ _ _ _ Hm)).
Qed.

Lemma run_persistent {A B} (m : M SqliteBus B) (k : B → Proc A) n s T P b P' :
  shows s T P → sqlite_ok m (persistent s) b P' →
  ∃ s', shows s' T P' ∧
    run_proc (on_persistent (stateful m) ≫= k) (mkWorld n s) = run_proc (k b) (mkWorld n s').
Proof.
  intros (Ht & <- & Hp & <-) (p' & Hm & Hwf & <-). exists (set_persistent p' s).
  split; [done|]. simpl.
  by rewrite (bind_returned _ _ _ _ _ (zoom_world_returned _ _ _ _ _ _ _ _ (stateful_returned _ _ _ _ _ Hm))).
Qed.

Lemma run_done {A} (a : A) n s : run_proc (Done a) (mkWorld n s) = (Returned a, mkWorld n s).
Proof. done. Qed.

(** The calls a method makes, each with its effect on what the bus shows. *)
Ltac solve_step lem :=
  let Hs := fresh in intros Hs; eapply lem; [exact Hs|];
  destruct Hs as (? & <- & ? & <-).

Lemma step_tric_read {A} key (k : _ → Proc A) n s T P : shows s T P →
  ∃ s', shows s' (tm_purge (sample n) T) P ∧
    run_proc (on_transient (Tric.read_value key) ≫= k) (mkWorld n s) =
    run_proc (k (tm_contents T (sample n) !! key)) (mkWorld (S n) s').
Proof. solve_step @run_transient. by apply read_value_tric. Qed.

Lemma step_tric_write {A} key v (k : _ → Proc A) n s T P : shows s T P →
  ∃ s', shows s' (tm_write key v (tm_purge (sample n) T)) P ∧
    run_proc (on_transient (Tric.write_value key v) ≫= k) (mkWorld n s) =
    run_proc (k ()) (mkWorld (S n) s').
Proof. solve_step @run_transient. by apply write_value_tric. Qed.

Lemma step_tric_delete {A} key (k : _ → Proc A) n s T P : shows s T P →
  ∃ s', shows s' (delete key (tm_purge (sample n) T)) P ∧
    run_proc (on_transient (Tric.delete_value key) ≫= k) (mkWorld n s) =
    run_proc (k ()) (mkWorld (S n) s').
Proof. solve_step @run_transient. by apply delete_value_tric. Qed.

Lemma step_tric_delete_if_match {A} key e (k : _ → Proc A) n s T P : shows s T P →
  let hit := bool_decide (tm_contents T (sample n) !! key = Some e) in
  ∃ s', shows s' (if hit then delete key (tm_purge (sample n) T) else tm_purge (sample n) T) P ∧
    run_proc (on_transient (Tric.delete_value_if_match key e) ≫= k) (mkWorld n s) =
    run_proc (k hit) (mkWorld (S n) s').
Proof.
  cbv zeta. solve_step @run_transient.
  destruct (delete_value_if_match_tric key e n (transient s)) as (s' & ? & ? & Ha); [done|].
  exists s'. split_and!; [done..|]. rewrite Ha. case_bool_decide; by case_decide.
Qed.

Lemma step_tric_write_ttl {A} key d (k : _ → Proc A) n s T P : shows s T P → duration_ok d →
  ∃ s', shows s' (tm_write_ttl key (sample n + d) (tm_purge (sample n) T)) P ∧
    run_proc (on_transient (Tric.write_ttl key d) ≫= k) (mkWorld n s) =
    run_proc (k ()) (mkWorld (S n) s').
Proof. intros Hs Hd. revert Hs. solve_step @run_transient. by apply write_ttl_tric. Qed.

Lemma step_tric_write_with_ttl {A} key v d (k : _ → Proc A) n s T P : shows s T P → duration_ok d →
  ∃ s', shows s' (tm_write_with_ttl key v (sample n + d) (tm_purge (sample n) T)) P ∧
    run_proc (on_transient (Tric.write_value_with_ttl key v d) ≫= k) (mkWorld n s) =
    run_proc (k ()) (mkWorld (S n) s').
Proof. intros Hs Hd. revert Hs. solve_step @run_transient. by apply write_value_with_ttl_tric. Qed.

Lemma step_tric_ttl_remaining {A} key (k : _ → Proc A) n s T P : shows s T P →
  ∃ s', shows s' (tm_purge (sample n) T) P ∧
    run_proc (on_transient (Tric.read_ttl_remaining key) ≫= k) (mkWorld n s) =
    run_proc (k (tm_ttl_remaining key (sample n) (tm_purge (sample n) T))) (mkWorld (S n) s').
Proof. solve_step @run_transient. by apply read_ttl_remaining_tric. Qed.

Lemma step_tric_find {A} p (k : _ → Proc A) n s T P : shows s T P →
  ∃ s', shows s' (tm_purge (sample n) T) P ∧
    run_proc (on_transient (Tric.find_by_prefix p) ≫= k) (mkWorld n s) =
    run_proc (k (prefix_entries p (tm_contents T (sample n)))) (mkWorld (S n) s').
Proof. solve_step @run_transient. by apply find_by_prefix_tric. Qed.

Lemma step_sqlite_read {A} key (k : _ → Proc A) n s T P : shows s T P →
  ∃ s', shows s' T P ∧
    run_proc (on_persistent (DataBus.read_value key) ≫= k) (mkWorld n s) =
    run_proc (k (P !! key)) (mkWorld n s').
Proof. solve_step @run_persistent. by apply read_value_sqlite. Qed.

Lemma step_sqlite_write {A} key v (k : _ → Proc A) n s T P : shows s T P → openable key →
  ∃ s', shows s' T (<[key := v]> P) ∧
    run_proc (on_persistent (DataBus.write_value key v) ≫= k) (mkWorld n s) =
    run_proc (k ()) (mkWorld n s').
Proof. intros Hs Ho. revert Hs. solve_step @run_persistent. by apply write_value_sqlite. Qed.

Lemma step_sqlite_delete {A} key (k : _ → Proc A) n s T P : shows s T P →
  ∃ s', shows s' T (delete key P) ∧
    run_proc (on_persistent (DataBus.delete_value key) ≫= k) (mkWorld n s) =
    run_proc (k ()) (mkWorld n s').
Proof. solve_step @run_persistent. by apply delete_value_sqlite. Qed.

Lemma step_sqlite_delete_if_match {A} key e (k : _ → Proc A) n s T P : shows s T P →
  let hit := bool_decide (P !! key = Some e) in
  ∃ s', shows s' T (if hit then delete key P else P) ∧
    run_proc (on_persistent (DataBus.delete_value_if_match key e) ≫= k) (mkWorld n s) =
    run_proc (k hit) (mkWorld n s').
Proof. cbv zeta. solve_step @run_persistent. by apply delete_value_if_match_sqlite. Qed.

Lemma step_sqlite_find {A} p (k : _ → Proc A) n s T P : shows s T P →
  ∃ s', shows s' T P ∧
    run_proc (on_persistent (DataBus.find_by_prefix p) ≫= k) (mkWorld n s) =
    run_proc (k (prefix_entries p P)) (mkWorld n s').
Proof. solve_step @run_persistent. by apply find_by_prefix_sqlite. Qed.

(** Calls without a continuation, and sequences of sequences. *)
Lemma on_transient_tail {A} (m : M (World Tric) A) : on_transient m = (on_transient m ≫= mret).
Proof. done. Qed.
Lemma on_transient_assoc {A B C} (m : M (World Tric) A) (f : A → Proc B) (g : B → Proc C) :
  ((on_transient m ≫= f) ≫= g) = (on_transient m ≫= λ a, f a ≫= g).
Proof. done. Qed.
Lemma on_persistent_assoc {A B C} (m : M (World SqliteBus) A) (f : A → Proc B) (g : B → Proc C) :
  ((on_persistent m ≫= f) ≫= g) = (on_persistent m ≫= λ a, f a ≫= g).
Proof. done. Qed.
Lemma on_persistent_tail {A} (m : M (World SqliteBus) A) : on_persistent m = (on_persistent m ≫= mret).
Proof. done. Qed.
Lemma proc_ret_bind {A B} (a : A) (f : A → Proc B) : (mret a ≫= f) = f a.
Proof. done. Qed.

(** One call of a procedure: [step Hs] runs it and updates [Hs : shows s T P]. *)
Ltac step Hs :=
  let s := fresh "s" in let Hs' := fresh "Hs" in let E := fresh "E" in
  rewrite ?proc_ret_bind, ?on_transient_assoc, ?on_persistent_assoc;
  let go lem := (edestruct lem as (s & Hs' & E); [exact Hs|rewrite E; clear E Hs; rename Hs' into Hs]) in
  let go_dur lem := (edestruct lem as (s & Hs' & E); [exact Hs| |rewrite E; clear E Hs; rename Hs' into Hs]) in
  first [ go @step_tric_read | go @step_tric_write | go @step_tric_delete
        | go @step_tric_delete_if_match | go @step_tric_ttl_remaining | go @step_tric_find
        | go @step_sqlite_read | go @step_sqlite_delete | go @step_sqlite_delete_if_match
        | go @step_sqlite_find
        | go_dur @step_tric_write_ttl | go_dur @step_tric_write_with_ttl | go_dur @step_sqlite_write ];
  cbv beta.

Lemma shows_wf s T P : shows s T P → coherent T P → permutive_wf s.
Proof. intros (Ht & <- & Hp & <-) Hc. by split. Qed.
Lemma shows_contents s T P t : shows s T P → permutive_contents s t = tiers_contents T P t.
Proof. by intros (Ht & <- & Hp & <-). Qed.
Lemma wf_shows s :
  permutive_wf s → shows s (store_abs (transient s)) (sqlite_contents (persistent s)).
Proof. by intros []. Qed.

(** The result of a run, from what the final bus shows. *)
Lemma permutive_returns {A} (m : M (World PermutiveBus) A) n s a now f n' s' T0 P0 T P :
  shows s T0 P0 → m (mkWorld n s) = (Returned a, mkWorld n' s') → shows s' T P → coherent T P →
  (n ≤ n')%nat → sample n ≤ now ≤ sample n' →
  (∀ t, now ≤ t → tiers_contents T P t = f t (tiers_contents T0 P0 t)) →
  bus_returns permutive_wf permutive_contents m (mkWorld n s) a now f.
Proof.
  intros Hs0 Hm Hs Hc Hn Hnow Hf. exists (mkWorld n' s'). split_and!; simpl; [done|done| |tauto|tauto|].
  - by eapply shows_wf.
  - intros t Ht. rewrite (shows_contents s' T P t Hs), (shows_contents s T0 P0 t Hs0). by apply Hf.
Qed.

Lemma read_value_run k n s T P : shows s T P →
  ∃ s',
    match tm_contents T (sample n) !! k, P !! k with
    | Some v, _ => run_proc (read_value k) (mkWorld n s) = (Returned (Some v), mkWorld (S n) s') ∧
                   shows s' (tm_purge (sample n) T) P
    | None, None => run_proc (read_value k) (mkWorld n s) = (Returned None, mkWorld (S n) s') ∧
                    shows s' (tm_purge (sample n) T) P
    | None, Some v =>
        run_proc (read_value k) (mkWorld n s) = (Returned (Some v), mkWorld (S (S (S n))) s') ∧
        shows s' (tm_write_ttl k (sample (S (S n)) + from_secs CACHE_PROMOTION_SECONDS)
          (tm_purge (sample (S (S n))) (tm_write k v (tm_purge (sample (S n)) (tm_purge (sample n) T))))) P
    end.
Proof.
  intros Hs. unfold read_value. step Hs.
  destruct (tm_contents T (sample n) !! k) as [v|]; [eexists; by split|].
  step Hs. destruct (P !! k) as [v|]; [|eexists; by split].
  step Hs. step Hs.
  { apply duration_ok_secs. unfold CACHE_PROMOTION_SECONDS. lia. }
  eexists; by split.
Qed.

(** ** Contents of two coherent tiers *)

Lemma tiers_purge T P now t : now ≤ t → tiers_contents (tm_purge now T) P t = tiers_contents T P t.
Proof. intros Ht. unfold tiers_contents. by rewrite tm_contents_purge. Qed.

Lemma tiers_lookup T P t k :
  tiers_contents T P t !! k = match tm_contents T t !! k with Some v => Some v | None => P !! k end.
Proof. unfold tiers_contents. rewrite lookup_union. by destruct (_ !! _), (P !! k). Qed.

Lemma coherent_purge T P now : coherent T P → coherent (tm_purge now T) P.
Proof.
  intros Hc k v e v' Hk. apply map_lookup_filter_Some in Hk as [Hk _]. by eapply Hc.
Qed.
Lemma coherent_delete_P T P k : coherent T P → coherent T (delete k P).
Proof. intros Hc k' v e v' Hk [_ Hp]%lookup_delete_Some. by eapply Hc. Qed.
Lemma coherent_delete_T T P k : coherent T P → coherent (delete k T) P.
Proof. intros Hc k' v e v' [_ Hk]%lookup_delete_Some. by eapply Hc. Qed.
Lemma coherent_insert_T T P k v e :
  coherent T P → (∀ v', P !! k = Some v' → v = v') → coherent (<[k := (v, e)]> T) P.
Proof.
  intros Hc Hk k' v0 e0 v'. rewrite lookup_insert. case_decide; [|apply Hc].
  subst. intros [= <- <-]. apply Hk.
Qed.
Lemma coherent_insert_P T P k v : coherent T P → coherent (delete k T) (<[k := v]> P).
Proof.
  intros Hc k' v0 e0 v' [Hne Hk]%lookup_delete_Some. rewrite lookup_insert_ne by done. by eapply Hc.
Qed.
Lemma coherent_write_ttl T P k i : coherent T P → coherent (tm_write_ttl k i T) P.
Proof.
  intros Hc k' v e v'. unfold tm_write_ttl. rewrite lookup_alter. case_decide; [|apply Hc].
  subst. destruct (T !! k') as [[v0 e0]|] eqn:E; [|done]. simpl. intros [= <- <-]. by eapply Hc.
Qed.

(** Coherence makes the key's value in the transient tier that of the
    persistent one, live or not. *)
Lemma tiers_lookup_persistent T P t k v :
  coherent T P → P !! k = Some v → tiers_contents T P t !! k = Some v.
Proof.
  intros Hc Hp. rewrite tiers_lookup. destruct (tm_contents T t !! k) as [v'|] eqn:E; [|done].
  apply tm_contents_lookup in E as (e & Hk & _). by rewrite (Hc _ _ _ _ Hk Hp).
Qed.

Lemma tiers_write_T T P k v t :
  P !! k = Some v → tiers_contents (tm_write k v T) P t = <[k := v]> (tiers_contents T P t).
Proof. intros Hp. unfold tiers_contents. by rewrite tm_contents_write, insert_union_l. Qed.

(** A cached copy, with or without a deadline, changes nothing a reader sees. *)
Lemma tiers_cached T P k v i t :
  coherent T P → P !! k = Some v →
  tiers_contents (tm_write_ttl k i (tm_write k v T)) P t = tiers_contents T P t.
Proof.
  intros Hc Hp. apply map_eq. intros k'.
  destruct (decide (k' = k)) as [->|Hne].
  - rewrite !(tiers_lookup_persistent _ P t k v); try done.
    apply coherent_write_ttl, coherent_insert_T; [done|]. intros v'. congruence.
  - rewrite !tiers_lookup.
    rewrite (tm_contents_write_ttl k i (tm_write k v T) t v None) by apply lookup_insert_eq.
    rewrite tm_contents_write. case_decide;
      by rewrite ?lookup_delete_ne, ?lookup_insert_ne by done.
Qed.

Lemma tiers_delete_both T P k t :
  tiers_contents (delete k T) (delete k P) t = delete k (tiers_contents T P t).
Proof. unfold tiers_contents. by rewrite tm_contents_delete, delete_union. Qed.

Lemma tiers_write_P T P k v t :
  tiers_contents (delete k T) (<[k := v]> P) t = <[k := v]> (tiers_contents T P t).
Proof.
  apply map_eq. intros k'. rewrite tiers_lookup, tm_contents_delete, lookup_delete, !lookup_insert, tiers_lookup.
  by case_decide.
Qed.

Lemma tiers_write_with_ttl T P k v i t :
  tiers_contents (tm_write_with_ttl k v i T) (delete k P) t = expiring k v i t (tiers_contents T P t).
Proof.
  apply map_eq. intros k'. rewrite expiring_lookup, !tiers_lookup, tm_contents_write_with_ttl.
  repeat case_decide; subst;
    rewrite ?lookup_insert_eq, ?lookup_delete_eq, ?lookup_insert_ne, ?lookup_delete_ne by done; done.
Qed.

Lemma tm_contents_None_later T t t' k :
  t ≤ t' → tm_contents T t !! k = None → tm_contents T t' !! k = None.
Proof.
  intros Ht Hn. apply eq_None_not_Some. intros [v Hv].
  apply tm_contents_lookup in Hv as (e & Hk & Hl).
  apply eq_None_not_Some in Hn. apply Hn. exists v. apply tm_contents_lookup. eauto using live_mono.
Qed.

#[local] Hint Resolve coherent_purge coherent_delete_P coherent_delete_T coherent_write_ttl : core.

(** The clock readings of a method are in order. *)
Ltac clock_order :=
  match goal with
  | |- sample ?i ≤ sample ?j => apply sample_mono; lia
  | |- sample ?i ≤ sample ?j ≤ sample ?k => split; apply sample_mono; lia
  end.

Lemma permutive_contents_eq s t :
  permutive_contents s t =
  tiers_contents (store_abs (transient s)) (sqlite_contents (persistent s)) t.
Proof. done. Qed.

(** Start a law: name what the two tiers hold. *)
Ltac start_law :=
  lazymatch goal with |- permutive_wf (st ?w) → _ => destruct w as [n s] end;
  cbn [tick st];
  lazymatch goal with |- permutive_wf ?s → _ =>
    let Hwf := fresh "Hwf" in
    intros Hwf; generalize (pw_coherent s Hwf) (wf_shows s Hwf); clear Hwf;
    rewrite ?permutive_contents_eq;
    generalize (store_abs (transient s)) (sqlite_contents (persistent s)); intros T P Hc Hs
  end.

Lemma read_law w k : permutive_wf (st w) → ∃ now,
  bus_returns permutive_wf permutive_contents (DataBus.read_value k) w
    (permutive_contents (st w) (sample (tick w)) !! k) now (λ _ c, c).
Proof.
  start_law.
  destruct (read_value_run k n s T P Hs) as [s' Hrun]. rewrite tiers_lookup.
  destruct (tm_contents T (sample n) !! k) as [v|] eqn:ET.
  - destruct Hrun as [Hrun Hs']. exists (sample n).
    eapply permutive_returns; [done|done|done|auto|lia|clock_order|].
    intros t Ht. by apply tiers_purge.
  - destruct (P !! k) as [v|] eqn:EP; destruct Hrun as [Hrun Hs'].
    + exists (sample (S (S n))). eapply permutive_returns; [done|done|done| |lia|clock_order|].
      * apply coherent_write_ttl, coherent_purge, coherent_insert_T; [auto|]. intros v'. congruence.
      * intros t Ht. assert (sample (S n) ≤ t ∧ sample n ≤ t) as [Ht1 Ht0].
        { split; (etrans; [|exact Ht]); clock_order. }
        rewrite <- (tiers_purge T P (sample n) t), <- (tiers_purge (tm_purge _ T) P (sample (S n)) t) by done.
        unfold tm_purge at 1. unfold tm_write. rewrite map_filter_insert_True by done.
        fold (tm_purge (sample (S (S n))) (tm_purge (sample (S n)) (tm_purge (sample n) T))).
        rewrite <- (tiers_purge (tm_purge (sample (S n)) _) P (sample (S (S n))) t) by done.
        apply tiers_cached; auto.
    + exists (sample n). eapply permutive_returns; [done|done|done|auto|lia|clock_order|].
      intros t Ht. by apply tiers_purge.
Qed.

(** The end of a run, in the unfolded form of [bus_returns]. *)
Lemma permutive_finish {A} (a : A) n s now f n' s' T0 P0 T P :
  shows s T0 P0 → shows s' T P → coherent T P → (n ≤ n')%nat → sample n ≤ now ≤ sample n' →
  (∀ t, now ≤ t → tiers_contents T P t = f t (tiers_contents T0 P0 t)) →
  ∃ w', run_proc (mret a) (mkWorld n' s') = (Returned a, w') ∧ (n ≤ tick w')%nat ∧
    permutive_wf (st w') ∧ sample n ≤ now ≤ sample (tick w') ∧
    ∀ t, now ≤ t → permutive_contents (st w') t = f t (permutive_contents s t).
Proof.
  intros Hs0 Hs Hc Hn Hnow Hf.
  destruct (permutive_returns (λ _, (Returned a, mkWorld n' s')) n s a now f n' s' T0 P0 T P
    Hs0 eq_refl Hs Hc Hn Hnow Hf) as (w' & [= <-] & Hw). by exists (mkWorld n' s').
Qed.

(** Run the steps of a method, then compare what the tiers show. *)
Ltac begin_run Hs Hs0 :=
  pose proof Hs as Hs0;
  lazymatch goal with |- bus_returns _ _ _ _ _ _ ?f => set (F := f) end;
  unfold bus_returns; cbn [tick st];
  cbn [DataBus.write_value DataBus.delete_value DataBus.delete_value_if_match DataBus.write_ttl
       DataBus.write_value_with_ttl DataBus.read_ttl_remaining DataBus.find_by_prefix PermutiveBus_DataBus].
Ltac finish_run Hs0 Hs := eapply permutive_finish; [exact Hs0|exact Hs| |lia|clock_order|]; cbv beta.

Lemma write_law w k v : permutive_wf (st w) → openable k → ∃ now,
  bus_returns permutive_wf permutive_contents (DataBus.write_value k v) w () now
    (λ _ c, <[k := v]> c).
Proof.
  start_law. intros Ho. exists (sample n). begin_run Hs Hs0. unfold write_value.
  rewrite (on_transient_tail (Tric.delete_value k)). step Hs; [done|]. step Hs.
  finish_run Hs0 Hs; [by apply coherent_insert_P, coherent_purge|].
  intros t Ht. unfold F. by rewrite tiers_write_P, tiers_purge.
Qed.

Lemma delete_law w k : permutive_wf (st w) → ∃ now,
  bus_returns permutive_wf permutive_contents (DataBus.delete_value k) w () now
    (λ _ c, delete k c).
Proof.
  start_law. exists (sample n). begin_run Hs Hs0. unfold delete_value.
  rewrite (on_persistent_tail (DataBus.delete_value k)). step Hs. step Hs.
  finish_run Hs0 Hs; [auto|].
  intros t Ht. unfold F. by rewrite tiers_delete_both, tiers_purge.
Qed.

(** Coherent tiers agree on whether the key matches, so that a match deletes
    the key from both. *)
Lemma delete_if_match_law w k e : permutive_wf (st w) → ∃ now,
  let hit := bool_decide (permutive_contents (st w) (sample (tick w)) !! k = Some e) in
  bus_returns permutive_wf permutive_contents (DataBus.delete_value_if_match k e) w hit now
    (λ _ c, if hit then delete k c else c).
Proof.
  start_law. exists (sample n). cbv zeta.
  assert (∀ v, tm_contents T (sample n) !! k = Some v → ∀ v', P !! k = Some v' → v = v') as Hag.
  { intros v (ex & Hk & _)%tm_contents_lookup v' Hk'. by eapply Hc. }
  assert (bool_decide (tiers_contents T P (sample n) !! k = Some e) =
    bool_decide (tm_contents T (sample n) !! k = Some e) || bool_decide (P !! k = Some e)) as ->.
  { rewrite tiers_lookup. destruct (tm_contents T (sample n) !! k) as [v|]; [|done].
    repeat case_bool_decide; naive_solver. }
  begin_run Hs Hs0. unfold delete_value_if_match. step Hs. step Hs.
  finish_run Hs0 Hs; [repeat case_bool_decide; auto|]. intros t Ht. unfold F.
  rewrite <- (tiers_purge T P (sample n) t) by done.
  case_bool_decide as Et; simpl.
  - rewrite <- tiers_delete_both. f_equal. case_bool_decide as Ep; [done|].
    symmetry. apply delete_id. destruct (P !! k) as [v'|] eqn:E; [|done].
    by rewrite (Hag _ Et v' eq_refl) in Ep.
  - case_bool_decide as Ep; [|done]. rewrite <- tiers_delete_both. unfold tiers_contents. f_equal.
    rewrite tm_contents_delete, tm_contents_purge by done. symmetry. apply delete_id.
    apply (tm_contents_None_later T (sample n)); [done|].
    destruct (tm_contents T (sample n) !! k) as [v|] eqn:E; [|done]. by rewrite (Hag v eq_refl e Ep) in Et.
Qed.

Lemma write_ttl_law w k d : permutive_wf (st w) → duration_ok d → ∃ now,
  bus_returns permutive_wf permutive_contents (DataBus.write_ttl k d) w () now
    (λ t c, match permutive_contents (st w) now !! k with
            | Some v => expiring k v (now + d) t c
            | None => c
            end).
Proof.
  start_law. intros Hd. destruct (P !! k) as [v|] eqn:EP.
  - exists (sample (S n)). rewrite (shows_contents s T P _ Hs). begin_run Hs Hs0. unfold write_ttl. step Hs. rewrite EP. step Hs.
    rewrite (on_transient_tail (Tric.write_ttl k d)). step Hs. step Hs; [done|].
    finish_run Hs0 Hs; [apply coherent_write_ttl, coherent_purge, coherent_insert_T; auto|].
    { intros v'. by rewrite lookup_delete_eq. }
    intros t Ht. unfold F. rewrite (tiers_lookup_persistent T P _ k v) by done.
    unfold tm_purge at 1, tm_write. rewrite map_filter_insert_True by done.
    assert (sample n ≤ t) by (etrans; [|exact Ht]; clock_order).
    assert (tm_write_ttl k (sample (S n) + d)
      (<[k := (v, None)]> (filter (λ e, live (sample (S n)) e.2) (tm_purge (sample n) T))) =
      tm_write_with_ttl k v (sample (S n) + d) (tm_purge (sample (S n)) (tm_purge (sample n) T))) as ->.
    { unfold tm_write_ttl, tm_write_with_ttl. rewrite alter_insert_eq. by rewrite ?insert_insert_eq. }
    by rewrite tiers_write_with_ttl, !tiers_purge.
  - exists (sample n). rewrite (shows_contents s T P _ Hs). begin_run Hs Hs0. unfold write_ttl. step Hs. rewrite EP, proc_ret_bind.
    rewrite (on_transient_tail (Tric.write_ttl k d)). step Hs; [done|].
    finish_run Hs0 Hs; [auto|]. intros t Ht. unfold F.
    rewrite tiers_lookup, EP. unfold tm_contents at 1. rewrite lookup_fmap.
    destruct (tm_purge (sample n) T !! k) as [[v e]|] eqn:ET; simpl.
    + assert (tm_write_ttl k (sample n + d) (tm_purge (sample n) T) =
        tm_write_with_ttl k v (sample n + d) (tm_purge (sample n) T)) as ->.
      { unfold tm_write_ttl, tm_write_with_ttl. apply map_eq. intros k'.
        rewrite lookup_alter, lookup_insert. case_decide; [subst; by rewrite ET|done]. }
      rewrite <- (delete_id P k EP) at 1. by rewrite tiers_write_with_ttl, tiers_purge.
    + unfold tm_write_ttl. rewrite alter_id; [by apply tiers_purge|]. congruence.
Qed.

Lemma write_value_with_ttl_law w k v d : permutive_wf (st w) → duration_ok d → ∃ now,
  bus_returns permutive_wf permutive_contents (DataBus.write_value_with_ttl k v d) w () now
    (λ t c, expiring k v (now + d) t c).
Proof.
  start_law. intros Hd. exists (sample n). begin_run Hs Hs0. unfold write_value_with_ttl.
  rewrite (on_transient_tail (Tric.write_value_with_ttl k v d)). step Hs. step Hs; [done|].
  finish_run Hs0 Hs.
  - apply coherent_insert_T; [auto|]. intros v'. by rewrite lookup_delete_eq.
  - intros t Ht. unfold F. by rewrite tiers_write_with_ttl, tiers_purge.
Qed.

Lemma read_ttl_remaining_law w k : permutive_wf (st w) → ∃ r now,
  bus_returns permutive_wf permutive_contents (DataBus.read_ttl_remaining k) w r now (λ _ c, c) ∧
  remaining_ok (permutive_contents (st w)) k (sample (tick w)) r.
Proof.
  start_law. eexists _, (sample n). split.
  - begin_run Hs Hs0. unfold read_ttl_remaining. rewrite (on_transient_tail (Tric.read_ttl_remaining k)).
    step Hs. finish_run Hs0 Hs; [auto|]. intros t Ht. by apply tiers_purge.
  - destruct (tm_remaining_ok T k (sample n)) as [Hin Hex]. split.
    + intros Hr. rewrite (shows_contents s T P _ Hs), tiers_lookup. destruct (Hin Hr) as [v ->]. by exists v.
    + intros i Hi Hc'. apply Hex; [done|]. intros t Ht. rewrite <- Hc' by done.
      rewrite (shows_contents s T P _ Hs), tiers_lookup.
      destruct (P !! k) as [v|] eqn:EP; [|by destruct (tm_contents T t !! k)].
      exfalso. specialize (Hc' i (N.lt_le_incl _ _ Hi)). rewrite (shows_contents s T P _ Hs), tiers_lookup, EP in Hc'.
      destruct Hc' as [Hc' _]. assert (i < i) by (apply Hc'; by destruct (tm_contents T i !! k)). lia.
Qed.

Lemma prefix_entries_filter (p : bytes) (c : gmap bytes bytes) :
  prefix_entries p c = btree_iter (filter (λ e, starts_with e.1 p = true) c).
Proof. unfold prefix_entries. by rewrite (btree_filter (λ e, starts_with e.1 p = true)). Qed.

(** Merging the scans of the two tiers is the scan of what a reader sees. *)
Lemma merge_tiers_ok (p : bytes) (c r : gmap bytes bytes) :
  merge_tiers (prefix_entries p c) (prefix_entries p r) = prefix_entries p (c ∪ r).
Proof.
  unfold merge_tiers. rewrite (prefix_entries_filter p (c ∪ r)).
  assert (∀ k, k ∈ (list_to_set (prefix_entries p c).*1 : gset bytes) ↔
    starts_with k p = true ∧ is_Some (c !! k)) as Hkeys.
  { intros k. rewrite elem_of_list_to_set, list_elem_of_fmap. split.
    - intros ([k' v] & -> & Hk). apply elem_of_prefix_entries in Hk as [? Hk]. simpl. eauto.
    - intros [Hp [v Hk]]. exists (k, v). by rewrite elem_of_prefix_entries. }
  apply btree_iter_unique.
  - rewrite sort_by_key_permutation, fmap_app. apply NoDup_app. split_and!.
    + apply prefix_entries_NoDup.
    + intros k Hk1 Hk2. apply list_elem_of_fmap in Hk2 as (e & -> & [Hne _]%list_elem_of_filter).
      apply Hne. by rewrite elem_of_list_to_set.
    + eapply sublist_NoDup; [apply (prefix_entries_NoDup p r)|]. apply fmap_sublist, sublist_filter.
  - apply sort_by_key_sorted.
  - intros k v. rewrite sort_by_key_permutation, elem_of_app, list_elem_of_filter,
      !elem_of_prefix_entries, map_lookup_filter_Some, lookup_union_Some_raw, Hkeys.
    simpl. rewrite eq_None_not_Some. split; [|tauto].
    intros [?|(? & ? & ?)]; naive_solver.
Qed.

Lemma find_by_prefix_law w p : permutive_wf (st w) → ∃ now,
  bus_returns permutive_wf permutive_contents (DataBus.find_by_prefix p) w
    (prefix_entries p (permutive_contents (st w) (sample (tick w)))) now (λ _ c, c).
Proof.
  start_law. exists (sample n). begin_run Hs Hs0. unfold find_by_prefix. step Hs. step Hs.
  rewrite merge_tiers_ok. finish_run Hs0 Hs; [auto|]. intros t Ht. by apply tiers_purge.
Qed.

#[export] Instance PermutiveBus_TimedBus : TimedBus PermutiveBus := {|
  bus_wf := permutive_wf;
  bus_contents := permutive_contents;
  bus_writable := openable;
  bus_read_law := read_law;
  bus_write_law := write_law;
  bus_delete_law := delete_law;
  bus_delete_if_match_law := delete_if_match_law;
  bus_write_ttl_law := write_ttl_law;
  bus_write_value_with_ttl_law := write_value_with_ttl_law;
  bus_read_ttl_remaining_law := read_ttl_remaining_law;
  bus_find_by_prefix_law := find_by_prefix_law;
|}.

(** ** How long a cached copy lives *)

(** No entry of a key that the persistent tier holds expires after [b]. *)
Definition bounded (b : Instant) (T : timed_map) (P : gmap bytes bytes) : Prop :=
  ∀ k v i, T !! k = Some (v, Some i) → is_Some (P !! k) → i ≤ b.

(** The copies in the cache expire within the promotion time. *)
Definition cache_bounded (w : World PermutiveBus) : Prop :=
  bounded (sample (tick w) + from_secs CACHE_PROMOTION_SECONDS)
    (store_abs (transient (st w))) (sqlite_contents (persistent (st w))).

(** What the bus may answer for the time-to-live of a key that does not expire. *)
Definition cached_answer (r : option Duration) : Prop :=
  match r with Some d => d ≤ from_secs CACHE_PROMOTION_SECONDS | None => True end.

Lemma bounded_mono b b' T P : b ≤ b' → bounded b T P → bounded b' T P.
Proof using Type. intros Hb HB k v i Hk Hp. etrans; [by eapply HB|done]. Qed.
Lemma bounded_purge b T P now : bounded b T P → bounded b (tm_purge now T) P.
Proof using Type. intros HB k v i [Hk _]%map_lookup_filter_Some. by eapply HB. Qed.
Lemma bounded_delete_P b T P k : bounded b T P → bounded b T (delete k P).
Proof using Type. intros HB k' v i Hk [v' [_ Hp]%lookup_delete_Some]. eapply HB; [done|by exists v']. Qed.
Lemma bounded_delete_T b T P k : bounded b T P → bounded b (delete k T) P.
Proof using Type. intros HB k' v i [_ Hk]%lookup_delete_Some. by eapply HB. Qed.
Lemma bounded_insert_P b T P k v : bounded b T P → bounded b (delete k T) (<[k := v]> P).
Proof using Type. intros HB k' v' i [Hne Hk]%lookup_delete_Some. rewrite lookup_insert_ne by done. by eapply HB. Qed.
Lemma bounded_write b T P k v : bounded b T P → bounded b (tm_write k v T) P.
Proof using Type. unfold tm_write. intros HB k' v' i [[_ [=]]|[_ Hk]]%lookup_insert_Some. by eapply HB. Qed.
Lemma bounded_write_with_ttl b T P k v i :
  (is_Some (P !! k) → i ≤ b) → bounded b T P → bounded b (tm_write_with_ttl k v i T) P.
Proof using Type. unfold tm_write_with_ttl. intros Hi HB k' v' i' [[<- [= _ <-]]|[_ Hk]]%lookup_insert_Some; [done|by eapply HB]. Qed.
Lemma bounded_write_ttl b T P k i :
  (is_Some (P !! k) → i ≤ b) → bounded b T P → bounded b (tm_write_ttl k i T) P.
Proof using Type.
  intros Hi HB k' v' i'. unfold tm_write_ttl. rewrite lookup_alter. case_decide; [|by eapply HB].
  subst. destruct (T !! k') as [[v e]|]; [|done]. simpl. by intros [= _ <-].
Qed.
#[local] Hint Resolve bounded_purge bounded_delete_P bounded_delete_T bounded_insert_P bounded_write : core.

(** The end of a run that keeps the bound. *)
Lemma bounded_finish {A} (a : A) n0 n s T P :
  shows s T P → (n0 ≤ n)%nat → bounded (sample n0 + from_secs CACHE_PROMOTION_SECONDS) T P →
  ∃ b w', run_proc (mret a) (mkWorld n s) = (Returned b, w') ∧ cache_bounded w'.
Proof using Type.
  intros (_ & <- & _ & <-) Hn HB. exists a, (mkWorld n s). split; [done|]. eapply bounded_mono; [|exact HB].
  apply N.add_le_mono_r. by apply sample_mono.
Qed.

(** A call made of another, and of what it answers. *)
Lemma bounded_call {A} (m : M (World PermutiveBus) A) (g : A → BusReply) w r w' :
  (∃ a w1, m w = (Returned a, w1) ∧ cache_bounded w1) → (x ← m; mret (g x)) w = (Returned r, w') → cache_bounded w'.
Proof using Type. intros (a & w1 & Hm & HB). run_with Hm. by intros [= _ <-]. Qed.

(** Start with what the two tiers hold, step through the method, end with the bound. *)
Ltac start_bounded :=
  intros Hs HB;
  cbn [DataBus.read_value DataBus.write_value DataBus.delete_value DataBus.delete_value_if_match DataBus.write_ttl
       DataBus.write_value_with_ttl DataBus.read_ttl_remaining DataBus.find_by_prefix PermutiveBus_DataBus].
Ltac finish_bounded n Hs := eapply (bounded_finish _ n); [exact Hs|lia|]; auto.

(** No method makes a copy of a row live for longer. *)
Lemma bounded_read k n s T P :
  shows s T P → bounded (sample n + from_secs CACHE_PROMOTION_SECONDS) T P →
  ∃ v w', run_proc (read_value k) (mkWorld n s) = (Returned v, w') ∧ cache_bounded w'.
Proof using Type.
  intros Hs HB. destruct (read_value_run k n s T P Hs) as [s' Hrun].
  assert (∀ n', (n ≤ n')%nat → bounded (sample n' + from_secs CACHE_PROMOTION_SECONDS) T P) as HB'.
  { intros n' Hn. eapply bounded_mono; [|exact HB]. by apply N.add_le_mono_r, sample_mono. }
  destruct (tm_contents T (sample n) !! k) as [v|]; [|destruct (P !! k) as [v|]]; destruct Hrun as [Hrun (_ & HT & _ & HP)];
    eexists _, _; (split; [exact Hrun|]); unfold cache_bounded; cbn [st tick]; rewrite HT, HP.
  - apply bounded_purge, HB'. lia.
  - apply bounded_write_ttl; [intros _; apply N.add_le_mono_r, sample_mono; lia|].
    apply bounded_purge, bounded_write, bounded_purge, bounded_purge, HB'. lia.
  - apply bounded_purge, HB'. lia.
Qed.

Lemma bounded_op op n s T P r w' :
  shows s T P → bounded (sample n + from_secs CACHE_PROMOTION_SECONDS) T P → op_admissible op →
  run_op op (mkWorld n s) = (Returned r, w') → cache_bounded w'.
Proof using Type.
  intros Hs HB Hadm. destruct op as [k|k v|k|k e|k d|k v d|k|p]; unfold run_op; apply bounded_call; revert Hs HB; start_bounded.
  - by eapply bounded_read.
  - unfold write_value. rewrite (on_transient_tail (Tric.delete_value k)). step Hs; [done|]. step Hs. finish_bounded n Hs.
  - unfold delete_value. rewrite (on_persistent_tail (DataBus.delete_value k)). step Hs. step Hs. finish_bounded n Hs.
  - unfold delete_value_if_match. step Hs. step Hs. finish_bounded n Hs. repeat case_bool_decide; auto.
  - unfold write_ttl. step Hs. destruct (P !! k) as [v|] eqn:EP.
    + step Hs. rewrite (on_transient_tail (Tric.write_ttl k d)). step Hs. step Hs; [done|]. finish_bounded n Hs.
      apply bounded_write_ttl; [|auto]. rewrite lookup_delete_eq. by intros [].
    + rewrite proc_ret_bind, (on_transient_tail (Tric.write_ttl k d)). step Hs; [done|]. finish_bounded n Hs.
      apply bounded_write_ttl; [|auto]. rewrite EP. by intros [].
  - unfold write_value_with_ttl. rewrite (on_transient_tail (Tric.write_value_with_ttl k v d)). step Hs. step Hs; [done|].
    finish_bounded n Hs. apply bounded_write_with_ttl; [|auto]. rewrite lookup_delete_eq. by intros [].
  - unfold read_ttl_remaining. rewrite (on_transient_tail (Tric.read_ttl_remaining k)). step Hs. finish_bounded n Hs.
  - unfold find_by_prefix. step Hs. step Hs. finish_bounded n Hs.
Qed.

(** The answer for a key that does not expire: there is a row, and the answer is
    the time left to a copy of it, or none. *)
#[export] Instance PermutiveBus_TtlPromise : TtlPromise PermutiveBus cached_answer cache_bounded.
Proof using Type.
  split.
  - intros op [n s] r w' Hwf HB Hadm. by eapply bounded_op; [apply wf_shows|exact HB|].
  - intros k [n s] r w' Hwf HB. pose proof (wf_shows s Hwf) as Hs. unfold cache_bounded in HB. cbn [st tick] in *.
    intros Hrun Hstays. revert Hrun. unfold run_op. cbn [DataBus.read_ttl_remaining PermutiveBus_DataBus].
    unfold read_ttl_remaining. rewrite (on_transient_tail (Tric.read_ttl_remaining k)).
    destruct (step_tric_ttl_remaining k mret n s _ _ Hs) as (s' & _ & Hread). run_with Hread. intros [= <- _].
    unfold tm_ttl_remaining. destruct (tm_purge (sample n) (store_abs (transient s)) !! k) as [[v [i|]]|] eqn:E; [|done..].
    apply map_lookup_filter_Some in E as [Hk Hl]. cbn in Hl |- *. unfold checked_duration_since.
    rewrite (proj2 (N.leb_le _ _)) by lia. cbn.
    assert (is_Some (sqlite_contents (persistent s) !! k)) as Hrow.
    { destruct (Hstays i ltac:(lia)) as [v' Hv]. rewrite permutive_contents_eq, tiers_lookup in Hv.
      destruct (tm_contents (store_abs (transient s)) i !! k) eqn:Ei; [|by eexists].
      apply tm_contents_lookup in Ei as (e & Hk' & Hl'). simplify_eq. cbn in Hl'. lia. }
    pose proof (HB k v i Hk Hrow). lia.
Qed.
End permutive_spec.
