(* ===== verification/Buses.v ===== *)
(** The implementations of the storage interface against what it promises: the
    runs of the permutive and of the transient bus are runs of the abstract
    machine, what that means for a key, what a panic inside the persistent tier
    does, and what a statement that fails does. *)
From stdpp Require Import prelude gmap sorting strings.
From Stdlib Require Import NArith Lia.
From S2P Require Import Prelude.
From S2P Require Import Bytes.
From S2P Require Import BTree.
From S2P Require Import Clock.
From S2P Require Import TimedMap.
From S2P Require Import Store.
From S2P Require Import Tric.
From S2P Require Import DataBus.
From S2P Require Import BusSpec.
From S2P Require Import Sqlite.
From S2P Require Import Instances.
From S2P Require Import Permutive.

(** * Keys that a sequence of operations leaves alone *)

Definition touches (k : bytes) (op : BusOp) : bool :=
  match op with
  | OpWrite k' _ | OpDelete k' | OpDeleteIfMatch k' _ | OpWriteTtl k' _ | OpWriteWithTtl k' _ _ =>
      bool_decide (k' = k)
  | OpRead _ | OpReadTtl _ | OpScan _ => false
  end.

Section timed_bus.
Context {S : Type} `{TimedBus S}.

(** A call whose effect on the contents spares the key. *)
Lemma returns_untouched {A} (m : M (World S) A) w a now f (k : bytes) (g : A → BusReply) op :
  bus_returns bus_wf bus_contents m w a now f → run_op op w = (x ← m; mret (g x)) w →
  (∀ t c, f t c !! k = c !! k) →
  ∃ r w', run_op op w = (Returned r, w') ∧ bus_wf (st w') ∧ (tick w ≤ tick w')%nat ∧
    ∀ t, sample (tick w') ≤ t → bus_contents (st w') t !! k = bus_contents (st w) t !! k.
Proof.
  intros (w' & Hm & Htick & Hwf & Hnow & Hc) Hrun Hf. exists (g a), w'. rewrite Hrun. run_with Hm.
  split_and!; [done..|]. intros t Ht. by rewrite Hc, Hf by lia.
Qed.

Lemma run_op_untouched op w (k : bytes) :
  bus_wf (st w) → op_admissible op → touches k op = false →
  ∃ r w', run_op op w = (Returned r, w') ∧ bus_wf (st w') ∧ (tick w ≤ tick w')%nat ∧
    ∀ t, sample (tick w') ≤ t → bus_contents (st w') t !! k = bus_contents (st w) t !! k.
Proof.
  intros Hwf Hadm Hk.
  destruct op as [k'|k' v|k'|k' e|k' d|k' v d|k'|p]; simpl in Hadm, Hk;
    try apply bool_decide_eq_false in Hk.
  - destruct (bus_read_law w k' Hwf) as [now Hl]. by eapply (returns_untouched _ _ _ _ _ _ _ _ Hl).
  - destruct (bus_write_law w k' v Hwf Hadm) as [now Hl].
    eapply (returns_untouched _ _ _ _ _ _ (λ _, ReplyUnit) _ Hl); [done|].
    intros t c. by rewrite lookup_insert_ne.
  - destruct (bus_delete_law w k' Hwf) as [now Hl].
    eapply (returns_untouched _ _ _ _ _ _ (λ _, ReplyUnit) _ Hl); [done|].
    intros t c. by rewrite lookup_delete_ne.
  - destruct (bus_delete_if_match_law w k' e Hwf) as [now Hl]. cbv zeta in Hl.
    eapply (returns_untouched _ _ _ _ _ _ _ _ Hl); [done|].
    intros t c. case_bool_decide; by rewrite ?lookup_delete_ne.
  - destruct (bus_write_ttl_law w k' d Hwf Hadm) as [now Hl].
    eapply (returns_untouched _ _ _ _ _ _ (λ _, ReplyUnit) _ Hl); [done|].
    intros t c. case_match; [|done]. by rewrite expiring_lookup, decide_False.
  - destruct (bus_write_value_with_ttl_law w k' v d Hwf Hadm) as [now Hl].
    eapply (returns_untouched _ _ _ _ _ _ (λ _, ReplyUnit) _ Hl); [done|].
    intros t c. by rewrite expiring_lookup, decide_False.
  - destruct (bus_read_ttl_remaining_law w k' Hwf) as (r & now & Hl & _).
    by eapply (returns_untouched _ _ _ _ _ _ _ _ Hl).
  - destruct (bus_find_by_prefix_law w p Hwf) as [now Hl].
    by eapply (returns_untouched _ _ _ _ _ _ _ _ Hl).
Qed.

(** A run of operations that spare the key: it completes, and a reader after it
    sees of the key what it would have seen without it. *)
Lemma run_ops_untouched ops w (k : bytes) :
  bus_wf (st w) → Forall op_admissible ops → Forall (λ op, touches k op = false) ops →
  ∃ rs w', run_ops ops w = (Returned rs, w') ∧ bus_wf (st w') ∧ (tick w ≤ tick w')%nat ∧
    ∀ t, sample (tick w') ≤ t → bus_contents (st w') t !! k = bus_contents (st w) t !! k.
Proof.
  intros Hwf Hadm. revert w Hwf. induction Hadm as [|op ops Hop Hadm IH]; intros w Hwf Hops.
  - by exists [], w.
  - apply Forall_cons in Hops as [Hk Hops].
    destruct (run_op_untouched op w k Hwf Hop Hk) as (r & w1 & Hrun & Hwf1 & Ht1 & Hc1).
    destruct (IH w1 Hwf1 Hops) as (rs & w2 & Hrun2 & Hwf2 & Ht2 & Hc2).
    exists (r :: rs), w2. split_and!; [|done|lia|].
    + unfold run_ops in *. simpl. run_with Hrun. by run_with Hrun2.
    + intros t Ht. pose proof (sample_mono _ _ Ht2). rewrite Hc2, Hc1 by lia. done.
Qed.

(** C8: on any bus that keeps the contract, a value written without a
    time-to-live is what a read returns, whatever came between that does not
    change the key: operations on other keys, reads and scans. *)
Theorem bus_read_your_writes k v ops w :
  bus_wf (st w) → bus_writable k → Forall op_admissible ops →
  Forall (λ op, touches k op = false) ops →
  ∃ rs w', run_ops ([OpWrite k v] ++ ops ++ [OpRead k]) w = (Returned rs, w') ∧
    bus_wf (st w') ∧ last rs = Some (ReplyValue (Some v)).
Proof.
  intros Hwf Hk Hadm Hops.
  destruct (bus_write_law w k v Hwf Hk) as (now & w1 & Hm1 & Ht1 & Hwf1 & Hn1 & Hc1).
  destruct (run_ops_untouched ops w1 k Hwf1 Hadm Hops) as (rs & w2 & Hm2 & Hwf2 & Ht2 & Hc2).
  destruct (bus_read_law w2 k Hwf2) as (now3 & w3 & Hm3 & Ht3 & Hwf3 & _).
  pose proof (sample_mono _ _ Ht2). rewrite Hc2, Hc1, lookup_insert_eq in Hm3 by lia.
  exists ([ReplyUnit] ++ rs ++ [ReplyValue (Some v)]), w3. split_and!; [|done|by rewrite !last_app].
  unfold run_ops. eapply mmap_app; [|eapply mmap_app; [exact Hm2|]]; apply mmap_single; simpl; by run.
Qed.

(** C9: on any bus that keeps the contract, a value written with a time-to-live
    is there for as long as that, and gone after it: a read that starts and ends
    within the time-to-live returns it, one that starts after it, counted from the
    end of the write, finds nothing. *)
Theorem bus_ttl_lifetime k v d ops w :
  bus_wf (st w) → duration_ok d → Forall op_admissible ops →
  Forall (λ op, touches k op = false) ops →
  ∃ w1 rs w2 r w3,
    run_op (OpWriteWithTtl k v d) w = (Returned ReplyUnit, w1) ∧
    run_ops ops w1 = (Returned rs, w2) ∧
    run_op (OpRead k) w2 = (Returned (ReplyValue r), w3) ∧
    (sample (tick w3) < sample (tick w) + d → r = Some v) ∧
    (sample (tick w1) + d ≤ sample (tick w2) → r = None).
Proof.
  intros Hwf Hd Hadm Hops.
  destruct (bus_write_value_with_ttl_law w k v d Hwf Hd) as (now & w1 & Hm1 & Ht1 & Hwf1 & Hn1 & Hc1).
  destruct (run_ops_untouched ops w1 k Hwf1 Hadm Hops) as (rs & w2 & Hm2 & Hwf2 & Ht2 & Hc2).
  destruct (bus_read_law w2 k Hwf2) as (now3 & w3 & Hm3 & Ht3 & Hwf3 & _).
  pose proof (sample_mono _ _ Ht2). pose proof (sample_mono _ _ Ht3).
  rewrite Hc2, Hc1, expiring_lookup, decide_True in Hm3 by (done || lia).
  exists w1, rs, w2, (if decide (sample (tick w2) < now + d) then Some v else None), w3.
  split_and!; [simpl; by run|exact Hm2|simpl; by run|intros Hlt; rewrite decide_True by lia; done|].
  intros Hge. rewrite decide_False by lia. done.
Qed.
End timed_bus.

(** * The two implementations *)

Lemma create_tric_abs : store_abs create_tric = ∅.
Proof. apply create_store_abs. Qed.

(** Rows as entries that do not expire. *)
Definition found_on_disk (rows : gmap bytes bytes) : timed_map := (λ v, (v, None)) <$> rows.

Lemma found_on_disk_contents rows t : tm_contents (found_on_disk rows) t = rows.
Proof.
  apply map_eq. intros k. apply option_eq. intros v. rewrite tm_contents_lookup.
  unfold found_on_disk. rewrite lookup_fmap. split.
  - intros (e & Hk & _). destruct (rows !! k); naive_solver.
  - intros ->. by eexists.
Qed.

Definition fresh_permutive `{Rusqlite} (p : SqliteBus) : PermutiveBus :=
  mkPermutiveBus create_tric p [] [] 0.

Lemma fresh_permutive_wf `{Clock, RusqliteSpec, DbDirectory} p : sqlite_wf p → permutive_wf (fresh_permutive p).
Proof.
  intros Hp. split; [apply create_store_wf|done|]. intros k v e v' Hk.
  change (store_abs create_tric !! k = Some (v, e)) in Hk. by rewrite create_tric_abs, lookup_empty in Hk.
Qed.

Lemma fresh_permutive_bounded `{Clock, RusqliteSpec, DbDirectory} p n : cache_bounded (mkWorld n (fresh_permutive p)).
Proof.
  intros k v i Hk. change (store_abs create_tric !! k = Some (v, Some i)) in Hk.
  by rewrite create_tric_abs, lookup_empty in Hk.
Qed.

(** The abstract map of a permutive bus: the rows, none of which expires, over the
    entries of the transient tier.  An entry that both tiers hold is the cached
    copy of a row, and its expiry says nothing of the key. *)
Definition permutive_abs `{Clock, RusqliteSpec} (s : PermutiveBus) : timed_map :=
  found_on_disk (sqlite_contents (persistent s)) ∪ store_abs (transient s).

Lemma permutive_abs_contents `{Clock, RusqliteSpec, DbDirectory} s t :
  permutive_wf s → tm_contents (permutive_abs s) t = permutive_contents s t.
Proof.
  intros [_ _ Hco]. unfold permutive_contents, permutive_abs.
  generalize dependent (store_abs (transient s)). generalize (sqlite_contents (persistent s)). intros P T Hco.
  apply map_eq. intros k. rewrite tiers_lookup. apply option_eq. intros v. rewrite tm_contents_lookup.
  unfold found_on_disk. rewrite lookup_union, lookup_fmap.
  destruct (P !! k) as [v'|] eqn:EP; simpl.
  - rewrite union_Some_l. transitivity (v = v'); [split; [naive_solver|intros ->; by exists None]|].
    destruct (tm_contents T t !! k) as [v''|] eqn:ET; [|naive_solver].
    apply tm_contents_lookup in ET as (e & Hk & _). rewrite (Hco k v'' e v' Hk EP). naive_solver.
  - rewrite (left_id_L None (∪)). rewrite <- tm_contents_lookup. by destruct (tm_contents T t !! k).
Qed.

(** C1: the permutive bus refines the abstract machine.  From any well-formed bus
    whose cached copies expire within the promotion time, every sequence of
    admissible operations (a value without a time-to-live is written only to a
    namespace whose database can be opened, and durations fit) returns, with the
    replies of a run of the abstract map of the bus that takes each operation at one
    instant of its call, and ends in such a bus.  The copies that reads make show in
    one answer only: the remaining time-to-live of a key that does not expire is
    none, or at most sixty seconds. *)
Theorem permutive_bus_refines `{Clock, RusqliteSpec, DbDirectory} n s ops :
  permutive_wf s → cache_bounded (mkWorld n s) → Forall (op_admissible (S := PermutiveBus)) ops →
  ∃ rs w' T', run_ops ops (mkWorld n s) = (Returned rs, w') ∧
    permutive_wf (st w') ∧ cache_bounded w' ∧
    spec_run cached_answer (sample n) ops (permutive_abs s) rs T' (sample (tick w')) ∧
    ∀ t, sample (tick w') ≤ t → permutive_contents (st w') t = tm_contents T' t.
Proof.
  intros Hs HB Hadm.
  destruct (run_ops_refines ops (mkWorld n s) (permutive_abs s))
    as (rs & w' & T' & ? & ? & _ & ? & ? & ?); [done|exact HB|done| |by exists rs, w', T'].
  intros t _. symmetry. by apply permutive_abs_contents.
Qed.

(** C2: the transient bus refines the abstract machine from the empty map, and of a
    key that does not expire it reports no time-to-live. *)
Theorem tric_bus_refines `{Clock} n ops :
  Forall (op_admissible (S := TricBus)) ops →
  ∃ rs w' T', run_ops ops (mkWorld n create_tric_bus) = (Returned rs, w') ∧
    store_wf (st w') ∧ spec_run (λ r, r = None) (sample n) ops ∅ rs T' (sample (tick w')) ∧
    ∀ t, sample (tick w') ≤ t → tm_contents (store_abs (st w')) t = tm_contents T' t.
Proof.
  intros Hadm.
  destruct (run_ops_refines (S := TricBus) ops (mkWorld n create_tric_bus) ∅)
    as (rs & w' & T' & ? & ? & _ & ? & _ & ?); [|done|done| |by exists rs, w', T'].
  - apply create_store_wf.
  - intros t _. change (tm_contents (store_abs create_tric) t = tm_contents ∅ t). by rewrite create_tric_abs.
Qed.

(** ** Concrete runs *)

Lemma memory_openable k :
  Byte.x2f ∉ namespace_of k ∧ Byte.x00 ∉ db_path db_directory (namespace_of k) → openable k.
Proof.
  intros [Hs Hn]. split; [done|]. exists (∅ : gmap bytes bytes), (∅ : gmap bytes bytes). split; [|done]. simpl.
  by rewrite bool_decide_eq_false_2.
Qed.

(** The in-memory persistent tier with one row. *)
Definition one_row_bus : SqliteBus := (Sqlite.write_value (bs "user:42") (bs "Ada") memory_bus).2.

Lemma example_openable : openable (bs "user:42").
Proof. apply memory_openable. apply (bool_decide_unpack _). vm_compute. exact I. Defined.

Lemma one_row_bus_wf : sqlite_wf one_row_bus.
Proof.
  unfold one_row_bus.
  destruct (write_value_sqlite (bs "user:42") (bs "Ada") memory_bus memory_bus_wf example_openable) as (p & -> & Hp & _).
  exact Hp.
Defined.

Definition example_ops : list BusOp :=
  [OpWrite (bs "user:42") (bs "Ada"); OpRead (bs "user:42"); OpWriteTtl (bs "user:42") (from_secs 30);
   OpReadTtl (bs "user:42"); OpDeleteIfMatch (bs "user:42") (bs "Bob");
   OpWriteWithTtl (bs "lock") (bs "1") (from_millis 0); OpScan (bs "user:")].

Lemma example_ops_admissible_permutive : Forall (op_admissible (S := PermutiveBus)) example_ops.
Proof.
  repeat (apply Forall_cons_2 || apply Forall_nil_2); simpl; try apply duration_ok_secs;
    try apply duration_ok_millis; try done.
  apply memory_openable. apply (bool_decide_unpack _). vm_compute. exact I.
Qed.
Lemma example_ops_admissible_tric : Forall (op_admissible (S := TricBus)) example_ops.
Proof. repeat constructor; simpl; try apply duration_ok_secs; try apply duration_ok_millis; done. Qed.

Lemma permutive_bus_refines_witness :
  ∃ rs w' T', run_ops example_ops (mkWorld 0 (fresh_permutive memory_bus)) = (Returned rs, w') ∧
    permutive_wf (st w') ∧ cache_bounded w' ∧
    spec_run cached_answer (sample 0) example_ops (permutive_abs (fresh_permutive memory_bus)) rs T' (sample (tick w')) ∧
    ∀ t, sample (tick w') ≤ t → permutive_contents (st w') t = tm_contents T' t.
Proof.
  apply permutive_bus_refines;
    [apply fresh_permutive_wf, memory_bus_wf|apply fresh_permutive_bounded|apply example_ops_admissible_permutive].
Defined.

Lemma tric_bus_refines_witness :
  ∃ rs w' T', run_ops example_ops (mkWorld 0 create_tric_bus) = (Returned rs, w') ∧
    store_wf (st w') ∧ spec_run (λ r, r = None) (sample 0) example_ops ∅ rs T' (sample (tick w')) ∧
    ∀ t, sample (tick w') ≤ t → tm_contents (store_abs (st w')) t = tm_contents T' t.
Proof. apply tric_bus_refines, example_ops_admissible_tric. Defined.

(** The replies of the same run, computed. *)
Example example_ops_replies :
  (run_ops example_ops (mkWorld 0 (fresh_permutive memory_bus))).1 =
  Returned [ReplyUnit; ReplyValue (Some (bs "Ada")); ReplyUnit; ReplyTtl (Some (from_millis 29999));
            ReplyMatched false; ReplyUnit; ReplyPairs [(bs "user:42", bs "Ada")]].
Proof. vm_compute. reflexivity. Qed.

Lemma memory_bus_permutive_wf : permutive_wf (fresh_permutive memory_bus).
Proof. apply fresh_permutive_wf, memory_bus_wf. Qed.

Lemma bus_read_your_writes_witness :
  ∃ rs w', run_ops ([OpWrite (bs "user:42") (bs "Ada")] ++
      [OpDelete (bs "user:7"); OpScan (bs "user:")] ++ [OpRead (bs "user:42")])
      (mkWorld 0 (fresh_permutive memory_bus)) = (Returned rs, w') ∧
    bus_wf (st w') ∧ last rs = Some (ReplyValue (Some (bs "Ada"))).
Proof.
  apply bus_read_your_writes.
  - apply memory_bus_permutive_wf.
  - apply memory_openable. apply (bool_decide_unpack _). vm_compute. exact I.
  - repeat constructor.
  - repeat constructor.
Defined.

Lemma bus_ttl_lifetime_witness :
  ∃ w1 rs w2 r w3,
    run_op (OpWriteWithTtl (bs "lock") (bs "1") (from_secs 30)) (mkWorld 0 (fresh_permutive memory_bus)) =
      (Returned ReplyUnit, w1) ∧
    run_ops [OpRead (bs "lock")] w1 = (Returned rs, w2) ∧
    run_op (OpRead (bs "lock")) w2 = (Returned (ReplyValue r), w3) ∧
    (sample (tick w3) < sample 0 + from_secs 30 → r = Some (bs "1")) ∧
    (sample (tick w1) + from_secs 30 ≤ sample (tick w2) → r = None).
Proof.
  apply (bus_ttl_lifetime (bs "lock") (bs "1") (from_secs 30) [OpRead (bs "lock")]
    (mkWorld 0 (fresh_permutive memory_bus))).
  - apply memory_bus_permutive_wf.
  - by apply duration_ok_secs.
  - repeat constructor.
  - repeat constructor.
Defined.

(** * A panic under the lock of the persistent tier *)
Section poison.
Context `{Clock, Rusqlite}.

Lemma lock_poisoned s : poisoned s = true → lock_databases s = (Panicked, s).
Proof. intros Hp. unfold lock_databases, mbind, M_bind, gets. by rewrite Hp. Qed.

(** Every method of the persistent tier that looks at a database. *)
Lemma sqlite_poisoned s k v p :
  poisoned s = true →
  Sqlite.read_value k s = (Panicked, s) ∧ Sqlite.write_value k v s = (Panicked, s) ∧
  Sqlite.delete_value k s = (Panicked, s) ∧ Sqlite.delete_value_if_match k v s = (Panicked, s) ∧
  Sqlite.find_by_prefix p s = (Panicked, s).
Proof.
  intros Hs. pose proof (lock_poisoned s Hs) as Hl.
  unfold Sqlite.read_value, Sqlite.write_value, Sqlite.delete_value, Sqlite.delete_value_if_match,
    Sqlite.find_by_prefix, read_connection, write_connection.
  destruct (parse_namespace k) as [k' ns].
  split_and!; repeat (erewrite bind_panicked; [done|]); exact Hl.
Qed.

Lemma write_connection_unopenable k s :
  poisoned s = false → databases s !! namespace_of k = None →
  connection_open (db_path (directory s) (namespace_of k)) = None →
  write_connection (namespace_of k) s = (Panicked, poison s).
Proof.
  intros Hp Hn Ho. unfold write_connection, lock_databases, mbind, M_bind, gets. rewrite Hp, Hn. simpl.
  by rewrite Ho.
Qed.

Lemma zoom_panicked {A} (m : M SqliteBus A) w p :
  m (persistent (st w)) = (Panicked, p) →
  zoom_world persistent set_persistent (stateful m) w = (Panicked, mkWorld (tick w) (set_persistent p (st w))).
Proof. intros Hm. unfold zoom_world, stateful, zoom. cbn [st tick]. by rewrite Hm. Qed.

Lemma persistent_panics {A B} (m : M SqliteBus B) (k : B → Proc A) w :
  m (persistent (st w)) = (Panicked, persistent (st w)) →
  run_proc (Persistent (stateful m) k) w = (Panicked, w).
Proof. intros Hm. simpl. apply bind_panicked. rewrite (zoom_panicked _ _ _ Hm). by destruct w as [n []]. Qed.

(** A procedure whose first call, on the transient tier, returns, and which then
    panics whenever the persistent tier is poisoned. *)
Lemma transient_then_panics {A B} (m : M (World Tric) B) (k : B → Proc A) n s b T' :
  poisoned (persistent s) = true → tric_ok m n (transient s) b T' →
  (∀ w, poisoned (persistent (st w)) = true → run_proc (k b) w = (Panicked, w)) →
  ∃ w', run_proc (Transient m k) (mkWorld n s) = (Panicked, w') ∧ poisoned (persistent (st w')) = true.
Proof.
  intros Hp (t' & Hm & Hwf & <-) Hk. exists (mkWorld (S n) (set_transient t' s)). split; [|done]. simpl.
  rewrite (bind_returned _ _ _ _ _ (zoom_world_returned _ _ _ _ _ _ _ _ Hm)). by apply Hk.
Qed.

(** The operations the transient tier answers alone. *)
Definition answered_by_cache (op : BusOp) (t : Tric) (now : Instant) : Prop :=
  match op with
  | OpRead k => is_Some (tm_contents (store_abs t) now !! k)
  | OpReadTtl _ => True
  | _ => False
  end.

Lemma bind_panics {Σ A B} (m : M Σ A) (g : A → M Σ B) σ (P : Σ → Prop) :
  (∃ σ', m σ = (Panicked, σ') ∧ P σ') → ∃ σ', (m ≫= g) σ = (Panicked, σ') ∧ P σ'.
Proof. intros (σ' & Hm & HP). exists σ'. split; [by apply bind_panicked|done]. Qed.

(** Every operation that reaches the persistent tier panics. *)
Lemma poisoned_panics op w :
  store_wf (transient (st w)) → poisoned (persistent (st w)) = true →
  ¬ answered_by_cache op (transient (st w)) (sample (tick w)) →
  ∃ w', run_op op w = (Panicked, w') ∧ poisoned (persistent (st w')) = true.
Proof.
  intros Hwf Hp Hc. destruct w as [n s].
  destruct op as [k|k v|k|k e|k d|k v d|k|p]; simpl in Hc; try tauto; apply bind_panics.
  - apply eq_None_not_Some in Hc.
    eapply transient_then_panics; [done|by apply read_value_tric|]. intros w Hw. simpl. rewrite Hc.
    apply persistent_panics. by apply (sqlite_poisoned _ k [] []).
  - eexists. split; [|exact Hp]. apply persistent_panics. by apply (sqlite_poisoned _ k v []).
  - eapply transient_then_panics; [done|by apply delete_value_tric|]. intros w Hw.
    apply persistent_panics. by apply (sqlite_poisoned _ k [] []).
  - destruct (delete_value_if_match_tric k e n (transient s)) as (s' & Hm & Hwf' & Habs); [done|].
    eapply transient_then_panics; [done|by exists s'|]. intros w Hw.
    apply persistent_panics. by apply (sqlite_poisoned _ k e []).
  - eexists. split; [|exact Hp]. apply persistent_panics. by apply (sqlite_poisoned _ k [] []).
  - eexists. split; [|exact Hp]. apply persistent_panics. by apply (sqlite_poisoned _ k [] []).
  - eapply transient_then_panics; [done|by apply find_by_prefix_tric|]. intros w Hw.
    apply persistent_panics. by apply (sqlite_poisoned _ [] [] p).
Qed.

(** C11: one write to a key whose database cannot be opened disables the bus.  The
    write panics while it holds the lock, which poisons it, and from then on every
    operation panics, of every client and on every key, but the reads the transient
    tier answers and the questions for a time-to-live. *)
Theorem unopenable_write_disables_bus k v n s :
  store_wf (transient s) → poisoned (persistent s) = false →
  databases (persistent s) !! namespace_of k = None →
  connection_open (db_path (directory (persistent s)) (namespace_of k)) = None →
  ∃ w1, run_op (OpWrite k v) (mkWorld n s) = (Panicked, w1) ∧ transient (st w1) = transient s ∧
    poisoned (persistent (st w1)) = true ∧
    ∀ op w, store_wf (transient (st w)) → persistent (st w) = persistent (st w1) →
      ¬ answered_by_cache op (transient (st w)) (sample (tick w)) →
      ∃ w', run_op op w = (Panicked, w') ∧ poisoned (persistent (st w')) = true.
Proof.
  intros Hwf Hp Hn Ho. exists (mkWorld n (set_persistent (poison (persistent s)) s)). split_and!; [|done|done|].
  - apply bind_panicked. apply bind_panicked. apply (zoom_panicked _ (mkWorld n s)). cbn [st].
    unfold Sqlite.write_value. destruct (parse_namespace k) as [k' ns] eqn:E.
    assert (ns = namespace_of k) as -> by (unfold namespace_of; by rewrite E).
    apply bind_panicked. by apply write_connection_unopenable.
  - intros op w Hw Hpw Hc. apply poisoned_panics; [done| |done]. by rewrite Hpw.
Qed.

(** * A statement that fails *)

(** A call on the persistent tier that leaves it as it is, then the rest. *)
Lemma persistent_then {A B} (m : M SqliteBus B) (k : B → Proc A) n s b :
  m (persistent s) = (Returned b, persistent s) →
  run_proc (Persistent (stateful m) k) (mkWorld n s) = run_proc (k b) (mkWorld n s).
Proof.
  intros Hm. simpl. erewrite bind_returned; [reflexivity|]. unfold zoom_world, stateful, zoom. cbn [st tick]. rewrite Hm. by destruct s.
Qed.

Lemma namespace_of_parse k : ∃ k', parse_namespace k = (k', namespace_of k).
Proof. unfold namespace_of. destruct (parse_namespace k) as [k' ns]. by exists k'. Qed.

(** A write whose statement fails, and a read of an open database. *)
Lemma write_value_failed k v s c :
  poisoned s = false → databases s !! namespace_of k = Some c → execute c sql_insert [k; v] = None →
  Sqlite.write_value k v s = (Returned (), s).
Proof.
  intros Hp Hn He. destruct (namespace_of_parse k) as [k' Hns]. unfold Sqlite.write_value. rewrite Hns.
  unfold write_connection, lock_databases, execute_ignoring, mbind, M_bind, gets. rewrite Hp, Hn. simpl. by rewrite Hp, Hn, He.
Qed.

Lemma read_value_open k s c :
  poisoned s = false → databases s !! namespace_of k = Some c →
  Sqlite.read_value k s = (Returned (query_row c sql_select [k]), s).
Proof.
  intros Hp Hn. destruct (namespace_of_parse k) as [k' Hns]. unfold Sqlite.read_value. rewrite Hns.
  unfold read_connection, lock_databases, mbind, M_bind, gets. rewrite Hp, Hn. simpl. by rewrite Hp, Hn.
Qed.

(** A call on the transient tier, then the rest of a procedure. *)
Lemma transient_then {A B} (m : M (World Tric) B) (k : B → Proc A) n s b T' :
  tric_ok m n (transient s) b T' →
  ∃ t', store_wf t' ∧ store_abs t' = T' ∧
    run_proc (Transient m k) (mkWorld n s) = run_proc (k b) (mkWorld (S n) (set_transient t' s)).
Proof.
  intros (t' & Hm & Hwf & <-). exists t'. split_and!; [done..|]. simpl.
  by rewrite (bind_returned _ _ _ _ _ (zoom_world_returned _ _ _ _ _ _ _ _ Hm)).
Qed.

(** C29: a write that the disk refuses is acknowledged and lost.  When the statement
    that stores a value fails, on a full disk say, the write returns as one that
    succeeded; the database is as it was, and the next read returns what it had
    before, its old value or none. *)
Theorem failed_write_acknowledged k v n s c :
  store_wf (transient s) → poisoned (persistent s) = false →
  databases (persistent s) !! namespace_of k = Some c → execute c sql_insert [k; v] = None →
  ∃ w1 w2, run_op (OpWrite k v) (mkWorld n s) = (Returned ReplyUnit, w1) ∧ persistent (st w1) = persistent s ∧
    run_op (OpRead k) w1 = (Returned (ReplyValue (query_row c sql_select [k])), w2) ∧
    persistent (st w2) = persistent s.
Proof.
  intros Hwf Hp Hn He.
  destruct (transient_then (Tric.delete_value k) Done n s _ _ (delete_value_tric k n (transient s) Hwf))
    as (t1 & Hwf1 & Ht1 & Hdel).
  set (s1 := set_transient t1 s) in *.
  assert (run_op (OpWrite k v) (mkWorld n s) = (Returned ReplyUnit, mkWorld (S n) s1)) as Hw.
  { change (run_op (OpWrite k v)) with (run_proc (Permutive.write_value k v) ;; mret ReplyUnit).
    erewrite bind_returned; [reflexivity|]. transitivity (run_proc (Done ()) (mkWorld (S n) s1)); [rewrite <- Hdel|reflexivity].
    refine (persistent_then (Sqlite.write_value k v) (λ _, Transient (Tric.delete_value k) Done) n s () _).
    by apply (write_value_failed _ _ _ c). }
  destruct (transient_then (Tric.read_value k)
    (λ hit, match hit with
            | Some value => Done (Some value)
            | None => Persistent (stateful (Sqlite.read_value k)) (λ stored,
                match stored with
                | None => Done None
                | Some value => Transient (Tric.write_value k value) (λ _,
                    Transient (Tric.write_ttl k (from_secs CACHE_PROMOTION_SECONDS)) (λ _, Done (Some value)))
                end)
            end) (S n) s1 _ _ (read_value_tric k (S n) t1 Hwf1)) as (t2 & Hwf2 & Ht2 & Hread).
  rewrite Ht1, tm_contents_delete, lookup_delete_eq in Hread.
  set (s2 := set_transient t2 s1) in *.
  assert (∃ w2, run_proc (Permutive.read_value k) (mkWorld (S n) s1) = (Returned (query_row c sql_select [k]), w2) ∧
    persistent (st w2) = persistent s) as (w2 & Hr & Hp2).
  { assert (run_proc (Permutive.read_value k) (mkWorld (S n) s1) = _) as -> by exact Hread.
    rewrite (persistent_then _ _ (S (S n)) s2 _ (read_value_open k (persistent s) c Hp Hn)).
    destruct (query_row c sql_select [k]) as [x|]; [|by eexists].
    destruct (transient_then (Tric.write_value k x) (λ _, Transient (Tric.write_ttl k (from_secs CACHE_PROMOTION_SECONDS))
      (λ _, Done (Some x))) (S (S n)) s2 _ _ (write_value_tric k x (S (S n)) t2 Hwf2)) as (t3 & Hwf3 & _ & ->).
    destruct (transient_then (Tric.write_ttl k (from_secs CACHE_PROMOTION_SECONDS)) (λ _, Done (Some x)) (S (S (S n)))
      (set_transient t3 s2) _ _ (write_ttl_tric k _ (S (S (S n))) t3 Hwf3 (duration_ok_secs 60 ltac:(done)))) as (t4 & _ & _ & ->).
    by eexists. }
  exists (mkWorld (S n) s1), w2. split_and!; [exact Hw|done| |done].
  change (run_op (OpRead k)) with (r ← run_proc (Permutive.read_value k); mret (ReplyValue r)). by run_with Hr.
Qed.
End poison.

Lemma unopenable_write_disables_bus_witness :
  ∃ w1, run_op (OpWrite [Byte.x00; Byte.x3a] []) (mkWorld 0 (fresh_permutive memory_bus)) = (Panicked, w1) ∧
    transient (st w1) = create_tric ∧ poisoned (persistent (st w1)) = true ∧
    ∀ op w, store_wf (transient (st w)) → persistent (st w) = persistent (st w1) →
      ¬ answered_by_cache op (transient (st w)) (sample (tick w)) →
      ∃ w', run_op op w = (Panicked, w') ∧ poisoned (persistent (st w')) = true.
Proof.
  apply (unopenable_write_disables_bus [Byte.x00; Byte.x3a] [] 0 (fresh_permutive memory_bus));
    [apply create_store_wf|reflexivity|reflexivity|vm_compute; reflexivity].
Defined.

(** A disk on which no row can be stored. *)
Definition full_disk : Rusqlite := {|
  Connection := gmap bytes bytes;
  connection_open path := Some {[ bs "user:42" := bs "Ada" ]};
  execute_batch c sql := Some c;
  execute c sql params := if bool_decide (sql = sql_insert) then None else Some c;
  query_row c sql params := match params with [k] => c !! k | _ => None end;
  query_map c sql := Some (Some <$> btree_iter c);
|}.

Definition full_bus : PermutiveBus (H := full_disk) :=
  fresh_permutive (H := full_disk)
    (mkSqliteBus (H := full_disk) db_directory {[ bs "user" := {[ bs "user:42" := bs "Ada" ]} ]} false).

Lemma failed_write_acknowledged_witness :
  ∃ w1 w2, run_op (OpWrite (bs "user:42") (bs "Eve")) (mkWorld 0 full_bus) = (Returned ReplyUnit, w1) ∧
    persistent (st w1) = persistent full_bus ∧
    run_op (OpRead (bs "user:42")) w1 = (Returned (ReplyValue (Some (bs "Ada"))), w2) ∧
    persistent (st w2) = persistent full_bus.
Proof.
  assert (query_row (Rusqlite := full_disk) ({[ bs "user:42" := bs "Ada" ]} : gmap bytes bytes) sql_select [bs "user:42"] =
    Some (bs "Ada")) as Hq by (vm_compute; reflexivity).
  rewrite <- Hq.
  apply (failed_write_acknowledged (H0 := full_disk) (bs "user:42") (bs "Eve") 0 full_bus); try reflexivity.
  apply create_store_wf.
Defined.
