(* ===== verification/Slots.v ===== *)
(** The directories of an instance, src/core/sqlite_bus.rs and
    src/core/permutive_bus.rs: opening the databases a slot left on disk, listing
    the slots of an instance, cloning one, and the registry a bus writes when it is
    created.  The disk is a set of directories and a map from paths to file
    contents; which calls of [std::fs] fail, and the order of a directory's
    listing, are parameters ([FsEvents]). *)
From stdpp Require Import prelude gmap sorting strings.
From Stdlib Require Import NArith Lia.
From S2P Require Import Prelude.
From S2P Require Import Bytes.
From S2P Require Import Text.
From S2P Require Import BTree.
From S2P Require Import Clock.
From S2P Require Import TimedMap.
From S2P Require Import Store.
From S2P Require Import Tric.
From S2P Require Import DataBus.
From S2P Require Import Sqlite.
From S2P Require Import Instances.
From S2P Require Import Permutive.
From S2P Require Import Buses.

(** * The file system *)

Record Disk : Type := mkDisk { directories : gset bytes; files : gmap bytes bytes }.

(** What the operating system answers beyond the contents of the disk. *)
Class FsEvents : Type := {
  create_dir_error : bytes → option bytes;
  read_dir_fails : bytes → bool;
  (** An entry of a listing that cannot be read. *)
  entry_fails : bytes → bool;
  copy_fails : bytes → bytes → bool;
  metadata_fails : bytes → bool;
  directory_len : bytes → N;
  listing_order : bytes → list bytes → list bytes;
  listing_order_perm path names : listing_order path names ≡ₚ names;
}.

(** The paths a [/] of this one ends. *)
Definition ancestors (path : bytes) : list bytes :=
  omap (λ i, if decide (path !! i = Some Byte.x2f) then Some (take i path) else None) (seq 0 (length path)).

(** The name of an entry of the directory with this path. *)
Definition child_name (dir path : bytes) : option bytes :=
  name ← strip_prefix path (path_join dir []);
  if bool_decide (name = [] ∨ Byte.x2f ∈ name) then None else Some name.

(** [path.file_stem()] and [path.extension()], of the name of a file. *)
Fixpoint rsplit_dot (name : bytes) : option (bytes * bytes) :=
  match name with
  | [] => None
  | b :: rest =>
      match rsplit_dot rest with
      | Some (before, after) => Some (b :: before, after)
      | None => if bool_decide (b = Byte.x2e) then Some ([], rest) else None
      end
  end.

Definition stem_and_extension (name : bytes) : bytes * option bytes :=
  match rsplit_dot name with
  | Some (before, after) => if bool_decide (before = []) then (name, None) else (before, Some after)
  | None => (name, None)
  end.

(** [path.extension().and_then(|ext| ext.to_str()) == Some("db")]. *)
Definition is_database (name : bytes) : bool := bool_decide ((stem_and_extension name).2 = Some (bs "db")).

(** [path.file_stem().and_then(|stem| stem.to_str()).unwrap_or("_default")]. *)
Definition stem_namespace (name : bytes) : bytes :=
  let stem := (stem_and_extension name).1 in
  if utf8_valid stem then stem else bs "_default".

Section slots.
Context `{FsEvents}.

Definition path_exists (path : bytes) (d : Disk) : bool :=
  bool_decide (path ∈ directories d ∨ is_Some (files d !! path)).

Definition create_dir_all (path : bytes) : M Disk (option bytes) :=
  match create_dir_error path with
  | Some error => mret (Some error)
  | None =>
      modify (λ d, mkDisk (directories d ∪ {[ path ]} ∪ list_to_set (ancestors path)) (files d)) ;;
      mret None
  end.

(** The names [read_dir(dir)] yields, those of [entries.flatten()]. *)
Definition read_dir (dir : bytes) (d : Disk) : option (list bytes) :=
  if read_dir_fails dir || negb (bool_decide (dir ∈ directories d)) then None
  else
    let names := omap (child_name dir) (elements (directories d) ++ (map_to_list (files d)).*1) in
    Some (filter (λ name, entry_fails (path_join dir name) = false) (listing_order dir names)).

(** [entry.metadata()]. *)
Definition metadata_len (path : bytes) (d : Disk) : option N :=
  if metadata_fails path then None
  else match files d !! path with
       | Some contents => Some (blen contents)
       | None => Some (directory_len path)
       end.

(** [std::fs::copy]: the number of bytes copied. *)
Definition copy (from to : bytes) : M Disk (option N) :=
  contents ← gets (λ d, files d !! from);
  match contents with
  | None => mret None
  | Some contents =>
      if copy_fails from to then mret None
      else
        modify (λ d, mkDisk (directories d) (<[to := contents]> (files d))) ;;
        mret (Some (blen contents))
  end.

(** [base_dir.join(format!("{instance}_{slot}"))]. *)
Definition slot_directory (base_dir instance : bytes) (slot : N) : bytes :=
  path_join base_dir (instance ++ bs "_" ++ decimal slot).

(** * src/core/sqlite_bus.rs *)

(** One entry of the loop of [create_sqlite_bus]. *)
Definition load_entry `{Rusqlite} (directory : bytes) (databases : gmap bytes Connection) (name : bytes) :
  gmap bytes Connection :=
  if is_database name then
    match connection_open (path_join directory name) with
    | Some connection =>
        (** [let _ = connection.execute_batch(..)]. *)
        <[stem_namespace name := default connection (execute_batch connection sql_schema)]> databases
    | None => databases
    end
  else databases.

Definition create_sqlite_bus `{Rusqlite} (base_dir instance : bytes) (slot : N) : M Disk SqliteBus :=
  let directory := slot_directory base_dir instance slot in
  error ← create_dir_all directory;
  match error with
  | Some _ => panic
  | None =>
      entries ← gets (read_dir directory);
      let databases := match entries with
        | Some entries => foldl (load_entry directory) ∅ entries
        | None => ∅
        end in
      mret (mkSqliteBus directory databases false)
  end.

Definition read_directory_size (path : bytes) (d : Disk) : N :=
  match read_dir path d with
  | None => 0
  | Some entries =>
      foldl (λ size name, match metadata_len (path_join path name) d with
                          | Some len => as_u64 (size + len)
                          | None => size
                          end) 0 entries
  end.

(** [slots.sort_by_key(|(slot, _)| *slot)], which is stable. *)
Fixpoint insert_slot (s : N * N) (slots : list (N * N)) : list (N * N) :=
  match slots with
  | [] => [s]
  | s' :: rest => if s.1 <=? s'.1 then s :: s' :: rest else s' :: insert_slot s rest
  end.
Definition sort_slots (slots : list (N * N)) : list (N * N) := foldr insert_slot [] slots.

Definition find_instance_slots (base_dir instance : bytes) (d : Disk) : list (N * N) :=
  match read_dir base_dir d with
  | None => []
  | Some entries =>
      let prefix := instance ++ bs "_" in
      sort_slots (omap (λ name,
        slot_str ← strip_prefix (from_utf8_lossy name) prefix;
        slot ← parse_u32 slot_str;
        Some (slot, read_directory_size (path_join base_dir name) d)) entries)
  end.

(** One entry of the loop of [create_clone]. *)
Definition clone_entry (source target : bytes) (bytes_copied : N) (name : bytes) : M Disk N :=
  if is_database name then
    copied ← copy (path_join source name) (path_join target name);
    mret (match copied with Some len => as_u64 (bytes_copied + len) | None => bytes_copied end)
  else mret bytes_copied.

Fixpoint clone_entries (source target : bytes) (bytes_copied : N) (names : list bytes) : M Disk N :=
  match names with
  | [] => mret bytes_copied
  | name :: names =>
      bytes_copied ← clone_entry source target bytes_copied name;
      clone_entries source target bytes_copied names
  end.

(** The errors as the text of the source; [{target:?}] is a parameter of it. *)
Inductive CloneError : Type :=
| TargetExists (slot : N)
| SourceMissing (slot : N)
| CannotCreate (target error : bytes).

Definition create_clone (base_dir instance : bytes) (source_slot target_slot : N) :
  M Disk (CloneError + N) :=
  let source := slot_directory base_dir instance source_slot in
  let target := slot_directory base_dir instance target_slot in
  target_exists ← gets (path_exists target);
  if (target_exists : bool) then mret (inl (TargetExists target_slot))
  else
    source_exists ← gets (path_exists source);
    if negb source_exists then mret (inl (SourceMissing source_slot))
    else
      error ← create_dir_all target;
      match error with
      | Some error => mret (inl (CannotCreate target error))
      | None =>
          entries ← gets (read_dir source);
          match entries with
          | None => mret (inr 0)
          | Some names => bytes_copied ← clone_entries source target 0 names; mret (inr bytes_copied)
          end
      end.

(** * src/core/permutive_bus.rs *)

(** [create_permutive_bus], on a disk and with the clock where it stands. *)
Definition create_permutive_bus `{Clock, Rusqlite} (base_dir instance : bytes) (slot : N) (n : nat) :
  M Disk (World PermutiveBus) :=
  persistent ← create_sqlite_bus base_dir instance slot;
  let bus := mkPermutiveBus create_tric persistent base_dir instance slot in
  slots ← gets (find_instance_slots base_dir instance);
  match write_registry slots (mkWorld n bus) with
  | (Returned _, w) => mret w
  | _ => panic
  end.
End slots.

(** * Names and paths *)

(** A name without a [/]: one that names an entry of a directory. *)
Definition plain_name (name : bytes) : Prop := name ≠ [] ∧ Byte.x2f ∉ name.

Lemma path_join_plain dir name : plain_name name → path_join dir name = path_join dir [] ++ name.
Proof.
  intros [Hne Hns]. unfold path_join. destruct (starts_with name (bs "/")) eqn:E.
  - apply starts_with_app in E as [rest ->]. set_solver.
  - change (starts_with [] (bs "/")) with false. cbn iota. case_bool_decide; [by rewrite app_nil_r|]. by rewrite app_nil_r, <- app_assoc.
Qed.

Lemma child_name_spec dir path name :
  child_name dir path = Some name ↔ plain_name name ∧ path = path_join dir name.
Proof.
  unfold child_name. split.
  - intros (n & Hn%strip_prefix_Some & Hb)%bind_Some. case_bool_decide as E; [done|]. injection Hb as ->.
    assert (plain_name name) as Hp by (split; tauto). by rewrite path_join_plain.
  - intros [Hp ->]. rewrite path_join_plain, strip_prefix_app by done. cbn.
    destruct Hp. by rewrite bool_decide_eq_false_2 by tauto.
Qed.

(** The last [/] of a path separates its directory from its name. *)
Lemma plain_split l1 l2 n1 n2 :
  Byte.x2f ∉ n1 → Byte.x2f ∉ n2 → (l1 ++ [Byte.x2f]) ++ n1 = (l2 ++ [Byte.x2f]) ++ n2 → l1 = l2 ∧ n1 = n2.
Proof.
  intros H1 H2 Heq. rewrite <- !app_assoc in Heq.
  revert l2 Heq. induction l1 as [|x l1 IH]; intros [|y l2] Heq; simplify_list_eq; [done|..].
  - exfalso. set_solver.
  - exfalso. set_solver.
  - by destruct (IH l2) as [-> ->].
Qed.

(** A path that a slot directory can be. *)
Definition no_slash_end (dir : bytes) : Prop := dir ≠ [] ∧ last dir ≠ Some Byte.x2f.

Lemma path_join_nil dir : no_slash_end dir → path_join dir [] = dir ++ [Byte.x2f].
Proof. intros [Hne Hd]. unfold path_join. change (starts_with [] (bs "/")) with false. cbn iota. rewrite bool_decide_eq_false_2, app_nil_r by tauto. done. Qed.

Lemma path_join_inj d1 d2 n1 n2 :
  no_slash_end d1 → no_slash_end d2 → plain_name n1 → plain_name n2 →
  path_join d1 n1 = path_join d2 n2 → d1 = d2 ∧ n1 = n2.
Proof.
  intros Hd1 Hd2 Hn1 Hn2. rewrite (path_join_plain d1), (path_join_plain d2), !path_join_nil by done.
  apply plain_split; [apply Hn1|apply Hn2].
Qed.

Lemma slot_directory_end base_dir instance slot : no_slash_end (slot_directory base_dir instance slot).
Proof.
  unfold no_slash_end, slot_directory. destruct (decimal_last slot) as (init & d & -> & Hd).
  assert (∀ l : bytes, l ++ [as_u8 (0x30 + d)] ≠ [] ∧ last (l ++ [as_u8 (0x30 + d)]) ≠ Some Byte.x2f) as Hl.
  { intros l. split; [by destruct l|]. rewrite last_snoc. intros [= E]. apply (f_equal byte_val) in E.
    rewrite byte_val_as_u8, N.mod_small in E by lia. cbn in E. lia. }
  unfold path_join. repeat case_match; rewrite ?app_assoc; apply Hl.
Qed.

(** ** Stems and extensions *)

Lemma rsplit_dot_app before after : Byte.x2e ∉ after → rsplit_dot (before ++ Byte.x2e :: after) = Some (before, after).
Proof.
  intros Ha. assert (rsplit_dot after = None) as Hn.
  { induction after as [|b after IH]; [done|]. cbn. rewrite IH by set_solver.
    by rewrite bool_decide_eq_false_2 by set_solver. }
  induction before as [|b before IH]; cbn; [|by rewrite IH]. rewrite Hn.
  by rewrite bool_decide_eq_true_2.
Qed.

Lemma rsplit_dot_Some name before after : rsplit_dot name = Some (before, after) → name = before ++ Byte.x2e :: after.
Proof.
  revert before. induction name as [|b name IH]; intros before; [done|]. cbn.
  destruct (rsplit_dot name) as [[b1 a1]|].
  - intros [= <- <-]. by rewrite (IH b1).
  - case_bool_decide; [|done]. by intros [= <- <-]; subst.
Qed.

Lemma stem_and_extension_db stem : stem ≠ [] → stem_and_extension (stem ++ bs ".db") = (stem, Some (bs "db")).
Proof.
  intros Hs. unfold stem_and_extension. change (bs ".db") with (Byte.x2e :: bs "db").
  rewrite rsplit_dot_app; [by rewrite bool_decide_eq_false_2|].
  apply (bool_decide_unpack _). vm_compute. exact I.
Qed.

Lemma is_database_spec name : is_database name = true ↔ ∃ stem, stem ≠ [] ∧ name = stem ++ bs ".db".
Proof.
  unfold is_database. rewrite bool_decide_eq_true. split.
  - unfold stem_and_extension. destruct (rsplit_dot name) as [[before after]|] eqn:E; [|done].
    case_bool_decide as Hb; [done|]. intros [= ->]. exists before. split; [done|]. by apply rsplit_dot_Some.
  - intros (stem & Hs & ->). by rewrite stem_and_extension_db.
Qed.

Lemma stem_namespace_db ns : ns ≠ [] → utf8_valid ns = true → stem_namespace (ns ++ bs ".db") = ns.
Proof. intros Hn Hv. unfold stem_namespace. rewrite stem_and_extension_db by done. cbn [fst]. by rewrite Hv. Qed.

(** * Listings *)
Section listing.
Context `{FsEvents}.

(** The directory has an entry with this name. *)
Definition has_entry (d : Disk) (dir name : bytes) : Prop :=
  plain_name name ∧ (path_join dir name ∈ directories d ∨ is_Some (files d !! path_join dir name)).

Lemma read_dir_ok dir d :
  read_dir_fails dir = false → dir ∈ directories d →
  ∃ names, read_dir dir d = Some names ∧
    ∀ name, name ∈ names ↔ has_entry d dir name ∧ entry_fails (path_join dir name) = false.
Proof.
  intros Hr Hd. unfold read_dir. rewrite Hr, bool_decide_eq_true_2 by done. simpl. eexists. split; [done|].
  intros name. rewrite list_elem_of_filter, listing_order_perm, list_elem_of_omap. unfold has_entry. split.
  - intros [He (path & Hp & [Hn ->]%child_name_spec)]. split_and!; [done| |done].
    apply elem_of_app in Hp as [Hp|Hp]; [left; by apply elem_of_elements|right].
    apply list_elem_of_fmap in Hp as ([p c] & -> & Hp%elem_of_map_to_list). by exists c.
  - intros [[Hn Hp] He]. split; [done|]. exists (path_join dir name). split; [|by apply child_name_spec].
    apply elem_of_app. destruct Hp as [Hp|[c Hc]]; [left; by apply elem_of_elements|right].
    apply list_elem_of_fmap. exists (path_join dir name, c). by rewrite elem_of_map_to_list.
Qed.

(** The directories [create_dir_all] adds are the path and its ancestors. *)
Definition with_dir (path : bytes) (d : Disk) : Disk :=
  mkDisk (directories d ∪ {[ path ]} ∪ list_to_set (ancestors path)) (files d).

Lemma with_dir_self path d : path ∈ directories (with_dir path d).
Proof. apply elem_of_union_l, elem_of_union_r. by apply elem_of_singleton. Qed.

Lemma create_dir_all_ok path d :
  create_dir_error path = None → create_dir_all path d = (Returned None, with_dir path d).
Proof. intros Hc. unfold create_dir_all. by rewrite Hc. Qed.

Lemma ancestors_shorter path p : p ∈ ancestors path → (length p < length path)%nat.
Proof.
  intros (i & Hi%elem_of_seq & Hp)%list_elem_of_omap. case_decide; [|done]. injection Hp as <-.
  rewrite length_take. lia.
Qed.

Lemma with_dir_entry dir d name : has_entry (with_dir dir d) dir name ↔ has_entry d dir name.
Proof.
  unfold has_entry, with_dir; cbn [directories files]. split; intros [Hn Hp]; (split; [done|]); [|set_solver].
  destruct Hp as [Hp|Hp]; [|by right]. left. rewrite path_join_plain in * by done.
  assert (length dir ≤ length (path_join dir []))%nat as Hlen.
  { unfold path_join. repeat case_match; [done|by rewrite app_nil_r|rewrite length_app; lia]. }
  destruct Hn as [Hn _]. destruct name as [|b name]; [done|].
  rewrite !elem_of_union, elem_of_singleton, elem_of_list_to_set in Hp. destruct Hp as [[Hp|Hp]|Hp]; [done|..].
  - apply (f_equal length) in Hp. rewrite length_app in Hp. simpl in Hp. lia.
  - apply ancestors_shorter in Hp. rewrite length_app in Hp. simpl in Hp. lia.
Qed.
End listing.

(** * Loading *)
Section loading.
Context `{RusqliteSpec}.

(** What [load_entry] puts into the map for a database file. *)
Definition loaded (dir name : bytes) : option Connection :=
  c ← connection_open (path_join dir name); Some (default c (execute_batch c sql_schema)).

Lemma load_entry_loaded dir m name :
  load_entry dir m name =
  if is_database name then match loaded dir name with Some c => <[stem_namespace name := c]> m | None => m end else m.
Proof. unfold load_entry, loaded. destruct (is_database name); [|done]. by destruct (connection_open _). Qed.

Lemma load_entries_other dir ns names m :
  (∀ name, name ∈ names → is_database name = true → stem_namespace name ≠ ns) →
  foldl (load_entry dir) m names !! ns = m !! ns.
Proof.
  revert m. induction names as [|name names IH]; intros m Hn; [done|]. cbn [foldl].
  rewrite IH by (intros n' Hn'; apply Hn; set_solver). rewrite load_entry_loaded.
  destruct (is_database name) eqn:E; [|done]. destruct (loaded dir name); [|done].
  rewrite lookup_insert_ne; [done|]. apply Hn; [set_solver|done].
Qed.

Lemma load_entries_one dir ns names m name c :
  name ∈ names → is_database name = true → stem_namespace name = ns → loaded dir name = Some c →
  (∀ n', n' ∈ names → is_database n' = true → stem_namespace n' = ns → n' = name) →
  foldl (load_entry dir) m names !! ns = Some c.
Proof.
  intros Hin Hdb Hns Hl. revert m. induction names as [|n' names IH]; intros m Hu; [by apply elem_of_nil in Hin|].
  cbn [foldl]. destruct (decide (name ∈ names)) as [Hin'|Hnin].
  - apply IH; [done|]. intros n2 Hn2. apply Hu. set_solver.
  - assert (n' = name) as -> by set_solver. rewrite load_entries_other.
    + rewrite load_entry_loaded, Hdb, Hl, Hns. by rewrite lookup_insert_eq.
    + intros n2 Hn2 Hdb2 Hns2. rewrite (Hu n2) in Hn2; [done|set_solver|done|done].
Qed.
End loading.

(** * A restart *)

Lemma write_registry_run `{Clock, RusqliteSpec, DbDirectory} slots n s T P :
  shows s T P →
  ∃ n' s' T', write_registry slots (mkWorld n s) = (Returned (), mkWorld n' s') ∧ (n ≤ n')%nat ∧
    shows s' T' P ∧
    ∀ k e, T' !! k = Some e → T !! k = Some e ∨ starts_with k (bs "_instance:") = true.
Proof.
  intros Hs. unfold write_registry. erewrite bind_returned by reflexivity. cbn [st].
  generalize (instance s) as inst. intros inst.
  revert n s T Hs. induction slots as [|[slot_id len] slots IH]; intros n s T Hs.
  - exists n, s, T. split_and!; [done|done|done|]. by left.
  - set (key := bs "_instance:" ++ inst ++ bs "_" ++ decimal slot_id).
    assert (∀ v, ∃ s', zoom_world transient set_transient (Tric.write_value key v) (mkWorld n s) =
        (Returned (), mkWorld (S n) s') ∧ shows s' (tm_write key v (tm_purge (sample n) T)) P) as Hw.
    { intros v. destruct Hs as (Ht & <- & Hp & <-).
      destruct (write_value_tric key v n (transient s) Ht) as (t' & Hm & Hwf & Habs).
      exists (set_transient t' s). split; [by apply zoom_world_returned|]. done. }
    assert (∃ v s', (if slot_id =? 0 then zoom_world transient set_transient (Tric.write_value key (bs "active"))
        else zoom_world transient set_transient
               (Tric.write_value key (bs "clone:" ++ inst ++ bs "_" ++ decimal 0))) (mkWorld n s) =
        (Returned (), mkWorld (S n) s') ∧ shows s' (tm_write key v (tm_purge (sample n) T)) P) as (v & s' & Hrun & Hs').
    { destruct (slot_id =? 0); eexists; apply Hw. }
    destruct (IH (S n) s' _ Hs') as (n2 & s2 & T2 & Hrun2 & Hn2 & Hs2 & HT2).
    exists n2, s2, T2. split_and!; [|lia|done|].
    + cbn [mfor]. cbv zeta. fold key. run_with Hrun. exact Hrun2.
    + intros k e Hk. destruct (HT2 k e Hk) as [HT|?]; [|by right]. unfold tm_write in HT.
      apply lookup_insert_Some in HT as [[<- _]|[_ HT]].
      * right. apply starts_with_app. by eexists.
      * left. by apply map_lookup_filter_Some in HT as [HT _].
Qed.

Section restart.
Context `{Clock, FsEvents} {R1 R2 : Rusqlite} {S1 : RusqliteSpec (H := R1)} {S2 : RusqliteSpec (H := R2)}.
Context (base_dir instance : bytes) (slot : N).
Implicit Types (old : SqliteBus (H := R1)) (d : Disk).

#[local] Instance the_directory : DbDirectory := slot_directory base_dir instance slot.

(** No call of [std::fs] on the directory fails. *)
Record quiet : Prop := {
  quiet_create : create_dir_error the_directory = None;
  quiet_read : read_dir_fails the_directory = false;
  quiet_entry : ∀ name, entry_fails (path_join the_directory name) = false;
}.

(** The disk after the process of the old bus has ended, seen through the SQLite of
    the next one ([R2]): the database files of the directory are those of the
    namespaces of the old bus, and opening one gives the rows it had. *)
Record left_on_disk old d : Prop := {
  left_files ns c : databases old !! ns = Some c → is_Some (files d !! db_path the_directory ns);
  left_only name : is_database name = true → has_entry d the_directory name →
    ∃ ns c, name = ns ++ bs ".db" ∧ databases old !! ns = Some c;
  left_exists ns : Byte.x2f ∉ ns → file_exists (RusqliteSpec := S2) (db_path the_directory ns) →
    is_Some (databases old !! ns);
  left_open ns c : databases old !! ns = Some c →
    ∃ c1 c2, connection_open (Rusqlite := R2) (db_path the_directory ns) = Some c1 ∧
      execute_batch c1 sql_schema = Some c2 ∧ rows (RusqliteSpec := S2) c2 = rows (RusqliteSpec := S1) c;
}.

(** The namespaces whose file a start finds again. *)
Definition reloadable (ns : bytes) : Prop := plain_name ns ∧ utf8_valid ns = true.

Lemma reloadable_db ns : reloadable ns → plain_name (ns ++ bs ".db") ∧ is_database (ns ++ bs ".db") = true ∧
  stem_namespace (ns ++ bs ".db") = ns.
Proof.
  intros [[Hne Hns] Hv]. split_and!.
  - split; [by destruct ns|]. intros [?|Hin]%elem_of_app; [done|]. revert Hin. apply (bool_decide_unpack _). vm_compute. exact I.
  - apply is_database_spec. by exists ns.
  - by apply stem_namespace_db.
Qed.

(** The database files of a listing are those of the old bus. *)
Lemma listed_databases old d (names : list bytes) :
  left_on_disk old d →
  (∀ name, name ∈ names → has_entry (with_dir the_directory d) the_directory name) →
  ∀ name, name ∈ names → is_database name = true → ∃ ns c, name = ns ++ bs ".db" ∧ databases old !! ns = Some c.
Proof.
  intros Hleft Hin name Hn Hd. apply Hin in Hn. rewrite with_dir_entry in Hn.
  exact (left_only old d Hleft name Hd Hn).
Qed.

(** Loading them gives the old bus its connections back, with the rows they had. *)
Lemma reload_databases old d (names : list bytes) :
  left_on_disk old d → (∀ ns, is_Some (databases old !! ns) → reloadable ns) →
  (∀ name, name ∈ names ↔ has_entry (with_dir the_directory d) the_directory name) →
  ∀ ns, match databases old !! ns with
    | Some c => ∃ c2, foldl (load_entry (H0 := R2) the_directory) ∅ names !! ns = Some c2 ∧ rows c2 = rows c
    | None => foldl (load_entry (H0 := R2) the_directory) ∅ names !! ns = None
    end.
Proof.
  intros Hleft Hre Hin ns. pose proof (listed_databases old d names Hleft (λ name, proj1 (Hin name))) as Hdb.
  assert (∀ n' ns', n' ∈ names → is_database n' = true → stem_namespace n' = ns' →
    n' = ns' ++ bs ".db" ∧ is_Some (databases old !! ns')) as Hstems.
  { intros n' ns' Hn' Hd' <-. destruct (Hdb n' Hn' Hd') as (ns0 & c' & -> & E').
    destruct (reloadable_db ns0 (Hre ns0 ltac:(by exists c'))) as (_ & _ & ->). eauto. }
  destruct (databases old !! ns) as [c|] eqn:E.
  - destruct (reloadable_db ns (Hre ns ltac:(by exists c))) as (Hp & Hisdb & Hstem).
    destruct (left_open old d Hleft ns c E) as (c1 & c2 & Ho & Hb & Hrows). exists c2. split; [|done].
    apply (load_entries_one _ ns _ _ (ns ++ bs ".db")); [|done|done| |].
    + apply Hin, with_dir_entry. split; [done|]. right. by eapply left_files.
    + unfold loaded. change (path_join the_directory (ns ++ bs ".db")) with (db_path the_directory ns).
      rewrite Ho. cbn [mbind option_bind]. by rewrite Hb.
    + intros n' Hn' Hd' Hs'. by destruct (Hstems n' ns Hn' Hd' Hs').
  - rewrite load_entries_other; [by rewrite lookup_empty|].
    intros name Hn Hd Hs'. destruct (Hstems name ns Hn Hd Hs') as [_ [c Hc]]. congruence.
Qed.

Lemma create_sqlite_bus_reloads old d :
  sqlite_wf old → quiet → left_on_disk old d → (∀ ns, is_Some (databases old !! ns) → reloadable ns) →
  ∃ p, create_sqlite_bus (H0 := R2) base_dir instance slot d = (Returned p, with_dir the_directory d) ∧
    sqlite_wf p ∧ sqlite_contents p = sqlite_contents old.
Proof.
  intros Hold [Hc Hr He] Hleft Hre.
  destruct (read_dir_ok the_directory (with_dir the_directory d) Hr) as (names & Hnames & Hin); [apply with_dir_self|].
  pose proof (reload_databases old d names Hleft Hre ltac:(intros name; rewrite Hin, He; tauto)) as Hdbs.
  set (p := mkSqliteBus (H := R2) the_directory (foldl (load_entry the_directory) ∅ names) false).
  exists p. assert (sqlite_wf p) as Hwf.
  { split; [done|done|..]; cbn [p databases].
    - intros ns c k Hns Hk. pose proof (Hdbs ns) as Hm. destruct (databases old !! ns) as [c0|] eqn:E; [|congruence].
      destruct Hm as (c2 & Hc2 & Hrows). simplify_eq. rewrite Hrows in Hk. by eapply (sq_scoped old).
    - intros ns Hslash Hns Hex. destruct (left_exists old d Hleft ns Hslash Hex) as [c E]. pose proof (Hdbs ns) as Hm.
      rewrite E in Hm. destruct Hm as (c2 & Hc2 & _). congruence. }
  split_and!; [|done|].
  - unfold create_sqlite_bus. fold the_directory. run_with (create_dir_all_ok the_directory d Hc).
    rewrite gets_bind, Hnames. done.
  - apply map_eq. intros k. rewrite !sqlite_contents_lookup by done. cbn [p databases].
    pose proof (Hdbs (namespace_of k)) as Hm. destruct (databases old !! namespace_of k) as [c|].
    + destruct Hm as (c2 & -> & Hrows). cbn. by rewrite Hrows.
    + by rewrite Hm.
Qed.

(** C3: what survives a restart.  Let the disk hold the databases of a bus when its
    process has ended, no call on the directory fail, every namespace of the bus be
    one whose file a start finds again (not empty, no slash, UTF-8), and no row lie
    under the keys [_instance:], which belong to the registry.  Then the bus the next
    process creates is well-formed and shows each other key as the persistent tier
    had it: a value without a time-to-live is there, one with a time-to-live is
    gone.  Other namespaces are lost ([unplain_namespace_lost]). *)
Theorem restart_keeps_persistent (old : PermutiveBus (H := R1)) d n :
  permutive_wf old → quiet → left_on_disk (persistent old) d →
  (∀ ns, is_Some (databases (persistent old) !! ns) → reloadable ns) →
  (∀ k, is_Some (sqlite_contents (persistent old) !! k) → starts_with k (bs "_instance:") = false) →
  ∃ w, create_permutive_bus (H1 := R2) base_dir instance slot n d = (Returned w, with_dir the_directory d) ∧
    permutive_wf (st w) ∧ (n ≤ tick w)%nat ∧
    ∀ k t, starts_with k (bs "_instance:") = false →
      permutive_contents (st w) t !! k = sqlite_contents (persistent old) !! k.
Proof.
  intros Hold Hq Hleft Hre Hreg.
  destruct (create_sqlite_bus_reloads (persistent old) d (pw_persistent old Hold) Hq Hleft Hre) as (p & Hrun & Hwf & Hp).
  set (bus := mkPermutiveBus create_tric p base_dir instance slot).
  assert (shows bus ∅ (sqlite_contents p)) as Hs.
  { split_and!; [apply create_store_wf|apply create_tric_abs|done|done]. }
  destruct (write_registry_run (find_instance_slots base_dir instance (with_dir the_directory d)) n bus _ _ Hs)
    as (n' & s' & T' & Hw & Hn & Hs' & HT').
  assert (∀ k e, T' !! k = Some e → starts_with k (bs "_instance:") = true) as HT.
  { intros k e Hk. destruct (HT' k e Hk) as [Hk'|]; [by rewrite lookup_empty in Hk'|done]. }
  exists (mkWorld n' s'). split_and!; [|cbn [st]..].
  - unfold create_permutive_bus. run_with Hrun. rewrite gets_bind. fold bus. by rewrite Hw.
  - eapply shows_wf; [exact Hs'|]. intros k v e v' Hk Hpk. rewrite Hp in Hpk. pose proof (HT k _ Hk).
    rewrite Hreg in * by (by exists v'). done.
  - done.
  - intros k t Hk. rewrite (shows_contents s' T' _ t Hs'), tiers_lookup, Hp.
    destruct (tm_contents T' t !! k) as [v|] eqn:E; [|done]. apply tm_contents_lookup in E as (e & E & _).
    rewrite (HT k _ E) in Hk. done.
Qed.
End restart.

(** * Namespaces no start finds *)
Section lost.
Context `{Rusqlite, FsEvents}.

Lemma create_sqlite_bus_returns base_dir instance slot d :
  create_dir_error (slot_directory base_dir instance slot) = None →
  ∃ p, create_sqlite_bus base_dir instance slot d =
    (Returned p, with_dir (slot_directory base_dir instance slot) d).
Proof.
  intros Hc. unfold create_sqlite_bus. run_with (create_dir_all_ok _ d Hc). rewrite gets_bind. by eexists.
Qed.

Lemma loaded_namespaces dir names m :
  (∀ name, name ∈ names → plain_name name) → (∀ ns, is_Some (m !! ns) → plain_name ns) →
  ∀ ns, is_Some (foldl (load_entry dir) m names !! ns) → plain_name ns.
Proof.
  revert m. induction names as [|name names IH]; intros m Hn Hm ns; [apply Hm|]. cbn [foldl].
  apply IH; [intros n' Hn'; apply Hn; set_solver|]. clear ns. intros ns. unfold load_entry.
  destruct (is_database name) eqn:E; [|apply Hm]. destruct (connection_open _); [|apply Hm].
  destruct (decide (ns = stem_namespace name)) as [->|Hne]; [|rewrite lookup_insert_ne by done; apply Hm].
  intros _. apply is_database_spec in E as (stem & Hs & ->).
  assert (plain_name (stem ++ bs ".db")) as [_ Hslash] by (apply Hn; set_solver).
  unfold stem_namespace. rewrite stem_and_extension_db by done. cbn [fst].
  destruct (utf8_valid stem); [split; [done|]; intros ?; apply Hslash, elem_of_app; by left|].
  split; [done|]. apply (bool_decide_unpack _). vm_compute. exact I.
Qed.

(** A start loses the keys of a namespace that is no file name.  Whatever is on
    disk, and whatever was stored before, a key that begins with a colon, or that
    has a slash before its first colon, is not found by the bus a start creates:
    the database of the empty namespace is the file [.db], which has no extension,
    and those with a slash lie outside the listed directory. *)
Theorem unplain_namespace_lost base_dir instance slot d d' p key :
  create_sqlite_bus base_dir instance slot d = (Returned p, d') → ¬ plain_name (namespace_of key) →
  Sqlite.read_value key p = (Returned None, p).
Proof.
  unfold create_sqlite_bus. intros (error & d1 & _ & Hb)%bind_inv Hns.
  destruct error; [done|]. rewrite gets_bind in Hb.
  set (dir := slot_directory base_dir instance slot) in *.
  assert (∀ names, read_dir dir d1 = Some names → ∀ name, name ∈ names → plain_name name) as Hplain.
  { intros names Hr name Hin. unfold read_dir in Hr. case_match; [done|]. injection Hr as <-.
    apply list_elem_of_filter in Hin as [_ Hin]. rewrite listing_order_perm in Hin.
    apply list_elem_of_omap in Hin as (path & _ & [Hp _]%child_name_spec). done. }
  assert (databases p !! namespace_of key = None) as Hnone.
  { injection Hb as <- _. cbn [databases]. apply eq_None_not_Some. intros Hsome. apply Hns.
    destruct (read_dir dir d1) as [names|] eqn:E; [|by destruct Hsome as [? Hs]].
    eapply loaded_namespaces; [by eapply Hplain| |exact Hsome]. intros ns [? Hs]. by rewrite lookup_empty in Hs. }
  assert (poisoned p = false) as Hpo by (by injection Hb as <- _).
  unfold Sqlite.read_value. unfold namespace_of in Hnone. destruct (parse_namespace key) as [k ns]. cbn [snd] in Hnone.
  assert (lock_databases p = (Returned (databases p), p)) as Hlock by (unfold lock_databases; by rewrite gets_bind, Hpo).
  assert (read_connection ns p = (Returned None, p)) as Hread.
  { unfold read_connection. run_with Hlock. rewrite Hnone. by rewrite bool_decide_eq_false_2 by (by intros []). }
  by run_with Hread.
Qed.
End lost.

(** * Clones *)
Section clone.
Context `{FsEvents}.

(** A database file of the source that is listed and whose copy does not fail. *)
Definition copied (source target : bytes) (names : list bytes) (d : Disk) (name : bytes) : option bytes :=
  if decide (name ∈ names ∧ is_database name = true ∧
             copy_fails (path_join source name) (path_join target name) = false)
  then files d !! path_join source name else None.

(** The disk after the loop: every copied file is in the target, nothing else has
    changed. *)
Definition cloned (source target : bytes) (names : list bytes) (d d' : Disk) : Prop :=
  directories d' = directories d ∧
  (∀ name, plain_name name →
     files d' !! path_join target name = copied source target names d name ∪ files d !! path_join target name) ∧
  (∀ path, (∀ name, plain_name name → path ≠ path_join target name) → files d' !! path = files d !! path).

Lemma copy_run from to d :
  copy from to d =
  match files d !! from with
  | Some contents =>
      if copy_fails from to then (Returned None, d)
      else (Returned (Some (blen contents)), mkDisk (directories d) (<[to := contents]> (files d)))
  | None => (Returned None, d)
  end.
Proof. unfold copy. rewrite gets_bind. destruct (files d !! from); [|done]. by destruct (copy_fails from to). Qed.

Lemma clone_entry_run source target n name d :
  ∃ n' d', clone_entry source target n name d = (Returned n', d') ∧ directories d' = directories d ∧
    files d' = match copied source target [name] d name with
               | Some contents => <[path_join target name := contents]> (files d)
               | None => files d
               end.
Proof.
  unfold clone_entry, copied. destruct (is_database name).
  2: { eexists _, d. split_and!; [done|done|]. by rewrite decide_False by naive_solver. }
  pose proof (copy_run (path_join source name) (path_join target name) d) as Hc.
  destruct (files d !! path_join source name) as [contents|].
  - destruct (copy_fails _ _).
    + eexists _, d. split_and!; [by run_with Hc|done|]. by rewrite decide_False by naive_solver.
    + eexists _, _. split_and!; [by run_with Hc|done|]. rewrite decide_True; [done|].
      split_and!; [by apply list_elem_of_singleton|done|done].
  - eexists _, d. split_and!; [by run_with Hc|done|by case_decide].
Qed.

(** A copy leaves the source as it was. *)
Lemma copied_source source target names d d1 name n1 :
  source ≠ target → no_slash_end source → no_slash_end target → plain_name name → plain_name n1 →
  files d1 = match copied source target [n1] d n1 with
             | Some contents => <[path_join target n1 := contents]> (files d)
             | None => files d
             end →
  copied source target names d1 name = copied source target names d name.
Proof.
  intros Hne Hs Ht Hn Hn1 Hf. unfold copied. case_decide; [|done]. rewrite Hf.
  destruct (copied _ _ _ _ n1); [|done]. apply lookup_insert_ne. intros Heq.
  by destruct (path_join_inj target source n1 name).
Qed.

Lemma option_union_assoc {A} (x y z : option A) : x ∪ (y ∪ z) = (x ∪ y) ∪ z.
Proof. by destruct x, y, z. Qed.

Lemma copied_cons source target n1 names d name :
  copied source target (n1 :: names) d name =
  copied source target names d name ∪ (if decide (name = n1) then copied source target [n1] d n1 else None).
Proof.
  unfold copied. destruct (files d !! path_join source name) as [c|] eqn:E.
  - repeat case_decide; subst; rewrite ?E; try done; exfalso; set_solver.
  - repeat case_decide; subst; rewrite ?E; done.
Qed.

Lemma clone_entries_run source target names : ∀ n d,
  source ≠ target → no_slash_end source → no_slash_end target → Forall plain_name names →
  ∃ n' d', clone_entries source target n names d = (Returned n', d') ∧ cloned source target names d d'.
Proof.
  intros n d Hne Hs Ht Hall. revert n d. induction Hall as [|n1 names Hn1 Hall IH]; intros n d.
  - exists n, d. unfold cloned. split_and!; [done|done| |done]. intros name _. unfold copied.
    rewrite decide_False by (intros [[]%elem_of_nil _]). by rewrite (left_id_L None (∪)).
  - destruct (clone_entry_run source target n n1 d) as (n2 & d1 & Hrun & Hd1 & Hf1).
    destruct (IH n2 d1) as (n' & d' & Hrun' & Hd' & Hin & Hout). exists n', d'.
    unfold cloned. split_and!; [cbn [clone_entries]; by run_with Hrun|congruence|..].
    + intros name Hn. rewrite Hin, (copied_source source target names d d1 name n1), copied_cons by done.
      rewrite <- option_union_assoc. f_equal. rewrite Hf1. case_decide as E; [subst name|].
      * destruct (copied source target [n1] d n1) as [c|]; [by rewrite lookup_insert_eq, union_Some_l|].
        by rewrite (left_id_L None (∪)).
      * rewrite (left_id_L None (∪)). destruct (copied source target [n1] d n1) as [c|]; [|done].
        apply lookup_insert_ne. intros Heq. by destruct (path_join_inj target target n1 name).
    + intros path Hp. rewrite Hout, Hf1 by done. destruct (copied source target [n1] d n1) as [c|]; [|done].
      apply lookup_insert_ne. intros <-. by eapply Hp.
Qed.

(** C36: a clone is a copy of the database files.  Cloning a slot that exists to one
    that does not returns, and afterwards the target directory exists and has, for
    each [.db] file of the source that could be listed and copied, its contents; no
    other file of the target, and no file outside it, has changed.  In particular
    the write-ahead logs of the databases ([.db-wal]) are not copied. *)
Theorem clone_copies_databases base_dir instance source_slot target_slot d :
  let source := slot_directory base_dir instance source_slot in
  let target := slot_directory base_dir instance target_slot in
  source ∈ directories d → path_exists target d = false →
  create_dir_error target = None → read_dir_fails source = false →
  ∃ n d', create_clone base_dir instance source_slot target_slot d = (Returned (inr n), d') ∧
    target ∈ directories d' ∧
    (∀ name, plain_name name →
       files d' !! path_join target name =
         (if bool_decide (is_database name = true ∧ entry_fails (path_join source name) = false ∧
                          copy_fails (path_join source name) (path_join target name) = false)
          then files d !! path_join source name else None) ∪ files d !! path_join target name) ∧
    (∀ path, (∀ name, plain_name name → path ≠ path_join target name) → files d' !! path = files d !! path).
Proof.
  intros source target Hs Ht Hc Hr.
  assert (source ≠ target) as Hne.
  { intros E. unfold path_exists in Ht. apply bool_decide_eq_false in Ht. apply Ht. left. by rewrite <- E. }
  destruct (read_dir_ok source (with_dir target d) Hr) as (names & Hnames & Hin); [by apply elem_of_union_l, elem_of_union_l|].
  destruct (clone_entries_run source target names 0 (with_dir target d)) as (n & d' & Hrun & Hd' & Hcl & Hout);
    [done|apply slot_directory_end..| |].
  { apply Forall_forall. intros name [[Hn _] _]%Hin. done. }
  exists n, d'. split_and!; [|rewrite Hd'; apply with_dir_self| |done].
  - unfold create_clone. fold source target. rewrite gets_bind, Ht. rewrite gets_bind.
    assert (path_exists source d = true) as -> by (apply bool_decide_eq_true; by left).
    cbn [negb]. run_with (create_dir_all_ok target d Hc). rewrite gets_bind, Hnames. by run_with Hrun.
  - intros name Hn. rewrite Hcl by done. f_equal. unfold copied. cbn [files with_dir].
    case_decide as E1; case_bool_decide as E2; [done| |symmetry|done].
    + exfalso. destruct E1 as (Hname & Hdb & Hcp). apply Hin in Hname as [_ He]. tauto.
    + destruct (files d !! path_join source name) as [c|] eqn:E; [|done]. exfalso. apply E1. destruct E2 as (Hdb & He & Hcp).
      split_and!; [|done|done]. apply Hin. split; [|done]. split; [done|]. right. cbn. by exists c.
Qed.
End clone.

(** * Concrete runs *)

(** A file system on which every call succeeds. *)
#[export] Program Instance quiet_fs : FsEvents | 100 := {|
  create_dir_error _ := None;
  read_dir_fails _ := false;
  entry_fails _ := false;
  copy_fails _ _ := false;
  metadata_fails _ := false;
  directory_len _ := 4096;
  listing_order _ names := names;
|}.
Next Obligation. done. Qed.

(** The SQLite of a process that finds tables on disk. *)
Section saved.
Context (saved : gmap bytes (gmap bytes bytes)).

Definition saved_sqlite : Rusqlite := {|
  Connection := gmap bytes bytes;
  connection_open path := if bool_decide (Byte.x00 ∈ path) then None else Some (default ∅ (saved !! path));
  execute_batch := execute_batch (Rusqlite := memory_sqlite);
  execute := execute (Rusqlite := memory_sqlite);
  query_row := query_row (Rusqlite := memory_sqlite);
  query_map := query_map (Rusqlite := memory_sqlite);
|}.

#[program] Definition saved_sqlite_spec : RusqliteSpec (H := saved_sqlite) := {|
  rows c := c;
  file_exists p := is_Some (saved !! p);
|}.
Next Obligation. done. Qed.
Next Obligation. intros c k v. by eexists. Qed.
Next Obligation. intros c k. by eexists. Qed.
Next Obligation. done. Qed.
Next Obligation.
  intros p c c' Hp Hopen Hbatch. simpl in *. case_bool_decide; [done|]. simplify_eq.
  apply eq_None_not_Some in Hp. by rewrite Hp.
Qed.
End saved.

(** A slot with one database and its write-ahead log. *)
Definition example_db : bytes := bs "/var/lib/tric/main_0/user.db".
Definition example_wal : bytes := bs "/var/lib/tric/main_0/user.db-wal".
Definition example_disk : Disk := mkDisk {[ bs "/var/lib/tric"; bs "/var/lib/tric/main_0" ]}
  {[ example_db := bs "SQLite format 3"; example_wal := bs "frames" ]}.
Definition example_rows : gmap bytes bytes := {[ bs "user:42" := bs "Ada" ]}.
Definition example_sqlite : Rusqlite := saved_sqlite {[ example_db := example_rows ]}.
Definition example_sqlite_spec : RusqliteSpec (H := example_sqlite) := saved_sqlite_spec {[ example_db := example_rows ]}.
Definition example_directory : bytes := the_directory (bs "/var/lib/tric") (bs "main") 0.

Lemma example_child name : plain_name name → path_join example_directory name = bs "/var/lib/tric/main_0/" ++ name.
Proof. intros Hn. rewrite path_join_plain by done. f_equal. Qed.

Lemma example_db_path ns : Byte.x2f ∉ ns → db_path example_directory ns = bs "/var/lib/tric/main_0/" ++ ns ++ bs ".db".
Proof.
  intros Hns. apply example_child. split; [by destruct ns|].
  intros [?|Hin]%elem_of_app; [done|]. revert Hin. apply (bool_decide_unpack _). vm_compute. exact I.
Qed.

Lemma example_database name : is_database name = true → has_entry example_disk example_directory name → name = bs "user.db".
Proof.
  intros (stem & Hs & ->)%is_database_spec [Hn Hp]. rewrite (example_child _ Hn) in Hp. unfold example_disk in Hp.
  cbn [directories files] in Hp. destruct Hp as [Hp|[c Hc]].
  - exfalso. rewrite elem_of_union, !elem_of_singleton in Hp.
    destruct Hp as [Hp|Hp]; apply (f_equal length) in Hp; rewrite length_app in Hp; simpl in Hp; lia.
  - apply lookup_insert_Some in Hc as [[Hc _]|[_ [Hc _]%lookup_singleton_Some]].
    + by apply (app_inv_head (bs "/var/lib/tric/main_0/")) in Hc.
    + exfalso. apply (f_equal last) in Hc. change (bs ".db") with ([Byte.x2e; Byte.x64] ++ [Byte.x62]) in Hc.
      by rewrite !app_assoc, last_snoc in Hc.
Qed.

Lemma one_row_databases (ns : bytes) (c : gmap bytes bytes) :
  databases one_row_bus !! ns = Some c ↔ ns = bs "user" ∧ c = example_rows.
Proof.
  assert ((databases one_row_bus : gmap bytes (gmap bytes bytes)) = {[ bs "user" := example_rows ]}) as ->
    by (apply (bool_decide_unpack _); vm_compute; exact I).
  rewrite lookup_singleton_Some. naive_solver.
Qed.

Lemma example_opens :
  connection_open (Rusqlite := example_sqlite) (db_path example_directory (bs "user")) = Some example_rows.
Proof.
  rewrite example_db_path by (apply (bool_decide_unpack _); vm_compute; exact I).
  unfold example_sqlite, saved_sqlite. cbn [connection_open].
  rewrite bool_decide_eq_false_2 by (apply (bool_decide_unpack _); vm_compute; exact I).
  f_equal.
Qed.

Lemma example_left : left_on_disk (R1 := memory_sqlite) (S2 := example_sqlite_spec)
  (bs "/var/lib/tric") (bs "main") 0 one_row_bus example_disk.
Proof.
  split.
  - intros ns c [-> _]%one_row_databases. eexists. vm_compute. reflexivity.
  - intros name Hname He. exists (bs "user"), example_rows. split; [by apply example_database|by apply one_row_databases].
  - intros ns Hns [rows Hr]. exists example_rows. apply one_row_databases. split; [|done].
    apply lookup_singleton_Some in Hr as [Hr _]. fold example_directory in Hr. rewrite (example_db_path ns Hns) in Hr.
    assert (example_db = bs "/var/lib/tric/main_0/" ++ bs "user" ++ bs ".db") as E by (vm_compute; reflexivity).
    rewrite E in Hr. apply app_inv_head, app_inv_tail in Hr. done.
  - intros ns c [-> ->]%one_row_databases. exists example_rows, example_rows.
    split_and!; [|done|done]. by apply example_opens.
Qed.

Lemma restart_keeps_persistent_witness :
  ∃ w, create_permutive_bus (H1 := example_sqlite) (bs "/var/lib/tric") (bs "main") 0 5 example_disk =
      (Returned w, with_dir example_directory example_disk) ∧
    permutive_wf (H1 := example_sqlite_spec) (st w) ∧ (5 ≤ tick w)%nat ∧
    ∀ k t, starts_with k (bs "_instance:") = false →
      permutive_contents (H1 := example_sqlite_spec) (st w) t !! k = sqlite_contents one_row_bus !! k.
Proof.
  apply (restart_keeps_persistent (R1 := memory_sqlite) (S2 := example_sqlite_spec)
    (bs "/var/lib/tric") (bs "main") 0 (fresh_permutive one_row_bus) example_disk 5).
  - apply fresh_permutive_wf, one_row_bus_wf.
  - by split.
  - apply example_left.
  - intros ns [c [-> _]%one_row_databases]. split; [split; [done|]|reflexivity].
    apply (bool_decide_unpack _). vm_compute. exact I.
  - intros k [v Hk]. change (sqlite_contents one_row_bus !! k = Some v) in Hk.
    assert (sqlite_contents one_row_bus = example_rows) as E
      by (apply (bool_decide_unpack _); vm_compute; exact I).
    rewrite E in Hk. unfold example_rows in Hk. apply lookup_singleton_Some in Hk as [<- _]. reflexivity.
Defined.

Lemma unplain_namespace_lost_witness :
  ∃ p, create_sqlite_bus (bs "/var/lib/tric") (bs "main") 0 example_disk =
      (Returned p, with_dir example_directory example_disk) ∧
    Sqlite.read_value (bs ":42") p = (Returned None, p).
Proof.
  assert (∃ p, create_sqlite_bus (bs "/var/lib/tric") (bs "main") 0 example_disk =
    (Returned p, with_dir example_directory example_disk)) as [p Hp] by (by apply create_sqlite_bus_returns).
  exists p. split; [exact Hp|]. eapply (unplain_namespace_lost _ _ _ _ _ p (bs ":42") Hp). by intros [[] _].
Defined.

Lemma clone_copies_databases_witness :
  let source := slot_directory (bs "/var/lib/tric") (bs "main") 0 in
  let target := slot_directory (bs "/var/lib/tric") (bs "main") 1 in
  ∃ n d', create_clone (bs "/var/lib/tric") (bs "main") 0 1 example_disk = (Returned (inr n), d') ∧
    target ∈ directories d' ∧
    (∀ name, plain_name name →
       files d' !! path_join target name =
         (if bool_decide (is_database name = true ∧ entry_fails (path_join source name) = false ∧
                          copy_fails (path_join source name) (path_join target name) = false)
          then files example_disk !! path_join source name else None) ∪ files example_disk !! path_join target name) ∧
    (∀ path, (∀ name, plain_name name → path ≠ path_join target name) → files d' !! path = files example_disk !! path).
Proof.
  apply (clone_copies_databases (bs "/var/lib/tric") (bs "main") 0 1 example_disk).
  - apply (bool_decide_unpack _). vm_compute. exact I.
  - vm_compute. reflexivity.
  - reflexivity.
  - reflexivity.
Defined.
