(* ===== verification/Interleave.v ===== *)
(** Threads on one permutive bus.  A method of src/core/permutive_bus.rs holds
    the lock of a tier for one call of that tier at a time and none across its
    calls; threads interleave between the calls.  A configuration is the shared
    bus and what each thread has left to do; a step is one call of one thread. *)
From stdpp Require Import prelude gmap sorting strings relations.
From Stdlib Require Import NArith Lia.
From S2P Require Import Prelude.
From S2P Require Import Bytes.
From S2P Require Import BTree.
From S2P Require Import Clock.
From S2P Require Import TimedMap.
From S2P Require Import Store.
From S2P Require Import Tric.
From S2P Require Import DataBus.
From S2P Require Import BusSpec.
From S2P Require Import Sqlite.
From S2P Require Import Instances.
From S2P Require Import Permutive.
From S2P Require Import Buses.

Section interleave.
Context `{Clock, Rusqlite}.

(** The method an operation calls, as a procedure. *)
Definition op_proc (op : BusOp) : Proc BusReply :=
  match op with
  | OpRead k => r ← Permutive.read_value k; mret (ReplyValue r)
  | OpWrite k v => Permutive.write_value k v ;; mret ReplyUnit
  | OpDelete k => Permutive.delete_value k ;; mret ReplyUnit
  | OpDeleteIfMatch k e => r ← Permutive.delete_value_if_match k e; mret (ReplyMatched r)
  | OpWriteTtl k d => Permutive.write_ttl k d ;; mret ReplyUnit
  | OpWriteWithTtl k v d => Permutive.write_value_with_ttl k v d ;; mret ReplyUnit
  | OpReadTtl k => r ← Permutive.read_ttl_remaining k; mret (ReplyTtl r)
  | OpScan p => r ← Permutive.find_by_prefix p; mret (ReplyPairs r)
  end.

(** The next call of a procedure. *)
Definition proc_step {A} (p : Proc A) (w : World PermutiveBus) : option (Outcome (Proc A) * World PermutiveBus) :=
  match p with
  | Done _ => None
  | Transient m k => Some ((b ← zoom_world transient set_transient m; mret (k b)) w)
  | Persistent m k => Some ((b ← zoom_world persistent set_persistent m; mret (k b)) w)
  end.

Definition config : Type := list (Proc BusReply) * World PermutiveBus.

Inductive step : config → config → Prop :=
| step_thread (ts : list (Proc BusReply)) w i p p' w' :
    ts !! i = Some p → proc_step p w = Some (Returned p', w') → step (ts, w) (<[i := p']> ts, w').

(** The steps of a schedule, which names the thread of each: [None] when a thread it
    names has nothing left to do, or its call does not return. *)
Fixpoint run_schedule (schedule : list nat) (c : config) : option config :=
  match schedule with
  | [] => Some c
  | i :: schedule =>
      p ← c.1 !! i;
      match proc_step p c.2 with
      | Some (Returned p', w') => run_schedule schedule (<[i := p']> c.1, w')
      | _ => None
      end
  end.

(** The schedules are the sequences of steps. *)
Lemma run_schedule_steps n c c' :
  nsteps step n c c' ↔ ∃ schedule, length schedule = n ∧ run_schedule schedule c = Some c'.
Proof.
  split.
  - induction 1 as [c|n c c1 c2 Hstep _ IH]; [by exists []|]. destruct IH as (schedule & <- & Hrun).
    destruct Hstep as [ts w i p p' w' Hi Hp]. exists (i :: schedule). split; [done|]. simpl.
    rewrite Hi. simpl. by rewrite Hp.
  - intros (schedule & <- & Hrun). revert c Hrun. induction schedule as [|i schedule IH]; intros [ts w] Hrun.
    + injection Hrun as <-. constructor.
    + simpl in Hrun. apply bind_Some in Hrun as (p & Hi & Hrun).
      destruct (proc_step p w) as [[[p'| |] w']|] eqn:Hp; try done.
      eapply nsteps_l; [by eapply step_thread|]. by apply IH.
Qed.

Lemma run_schedule_length schedule c c' : run_schedule schedule c = Some c' → length c'.1 = length c.1.
Proof.
  revert c. induction schedule as [|i schedule IH]; intros [ts w] Hrun; [by injection Hrun as <-|].
  simpl in Hrun. apply bind_Some in Hrun as (p & _ & Hrun).
  destruct (proc_step p w) as [[[p'| |] w']|]; try done. rewrite (IH _ Hrun). apply length_insert.
Qed.

(** How often a schedule names a thread. *)
Definition turns_of (i : nat) (schedule : list nat) : nat := length (filter (λ j, j = i) schedule).

(** The threads of a list of operations, before any has started. *)
Definition start (ops : list BusOp) (w : World PermutiveBus) : config := (op_proc <$> ops, w).

(** A thread on its own does what the method does. *)
Lemma run_proc_bind {A B} (p : Proc A) (f : A → Proc B) w :
  run_proc (p ≫= f) w = (a ← run_proc p; run_proc (f a)) w.
Proof.
  revert w. induction p as [a|C m k IH|C m k IH]; intros w; [done|..]; simpl;
    unfold mbind, M_bind; destruct (zoom_world _ _ m w) as [[b| |] w']; try done; apply IH.
Qed.

Lemma run_op_proc op w : run_proc (op_proc op) w = run_op op w.
Proof. destruct op; cbn [op_proc run_op]; rewrite run_proc_bind; reflexivity. Qed.

Lemma alone_reaches (p : Proc BusReply) w r w' :
  run_proc p w = (Returned r, w') → rtc step ([p], w) ([Done r], w').
Proof.
  revert w. induction p as [a|C m k IH|C m k IH]; intros w Hrun.
  - by injection Hrun as -> ->.
  - simpl in Hrun. apply bind_inv in Hrun as (b & w1 & Hm & Hrun). eapply rtc_l; [|by apply IH].
    apply (step_thread [_] w 0 _ _ w1 eq_refl). simpl. by run_with Hm.
  - simpl in Hrun. apply bind_inv in Hrun as (b & w1 & Hm & Hrun). eapply rtc_l; [|by apply IH].
    apply (step_thread [_] w 0 _ _ w1 eq_refl). simpl. by run_with Hm.
Qed.
End interleave.

(** * No interleaving fails *)
Section safety.
Context `{Clock, RusqliteSpec, DbDirectory}.

(** A procedure of at most [n] calls, each of which returns from a well-formed
    tier and leaves it well-formed. *)
Fixpoint safe_proc {A} (n : nat) (p : Proc A) : Prop :=
  match p, n with
  | Done _, _ => True
  | _, O => False
  | Transient m k, S n' =>
      (∀ i t, store_wf t → ∃ b t', m (mkWorld i t) = (Returned b, mkWorld (S i) t') ∧ store_wf t') ∧
      ∀ b, safe_proc n' (k b)
  | Persistent m k, S n' =>
      (∀ i s, sqlite_wf s → ∃ b s', m (mkWorld i s) = (Returned b, mkWorld i s') ∧ sqlite_wf s') ∧
      ∀ b, safe_proc n' (k b)
  end.

Lemma safe_transient {A B} n (m : M (World Tric) B) (k : B → Proc A) :
  (∀ i t, store_wf t → ∃ b T, tric_ok m i t b T) → (∀ b, safe_proc n (k b)) →
  safe_proc (S n) (Transient m k).
Proof.
  intros Hm Hk. split; [|done]. intros i t Ht. destruct (Hm i t Ht) as (b & T & t' & Hrun & Ht' & _).
  by exists b, t'.
Qed.

Lemma safe_persistent {A B} n (m : M SqliteBus B) (k : B → Proc A) :
  (∀ s, sqlite_wf s → ∃ b c, sqlite_ok m s b c) → (∀ b, safe_proc n (k b)) →
  safe_proc (S n) (Persistent (stateful m) k).
Proof.
  intros Hm Hk. split; [|done]. intros i s Hs. destruct (Hm s Hs) as (b & c & s' & Hrun & Hs' & _).
  exists b, s'. split; [by apply stateful_returned|done].
Qed.

Lemma safe_mono {A} n n' (p : Proc A) : (n ≤ n')%nat → safe_proc n p → safe_proc n' p.
Proof.
  revert n n'. induction p as [a|B m k IH|B m k IH]; intros [|n] [|n'] Hle Hs; simpl in *; try done; try lia;
    destruct Hs as [Hm Hk]; (split; [done|]); intros b; (eapply IH; [|apply Hk]; lia).
Qed.

Lemma safe_op op : op_admissible (S := PermutiveBus) op → safe_proc 4 (op_proc op).
Proof.
  intros Hadm. destruct op as [k|k v|k|k e|k d|k v d|k|p]; simpl in Hadm.
  - apply safe_transient; [intros; eexists _, _; by apply read_value_tric|]. intros [x|]; [done|].
    apply safe_persistent; [intros; eexists _, _; by apply read_value_sqlite|]. intros [x|]; [|done].
    apply safe_transient; [intros; eexists _, _; by apply write_value_tric|]. intros _.
    apply safe_transient; [|done]. intros. eexists _, _. by apply write_ttl_tric, duration_ok_secs.
  - apply safe_persistent; [intros; eexists _, _; by apply write_value_sqlite|]. intros _.
    apply (safe_mono 1); [lia|]. apply safe_transient; [|done]. intros. eexists _, _. by apply delete_value_tric.
  - apply safe_transient; [intros; eexists _, _; by apply delete_value_tric|]. intros _.
    apply (safe_mono 1); [lia|]. apply safe_persistent; [|done]. intros. eexists _, _. by apply delete_value_sqlite.
  - apply safe_transient; [intros i t Ht; destruct (delete_value_if_match_tric k e i t Ht) as (t' & ? & ? & ?);
      eexists _, _, _; by split_and!|]. intros b.
    apply (safe_mono 1); [lia|]. apply safe_persistent; [|done]. intros. eexists _, _.
    by apply delete_value_if_match_sqlite.
  - apply safe_persistent; [intros; eexists _, _; by apply read_value_sqlite|]. intros [x|].
    + apply safe_persistent; [intros; eexists _, _; by apply delete_value_sqlite|]. intros _.
      apply safe_transient; [intros; eexists _, _; by apply write_value_tric|]. intros _.
      apply safe_transient; [|done]. intros. eexists _, _. by apply write_ttl_tric.
    + apply (safe_mono 1); [lia|]. apply safe_transient; [|done]. intros. eexists _, _. by apply write_ttl_tric.
  - apply safe_persistent; [intros; eexists _, _; by apply delete_value_sqlite|]. intros _.
    apply (safe_mono 1); [lia|]. apply safe_transient; [|done]. intros. eexists _, _. by apply write_value_with_ttl_tric.
  - apply (safe_mono 1); [lia|]. apply safe_transient; [|done]. intros. eexists _, _. by apply read_ttl_remaining_tric.
  - apply safe_transient; [intros; eexists _, _; by apply find_by_prefix_tric|]. intros x.
    apply (safe_mono 1); [lia|]. apply safe_persistent; [|done]. intros. eexists _, _. by apply find_by_prefix_sqlite.
Qed.

(** The tiers are well-formed, and the threads have at most the given numbers of
    calls to go. *)
Definition config_ok (budgets : list nat) (c : config) : Prop :=
  store_wf (transient (st c.2)) ∧ sqlite_wf (persistent (st c.2)) ∧ Forall2 safe_proc budgets c.1.

(** The next call of a safe procedure returns. *)
Lemma safe_proc_step {A} n (p : Proc A) w :
  store_wf (transient (st w)) → sqlite_wf (persistent (st w)) → safe_proc n p →
  match proc_step p w with
  | None => ∃ a, p = Done a
  | Some (o, w') => ∃ p' n', o = Returned p' ∧ n = S n' ∧ safe_proc n' p' ∧
      store_wf (transient (st w')) ∧ sqlite_wf (persistent (st w'))
  end.
Proof.
  intros Ht Hp Hs. destruct p as [a|B m k|B m k]; simpl; [by eexists|..];
    (destruct n as [|n]; [done|]); destruct Hs as [Hm Hk]; destruct w as [i s]; simpl in *.
  - destruct (Hm i _ Ht) as (b & t & Hrun & Ht').
    erewrite bind_returned by (apply zoom_world_returned; exact Hrun). by exists (k b), n.
  - destruct (Hm i _ Hp) as (b & q & Hrun & Hp').
    erewrite bind_returned by (apply zoom_world_returned; exact Hrun). by exists (k b), n.
Qed.

Lemma sum_insert (l : list nat) i x y :
  l !! i = Some (S x) → y = x → S (sum_list (<[i := y]> l)) = sum_list l.
Proof.
  revert i. induction l as [|z l IH]; intros [|i] Hi ->; simpl in *; try done.
  - by injection Hi as ->.
  - rewrite <- (IH i Hi eq_refl). lia.
Qed.

(** A schedule uses up the budget of each thread it names. *)
Lemma run_schedule_ok schedule budgets c c' :
  config_ok budgets c → run_schedule schedule c = Some c' →
  ∃ budgets', config_ok budgets' c' ∧ (length schedule + sum_list budgets')%nat = sum_list budgets ∧
    ∀ i, (turns_of i schedule + budgets' !!! i)%nat = budgets !!! i.
Proof.
  revert budgets c. induction schedule as [|i schedule IH]; intros budgets [ts w] Hok Hrun.
  { injection Hrun as <-. by exists budgets. }
  destruct Hok as (Ht & Hp & Hall). simpl in *. apply bind_Some in Hrun as (p & Hi & Hrun).
  destruct (Forall2_lookup_r _ _ _ _ _ Hall Hi) as (n & Hn & Hsafe).
  pose proof (safe_proc_step n p w Ht Hp Hsafe) as Hs. destruct (proc_step p w) as [[o w']|]; [|done].
  destruct Hs as (p' & n' & -> & -> & Hsafe' & Ht' & Hp').
  destruct (IH (<[i := n']> budgets) (<[i := p']> ts, w')) as (budgets' & Hok' & Hsum & Hturns);
    [|exact Hrun|].
  { split_and!; [done|done|]. simpl. by apply Forall2_insert. }
  exists budgets'. split; [done|]. split.
  - pose proof (sum_insert budgets i n' n' Hn eq_refl). lia.
  - intros j. specialize (Hturns j). unfold turns_of in *. rewrite filter_cons.
    destruct (decide (i = j)) as [->|Hne].
    + rewrite list_lookup_total_insert_eq in Hturns by (by eapply lookup_lt_Some).
      rewrite (list_lookup_total_correct _ _ _ Hn). csimpl. lia.
    + rewrite list_lookup_total_insert_ne in Hturns by done. done.
Qed.

(** No thread is blocked, and none panics. *)
Lemma threads_can_go budgets c i p :
  config_ok budgets c → c.1 !! i = Some p →
  (∃ r, p = Done r) ∨ ∃ p' w', proc_step p c.2 = Some (Returned p', w').
Proof.
  intros (Ht & Hp & Hall) Hi. destruct (Forall2_lookup_r _ _ _ _ _ Hall Hi) as (n & Hn & Hsafe).
  pose proof (safe_proc_step n p c.2 Ht Hp Hsafe) as Hs. destruct (proc_step p c.2) as [[o w']|]; [|by left].
  destruct Hs as (p' & n' & -> & _). right. by exists p', w'.
Qed.

(** All threads can be run to their ends. *)
Lemma can_complete n budgets c :
  sum_list budgets = n → config_ok budgets c → ∃ schedule rs w, run_schedule schedule c = Some (Done <$> rs, w).
Proof.
  revert budgets c. induction n as [|n IH]; intros budgets [ts w] Hn Hok; cbn [fst snd] in *;
    assert ((∃ rs, ts = Done <$> rs) ∨ ∃ i p, ts !! i = Some p ∧ ¬ ∃ r, p = Done r) as Hcases by
      (clear; induction ts as [|p ts [(rs & ->)|(i & q & ? & ?)]]; [left; by exists []| |right; by exists (S i), q];
       destruct p as [a| |]; [left; by exists (a :: rs)|right; eexists 0%nat, _; split; [done|]; by intros [??]..]);
    (destruct Hcases as [(rs & ->)|(i & p & Hi & Hp)]; [by exists [], rs, w|]);
    (destruct (threads_can_go _ _ _ _ Hok Hi) as [|(p' & w' & Hstep)]; [done|]);
    assert (run_schedule [i] (ts, w) = Some (<[i := p']> ts, w')) as Hone
      by (simpl in *; rewrite Hi; simpl; by rewrite Hstep);
    destruct (run_schedule_ok _ _ _ _ Hok Hone) as (budgets' & Hok' & Hsum & _); cbn [length] in Hsum; [lia|].
  destruct (IH budgets' _ ltac:(lia) Hok') as (schedule & rs & w'' & Hrun).
  exists (i :: schedule), rs, w''. simpl in *. rewrite Hi. simpl. by rewrite Hstep.
Qed.

Lemma start_ok ops w :
  store_wf (transient (st w)) → sqlite_wf (persistent (st w)) →
  Forall (op_admissible (S := PermutiveBus)) ops → config_ok (replicate (length ops) 4%nat) (start ops w).
Proof.
  intros Ht Hp Hadm. split_and!; [done|done|]. unfold start; simpl.
  induction Hadm as [|op ops Hop Hadm IH]; simpl; constructor; [by apply safe_op|done].
Qed.

Lemma sum_replicate n : sum_list (replicate n 4%nat) = (4 * n)%nat.
Proof. induction n as [|n IH]; simpl; [done|]. rewrite IH. lia. Qed.

(** C22: threads cannot make the permutive bus fail or hang.  Whatever operations
    run at the same time, of writes only those whose key has a place in the
    persistent tier, and in whatever order a schedule takes their calls: every tier
    stays well-formed; no thread makes more than four calls; none is blocked, and
    the next call of each returns, without a panic; and all can be run to their
    replies. *)
Theorem interleavings_complete ops w schedule c :
  store_wf (transient (st w)) → sqlite_wf (persistent (st w)) →
  Forall (op_admissible (S := PermutiveBus)) ops → run_schedule schedule (start ops w) = Some c →
  store_wf (transient (st c.2)) ∧ sqlite_wf (persistent (st c.2)) ∧
  (∀ i, (turns_of i schedule ≤ 4)%nat) ∧ (length schedule ≤ 4 * length ops)%nat ∧
  (∀ i p, c.1 !! i = Some p → (∃ r, p = Done r) ∨ ∃ p' w', proc_step p c.2 = Some (Returned p', w')) ∧
  ∃ schedule' rs w', run_schedule schedule' c = Some (Done <$> rs, w') ∧ length rs = length ops.
Proof.
  intros Ht Hp Hadm Hrun. pose proof (start_ok ops w Ht Hp Hadm) as Hok.
  destruct (run_schedule_ok _ _ _ _ Hok Hrun) as (budgets & Hok' & Hsum & Hturns). rewrite sum_replicate in Hsum.
  destruct (can_complete _ _ _ eq_refl Hok') as (schedule' & rs & w' & Hall).
  split_and!; [apply Hok'|apply Hok'| |lia|intros; by eapply threads_can_go|].
  - intros i. specialize (Hturns i). destruct (decide (i < length ops)%nat) as [Hlt|Hge].
    + rewrite (list_lookup_total_correct (replicate (length ops) 4%nat) i 4%nat) in Hturns by (by apply lookup_replicate_2). lia.
    + rewrite (list_lookup_total_alt (replicate (length ops) 4%nat)), (lookup_ge_None_2 (replicate (length ops) 4%nat)) in Hturns
        by (rewrite length_replicate; lia). simpl in Hturns. lia.
  - exists schedule', rs, w'. split; [done|].
    apply run_schedule_length in Hrun, Hall. cbn [fst] in Hall. rewrite length_fmap in Hall.
    rewrite Hall, Hrun. apply length_fmap.
Qed.

(** ** A race *)

Lemma transient_step {B} c0 ts i p (m : M (World Tric) B) k n s T P b T' :
  shows s T P → rtc step c0 (ts, mkWorld n s) → ts !! i = Some p → p = Transient m k →
  tric_ok m n (transient s) b T' →
  ∃ s', shows s' T' P ∧ rtc step c0 (<[i := k b]> ts, mkWorld (S n) s').
Proof.
  intros (Ht & <- & Hp & <-) Hr Hi -> (t' & Hm & Hwf & <-). exists (set_transient t' s). split; [done|].
  eapply rtc_r; [exact Hr|]. eapply step_thread; [exact Hi|]. simpl.
  by rewrite (bind_returned _ _ _ _ _ (zoom_world_returned transient set_transient _ n s _ _ _ Hm)).
Qed.

Lemma persistent_step {B} c0 ts i p (m : M SqliteBus B) k n s T P b P' :
  shows s T P → rtc step c0 (ts, mkWorld n s) → ts !! i = Some p → p = Persistent (stateful m) k →
  sqlite_ok m (persistent s) b P' →
  ∃ s', shows s' T P' ∧ rtc step c0 (<[i := k b]> ts, mkWorld n s').
Proof.
  intros (Ht & <- & Hp & <-) Hr Hi -> (p' & Hm & Hwf & <-). exists (set_persistent p' s). split; [done|].
  eapply rtc_r; [exact Hr|]. eapply step_thread; [exact Hi|]. simpl.
  by rewrite (bind_returned _ _ _ _ _
    (zoom_world_returned persistent set_persistent _ n s _ _ _ (stateful_returned _ _ _ _ _ Hm))).
Qed.

(** The operation that changes the key while it is read. *)
Definition change (k : bytes) (x : option bytes) : BusOp :=
  match x with Some v => OpWrite k v | None => OpDelete k end.

(** The steps of the race, up to where the reader has the old value in hand and
    the change is complete. *)
Lemma race_middle k v1 x n s T P :
  shows s T P → tm_contents T (sample n) !! k = None → P !! k = Some v1 → openable k →
  ∃ s', shows s' (delete k (tm_purge (sample (S n)) (tm_purge (sample n) T))) (partial_alter (λ _, x) k P) ∧
    rtc step (start [OpRead k; change k x] (mkWorld n s))
      ([Transient (Tric.write_value k v1) (λ _,
          Transient (Tric.write_ttl k (from_secs CACHE_PROMOTION_SECONDS)) (λ _, Done (ReplyValue (Some v1))));
        Done ReplyUnit], mkWorld (S (S n)) s').
Proof.
  intros Hs Hmiss Hv Hopen. pose proof Hs as (Ht & HT & Hp & HP).
  set (c0 := start [OpRead k; change k x] (mkWorld n s)).
  assert (rtc step c0 ([op_proc (OpRead k); op_proc (change k x)], mkWorld n s)) as St by done.
  pose proof (read_value_tric k n (transient s) Ht) as Hr. rewrite HT, Hmiss in Hr.
  destruct (transient_step _ _ 0 _ _ _ _ _ _ _ _ _ Hs St eq_refl eq_refl Hr) as (s1 & Hs1 & St1).
  pose proof Hs1 as (_ & _ & Hp1 & HP1).
  pose proof (read_value_sqlite k (persistent s1) Hp1) as Hr1. rewrite HP1, Hv in Hr1.
  destruct (persistent_step _ _ 0 _ _ _ _ _ _ _ _ _ Hs1 St1 eq_refl eq_refl Hr1) as (s2 & Hs2 & St2).
  pose proof Hs2 as (Ht2 & HT2 & Hp2 & HP2). destruct x as [v2|].
  - pose proof (write_value_sqlite k v2 (persistent s2) Hp2 Hopen) as Hw. rewrite HP2 in Hw.
    destruct (persistent_step _ _ 1 _ _ _ _ _ _ _ _ _ Hs2 St2 eq_refl eq_refl Hw) as (s3 & Hs3 & St3).
    pose proof Hs3 as (Ht3 & HT3 & _ & _).
    pose proof (delete_value_tric k (S n) (transient s3) Ht3) as Hd. rewrite HT3 in Hd.
    destruct (transient_step _ _ 1 _ _ _ _ _ _ _ _ _ Hs3 St3 eq_refl eq_refl Hd) as (s4 & Hs4 & St4).
    by exists s4.
  - pose proof (delete_value_tric k (S n) (transient s2) Ht2) as Hd. rewrite HT2 in Hd.
    destruct (transient_step _ _ 1 _ _ _ _ _ _ _ _ _ Hs2 St2 eq_refl eq_refl Hd) as (s3 & Hs3 & St3).
    pose proof Hs3 as (_ & _ & Hp3 & HP3).
    pose proof (delete_value_sqlite k (persistent s3) Hp3) as Hdp. rewrite HP3 in Hdp.
    destruct (persistent_step _ _ 1 _ _ _ _ _ _ _ _ _ Hs3 St3 eq_refl eq_refl Hdp) as (s4 & Hs4 & St4).
    by exists s4.
Qed.

(** C23: a read can undo a change for a minute.  A read that misses the cache takes
    the value from the persistent tier, and a write or a delete of the key that
    runs to its end before the read has promoted that value is hidden by it: both
    return, and from then on every reader sees the old value, of a deleted key too,
    until the cache entry expires sixty seconds later. *)
Theorem stale_promotion k v1 x n s :
  permutive_wf s → tm_contents (store_abs (transient s)) (sample n) !! k = None →
  sqlite_contents (persistent s) !! k = Some v1 → openable k →
  ∃ c, rtc step (start [OpRead k; change k x] (mkWorld n s)) c ∧
    c.1 = [Done (ReplyValue (Some v1)); Done ReplyUnit] ∧ tick c.2 = (n + 4)%nat ∧
    ∀ t, sample (n + 3) ≤ t →
      permutive_contents (st c.2) t !! k =
      if decide (t < sample (n + 3) + from_secs CACHE_PROMOTION_SECONDS) then Some v1 else x.
Proof.
  intros [Ht Hp _] Hmiss Hv Hopen.
  destruct (race_middle k v1 x n s _ _ ltac:(done) Hmiss Hv Hopen) as (s1 & Hs1 & St1).
  pose proof Hs1 as (Ht1 & HT1 & _ & _).
  pose proof (write_value_tric k v1 (S (S n)) (transient s1) Ht1) as Hw. rewrite HT1 in Hw.
  destruct (transient_step _ _ 0 _ _ _ _ _ _ _ _ _ Hs1 St1 eq_refl eq_refl Hw) as (s2 & Hs2 & St2).
  pose proof Hs2 as (Ht2 & HT2 & _ & _).
  pose proof (write_ttl_tric k (from_secs CACHE_PROMOTION_SECONDS) (S (S (S n))) (transient s2) Ht2
    (duration_ok_secs 60 ltac:(done))) as Hx. rewrite HT2 in Hx.
  destruct (transient_step _ _ 0 _ _ _ _ _ _ _ _ _ Hs2 St2 eq_refl eq_refl Hx) as (s3 & Hs3 & St3).
  eexists. split; [exact St3|].
  split_and!; [done|simpl; lia|]. intros t Hle. destruct Hs3 as (_ & HT3 & _ & HP3).
  unfold permutive_contents, tiers_contents. cbn [st snd]. rewrite HT3, HP3.
  replace (n + 3)%nat with (S (S (S n))) in * by lia.
  rewrite lookup_union, contents_write_ttl by done.
  rewrite tm_contents_write, lookup_insert_eq, expiring_lookup, decide_True by done.
  fold CACHE_PROMOTION_SECONDS. case_decide.
  - by rewrite union_Some_l.
  - by rewrite lookup_partial_alter, decide_True, (left_id_L None (∪)) by done.
Qed.
End safety.

(** ** Concrete interleavings *)

(** Two readers of one row and a scan, some calls into their run. *)
Definition example_threads : list BusOp := [OpRead (bs "user:42"); OpRead (bs "user:42"); OpScan (bs "user:")].
Definition example_schedule : list nat := [0; 1; 0; 2; 1; 0; 1]%nat.

Lemma example_schedule_runs :
  is_Some (run_schedule example_schedule (start example_threads (mkWorld 0 (fresh_permutive one_row_bus)))).
Proof. apply (bool_decide_unpack _). vm_compute. exact I. Qed.

Lemma interleavings_complete_witness :
  ∃ c, run_schedule example_schedule (start example_threads (mkWorld 0 (fresh_permutive one_row_bus))) = Some c ∧
  store_wf (transient (st c.2)) ∧ sqlite_wf (persistent (st c.2)) ∧
  (∀ i, (turns_of i example_schedule ≤ 4)%nat) ∧ (7 ≤ 12)%nat ∧
  (∀ i p, c.1 !! i = Some p → (∃ r, p = Done r) ∨ ∃ p' w', proc_step p c.2 = Some (Returned p', w')) ∧
  ∃ schedule' rs w', run_schedule schedule' c = Some (Done <$> rs, w') ∧ length rs = 3%nat.
Proof.
  destruct example_schedule_runs as [c Hc]. exists c. split; [exact Hc|].
  apply (interleavings_complete example_threads (mkWorld 0 (fresh_permutive one_row_bus)) example_schedule c).
  - apply create_store_wf.
  - apply one_row_bus_wf.
  - repeat constructor.
  - exact Hc.
Defined.

Lemma stale_promotion_witness :
  ∃ c, rtc step (start [OpRead (bs "user:42"); change (bs "user:42") None] (mkWorld 0 (fresh_permutive one_row_bus))) c ∧
    c.1 = [Done (ReplyValue (Some (bs "Ada"))); Done ReplyUnit] ∧ tick c.2 = (0 + 4)%nat ∧
    ∀ t, sample (0 + 3) ≤ t →
      permutive_contents (st c.2) t !! bs "user:42" =
      if decide (t < sample (0 + 3) + from_secs CACHE_PROMOTION_SECONDS) then Some (bs "Ada") else None.
Proof.
  apply (stale_promotion (bs "user:42") (bs "Ada") None 0 (fresh_permutive one_row_bus)).
  - apply fresh_permutive_wf, one_row_bus_wf.
  - change (tm_contents (store_abs create_tric) (sample 0) !! bs "user:42" = None). by rewrite create_tric_abs.
  - vm_compute. reflexivity.
  - apply example_openable.
Defined.
