(* ===== verification/Metrics.v ===== *)
(** The counters of src/modules/metrics.rs.  Each is an [AtomicU64] whose
    additions wrap around; a method that records is a list of atomic operations,
    between which those of other threads may come.  The server's turns run a method
    from its first operation to its last; the theorem is about all interleavings. *)
From stdpp Require Import prelude gmap.
From Stdlib Require Import NArith Lia.
From S2P Require Import Prelude.
From S2P Require Import Bytes.
From S2P Require Import Clock.

Record Metrics : Type := mkMetrics {
  requests_total : N;
  requests_local : N;
  requests_network : N;
  errors_total : N;
  active_sessions : N;
  latency_sum_microseconds : N;
  latency_max_microseconds : N;
}.

Definition create_metrics : Metrics := mkMetrics 0 0 0 0 0 0 0.

(** [fetch_add], [fetch_sub] and [fetch_max] on an [AtomicU64]. *)
Definition fetch_add (n x : N) : N := as_u64 (x + n).
Definition fetch_sub (n x : N) : N := as_u64 (x + 2 ^ 64 - n).
Definition fetch_max (n x : N) : N := N.max x n.

Definition on_requests_total (f : N → N) (m : Metrics) : Metrics :=
  mkMetrics (f (requests_total m)) (requests_local m) (requests_network m) (errors_total m)
    (active_sessions m) (latency_sum_microseconds m) (latency_max_microseconds m).
Definition on_requests_local (f : N → N) (m : Metrics) : Metrics :=
  mkMetrics (requests_total m) (f (requests_local m)) (requests_network m) (errors_total m)
    (active_sessions m) (latency_sum_microseconds m) (latency_max_microseconds m).
Definition on_requests_network (f : N → N) (m : Metrics) : Metrics :=
  mkMetrics (requests_total m) (requests_local m) (f (requests_network m)) (errors_total m)
    (active_sessions m) (latency_sum_microseconds m) (latency_max_microseconds m).
Definition on_errors_total (f : N → N) (m : Metrics) : Metrics :=
  mkMetrics (requests_total m) (requests_local m) (requests_network m) (f (errors_total m))
    (active_sessions m) (latency_sum_microseconds m) (latency_max_microseconds m).
Definition on_active_sessions (f : N → N) (m : Metrics) : Metrics :=
  mkMetrics (requests_total m) (requests_local m) (requests_network m) (errors_total m)
    (f (active_sessions m)) (latency_sum_microseconds m) (latency_max_microseconds m).
Definition on_latency_sum (f : N → N) (m : Metrics) : Metrics :=
  mkMetrics (requests_total m) (requests_local m) (requests_network m) (errors_total m)
    (active_sessions m) (f (latency_sum_microseconds m)) (latency_max_microseconds m).
Definition on_latency_max (f : N → N) (m : Metrics) : Metrics :=
  mkMetrics (requests_total m) (requests_local m) (requests_network m) (errors_total m)
    (active_sessions m) (latency_sum_microseconds m) (f (latency_max_microseconds m)).

(** An operation on one of the counters, which no other thread can split. *)
Inductive Counter : Type :=
| RequestsTotal | RequestsLocal | RequestsNetwork | ErrorsTotal | ActiveSessions
| LatencySum | LatencyMax.

Inductive AtomicOp : Type :=
| FetchAdd (counter : Counter) (n : N)
| FetchSub (counter : Counter) (n : N)
| FetchMax (counter : Counter) (n : N).

#[global] Instance counter_eq_dec : EqDecision Counter.
Proof. solve_decision. Defined.
#[global] Instance atomic_op_eq_dec : EqDecision AtomicOp.
Proof. solve_decision. Defined.

Definition on_counter (counter : Counter) : (N → N) → Metrics → Metrics :=
  match counter with
  | RequestsTotal => on_requests_total
  | RequestsLocal => on_requests_local
  | RequestsNetwork => on_requests_network
  | ErrorsTotal => on_errors_total
  | ActiveSessions => on_active_sessions
  | LatencySum => on_latency_sum
  | LatencyMax => on_latency_max
  end.

Definition atomic_op (op : AtomicOp) : Metrics → Metrics :=
  match op with
  | FetchAdd counter n => on_counter counter (fetch_add n)
  | FetchSub counter n => on_counter counter (fetch_sub n)
  | FetchMax counter n => on_counter counter (fetch_max n)
  end.

Definition atomic_ops (ops : list AtomicOp) (m : Metrics) : Metrics := foldl (λ m op, atomic_op op m) m ops.

(** A method run without interruption. *)
Definition call (method : list AtomicOp) : M Metrics unit := modify (atomic_ops method).

Definition record_local_request : list AtomicOp := [FetchAdd RequestsTotal 1; FetchAdd RequestsLocal 1].
Definition record_network_request : list AtomicOp := [FetchAdd RequestsTotal 1; FetchAdd RequestsNetwork 1].
Definition record_error : list AtomicOp := [FetchAdd ErrorsTotal 1].
(** [record_latency] once it has read the clock. *)
Definition record_microseconds (microseconds : N) : list AtomicOp :=
  [FetchAdd LatencySum microseconds; FetchMax LatencyMax microseconds].

(** [start.elapsed()] saturates at zero. *)
Definition elapsed {S} `{Clock} (start : Instant) : M (World S) Duration :=
  now ← instant_now;
  mret (default 0 (checked_duration_since now start)).

Definition record_latency `{Clock} (start : Instant) : M (World Metrics) unit :=
  d ← elapsed start;
  stateful (call (record_microseconds (as_u64 (as_micros d)))).

Definition read_requests_total (m : Metrics) : N := requests_total m.
Definition read_requests_local (m : Metrics) : N := requests_local m.
Definition read_requests_network (m : Metrics) : N := requests_network m.
Definition read_errors_total (m : Metrics) : N := errors_total m.
Definition read_active_sessions (m : Metrics) : N := active_sessions m.

Definition read_latency_average_microseconds (m : Metrics) : N :=
  let total := requests_total m in
  if total =? 0 then 0 else latency_sum_microseconds m / total.

Definition read_latency_max_microseconds (m : Metrics) : N := latency_max_microseconds m.

Definition increment_sessions : list AtomicOp := [FetchAdd ActiveSessions 1].
Definition decrement_sessions : list AtomicOp := [FetchSub ActiveSessions 1].

(** * Counting under concurrency *)

(** The calls, and the method of each. *)
Inductive MetricsCall : Type :=
| LocalRequest
| NetworkRequest
| ErrorSeen
| Latency (microseconds : N)
| SessionOpened
| SessionClosed.

Definition method_of (c : MetricsCall) : list AtomicOp :=
  match c with
  | LocalRequest => record_local_request
  | NetworkRequest => record_network_request
  | ErrorSeen => record_error
  | Latency microseconds => record_microseconds microseconds
  | SessionOpened => increment_sessions
  | SessionClosed => decrement_sessions
  end.

(** What an operation adds to a counter, modulo 2^64, and what it raises it to. *)
Definition added (counter : Counter) (op : AtomicOp) : N :=
  match op with
  | FetchAdd c n => if decide (c = counter) then n else 0
  | FetchSub c n => if decide (c = counter) then 2 ^ 64 - n else 0
  | FetchMax _ _ => 0
  end.
Definition raised (counter : Counter) (op : AtomicOp) : N :=
  match op with FetchMax c n => if decide (c = counter) then n else 0 | _ => 0 end.

(** The operations a method can have: the maximum is of the latency, what is
    subtracted fits the width. *)
Definition op_ok (op : AtomicOp) : Prop :=
  match op with
  | FetchAdd c _ => c ≠ LatencyMax
  | FetchSub c n => c ≠ LatencyMax ∧ n ≤ 2 ^ 64
  | FetchMax c _ => c = LatencyMax
  end.

Definition counter_value (counter : Counter) (m : Metrics) : N :=
  match counter with
  | RequestsTotal => requests_total m
  | RequestsLocal => requests_local m
  | RequestsNetwork => requests_network m
  | ErrorsTotal => errors_total m
  | ActiveSessions => active_sessions m
  | LatencySum => latency_sum_microseconds m
  | LatencyMax => latency_max_microseconds m
  end.

Lemma counter_value_on counter c f m :
  counter_value counter (on_counter c f m) =
  if decide (c = counter) then f (counter_value counter m) else counter_value counter m.
Proof. by destruct c, counter. Qed.

Lemma as_u64_small x : x < 2 ^ 64 → as_u64 x = x.
Proof. apply N.mod_small. Qed.
Lemma as_u64_bound x : as_u64 x < 2 ^ 64.
Proof. by apply N.mod_lt. Qed.
Lemma as_u64_add x y : as_u64 (as_u64 x + y) = as_u64 (x + y).
Proof. apply N.Div0.add_mod_idemp_l. Qed.

(** A counter after any sequence of operations. *)
Lemma atomic_ops_added counter ops m :
  counter ≠ LatencyMax → Forall op_ok ops → counter_value counter m < 2 ^ 64 →
  counter_value counter (atomic_ops ops m) = as_u64 (counter_value counter m + nsum (added counter <$> ops)).
Proof.
  intros Hc Hops. revert m. induction Hops as [|op ops Hop Hops IH]; intros m Hm.
  - csimpl. by rewrite N.add_0_r, as_u64_small.
  - change (atomic_ops (op :: ops) m) with (atomic_ops ops (atomic_op op m)). csimpl. rewrite IH.
    + destruct op as [c n|c n|c n]; cbn [atomic_op added]; rewrite counter_value_on; case_decide;
        unfold fetch_add, fetch_sub; rewrite ?as_u64_add; [..|simpl in Hop; congruence|]; try done;
        f_equal; cbn [op_ok] in Hop; lia.
    + destruct op as [c n|c n|c n]; cbn [atomic_op]; rewrite counter_value_on; case_decide; try done;
        [apply as_u64_bound..|simpl in Hop; congruence].
Qed.

Lemma atomic_ops_raised ops m :
  Forall op_ok ops →
  latency_max_microseconds (atomic_ops ops m) =
  N.max (latency_max_microseconds m) (nmax (raised LatencyMax <$> ops)).
Proof.
  intros Hops. revert m. induction Hops as [|op ops Hop Hops IH]; intros m; [csimpl; lia|].
  change (atomic_ops (op :: ops) m) with (atomic_ops ops (atomic_op op m)). csimpl. rewrite IH.
  change (latency_max_microseconds (atomic_op op m)) with (counter_value LatencyMax (atomic_op op m)).
  change (latency_max_microseconds m) with (counter_value LatencyMax m).
  destruct op as [c n|c n|c n]; cbn [atomic_op raised]; rewrite counter_value_on; case_decide;
    unfold fetch_max; try lia; simpl in Hop; destruct Hop; congruence || done.
Qed.

Lemma method_of_ok calls : Forall op_ok (calls ≫= method_of).
Proof.
  apply Forall_forall. intros op (c & Hop & _)%list_elem_of_bind.
  assert (Forall op_ok (method_of c)) as Hok by (destruct c; repeat constructor; done).
  rewrite Forall_forall in Hok. by apply Hok.
Qed.

(** The number of calls of a kind. *)
Definition count_calls (is_kind : MetricsCall → bool) (calls : list MetricsCall) : N :=
  nsum ((λ c, if is_kind c then 1 else 0) <$> calls).
Definition is_local_request (c : MetricsCall) : bool := match c with LocalRequest => true | _ => false end.
Definition is_network_request (c : MetricsCall) : bool := match c with NetworkRequest => true | _ => false end.
Definition is_error (c : MetricsCall) : bool := match c with ErrorSeen => true | _ => false end.
Definition is_opened (c : MetricsCall) : bool := match c with SessionOpened => true | _ => false end.
Definition is_closed (c : MetricsCall) : bool := match c with SessionClosed => true | _ => false end.
Definition call_latency (c : MetricsCall) : N := match c with Latency n => n | _ => 0 end.

Lemma nsum_methods (f : AtomicOp → N) (g : MetricsCall → N) calls :
  (∀ c, nsum (f <$> method_of c) = g c) → nsum (f <$> (calls ≫= method_of)) = nsum (g <$> calls).
Proof.
  intros Hf. induction calls as [|c calls IH]; [done|]. csimpl. by rewrite fmap_app, nsum_app, IH, Hf.
Qed.
Lemma nmax_methods (f : AtomicOp → N) (g : MetricsCall → N) calls :
  (∀ c, nmax (f <$> method_of c) = g c) → nmax (f <$> (calls ≫= method_of)) = nmax (g <$> calls).
Proof.
  intros Hf. induction calls as [|c calls IH]; [done|]. csimpl. by rewrite fmap_app, nmax_app, IH, Hf.
Qed.

Lemma nsum_two (f g : MetricsCall → N) x y calls :
  nsum ((λ c, x * f c + y * g c) <$> calls) = x * nsum (f <$> calls) + y * nsum (g <$> calls).
Proof. induction calls as [|c calls IH]; csimpl; [lia|]. rewrite IH. lia. Qed.

(** A counter once every operation of every call is done. *)
Lemma interleaved_counter counter calls ops g :
  counter ≠ LatencyMax → ops ≡ₚ calls ≫= method_of → (∀ c, nsum (added counter <$> method_of c) = g c) →
  counter_value counter (atomic_ops ops create_metrics) = as_u64 (nsum (g <$> calls)).
Proof.
  intros Hc Hp Hg. rewrite atomic_ops_added; [|done|by rewrite Hp; apply method_of_ok|by destruct counter].
  assert (counter_value counter create_metrics = 0) as -> by (by destruct counter).
  rewrite N.add_0_l, Hp. f_equal. by apply nsum_methods.
Qed.

(** C18: whatever the interleaving of the atomic operations of any number of calls
    on any number of threads, once the calls are done the counters are those of the
    calls run one after the other: no request, error, latency or session is lost,
    and the total is the sum of the local and the network requests, modulo 2^64. *)
Theorem metrics_interleaving calls ops :
  ops ≡ₚ calls ≫= method_of →
  let m := atomic_ops ops create_metrics in
  let local := count_calls is_local_request calls in
  let network := count_calls is_network_request calls in
  let opened := count_calls is_opened calls in
  let closed := count_calls is_closed calls in
  read_requests_local m = as_u64 local ∧ read_requests_network m = as_u64 network ∧
  read_requests_total m = as_u64 (local + network) ∧
  read_errors_total m = as_u64 (count_calls is_error calls) ∧
  (closed ≤ opened → opened < 2 ^ 64 → read_active_sessions m = opened - closed) ∧
  (local + network < 2 ^ 64 → nsum (call_latency <$> calls) < 2 ^ 64 →
   read_latency_average_microseconds m = nsum (call_latency <$> calls) / (local + network)) ∧
  read_latency_max_microseconds m = nmax (call_latency <$> calls).
Proof.
  intros Hp m local network opened closed.
  assert (read_requests_local m = as_u64 local) as Hl
    by (apply (interleaved_counter RequestsLocal _ _ _ ltac:(done) Hp); by intros []).
  assert (read_requests_network m = as_u64 network) as Hn
    by (apply (interleaved_counter RequestsNetwork _ _ _ ltac:(done) Hp); by intros []).
  assert (read_errors_total m = as_u64 (count_calls is_error calls)) as He
    by (apply (interleaved_counter ErrorsTotal _ _ _ ltac:(done) Hp); by intros []).
  assert (read_requests_total m = as_u64 (local + network)) as Ht.
  { rewrite <- (N.mul_1_l local), <- (N.mul_1_l network). unfold local, network, count_calls. rewrite <- nsum_two.
    apply (interleaved_counter RequestsTotal _ _ _ ltac:(done) Hp); by intros []. }
  assert (latency_sum_microseconds m = as_u64 (nsum (call_latency <$> calls))) as Hs
    by (apply (interleaved_counter LatencySum _ _ _ ltac:(done) Hp); intros []; csimpl; lia).
  assert (read_active_sessions m = as_u64 (1 * opened + (2 ^ 64 - 1) * closed)) as Ha.
  { unfold opened, closed, count_calls. rewrite <- nsum_two.
    apply (interleaved_counter ActiveSessions _ _ _ ltac:(done) Hp); by intros []. }
  split_and!; try done.
  - intros Hle Hlt. rewrite Ha. unfold as_u64.
    replace (1 * opened + (2 ^ 64 - 1) * closed) with (opened - closed + closed * 2 ^ 64) by lia.
    rewrite N.Div0.mod_add. apply N.mod_small. lia.
  - intros Hb1 Hb2. unfold read_latency_average_microseconds.
    change (requests_total m) with (read_requests_total m). rewrite Ht, Hs, !as_u64_small by done.
    destruct (N.eqb_spec (local + network) 0) as [->|]; [by rewrite N.div_0_r|done].
  - unfold read_latency_max_microseconds, m. rewrite atomic_ops_raised by (rewrite Hp; apply method_of_ok).
    rewrite N.max_0_l, Hp. apply nmax_methods. intros []; csimpl; lia.
Qed.

Definition example_interleaving : list AtomicOp :=
  [FetchAdd RequestsTotal 1; FetchAdd RequestsTotal 1; FetchAdd RequestsNetwork 1; FetchAdd LatencySum 40;
   FetchAdd RequestsLocal 1; FetchAdd LatencySum 7; FetchMax LatencyMax 7; FetchMax LatencyMax 40;
   FetchSub ActiveSessions 1; FetchAdd ActiveSessions 1].

Lemma metrics_interleaving_witness :
  let m := atomic_ops example_interleaving create_metrics in
  read_requests_local m = 1 ∧ read_requests_network m = 1 ∧ read_requests_total m = 2 ∧
  read_errors_total m = 0 ∧
  (1 ≤ 1 → 1 < 2 ^ 64 → read_active_sessions m = 0) ∧
  (2 < 2 ^ 64 → 47 < 2 ^ 64 → read_latency_average_microseconds m = 47 / 2) ∧
  read_latency_max_microseconds m = 40.
Proof.
  apply (metrics_interleaving [LocalRequest; NetworkRequest; Latency 40; Latency 7; SessionOpened; SessionClosed]
    example_interleaving).
  apply (bool_decide_unpack _). vm_compute. exact I.
Defined.
