(* ===== verification/Auth.v ===== *)
(** Sessions and keys, src/modules/auth.rs.  The AEAD cipher is a parameter
    ([Aead]); the session table and the base64 decoder are the program's own. *)
From stdpp Require Import prelude gmap sorting strings.
From Stdlib Require Import NArith Lia.
From S2P Require Import Prelude.
From S2P Require Import Bytes.

(** The chacha20poly1305 crate: a cipher made from a key, encryption and
    decryption under a 12-byte nonce.  An error is [None]. *)
Class Aead : Type := {
  Cipher : Type;
  cipher_new : bytes → Cipher;
  cipher_encrypt : Cipher → bytes → bytes → option bytes;
  cipher_decrypt : Cipher → bytes → bytes → option bytes;
}.

(** What is encrypted under a nonce decrypts under it; the tag adds 16 bytes.  The
    crate refuses only what is beyond the cipher's length, 2^38 bytes, and the
    responses of the program stay far below it. *)
Class AeadSpec `{Aead} : Type := {
  cipher_roundtrip c n p : ∃ e, cipher_encrypt c n p = Some e ∧ cipher_decrypt c n e = Some p ∧
                               blen e = blen p + 16;
}.

Record Session `{Aead} : Type := mkSession {
  label : bytes;
  cipher : Cipher;
  nonce_counter : N;
}.
Arguments mkSession {_} _ _ _.
Arguments label {_} _.
Arguments cipher {_} _.
Arguments nonce_counter {_} _.

Record SessionTable `{Aead} : Type := mkSessionTable {
  sessions : gmap bytes Session;
  max_sessions : N;
}.
Arguments mkSessionTable {_} _ _.
Arguments sessions {_} _.
Arguments max_sessions {_} _.

Section auth.
Context `{Aead}.

Definition create_session_table (max_sessions : N) : SessionTable := mkSessionTable ∅ max_sessions.

Definition with_sessions (f : gmap bytes Session → gmap bytes Session) (t : SessionTable) : SessionTable :=
  mkSessionTable (f (sessions t)) (max_sessions t).

Definition create_session (session_id label key : bytes) : M SessionTable bool :=
  t ← get;
  if max_sessions t <=? N.of_nat (size (sessions t)) then mret false
  else
    modify (with_sessions <[session_id := mkSession label (cipher_new key) 0]>) ;;
    mret true.

(** The 12-byte nonce of a message: four zero bytes and the counter. *)
Definition counter_nonce (counter : N) : bytes := replicate 4 Byte.x00 ++ u64_be counter.

(** [nonce_counter += 1] on a [u64]. *)
Definition encrypt_response (session_id plaintext : bytes) : M SessionTable (option bytes) :=
  session ← gets (λ t, sessions t !! session_id);
  match session with
  | None => mret None
  | Some session =>
      let counter := as_u64 (nonce_counter session + 1) in
      modify (with_sessions <[session_id := mkSession (label session) (cipher session) counter]>) ;;
      mret (cipher_encrypt (cipher session) (counter_nonce counter) plaintext)
  end.

Definition decrypt_request (session_id ciphertext nonce_bytes : bytes) (t : SessionTable) : option bytes :=
  session ← sessions t !! session_id;
  cipher_decrypt (cipher session) nonce_bytes ciphertext.

Definition remove_session (session_id : bytes) : M SessionTable unit :=
  modify (with_sessions (delete session_id)).

Definition read_session_count (t : SessionTable) : N := N.of_nat (size (sessions t)).
End auth.

(** * Base64 *)

Definition base64_table : bytes := bs "ABCDEFGHIJKLMNOPQRSTUVWXYZabcdefghijklmnopqrstuvwxyz0123456789+/".

(** The position of a byte in the table. *)
Definition base64_value (b : byte) : option N :=
  (λ e, N.of_nat e.1) <$> list_find (λ c, c = b) base64_table.

(** The loop of [decode_base64]: [buffer] and [bits] are [u32]s. *)
Fixpoint decode_base64_loop (input : bytes) (buffer bits : N) (output : bytes) : option bytes :=
  match input with
  | [] => Some output
  | b :: input' =>
      if bool_decide (b = Byte.x3d) then Some output
      else
        value ← base64_value b;
        let buffer := N.lor (as_u32 (N.shiftl buffer 6)) value in
        let bits := bits + 6 in
        if 8 <=? bits then
          let bits := bits - 8 in
          let output := output ++ [as_u8 (N.shiftr buffer bits)] in
          decode_base64_loop input' (N.land buffer (N.shiftl 1 bits - 1)) bits output
        else decode_base64_loop input' buffer bits output
  end.

Definition decode_base64 (input : bytes) : option bytes := decode_base64_loop input 0 0 [].

(** The standard encoding (RFC 4648, with padding), for the round trip. *)
Definition base64_char (v : N) : byte := default Byte.x41 (base64_table !! N.to_nat v).

Fixpoint encode_base64 (l : bytes) : bytes :=
  match l with
  | [] => []
  | [a] =>
      let a := byte_val a in
      [base64_char (a / 4); base64_char (a mod 4 * 16); Byte.x3d; Byte.x3d]
  | [a; b] =>
      let a := byte_val a in let b := byte_val b in
      [base64_char (a / 4); base64_char (a mod 4 * 16 + b / 16); base64_char (b mod 16 * 4); Byte.x3d]
  | a :: b :: c :: l' =>
      let a := byte_val a in let b := byte_val b in let c := byte_val c in
      base64_char (a / 4) :: base64_char (a mod 4 * 16 + b / 16) ::
      base64_char (b mod 16 * 4 + c / 64) :: base64_char (c mod 64) :: encode_base64 l'
  end.

(** * Base64: the decoder inverts the encoder *)

Lemma base64_value_char v : v < 64 → base64_value (base64_char v) = Some v ∧ base64_char v ≠ Byte.x3d.
Proof.
  intros Hv. 
  assert (Forall (λ i, base64_value (base64_char (N.of_nat i)) = Some (N.of_nat i) ∧
    base64_char (N.of_nat i) ≠ Byte.x3d) (seq 0 64)) as Hall.
  { apply (bool_decide_unpack _). vm_compute. done. }
  rewrite Forall_forall in Hall. specialize (Hall (N.to_nat v)). rewrite N2Nat.id in Hall.
  apply Hall, elem_of_seq. lia.
Qed.

(** The low six bits are free after the shift. *)
Lemma land_shift_6 x v : v < 64 → N.land (N.shiftl x 6) v = 0.
Proof.
  intros Hv. apply N.bits_inj_0. intros i. rewrite N.land_spec. destruct (N.lt_ge_cases i 6).
  - by rewrite N.shiftl_spec_low.
  - rewrite andb_comm, N.bits_above_log2; [done|]. destruct (decide (v = 0)) as [->|]; [simpl; lia|].
    apply N.log2_lt_pow2; [lia|]. eapply N.lt_le_trans; [exact Hv|]. change 64 with (2 ^ 6).
    by apply N.pow_le_mono_r.
Qed.

Lemma lor_shift_add x v : v < 64 → N.lor (N.shiftl x 6) v = x * 64 + v.
Proof.
  intros Hv. rewrite <- N.lxor_lor, <- N.add_nocarry_lxor by (by apply land_shift_6).
  by rewrite N.shiftl_mul_pow2.
Qed.

(** One character of the loop, as arithmetic on the pending bits. *)
Lemma decode_base64_loop_char v input buffer bits output :
  v < 64 → buffer < 64 →
  decode_base64_loop (base64_char v :: input) buffer bits output =
  if 8 <=? bits + 6 then
    decode_base64_loop input ((buffer * 64 + v) mod 2 ^ (bits + 6 - 8)) (bits + 6 - 8)
      (output ++ [as_u8 ((buffer * 64 + v) / 2 ^ (bits + 6 - 8))])
  else decode_base64_loop input (buffer * 64 + v) (bits + 6) output.
Proof.
  intros Hv Hb. destruct (base64_value_char v Hv) as [Hval Hne]. cbn [decode_base64_loop].
  rewrite bool_decide_eq_false_2 by done. rewrite Hval. cbn.
  assert (N.lor (as_u32 (N.shiftl buffer 6)) v = buffer * 64 + v) as ->.
  { rewrite <- lor_shift_add by done. f_equal. unfold as_u32. apply N.mod_small.
    rewrite N.shiftl_mul_pow2. change (2 ^ 6) with 64. change (2 ^ 32) with 4294967296. lia. }
  destruct (8 <=? bits + 6); [|done].
  rewrite N.shiftr_div_pow2, N.shiftl_1_l, N.sub_1_r, <- N.ones_equiv, N.land_ones. done.
Qed.

Lemma decode_base64_loop_pad input buffer bits output :
  decode_base64_loop (Byte.x3d :: input) buffer bits output = Some output.
Proof. done. Qed.

(** The four phases of a group: 0, 6, 4 and 2 bits pending. *)
Lemma decode_base64_phases v input buffer output :
  v < 64 → buffer < 64 →
  decode_base64_loop (base64_char v :: input) buffer 0 output =
    decode_base64_loop input (buffer * 64 + v) 6 output ∧
  decode_base64_loop (base64_char v :: input) buffer 6 output =
    decode_base64_loop input ((buffer * 64 + v) mod 16) 4 (output ++ [as_u8 ((buffer * 64 + v) / 16)]) ∧
  decode_base64_loop (base64_char v :: input) buffer 4 output =
    decode_base64_loop input ((buffer * 64 + v) mod 4) 2 (output ++ [as_u8 ((buffer * 64 + v) / 4)]) ∧
  decode_base64_loop (base64_char v :: input) buffer 2 output =
    decode_base64_loop input 0 0 (output ++ [as_u8 (buffer * 64 + v)]).
Proof.
  intros Hv Hb. rewrite !decode_base64_loop_char by done. split_and!; try reflexivity.
  change (2 ^ (2 + 6 - 8)) with 1. by rewrite N.mod_1_r, N.div_1_r.
Qed.

Lemma as_u8_is x b : x = byte_val b → as_u8 x = b.
Proof. intros ->. apply as_u8_byte_val. Qed.

(** A first byte, and a second one, of a group. *)
Lemma decode_base64_first a v input output :
  v < 16 →
  decode_base64_loop (base64_char (byte_val a / 4) :: base64_char (byte_val a mod 4 * 16 + v) :: input) 0 0 output =
  decode_base64_loop input v 4 (output ++ [a]).
Proof.
  intros Hv. pose proof (byte_val_bound a).
  destruct (decode_base64_phases (byte_val a / 4)
    (base64_char (byte_val a mod 4 * 16 + v) :: input) 0 output) as (-> & _); [div_lia..|].
  destruct (decode_base64_phases (byte_val a mod 4 * 16 + v) input (0 * 64 + byte_val a / 4) output)
    as (_ & -> & _); [div_lia..|].
  f_equal; [div_lia|]. do 2 f_equal. apply as_u8_is. div_lia.
Qed.

Lemma decode_base64_second b v input output :
  v < 4 →
  decode_base64_loop (base64_char (byte_val b mod 16 * 4 + v) :: input) (byte_val b / 16) 4 output =
  decode_base64_loop input v 2 (output ++ [b]).
Proof.
  intros Hv. pose proof (byte_val_bound b).
  destruct (decode_base64_phases (byte_val b mod 16 * 4 + v) input (byte_val b / 16) output)
    as (_ & _ & -> & _); [div_lia..|].
  f_equal; [div_lia|]. do 2 f_equal. apply as_u8_is. div_lia.
Qed.

Lemma decode_base64_third c input output :
  decode_base64_loop (base64_char (byte_val c mod 64) :: input) (byte_val c / 64) 2 output =
  decode_base64_loop input 0 0 (output ++ [c]).
Proof.
  pose proof (byte_val_bound c).
  destruct (decode_base64_phases (byte_val c mod 64) input (byte_val c / 64) output)
    as (_ & _ & _ & ->); [div_lia..|].
  do 3 f_equal. apply as_u8_is. div_lia.
Qed.

Lemma decode_encode_base64 n l output :
  (length l ≤ n)%nat → decode_base64_loop (encode_base64 l) 0 0 output = Some (output ++ l).
Proof.
  revert l output. induction n as [|n IH]; intros l output Hn.
  { destruct l; [|simpl in Hn; lia]. simpl. by rewrite app_nil_r. }
  destruct l as [|a [|b [|c l]]]; cbn [encode_base64]; cbv zeta.
  - simpl. by rewrite app_nil_r.
  - rewrite <- (N.add_0_r (byte_val a mod 4 * 16)), decode_base64_first by lia. done.
  - pose proof (byte_val_bound b). rewrite decode_base64_first by div_lia.
    rewrite <- (N.add_0_r (byte_val b mod 16 * 4)), decode_base64_second by lia.
    by rewrite decode_base64_loop_pad, <- app_assoc.
  - pose proof (byte_val_bound b). pose proof (byte_val_bound c).
    rewrite decode_base64_first, decode_base64_second, decode_base64_third by div_lia.
    rewrite IH by (simpl in Hn; lia). by rewrite <- !app_assoc.
Qed.

(** * Sessions *)
Section sessions.
Context `{Aead}.

Definition within_capacity (t : SessionTable) : Prop := N.of_nat (size (sessions t)) ≤ max_sessions t.

(** The calls that change the table. *)
Inductive SessionCall : Type :=
| CreateSession (session_id label key : bytes)
| EncryptResponse (session_id plaintext : bytes)
| RemoveSession (session_id : bytes).

Definition session_call (c : SessionCall) : M SessionTable unit :=
  match c with
  | CreateSession sid l k => create_session sid l k ;; mret ()
  | EncryptResponse sid p => encrypt_response sid p ;; mret ()
  | RemoveSession sid => remove_session sid
  end.

Lemma session_call_within c t : within_capacity t →
  ∃ t', session_call c t = (Returned (), t') ∧ within_capacity t' ∧ max_sessions t' = max_sessions t.
Proof.
  unfold within_capacity. intros Hc. destruct c as [sid l k|sid p|sid]; simpl.
  - unfold create_session, mbind, M_bind, get. destruct (N.leb_spec (max_sessions t) (N.of_nat (size (sessions t)))).
    + by exists t.
    + eexists. split; [done|]. simpl. split; [|done].
      rewrite map_size_insert. destruct (sessions t !! sid); simpl; lia.
  - unfold encrypt_response, mbind, M_bind, gets. destruct (sessions t !! sid) as [s|] eqn:E; [|by exists t].
    eexists. split; [done|]. simpl. split; [|done]. rewrite map_size_insert_Some; [done|]. by rewrite E.
  - eexists. split; [done|]. simpl. split; [|done].
    pose proof (map_size_delete sid (sessions t)) as Hs. rewrite Hs. destruct (sessions t !! sid); simpl; lia.
Qed.
End sessions.

(** A cipher for examples: the plaintext followed by a tag made of the nonce and
    the key.  It satisfies the specification. *)
Definition tag (key nonce : bytes) : bytes := btake 16 (nonce ++ key ++ replicate 16 Byte.x00).

#[export] Instance tagging_aead : Aead := {
  Cipher := bytes;
  cipher_new := id;
  cipher_encrypt key nonce p := Some (p ++ tag key nonce);
  cipher_decrypt key nonce e :=
    let p := btake (blen e - 16) e in
    if bool_decide (e = p ++ tag key nonce) then Some p else None;
}.

Lemma blen_tag key nonce : blen (tag key nonce) = 16.
Proof.
  unfold tag. apply blen_btake. rewrite !blen_app. unfold blen at 3. rewrite length_replicate. lia.
Qed.

#[export] Instance tagging_aead_spec : AeadSpec.
Proof.
  split. intros c n p. eexists. split; [done|]. simpl. rewrite blen_app, blen_tag.
  replace (blen p + 16 - 16) with (blen p) by lia. rewrite btake_app.
  by rewrite bool_decide_eq_true_2.
Defined.

(** * Nonces *)
Section nonces.
Context `{Aead}.

Lemma counter_nonce_inj c1 c2 :
  c1 < 2 ^ 64 → c2 < 2 ^ 64 → counter_nonce c1 = counter_nonce c2 → c1 = c2.
Proof.
  intros H1 H2 E. unfold counter_nonce in E. apply app_inv_head in E.
  apply (f_equal of_be) in E. rewrite !of_be_u64_be in E. by rewrite !N.mod_small in E.
Qed.

(** The counters of the next [n] messages after counter [c]. *)
Definition next_counters (c : N) (n : nat) : list N := (λ i, c + 1 + N.of_nat i) <$> seq 0 n.

Lemma next_counters_S c n : next_counters c (S n) = (c + 1) :: next_counters (c + 1) n.
Proof.
  unfold next_counters. cbn [seq fmap list_fmap]. f_equal; [lia|].
  rewrite <- seq_shift. rewrite <- list_fmap_compose. apply list_fmap_ext. intros i x _. simpl. lia.
Qed.

Lemma mmap_encrypt sid s ps t :
  sessions t !! sid = Some s → nonce_counter s + N.of_nat (length ps) < 2 ^ 64 →
  ∃ t', mmap (encrypt_response sid) ps t =
    (Returned (zip_with (λ c p, cipher_encrypt (cipher s) (counter_nonce c) p)
                (next_counters (nonce_counter s) (length ps)) ps), t') ∧
    sessions t' !! sid = Some (mkSession (label s) (cipher s) (nonce_counter s + N.of_nat (length ps))).
Proof.
  revert s t. induction ps as [|p ps IH]; intros s t Hs Hc.
  - exists t. split; [done|]. rewrite N.add_0_r. by destruct s.
  - cbn [length mmap]. rewrite next_counters_S. cbn [zip_with].
    assert (as_u64 (nonce_counter s + 1) = nonce_counter s + 1) as Hu.
    { unfold as_u64. apply N.mod_small. cbn [length] in Hc. lia. }
    set (t1 := with_sessions <[sid := mkSession (label s) (cipher s) (nonce_counter s + 1)]> t).
    assert (encrypt_response sid p t =
      (Returned (cipher_encrypt (cipher s) (counter_nonce (nonce_counter s + 1)) p), t1)) as Hrun.
    { unfold encrypt_response, mbind, M_bind, gets. rewrite Hs, Hu. done. }
    run_with Hrun.
    destruct (IH (mkSession (label s) (cipher s) (nonce_counter s + 1)) t1) as (t' & Hrun' & Hs').
    { simpl. by rewrite lookup_insert_eq. }
    { cbn [length nonce_counter] in *. lia. }
    exists t'. run_with Hrun'. split; [done|]. rewrite Hs'. cbn [nonce_counter length cipher label].
    do 2 f_equal. lia.
Qed.
End nonces.

(** * Properties *)

(** Decoding inverts the standard base64 encoding: every byte string comes
    back, whatever its length modulo three and its padding. *)
Theorem decode_base64_roundtrip l : decode_base64 (encode_base64 l) = Some l.
Proof. unfold decode_base64. by rewrite (decode_encode_base64 (length l)). Qed.

(** No sequence of session creations, encryptions and removals makes the
    table hold more than [max_sessions] sessions, and none panics. *)
Theorem session_capacity `{Aead} calls max :
  ∃ t, mfor calls session_call (create_session_table max) = (Returned (), t) ∧
       read_session_count t ≤ max.
Proof.
  assert (∀ t0, within_capacity t0 → ∃ t, mfor calls session_call t0 = (Returned (), t) ∧
    read_session_count t ≤ max_sessions t0) as Hall.
  { induction calls as [|c calls IH]; intros t0 Hc; [by exists t0|].
    destruct (session_call_within c t0 Hc) as (t1 & Hrun & Hc1 & Hmax).
    destruct (IH t1 Hc1) as (t & Hruns & Hle). exists t. simpl. run_with Hrun. by rewrite <- Hmax. }
  apply (Hall (create_session_table max)). unfold within_capacity. simpl. rewrite map_size_empty. lia.
Qed.

(** C17: the responses of one session are encrypted under pairwise distinct
    nonces, as long as fewer than 2^64 of them are sent. *)
Theorem response_nonces_distinct `{Aead} sid s ps t :
  sessions t !! sid = Some s → nonce_counter s + N.of_nat (length ps) < 2 ^ 64 →
  ∃ t' nonces, mmap (encrypt_response sid) ps t =
    (Returned (zip_with (λ n p, cipher_encrypt (cipher s) n p) nonces ps), t') ∧
    length nonces = length ps ∧ NoDup nonces ∧ Forall (λ n, blen n = 12) nonces.
Proof.
  intros Hs Hc. destruct (mmap_encrypt sid s ps t Hs Hc) as (t' & Hrun & _).
  exists t', (counter_nonce <$> next_counters (nonce_counter s) (length ps)).
  rewrite zip_with_fmap_l. split_and!; [done| | |].
  - unfold next_counters. by rewrite !length_fmap, length_seq.
  - apply NoDup_fmap_2_strong.
    + intros c1 c2 H1 H2. unfold next_counters in *.
      apply list_elem_of_fmap in H1 as (i & -> & Hi%elem_of_seq), H2 as (j & -> & Hj%elem_of_seq).
      intros E. by apply counter_nonce_inj in E; [|lia..].
    + unfold next_counters. apply NoDup_fmap_2_strong; [|apply NoDup_seq]. intros i j _ _. lia.
  - apply Forall_fmap, Forall_true. intros c. unfold counter_nonce; simpl.
    rewrite !blen_cons. unfold u64_be. rewrite blen_be_bytes. done.
Qed.

Definition example_session_id : bytes := replicate 16 Byte.x07.
Definition example_session : Session (H := tagging_aead) :=
  @mkSession tagging_aead (bs "gateway") (bs "key") 41.
Definition example_sessions : SessionTable (H := tagging_aead) :=
  mkSessionTable {[ example_session_id := example_session ]} 8.

Lemma response_nonces_distinct_witness :
  ∃ t' nonces, mmap (encrypt_response example_session_id) [bs "a"; bs "b"] example_sessions =
    (Returned (zip_with (λ n p, cipher_encrypt (cipher example_session) n p) nonces [bs "a"; bs "b"]), t') ∧
    length nonces = 2%nat ∧ NoDup nonces ∧ Forall (λ n, blen n = 12) nonces.
Proof.
  apply (response_nonces_distinct example_session_id example_session [bs "a"; bs "b"] example_sessions);
    [|vm_compute]; reflexivity.
Defined.
