(* ===== verification/Handshake.v ===== *)
(** Keys and the handshake, src/modules/auth.rs: the authorized_keys file, the
    server's side of the key exchange and the check of a client's proof.  The curve
    operations are parameters ([Signatures], [KeyExchange]). *)
From stdpp Require Import prelude gmap sorting strings.
From Stdlib Require Import NArith Lia.
From S2P Require Import Prelude.
From S2P Require Import Bytes.
From S2P Require Import Text.
From S2P Require Import Auth.

(** The ed25519-dalek crate: a public key from 32 bytes, and whether a signature of
    64 bytes is one of a message. *)
Class Signatures : Type := {
  VerifyingKey : Type;
  verifying_key_from_bytes : bytes → option VerifyingKey;
  verify : VerifyingKey → bytes → bytes → bool;
}.

(** The x25519-dalek crate: a secret from 32 random bytes, its public value, and the
    shared secret. *)
Class KeyExchange : Type := {
  EphemeralSecret : Type;
  secret_from_random : bytes → EphemeralSecret;
  x25519_public : EphemeralSecret → bytes;
  diffie_hellman : EphemeralSecret → bytes → bytes;
}.

(** Both sides compute one secret. *)
Class KeyExchangeLaws `{KeyExchange} : Prop := {
  diffie_hellman_comm s s' : diffie_hellman s (x25519_public s') = diffie_hellman s' (x25519_public s);
}.

(** * The authorized_keys file *)

Record AuthorizedKey `{Signatures} : Type := mkAuthorizedKey { key_label : bytes; verifying_key : VerifyingKey }.
Arguments mkAuthorizedKey {_} _ _.
Arguments key_label {_} _.
Arguments verifying_key {_} _.

Section keys.
Context `{Signatures}.

(** One line: a label and a key; what follows is not read. *)
Definition parse_key_line (line : bytes) : option AuthorizedKey :=
  match split_whitespace line with
  | label :: key_b64 :: _ =>
      key_bytes ← decode_base64 key_b64;
      if blen key_bytes =? 32 then
        verifying_key ← verifying_key_from_bytes key_bytes;
        Some (mkAuthorizedKey label verifying_key)
      else None
  | _ => None
  end.

(** A line that is neither a comment nor blank. *)
Definition is_key_line (line : bytes) : bool :=
  negb (starts_with line (bs "#")) && negb (bool_decide (trim line = [])).

Definition parse_authorized_keys (content : bytes) : list AuthorizedKey :=
  omap parse_key_line (filter (λ line, is_key_line line = true) (lines content)).

(** * The handshake *)

Context `{KeyExchange}.

Record HandshakeState : Type := mkHandshakeState {
  nonce : bytes;
  server_secret : EphemeralSecret;
  server_public : bytes;
}.

(** [nonce_bytes] and [secret_bytes] are what the system's generator draws. *)
Definition create_handshake (nonce_bytes secret_bytes : bytes) : HandshakeState :=
  let server_secret := secret_from_random secret_bytes in
  mkHandshakeState nonce_bytes server_secret (x25519_public server_secret).

Definition check_auth_proof (nonce signature_bytes : bytes) (key : VerifyingKey) : bool :=
  verify key nonce signature_bytes.

Definition derive_session_key (server_secret : EphemeralSecret) (client_x25519_public : bytes) : bytes :=
  diffie_hellman server_secret client_x25519_public.
End keys.

(** * The file is read back *)

(** A line of the file, as an administrator writes it: the key in base64, blanks
    before it, and perhaps more behind it. *)
Inductive FileLine : Type :=
| KeyLine (label blanks key trailing : bytes)
| CommentLine (comment : bytes)
| BlankLine.

Definition render_line (line : FileLine) : bytes :=
  match line with
  | KeyLine label blanks key trailing => label ++ blanks ++ encode_base64 key ++ trailing
  | CommentLine comment => bs "#" ++ comment
  | BlankLine => []
  end.

Definition line_ok (line : FileLine) : Prop :=
  match line with
  | KeyLine label blanks key trailing =>
      (label ≠ [] ∧ head label ≠ Some Byte.x23 ∧ Forall (λ b, graphic b = true) label) ∧
      (blanks ≠ [] ∧ Forall (λ b, blank b = true) blanks) ∧ key ≠ [] ∧
      (blank_head trailing ∧ Byte.x0a ∉ trailing)
  | CommentLine comment => Byte.x0a ∉ comment
  | BlankLine => True
  end.

(** The key it names: 32 bytes that are one. *)
Definition line_key `{Signatures} (line : FileLine) : option AuthorizedKey :=
  match line with
  | KeyLine label _ key _ =>
      if blen key =? 32 then mkAuthorizedKey label <$> verifying_key_from_bytes key else None
  | _ => None
  end.

Lemma base64_char_graphic v : graphic (base64_char v) = true.
Proof.
  unfold base64_char. destruct (base64_table !! N.to_nat v) as [b|] eqn:E; [|done].
  assert (Forall (λ b, graphic b = true) base64_table) as Hall by (by apply (bool_decide_unpack _); vm_compute).
  rewrite Forall_forall in Hall. eapply Hall, list_elem_of_lookup_2, E.
Qed.

Lemma encode_base64_graphic l : Forall (λ b, graphic b = true) (encode_base64 l).
Proof.
  induction l as [l IH] using (induction_ltof1 _ length); unfold ltof in IH.
  destruct l as [|a [|b [|c l]]]; cbn [encode_base64]; repeat constructor; try apply base64_char_graphic.
  apply IH. simpl. lia.
Qed.

Lemma encode_base64_nonempty l : l ≠ [] → encode_base64 l ≠ [].
Proof. by destruct l as [|a [|b [|c l]]]. Qed.

Lemma graphic_plain b s : graphic b = false → Forall (λ b, graphic b = true) s → b ∉ s.
Proof. intros Hb Hs Hin. rewrite Forall_forall in Hs. specialize (Hs b Hin). congruence. Qed.

Section reading.
Context `{Signatures}.

(** What is left of a line without its carriage return. *)
Lemma strip_cr_trailing s z trailing : graphic z = true → blank_head trailing →
  ∃ trailing', strip_cr ((s ++ [z]) ++ trailing) = (s ++ [z]) ++ trailing' ∧ blank_head trailing'.
Proof using Type.
  intros Hz Ht. destruct trailing as [|t trailing] using rev_ind.
  - exists []. rewrite app_nil_r, strip_cr_plain; [done|]. rewrite last_snoc. by intros [= ->].
  - clear IHtrailing. destruct (decide (t = Byte.x0d)) as [->|Hne].
    + exists trailing. rewrite app_assoc. unfold strip_cr. rewrite strip_suffix_app. split; [done|]. by destruct trailing.
    + exists (trailing ++ [t]). rewrite app_assoc, strip_cr_plain; [by rewrite <- app_assoc|].
      rewrite last_snoc. congruence.
Qed.

Lemma parse_key_line_rendered label blanks key trailing : let line := KeyLine label blanks key trailing in
  line_ok line →
  is_key_line (strip_cr (render_line line)) = true ∧ parse_key_line (strip_cr (render_line line)) = line_key line.
Proof using Type.
  intros line ((Hne & Hhash & Hlabel) & (Hbl & Hblanks) & Hkey & Htr & _). unfold line. cbn [render_line line_key].
  pose proof (encode_base64_graphic key) as Hg. pose proof (encode_base64_nonempty key Hkey) as Henc.
  destruct (last (encode_base64 key)) as [z|] eqn:Ez; [|by apply last_None in Ez].
  apply last_Some in Ez as [init Hinit].
  assert (graphic z = true) as Hz by (rewrite Hinit in Hg; by apply Forall_app in Hg as [_ [Hz _]%Forall_cons]).
  destruct (strip_cr_trailing (label ++ blanks ++ init) z trailing Hz Htr) as (trailing' & Hstrip & Htr').
  rewrite <- !app_assoc in Hstrip. rewrite Hinit, <- app_assoc, Hstrip. rewrite (app_assoc init), <- Hinit. split.
  - destruct label as [|b label]; [done|]. apply Forall_cons in Hlabel as [Hb _]. unfold is_key_line. apply andb_true_iff. split.
    + change (bs "#") with [Byte.x23]. cbn [app starts_with].
      rewrite bool_decide_eq_false_2; [done|]. intros ->. by destruct Hhash.
    + cbn [app]. rewrite bool_decide_eq_false_2; [done|]. by apply trim_visible.
  - unfold parse_key_line. rewrite split_two_words by done. rewrite decode_base64_roundtrip. cbn [mbind option_bind].
    destruct (blen key =? 32); [|done]. by destruct (verifying_key_from_bytes key).
Qed.

(** C40: which keys a file gives.  Of a file made of comments, blank lines and lines
    with a label, blanks, the base64 of any bytes and perhaps more, the parser
    returns, in order, the labels with the public keys of those lines whose bytes
    are 32 and a point of the curve; every other line is dropped in silence, the
    44-byte form of a key among them. *)
Theorem authorized_keys_roundtrip ls : Forall line_ok ls →
  parse_authorized_keys (mjoin ((λ line, render_line line ++ newline) <$> ls)) = omap line_key ls.
Proof using Type.
  intros Hall. unfold parse_authorized_keys, newline.
  assert ((λ line, render_line line ++ [Byte.x0a]) <$> ls = (λ l, l ++ [Byte.x0a]) <$> (render_line <$> ls)) as ->
    by (by rewrite <- list_fmap_compose).
  rewrite lines_ended.
  - induction Hall as [|line ls Hline Hall IH]; [done|]. rewrite !fmap_cons, filter_cons. destruct line as [label blanks key trailing|comment|].
    + destruct (parse_key_line_rendered label blanks key trailing Hline) as [Hk Hp]. rewrite decide_True by done.
      destruct (line_key (KeyLine label blanks key trailing)) as [k|] eqn:E.
      * rewrite (omap_cons_Some _ _ k) by (by rewrite Hp). by rewrite IH, (omap_cons_Some line_key _ k).
      * rewrite omap_cons_None by done. by rewrite IH, (omap_cons_None line_key).
    + rewrite decide_False; [by rewrite IH, (omap_cons_None line_key)|]. cbn [render_line].
      unfold strip_cr. destruct (strip_suffix (bs "#" ++ comment) [Byte.x0d]) as [rest|] eqn:E; [|done]. cbn [default].
      apply strip_suffix_Some in E. destruct rest as [|b rest]; [done|]. injection E as <- _. done.
    + rewrite decide_False by done. by rewrite IH, (omap_cons_None line_key).
  - apply Forall_fmap. eapply Forall_impl; [exact Hall|]. intros [label blanks key trailing|comment|] Hok; cbn in *.
    + destruct Hok as ((_ & _ & Hlabel) & (_ & Hblanks) & _ & _ & Htr). rewrite !not_elem_of_app. split_and!; [| | |done].
      * by apply graphic_plain.
      * intros Hin. rewrite Forall_forall in Hblanks. specialize (Hblanks _ Hin). discriminate Hblanks.
      * apply graphic_plain; [done|apply encode_base64_graphic].
    + by rewrite not_elem_of_cons.
    + apply not_elem_of_nil.
Qed.
End reading.

(** * The session of a handshake *)
Section session.
Context `{AeadSpec, KeyExchangeLaws, Signatures}.

(** After a handshake the two sides share a key.  The session the server creates
    with the key it derives, in a table that is not full, opens what the client
    encrypts with the key it derives from the server's public value, under any
    nonce; the table then has one session more, unless the identifier was taken. *)
Theorem handshake_session random_nonce random_secret client_secret session_id label t :
  let hs := create_handshake random_nonce random_secret in
  read_session_count t < max_sessions t →
  ∃ t', create_session session_id label (derive_session_key (server_secret hs) (x25519_public client_secret)) t =
      (Returned true, t') ∧
    (∀ nonce plaintext, ∃ ciphertext,
       cipher_encrypt (cipher_new (derive_session_key client_secret (server_public hs))) nonce plaintext = Some ciphertext ∧
       decrypt_request session_id ciphertext nonce t' = Some plaintext) ∧
    read_session_count t' = read_session_count t + match sessions t !! session_id with Some _ => 0 | None => 1 end.
Proof using Type*.
  intros hs Hroom. eexists. split_and!.
  - unfold read_session_count in Hroom. apply N.leb_gt in Hroom. unfold create_session, get, mbind, M_bind. by rewrite Hroom.
  - intros n p. unfold derive_session_key, hs. cbn [server_public server_secret create_handshake].
    rewrite diffie_hellman_comm.
    destruct (cipher_roundtrip (cipher_new (diffie_hellman (secret_from_random random_secret) (x25519_public client_secret))) n p)
      as (e & He & Hd & _).
    exists e. split; [done|]. unfold decrypt_request. cbn. by rewrite lookup_insert_eq.
  - unfold read_session_count. cbn. destruct (sessions t !! session_id) eqn:E.
    + rewrite map_size_insert_Some by (by eexists). lia.
    + rewrite map_size_insert_None by done. lia.
Qed.
End session.

(** ** Concrete keys *)

(** A commutative exchange on 256-bit numbers. *)
#[export] Instance product_exchange : KeyExchange | 100 := {|
  EphemeralSecret := N;
  secret_from_random random := of_be random;
  x25519_public s := be_bytes 32 s;
  diffie_hellman s public := be_bytes 32 (s * of_be public);
|}.

Lemma be_bytes_mod w x : be_bytes w (x mod 256 ^ N.of_nat w) = be_bytes w x.
Proof. rewrite <- of_be_be_bytes. rewrite <- (length_be_bytes w x) at 1. apply be_bytes_of_be. Qed.

#[export] Instance product_exchange_laws : KeyExchangeLaws | 100.
Proof.
  split. intros s s'. change (be_bytes 32 (s * of_be (be_bytes 32 s')) = be_bytes 32 (s' * of_be (be_bytes 32 s))).
  rewrite !of_be_be_bytes, <- (be_bytes_mod 32 (s * _)), <- (be_bytes_mod 32 (s' * _)).
  rewrite !N.Div0.mul_mod_idemp_r. by rewrite N.mul_comm.
Qed.

(** Every key is one; a signature is the key before the message. *)
#[export] Instance prefix_signatures : Signatures | 100 := {|
  VerifyingKey := bytes;
  verifying_key_from_bytes key := Some key;
  verify key message signature := bool_decide (signature = key ++ message);
|}.

Definition example_key : bytes := replicate 32 Byte.x07.

Definition example_lines : list FileLine :=
  [CommentLine (bs " admins"); BlankLine; KeyLine (bs "ada") (bs "    ") example_key [Byte.x0d];
   KeyLine (bs "gateway") (bs " ") (replicate 44 Byte.x30) (bs " spki")].

Lemma authorized_keys_roundtrip_witness :
  parse_authorized_keys (mjoin ((λ line, render_line line ++ newline) <$> example_lines)) =
  [mkAuthorizedKey (bs "ada") example_key].
Proof.
  etrans; [apply (authorized_keys_roundtrip example_lines)|reflexivity].
  repeat (apply Forall_cons; split); try apply Forall_nil; cbn [line_ok]; split_and?; try done;
    by apply (bool_decide_unpack _); vm_compute.
Defined.

Lemma handshake_session_witness :
  let hs := create_handshake (replicate 32 Byte.x01) (replicate 32 Byte.x02) in
  let t := create_session_table 1 in
  ∃ t', create_session (bs "0123456789abcdef") (bs "ada") (derive_session_key (server_secret hs) (x25519_public (secret_from_random [Byte.x05]))) t =
      (Returned true, t') ∧
    (∀ nonce plaintext, ∃ ciphertext,
       cipher_encrypt (cipher_new (derive_session_key (secret_from_random [Byte.x05]) (server_public hs))) nonce plaintext = Some ciphertext ∧
       decrypt_request (bs "0123456789abcdef") ciphertext nonce t' = Some plaintext) ∧
    read_session_count t' = read_session_count t + match sessions t !! bs "0123456789abcdef" with Some _ => 0 | None => 1 end.
Proof. apply (handshake_session (replicate 32 Byte.x01) (replicate 32 Byte.x02) (secret_from_random [Byte.x05])). reflexivity. Defined.
