(* ===== verification/Codec.v ===== *)
(** The datagram codec, src/modules/codec.rs: requests and responses, the local
    framing, and the network framing with its noise inside the encrypted block. *)
From stdpp Require Import prelude gmap sorting strings.
From Stdlib Require Import NArith Lia.
From S2P Require Import Prelude.
From S2P Require Import Bytes.
From S2P Require Import Auth.

Record Request : Type := mkRequest {
  request_id : N;
  opcode : N;
  payload : bytes;
  is_local : bool;
}.

Record Response : Type := mkResponse {
  response_id : N;
  response_opcode : N;
  response_payload : bytes;
}.

(** [opcode == 0x00 || opcode == 0xFF]. *)
Definition reserved_opcode (opcode : N) : bool := (opcode =? 0x00) || (opcode =? 0xFF).

Definition decode_local (raw : bytes) : Outcome (option Request) :=
  if blen raw <? 5 then mret None
  else
    request_id ← u32_at raw 0;
    opcode ← index raw 4;
    if reserved_opcode (byte_val opcode) then mret None
    else
      payload ← slice_from raw 5;
      mret (Some (mkRequest request_id (byte_val opcode) payload true)).

(** The same, into a request that is reused; a refused datagram leaves it
    untouched. *)
Definition decode_local_into (raw : bytes) : M Request bool :=
  if blen raw <? 5 then mret false
  else
    op ← lift_outcome (index raw 4);
    if reserved_opcode (byte_val op) then mret false
    else
      id ← lift_outcome (u32_at raw 0);
      modify (λ r, mkRequest id (opcode r) (payload r) (is_local r)) ;;
      modify (λ r, mkRequest (request_id r) (byte_val op) (payload r) (is_local r)) ;;
      modify (λ r, mkRequest (request_id r) (opcode r) [] (is_local r)) ;;
      rest ← lift_outcome (slice_from raw 5);
      modify (λ r, mkRequest (request_id r) (opcode r) (payload r ++ rest) (is_local r)) ;;
      modify (λ r, mkRequest (request_id r) (opcode r) (payload r) true) ;;
      mret true.

Definition encode_local (response : Response) : bytes :=
  u32_be (response_id response) ++ [as_u8 (response_opcode response)] ++ response_payload response.

(** * Field lengths *)

Definition read_one_field_length (data : bytes) : Outcome (option N) :=
  if blen data <? 4 then mret None
  else
    length ← u32_at data 0;
    mret (Some (4 + length)).

Definition read_two_field_lengths (data : bytes) : Outcome (option N) :=
  first ← read_one_field_length data;
  match first with
  | None => mret None
  | Some first =>
      if blen data <? first + 4 then mret None
      else
        second_length ← u32_at data first;
        mret (Some (first + 4 + second_length))
  end.

Definition read_one_field_length_plus_u64 (data : bytes) : Outcome (option N) :=
  first ← read_one_field_length data;
  match first with
  | None => mret None
  | Some first => mret (Some (first + 8))
  end.

Definition read_two_field_lengths_plus_u64 (data : bytes) : Outcome (option N) :=
  two_fields ← read_two_field_lengths data;
  match two_fields with
  | None => mret None
  | Some two_fields => mret (Some (two_fields + 8))
  end.

(** The payload without the noise, for the opcodes whose fields tell its
    length; the whole of it otherwise. *)
Definition extract_real_payload (opcode : N) (after_opcode : bytes) : Outcome bytes :=
  consumed ←
    match opcode with
    | 0x01 | 0x03 => read_one_field_length after_opcode
    | 0x02 => read_two_field_lengths_plus_u64 after_opcode
    | 0x04 => read_two_field_lengths after_opcode
    | 0x05 => read_one_field_length_plus_u64 after_opcode
    | 0x06 => read_one_field_length after_opcode
    | 0x13 => mret (Some 0)
    | 0x10 => mret (Some 64)
    | 0x11 => mret (Some 64)
    | _ => mret None
    end;
  match consumed with
  | Some length =>
      if length <=? blen after_opcode then slice after_opcode 0 length else mret after_opcode
  | None => mret after_opcode
  end.

(** * The network framing *)

(** The random numbers one call of [encode_network] draws from [OsRng]. *)
Record Entropy : Type := mkEntropy {
  rng_u32 : N;
  rng_noise : nat → bytes;
  rng_nonce : bytes;
}.

(** [OsRng] fills the buffers it is given. *)
Record entropy_ok (r : Entropy) : Prop := {
  rng_u32_bound : rng_u32 r < 2 ^ 32;
  rng_noise_length : ∀ n, length (rng_noise r n) = n;
  rng_nonce_length : length (rng_nonce r) = 12%nat;
}.

Section network.
Context `{Aead}.

Definition decode_network (raw : bytes) (session_table : SessionTable) :
  Outcome (option (Request * bytes)) :=
  if blen raw <? 16 + 12 + 5 + 16 then mret None
  else
    session_id ← slice raw 0 16;
    nonce ← slice raw 16 28;
    ciphertext ← slice_from raw 28;
    match decrypt_request session_id ciphertext nonce session_table with
    | None => mret None
    | Some plaintext =>
        if blen plaintext <? 5 then mret None
        else
          request_id ← u32_at plaintext 0;
          opcode ← index plaintext 4;
          if reserved_opcode (byte_val opcode) then mret None
          else
            after ← slice_from plaintext 5;
            payload ← extract_real_payload (byte_val opcode) after;
            mret (Some (mkRequest request_id (byte_val opcode) payload false, session_id))
    end.

(** The number of noise bytes: 64 to 1024. *)
Definition noise_length (r : Entropy) : N := 64 + rng_u32 r mod 961.

Definition response_plaintext (response : Response) (r : Entropy) : bytes :=
  u32_be (response_id response) ++ [as_u8 (response_opcode response)] ++
  response_payload response ++ rng_noise r (N.to_nat (noise_length r)).

Definition encode_network (response : Response) (session_id : bytes) (r : Entropy) :
  M SessionTable (option bytes) :=
  encrypted ← encrypt_response session_id (response_plaintext response r);
  match encrypted with
  | None => mret None
  | Some encrypted => mret (Some (session_id ++ rng_nonce r ++ encrypted))
  end.
End network.

(** * Lemmas on the framing *)

Lemma length_u32_be x : length (u32_be x) = 4%nat.
Proof. apply length_be_bytes. Qed.
Lemma length_u64_be x : length (u64_be x) = 8%nat.
Proof. apply length_be_bytes. Qed.

Lemma u32_at_head l rest : length l = 4%nat → u32_at (l ++ rest) 0 = Returned (of_be l).
Proof. intros Hl. by apply (u32_at_app [] l rest). Qed.

(** A header of four bytes of identifier and one of opcode. *)
Lemma frame_header id op rest :
  u32_at (u32_be id ++ [op] ++ rest) 0 = Returned (id mod 2 ^ 32) ∧
  index (u32_be id ++ [op] ++ rest) 4 = Returned op ∧
  slice_from (u32_be id ++ [op] ++ rest) 5 = Returned rest ∧
  blen (u32_be id ++ [op] ++ rest) = 5 + blen rest.
Proof.
  split_and!.
  - by rewrite u32_at_head, of_be_u32_be by apply length_u32_be.
  - by rewrite (index_app_0 (u32_be id)).
  - rewrite app_assoc. apply slice_from_app. rewrite blen_app, blen_u32_be. done.
  - rewrite !blen_app, blen_u32_be. change (blen [op]) with 1. lia.
Qed.

(** A datagram of at least five bytes is a frame. *)
Lemma frame_split raw :
  5 ≤ blen raw → ∃ id op rest, id < 2 ^ 32 ∧ raw = u32_be id ++ [op] ++ rest.
Proof.
  intros H. unfold blen in H. destruct raw as [|b0 [|b1 [|b2 [|b3 [|op rest]]]]]; simpl in H; try lia.
  exists (of_be [b0; b1; b2; b3]), op, rest. split; [apply (of_be_bound [b0; b1; b2; b3])|].
  rewrite u32_be_of_be by done. done.
Qed.

Lemma decode_local_frame id op rest :
  id < 2 ^ 32 →
  decode_local (u32_be id ++ [op] ++ rest) =
  Returned (if reserved_opcode (byte_val op) then None else Some (mkRequest id (byte_val op) rest true)).
Proof.
  intros Hid. destruct (frame_header id op rest) as (H1 & H2 & H3 & H4).
  unfold decode_local. rewrite H4, H1, H2, H3.
  destruct (N.ltb_spec (5 + blen rest) 5); [lia|]. rewrite N.mod_small by done.
  unfold mbind, Outcome_bind. by destruct (reserved_opcode _).
Qed.

Lemma decode_local_short raw : blen raw < 5 → decode_local raw = Returned None.
Proof. intros H. unfold decode_local. by apply N.ltb_lt in H as ->. Qed.

Lemma decode_local_into_frame id op rest r :
  id < 2 ^ 32 →
  decode_local_into (u32_be id ++ [op] ++ rest) r =
  (Returned (negb (reserved_opcode (byte_val op))),
   if reserved_opcode (byte_val op) then r else mkRequest id (byte_val op) rest true).
Proof.
  intros Hid. destruct (frame_header id op rest) as (H1 & H2 & H3 & H4).
  unfold decode_local_into. rewrite H4, H1, H2, H3.
  destruct (N.ltb_spec (5 + blen rest) 5); [lia|]. rewrite N.mod_small by done.
  unfold mbind, M_bind, lift_outcome. by destruct (reserved_opcode _).
Qed.

(** * Lemmas on the fields *)

(** A length-prefixed field. *)
Definition field (l : bytes) : bytes := u32_be (blen l) ++ l.

Lemma blen_field l : blen (field l) = 4 + blen l.
Proof. unfold field. by rewrite blen_app, blen_u32_be. Qed.

Lemma field_length_at l1 l rest :
  blen l < 2 ^ 32 → u32_at (l1 ++ field l ++ rest) (blen l1) = Returned (blen l).
Proof.
  intros Hl. unfold field. rewrite <- app_assoc, u32_at_app by (done || apply length_u32_be).
  by rewrite of_be_u32_be, N.mod_small.
Qed.

Lemma read_one_field_length_field l rest :
  blen l < 2 ^ 32 → read_one_field_length (field l ++ rest) = Returned (Some (blen (field l))).
Proof.
  intros Hl. unfold read_one_field_length. rewrite blen_app, blen_field.
  destruct (N.ltb_spec (4 + blen l + blen rest) 4); [lia|].
  by rewrite (field_length_at [] l rest Hl : u32_at (field l ++ rest) 0 = _).
Qed.

Lemma read_two_field_lengths_field l1 l2 rest :
  blen l1 < 2 ^ 32 → blen l2 < 2 ^ 32 →
  read_two_field_lengths (field l1 ++ field l2 ++ rest) = Returned (Some (blen (field l1 ++ field l2))).
Proof.
  intros H1 H2. unfold read_two_field_lengths. rewrite read_one_field_length_field by done.
  cbn [mbind Outcome_bind]. rewrite field_length_at by done. rewrite !blen_app, !blen_field.
  destruct (N.ltb_spec (4 + blen l1 + (4 + blen l2 + blen rest)) (4 + blen l1 + 4)); [lia|].
  cbn [mbind Outcome_bind]. unfold mret, Outcome_ret. do 2 f_equal. lia.
Qed.

(** No reader of lengths panics, whatever the bytes. *)
Lemma read_one_field_length_total data : ∃ o, read_one_field_length data = Returned o.
Proof.
  unfold read_one_field_length. destruct (N.ltb_spec (blen data) 4); [by eexists|].
  rewrite u32_at_ok by lia. by eexists.
Qed.
Lemma read_two_field_lengths_total data : ∃ o, read_two_field_lengths data = Returned o.
Proof.
  unfold read_two_field_lengths. destruct (read_one_field_length_total data) as [[first|] ->]; [|by eexists].
  cbn. destruct (N.ltb_spec (blen data) (first + 4)); [by eexists|].
  rewrite u32_at_ok by lia. by eexists.
Qed.

(** The fields of each opcode whose length the codec knows. *)
Inductive wire_payload : N → bytes → Prop :=
| wire_key op k : op = 0x01 ∨ op = 0x03 ∨ op = 0x06 → blen k < 2 ^ 32 → wire_payload op (field k)
| wire_write k v d : blen k < 2 ^ 32 → blen v < 2 ^ 32 →
    wire_payload 0x02 (field k ++ field v ++ u64_be d)
| wire_compare k e : blen k < 2 ^ 32 → blen e < 2 ^ 32 → wire_payload 0x04 (field k ++ field e)
| wire_ttl k d : blen k < 2 ^ 32 → wire_payload 0x05 (field k ++ u64_be d)
| wire_auth op p : op = 0x10 ∨ op = 0x11 → blen p = 64 → wire_payload op p
| wire_ping : wire_payload 0x13 [].

Lemma slice_prefix p rest : slice (p ++ rest) 0 (blen p) = Returned p.
Proof. by apply (slice_app [] p rest). Qed.

Lemma extract_total op l : ∃ p, extract_real_payload op l = Returned p ∧ p `prefix_of` l.
Proof.
  unfold extract_real_payload.
  match goal with |- ∃ p, (?m ≫= ?f) = _ ∧ _ => assert (∃ o, m = Returned o) as [o ->] end.
  { pose proof (read_one_field_length_total l) as [o1 H1].
    pose proof (read_two_field_lengths_total l) as [o2 H2].
    unfold read_one_field_length_plus_u64, read_two_field_lengths_plus_u64. rewrite H1, H2.
    cbn. destruct o1, o2; repeat case_match; eauto. }
  cbn. destruct o as [len|]; [|by eexists].
  destruct (N.leb_spec len (blen l)) as [Hle|]; [|by eexists].
  rewrite slice_ok by lia. eexists; split; [done|]. unfold bdrop. simpl. rewrite drop_0.
  apply prefix_take.
Qed.

Lemma extract_real_payload_wire op p noise :
  wire_payload op p → extract_real_payload op (p ++ noise) = Returned p.
Proof.
  assert (∀ p noise, (if blen p <=? blen (p ++ noise) then slice (p ++ noise) 0 (blen p)
    else mret (p ++ noise)) = Returned p) as Hcut.
  { clear. intros p noise. rewrite blen_app. destruct (N.leb_spec (blen p) (blen p + blen noise)); [|lia].
    apply slice_prefix. }
  intros Hw. destruct Hw as [op k Hop Hk|k v d Hk Hv|k e Hk He|k d Hk|op p Hop Hp|].
  - assert (extract_real_payload op (field k ++ noise) =
      (consumed ← read_one_field_length (field k ++ noise);
       match consumed with
       | Some length => if length <=? blen (field k ++ noise) then slice (field k ++ noise) 0 length
                        else mret (field k ++ noise)
       | None => mret (field k ++ noise)
       end)) as -> by (by destruct Hop as [->|[->| ->]]).
    rewrite read_one_field_length_field by done. apply Hcut.
  - unfold extract_real_payload, read_two_field_lengths_plus_u64.
    rewrite <- (app_assoc _ (field v ++ _)), <- (app_assoc (field v)).
    rewrite read_two_field_lengths_field by done.
    cbn [mbind Outcome_bind mret Outcome_ret].
    replace (blen (field k ++ field v) + 8) with (blen (field k ++ field v ++ u64_be d))
      by (rewrite !blen_app, blen_u64_be; lia).
    rewrite !app_assoc. rewrite <- (app_assoc (field k)). apply Hcut.
  - unfold extract_real_payload. rewrite <- app_assoc, read_two_field_lengths_field by done.
    cbn [mbind Outcome_bind]. rewrite app_assoc. apply Hcut.
  - unfold extract_real_payload, read_one_field_length_plus_u64.
    rewrite <- app_assoc, read_one_field_length_field by done.
    cbn [mbind Outcome_bind mret Outcome_ret].
    replace (blen (field k) + 8) with (blen (field k ++ u64_be d)) by (rewrite blen_app, blen_u64_be; lia).
    rewrite app_assoc. apply Hcut.
  - assert (extract_real_payload op (p ++ noise) =
      (if 64 <=? blen (p ++ noise) then slice (p ++ noise) 0 64 else mret (p ++ noise))) as ->
      by (by destruct Hop as [->| ->]).
    rewrite <- Hp. apply Hcut.
  - apply (Hcut []).
Qed.

(** * Properties *)

Lemma reserved_opcode_false op : op < 256 → reserved_opcode op = false ↔ 0 < op < 255.
Proof. intros Hop. unfold reserved_opcode. rewrite orb_false_iff, !N.eqb_neq. lia. Qed.

(** C16: a local datagram is accepted exactly when it is the encoding of a frame
    whose opcode is not reserved, and it decodes to that frame: decoding and
    encoding are inverse to each other. *)
Theorem decode_local_exact raw r :
  decode_local raw = Returned (Some r) ↔
  raw = encode_local (mkResponse (request_id r) (opcode r) (payload r)) ∧
  request_id r < 2 ^ 32 ∧ 0 < opcode r < 255 ∧ is_local r = true.
Proof.
  split.
  - intros Hd. destruct (N.lt_ge_cases (blen raw) 5) as [Hs|Hs].
    { by rewrite decode_local_short in Hd. }
    destruct (frame_split raw Hs) as (id & op & rest & Hid & ->).
    rewrite decode_local_frame in Hd by done. injection Hd as Hd.
    destruct (reserved_opcode _) eqn:Er; [done|]. injection Hd as <-. unfold encode_local; cbn [response_id response_opcode response_payload request_id opcode payload is_local].
    rewrite as_u8_byte_val. split; [done|]. split; [done|]. split; [|done].
    by apply reserved_opcode_false; [apply byte_val_bound|].
  - intros (-> & Hid & Hop & Hl). apply reserved_opcode_false in Hop as Hr; [|lia]. unfold encode_local; cbn [response_id response_opcode response_payload request_id opcode payload is_local].
    rewrite decode_local_frame by done. rewrite byte_val_as_u8, N.mod_small, Hr by lia.
    destruct r; simpl in *. by subst.
Qed.

(** Decoding into a reused request is decoding. *)
Lemma decode_local_into_total raw r :
  ∃ o, decode_local raw = Returned o ∧
       decode_local_into raw r = (Returned (bool_decide (is_Some o)), default r o).
Proof.
  destruct (N.lt_ge_cases (blen raw) 5) as [Hs|Hs].
  { exists None. split; [by apply decode_local_short|]. unfold decode_local_into.
    by apply N.ltb_lt in Hs as ->. }
  destruct (frame_split raw Hs) as (id & op & rest & Hid & ->).
  rewrite decode_local_frame, decode_local_into_frame by done. eexists; split; [done|].
  by destruct (reserved_opcode _).
Qed.

(** Decoding into a reused request is decoding, on every byte string: it
    never panics, accepts the same datagrams with the same result, and leaves
    the request as it was when it refuses one. *)
Theorem decode_local_into_agrees raw r :
  ∃ o, decode_local raw = Returned o ∧
       decode_local_into raw r = (Returned (bool_decide (is_Some o)), default r o).
Proof. apply decode_local_into_total. Qed.

(** The decoder returns, and what it accepts was encrypted. *)
Lemma decode_network_total `{Aead} raw t :
  ∃ o, decode_network raw t = Returned o ∧
  ∀ req sid, o = Some (req, sid) →
    sid = btake 16 raw ∧ is_local req = false ∧ request_id req < 2 ^ 32 ∧ opcode req < 256 ∧
    reserved_opcode (opcode req) = false ∧
    ∃ s plaintext, sessions t !! sid = Some s ∧
      cipher_decrypt (cipher s) (btake 12 (bdrop 16 raw)) (bdrop 28 raw) = Some plaintext ∧
      payload req `prefix_of` bdrop 5 plaintext.
Proof.
  unfold decode_network. destruct (N.ltb_spec (blen raw) (16 + 12 + 5 + 16)); [by eexists|].
  rewrite !slice_ok, slice_from_ok by lia. cbn [mbind Outcome_bind].
  change (bdrop 0 raw) with raw. change (16 - 0) with 16. change (28 - 16) with 12.
  destruct (decrypt_request _ _ _ t) as [plain|] eqn:Ed; [|by eexists].
  unfold decrypt_request in Ed. destruct (sessions t !! btake 16 raw) as [s|] eqn:Es; [|done]. simpl in Ed.
  destruct (N.lt_ge_cases (blen plain) 5) as [Hp|Hp].
  { apply N.ltb_lt in Hp as ->. by eexists. }
  destruct (frame_split plain Hp) as (id & op & rest & Hid & ->).
  destruct (frame_header id op rest) as (-> & -> & H3 & ->).
  destruct (N.ltb_spec (5 + blen rest) 5); [lia|]. cbn [mbind Outcome_bind].
  destruct (reserved_opcode (byte_val op)) eqn:Er; [by eexists|]. rewrite H3. cbn [mbind Outcome_bind].
  destruct (extract_total (byte_val op) rest) as (p & -> & Hpre). eexists. split; [done|].
  intros req sid [= <- <-]. simpl. split_and!; try done.
  - apply N.mod_lt. done.
  - apply byte_val_bound.
  - eexists _, _. split_and!; [done|done|]. done.
Qed.

(** C15: no network datagram makes the decoder panic, and every request it lets
    through was decrypted with the key of the session the datagram names. *)
Theorem decode_network_safe `{Aead} raw t :
  ∃ o, decode_network raw t = Returned o ∧
  ∀ req sid, o = Some (req, sid) →
    sid = btake 16 raw ∧ is_local req = false ∧ request_id req < 2 ^ 32 ∧ opcode req < 256 ∧
    reserved_opcode (opcode req) = false ∧
    ∃ s plaintext, sessions t !! sid = Some s ∧
      cipher_decrypt (cipher s) (btake 12 (bdrop 16 raw)) (bdrop 28 raw) = Some plaintext ∧
      payload req `prefix_of` bdrop 5 plaintext.
Proof. apply decode_network_total. Qed.

(** What an encrypted frame is decoded to, for what its fields are taken to be. *)
Lemma decode_network_frame `{AeadSpec} t sid s nonce id op p noise e payload :
  sessions t !! sid = Some s → blen sid = 16 → blen nonce = 12 →
  id < 2 ^ 32 → op < 256 → extract_real_payload op (p ++ noise) = Returned payload →
  cipher_encrypt (cipher s) nonce (u32_be id ++ [as_u8 op] ++ p ++ noise) = Some e →
  decode_network (sid ++ nonce ++ e) t =
  Returned (if reserved_opcode op then None else Some (mkRequest id op payload false, sid)).
Proof.
  intros Hs Hsid Hnonce Hid Hop Hw He.
  destruct (cipher_roundtrip (cipher s) nonce (u32_be id ++ [as_u8 op] ++ p ++ noise)) as (e' & He' & Hd & Hlen).
  rewrite He in He'. injection He' as <-.
  destruct (frame_header id (as_u8 op) (p ++ noise)) as (H1 & H2 & H3 & H4). rewrite H4 in Hlen.
  unfold decode_network. rewrite !blen_app, Hsid, Hnonce, Hlen.
  destruct (N.ltb_spec (16 + (12 + (5 + blen (p ++ noise) + 16))) (16 + 12 + 5 + 16)); [lia|].
  assert (slice (sid ++ nonce ++ e) 0 16 = Returned sid) as ->.
  { apply (slice_app [] sid (nonce ++ e)); [done|by rewrite Hsid]. }
  assert (slice (sid ++ nonce ++ e) 16 28 = Returned nonce) as ->.
  { apply slice_app; by rewrite ?Hsid, ?Hnonce. }
  assert (slice_from (sid ++ nonce ++ e) 28 = Returned e) as ->.
  { rewrite app_assoc. apply slice_from_app. by rewrite blen_app, Hsid, Hnonce. }
  cbn [mbind Outcome_bind]. unfold decrypt_request. rewrite Hs. cbn. rewrite Hd, H4.
  destruct (N.ltb_spec (5 + blen (p ++ noise)) 5); [lia|].
  rewrite H1, H2, H3. cbn. rewrite byte_val_as_u8, !N.mod_small by done.
  destruct (reserved_opcode op); [done|]. by rewrite Hw.
Qed.

Lemma decode_network_request `{AeadSpec} t sid s nonce id op p noise e :
  sessions t !! sid = Some s → blen sid = 16 → blen nonce = 12 →
  id < 2 ^ 32 → op < 256 → reserved_opcode op = false → wire_payload op p →
  cipher_encrypt (cipher s) nonce (u32_be id ++ [as_u8 op] ++ p ++ noise) = Some e →
  decode_network (sid ++ nonce ++ e) t = Returned (Some (mkRequest id op p false, sid)).
Proof.
  intros Hs Hsid Hnonce Hid Hop Hr Hw He.
  rewrite (decode_network_frame t sid s nonce id op p noise e p); try done; [by rewrite Hr|].
  by apply extract_real_payload_wire.
Qed.

(** The opcodes whose noise the decoder takes off. *)
Definition stripped_opcodes : list N := [0x01; 0x02; 0x03; 0x04; 0x05; 0x06; 0x10; 0x11; 0x13].

Lemma extract_unstripped op l : op ∉ stripped_opcodes → extract_real_payload op l = Returned l.
Proof.
  intros Hop. unfold extract_real_payload. unfold stripped_opcodes in Hop. rewrite !not_elem_of_cons in Hop.
  repeat case_match; try done; exfalso; naive_solver.
Qed.

(** C14: what a request of a session is decoded to.  Of the frame a client encrypts,
    the fields and any noise behind them, in the layout the decoder reads
    (identifier of the session, 12 bytes of nonce, ciphertext), the decoder gives
    the identifier, the opcode and a prefix of what was sent: the fields without the
    noise, if they are those of one of the opcodes whose length it knows; the fields
    and the noise, for every other opcode.  A reserved opcode is refused. *)
Theorem network_request_roundtrip `{AeadSpec} t sid s nonce id op p noise e :
  sessions t !! sid = Some s → blen sid = 16 → blen nonce = 12 → id < 2 ^ 32 → op < 256 →
  cipher_encrypt (cipher s) nonce (u32_be id ++ [as_u8 op] ++ p ++ noise) = Some e →
  ∃ payload, decode_network (sid ++ nonce ++ e) t =
      Returned (if reserved_opcode op then None else Some (mkRequest id op payload false, sid)) ∧
    payload `prefix_of` p ++ noise ∧
    (wire_payload op p → payload = p) ∧ (op ∉ stripped_opcodes → payload = p ++ noise).
Proof.
  intros Hs Hsid Hnonce Hid Hop He. destruct (extract_total op (p ++ noise)) as (payload & Hp & Hpre).
  exists payload. split_and!; [by apply (decode_network_frame t sid s nonce id op p noise e)|done|..].
  - intros Hw. rewrite extract_real_payload_wire in Hp by done. by injection Hp.
  - intros Hn. rewrite extract_unstripped in Hp by done. by injection Hp.
Qed.

Lemma network_request_roundtrip_witness :
  ∃ payload, decode_network (example_session_id ++ replicate 12 Byte.x01 ++
      (u32_be 7 ++ [as_u8 0x03] ++ field (bs "user:42") ++ bs "noise") ++ tag (bs "key") (replicate 12 Byte.x01))
      example_sessions = Returned (Some (mkRequest 7 0x03 payload false, example_session_id)) ∧
    payload `prefix_of` field (bs "user:42") ++ bs "noise" ∧
    (wire_payload 0x03 (field (bs "user:42")) → payload = field (bs "user:42")) ∧
    (0x03 ∉ stripped_opcodes → payload = field (bs "user:42") ++ bs "noise").
Proof.
  apply (network_request_roundtrip (H := tagging_aead) example_sessions example_session_id example_session
    (replicate 12 Byte.x01) 7 0x03 (field (bs "user:42")) (bs "noise")); vm_compute; reflexivity.
Defined.

Lemma noise_length_bound r : 64 ≤ noise_length r ≤ 1024.
Proof.
  unfold noise_length. assert (rng_u32 r mod 961 < 961) as Hm by (by apply N.mod_lt).
  generalize dependent (rng_u32 r mod 961). intros n Hn. split; [apply N.le_add_r|]. lia.
Qed.

(** The datagram of a response. *)
Lemma encode_network_ok `{AeadSpec} response sid s r t :
  sessions t !! sid = Some s → entropy_ok r → nonce_counter s + 1 < 2 ^ 64 → blen sid = 16 →
  ∃ e t', encode_network response sid r t = (Returned (Some (sid ++ rng_nonce r ++ e)), t') ∧
    cipher_decrypt (cipher s) (counter_nonce (nonce_counter s + 1)) e = Some (response_plaintext response r) ∧
    (let overhead := 16 + 12 + 5 + 16 in
     overhead + 64 + blen (response_payload response) ≤ blen (sid ++ rng_nonce r ++ e) ≤
     overhead + 1024 + blen (response_payload response)) ∧
    sessions t' !! sid = Some (mkSession (label s) (cipher s) (nonce_counter s + 1)) ∧
    ∀ sid', sid' ≠ sid → sessions t' !! sid' = sessions t !! sid'.
Proof.
  intros Hs Hr Hc Hsid.
  destruct (cipher_roundtrip (cipher s) (counter_nonce (nonce_counter s + 1)) (response_plaintext response r))
    as (e & He & Hd & Hlen).
  assert (blen (response_plaintext response r) = 5 + blen (response_payload response) + noise_length r) as Hplain.
  { unfold response_plaintext. rewrite !blen_app, blen_u32_be.
    change (blen [as_u8 (response_opcode response)]) with 1.
    assert (blen (rng_noise r (N.to_nat (noise_length r))) = noise_length r) as ->; [|lia].
    unfold blen. by rewrite (rng_noise_length r Hr), N2Nat.id. }
  pose proof (noise_length_bound r) as Hnoise.
  eexists e, _. split_and!.
  - unfold encode_network, encrypt_response, mbind, M_bind, gets. rewrite Hs.
    unfold as_u64. rewrite N.mod_small by done. simpl. by rewrite He.
  - done.
  - assert (blen (rng_nonce r) = 12) as Hn by (unfold blen; by rewrite (rng_nonce_length r Hr)).
    cbv zeta. rewrite !blen_app, Hlen, Hplain, Hsid, Hn. lia.
  - simpl. by rewrite lookup_insert_eq.
  - intros sid' Hne. simpl. by rewrite lookup_insert_ne.
Qed.

(** A response is sent as the session identifier, twelve random bytes and a
    ciphertext that decrypts, under the counter nonce of the session, to the
    response followed by 64 to 1024 noise bytes; its length tells the payload's
    only up to that range; and the session's counter advances by one. *)
Theorem encode_network_datagram `{AeadSpec} response sid s r t :
  sessions t !! sid = Some s → entropy_ok r → nonce_counter s + 1 < 2 ^ 64 → blen sid = 16 →
  ∃ e t', encode_network response sid r t = (Returned (Some (sid ++ rng_nonce r ++ e)), t') ∧
    cipher_decrypt (cipher s) (counter_nonce (nonce_counter s + 1)) e = Some (response_plaintext response r) ∧
    (let overhead := 16 + 12 + 5 + 16 in
     overhead + 64 + blen (response_payload response) ≤ blen (sid ++ rng_nonce r ++ e) ≤
     overhead + 1024 + blen (response_payload response)) ∧
    sessions t' !! sid = Some (mkSession (label s) (cipher s) (nonce_counter s + 1)) ∧
    ∀ sid', sid' ≠ sid → sessions t' !! sid' = sessions t !! sid'.
Proof. apply encode_network_ok. Qed.

Definition example_entropy : Entropy := mkEntropy 5 (λ n, replicate n Byte.x2a) (replicate 12 Byte.x09).

Lemma example_entropy_ok : entropy_ok example_entropy.
Proof. split; [reflexivity|intros n; apply length_replicate|reflexivity]. Defined.

Lemma encode_network_datagram_witness :
  ∃ e t', encode_network (mkResponse 7 0x80 []) example_session_id example_entropy example_sessions =
    (Returned (Some (example_session_id ++ rng_nonce example_entropy ++ e)), t') ∧
    cipher_decrypt (cipher example_session) (counter_nonce 42) e =
      Some (response_plaintext (mkResponse 7 0x80 []) example_entropy) ∧
    (let overhead := 16 + 12 + 5 + 16 in
     overhead + 64 + 0 ≤ blen (example_session_id ++ rng_nonce example_entropy ++ e) ≤ overhead + 1024 + 0) ∧
    sessions t' !! example_session_id = Some (mkSession (label example_session) (cipher example_session) 42) ∧
    ∀ sid', sid' ≠ example_session_id → sessions t' !! sid' = sessions example_sessions !! sid'.
Proof.
  apply (encode_network_datagram (mkResponse 7 0x80 []) example_session_id example_session
    example_entropy example_sessions); try (vm_compute; reflexivity). apply example_entropy_ok.
Defined.

(** What a client makes of a datagram, when it decrypts its ciphertext under a
    nonce of its choice. *)
Definition client_opens (choose : bytes → bytes) (sent : Outcome (option bytes) * SessionTable) : option bytes :=
  match sent with
  | (Returned (Some datagram), t) =>
      decrypt_request (btake 16 datagram) (bdrop 28 datagram) (choose datagram) t
  | _ => None
  end.

(** The twelve bytes a response datagram carries where a request carries
    its nonce are not the nonce it was encrypted under: a client that decrypts
    with them is refused, even by a cipher that keeps its contract, where the
    session's counter opens the same datagram. *)
Theorem response_header_nonce_mismatch :
  let sent := encode_network (mkResponse 7 0x80 []) example_session_id example_entropy example_sessions in
  client_opens (λ d, btake 12 (bdrop 16 d)) sent = None ∧
  client_opens (λ _, counter_nonce 42) sent = Some (response_plaintext (mkResponse 7 0x80 []) example_entropy).
Proof. split; vm_compute; reflexivity. Qed.
