(* ===== verification/Replies.v ===== *)
(** The replies the router and the query module both build: the opcodes of a
    response, the value reply and the chunks of a scan
    (src/modules/router.rs, src/modules/query.rs). *)
From stdpp Require Import prelude gmap sorting strings.
From Stdlib Require Import NArith Lia.
From S2P Require Import Prelude.
From S2P Require Import Bytes.
From S2P Require Import Codec.

Definition OK : N := 0x80.
Definition OK_PAYLOAD : N := 0x81.
Definition SCAN_CHUNK : N := 0x90.
Definition SCAN_END : N := 0x91.
Definition ERROR_MALFORMED : N := 0xA1.
Definition ERROR_INVALID_OPCODE : N := 0xA2.

Definition u16_max : N := 2 ^ 16 - 1.

Definition create_ok (request_id : N) : Response := mkResponse request_id OK [].

(** The answer to a read: the value behind its length, or an empty OK. *)
Definition value_reply (request_id : N) (value : option bytes) : Response :=
  match value with
  | Some value => mkResponse request_id OK_PAYLOAD (u32_be (as_u32 (blen value)) ++ value)
  | None => create_ok request_id
  end.

(** [pairs.len().min(u16::MAX as usize) as u16]. *)
Definition scan_total {A} (pairs : list A) : N := as_u16 (N.min (N.of_nat (length pairs)) u16_max).

Definition scan_chunk (total chunk_id : N) (key value : bytes) : bytes :=
  u16_be total ++ u16_be (as_u16 chunk_id) ++
  u32_be (as_u32 (blen key)) ++ key ++ u32_be (as_u32 (blen value)) ++ value.

(** One response for each of the first [u16::MAX] pairs, then the end. *)
Definition scan_responses (request_id : N) (pairs : list (bytes * bytes)) : list Response :=
  imap (λ chunk_id pair, mkResponse request_id SCAN_CHUNK
          (scan_chunk (scan_total pairs) (N.of_nat chunk_id) pair.1 pair.2))
       (take (N.to_nat u16_max) pairs)
  ++ [mkResponse request_id SCAN_END []].

(** * Lemmas *)

Lemma scan_total_spec {A} (pairs : list A) : scan_total pairs = N.min (N.of_nat (length pairs)) u16_max.
Proof. unfold scan_total, as_u16. apply N.mod_small. unfold u16_max. lia. Qed.

Lemma scan_responses_ids id pairs : Forall (λ r, response_id r = id) (scan_responses id pairs).
Proof.
  unfold scan_responses. apply Forall_app. split; [|by repeat constructor].
  apply Forall_forall. intros r Hr. apply elem_of_lookup_imap in Hr as (i & p & -> & _). done.
Qed.

(** The responses answer the request with this identifier, and there is one. *)
Definition answers (id : N) (rs : list Response) : Prop := rs ≠ [] ∧ Forall (λ r, response_id r = id) rs.

Lemma answers_single id r : response_id r = id → answers id [r].
Proof. intros Hr. split; [done|by repeat constructor]. Qed.
Lemma answers_scan id pairs : answers id (scan_responses id pairs).
Proof.
  split; [|apply scan_responses_ids]. unfold scan_responses. intros [_ Hn]%app_nil. done.
Qed.
Lemma value_reply_id id v : response_id (value_reply id v) = id.
Proof. by destruct v. Qed.

#[export] Hint Resolve answers_single answers_scan value_reply_id : returns.
