(* ===== verification/Modules.v ===== *)
(** The small modules: the context a module runs in (src/core/module.rs), the health
    probe (src/modules/health.rs) and the placeholder (src/modules/placeholder.rs). *)
From stdpp Require Import prelude gmap sorting strings.
From Stdlib Require Import NArith Lia.
From S2P Require Import Prelude.
From S2P Require Import Bytes.
From S2P Require Import BTree.
From S2P Require Import Clock.
From S2P Require Import TimedMap.
From S2P Require Import Store.
From S2P Require Import Tric.
From S2P Require Import DataBus.
From S2P Require Import BusSpec.
From S2P Require Import Instances.
From S2P Require Import Codec.
From S2P Require Import Replies.

(** * The context of a module *)

Record ModuleContext (S : Type) : Type := mkModuleContext { core_bus : Tric; data_bus : S }.
Arguments mkModuleContext {S} _ _.
Arguments core_bus {S} _.
Arguments data_bus {S} _.

Section context.
Context {S : Type} `{Clock}.

Definition set_core_bus (t : Tric) (c : ModuleContext S) : ModuleContext S := mkModuleContext t (data_bus c).
Definition set_data_bus (b : S) (c : ModuleContext S) : ModuleContext S := mkModuleContext (core_bus c) b.
Definition on_core_bus {A} (m : M (World Tric) A) : M (World (ModuleContext S)) A := zoom_world core_bus set_core_bus m.
Definition on_data_bus {A} (m : M (World S) A) : M (World (ModuleContext S)) A := zoom_world data_bus set_data_bus m.

Lemma on_context_core_run {A} (m : M (World Tric) A) n c a n' t :
  m (mkWorld n (core_bus c)) = (Returned a, mkWorld n' t) →
  on_core_bus m (mkWorld n c) = (Returned a, mkWorld n' (set_core_bus t c)).
Proof. apply (zoom_world_returned core_bus set_core_bus). Qed.

Lemma on_context_data_run {A} (m : M (World S) A) n c a n' b :
  m (mkWorld n (data_bus c)) = (Returned a, mkWorld n' b) →
  on_data_bus m (mkWorld n c) = (Returned a, mkWorld n' (set_data_bus b c)).
Proof. apply (zoom_world_returned data_bus set_data_bus). Qed.
End context.

(** * The health probe *)

Definition OPCODE_PING : N := 0x13.
Definition OPCODE_OK : N := 0x80.

Definition check_ping (request : Request) : option Response :=
  if negb (opcode request =? OPCODE_PING) then None
  else Some (mkResponse (request_id request) OPCODE_OK []).

(** * The placeholder *)
Section placeholder.
Context {S : Type} `{Clock, !DataBus S}.

Definition placeholder_name : bytes := bs "placeholder".
Definition placeholder_key : bytes := bs "module:placeholder".
Definition heartbeat : Duration := from_secs 15.

(** What [run] does before its loop, and a turn of the loop. *)
Definition placeholder_start : M (World (ModuleContext S)) unit :=
  on_data_bus (DataBus.read_value (bs "probe")) ;; mret ().
Definition placeholder_turn : M (World (ModuleContext S)) unit :=
  on_core_bus (Tric.write_ttl placeholder_key heartbeat).
End placeholder.
