(* ===== verification/Sql.v ===== *)
(** The sqlparser crate, which is a parameter: its parser and its [Display] of
    expressions are functions of the class [SqlParser].  Of its syntax tree, the
    types below hold what src/modules/query.rs, analyser.rs and import.rs match on,
    each variant the sources do not name being an [Other] that carries nothing but
    its text. *)
From stdpp Require Import prelude gmap sorting strings.
From Stdlib Require Import NArith Lia.
From S2P Require Import Prelude.
From S2P Require Import Bytes.

(** * The syntax tree *)

Inductive SqlValue : Type :=
| Number (number : bytes) (long : bool)
| SingleQuotedString (text : bytes)
| DoubleQuotedString (text : bytes)
| Null
| Boolean (boolean : bool)
| OtherValue (text : bytes).

Inductive BinaryOperator : Type := Eq | OtherOperator (text : bytes).

Inductive Expr : Type :=
| Identifier (value : bytes)
| BinaryOp (lhs : Expr) (op : BinaryOperator) (rhs : Expr)
| Like (negated : bool) (expr pattern : Expr)
| ValueExpr (value : SqlValue)
| OtherExpr (text : bytes).

(** [TableFactor::Table { name, .. }], with the text of the name. *)
Inductive TableFactor : Type := Table (name : bytes) | OtherFactor.
Record TableWithJoins : Type := mkTableWithJoins { relation : TableFactor }.

Record Select : Type := mkSelect { from : list TableWithJoins; selection : option Expr }.

Inductive SetExpr : Type :=
| SelectExpr (select : Select)
| Values (rows : list (list Expr))
| OtherSetExpr.

Record SqlQuery : Type := mkSqlQuery { body : SetExpr }.
Record Insert : Type := mkInsert { table_name : bytes; source : option SqlQuery }.
Record Assignment : Type := mkAssignment { assigned : Expr }.
Inductive FromTable : Type :=
| WithFromKeyword (tables : list TableWithJoins)
| WithoutKeyword (tables : list TableWithJoins).
Record Delete : Type := mkDelete { delete_from : FromTable; delete_selection : option Expr }.

(** Of a column definition, its name ([name.value]), the text of its type, and
    which of its options make it the primary key. *)
Inductive ColumnOption : Type := Unique (is_primary : bool) | OtherOption.
Record ColumnDef : Type := mkColumnDef {
  column_name : bytes;
  column_type : bytes;
  column_options : list ColumnOption;
}.
Inductive TableConstraint : Type :=
| PrimaryKey (pk_columns : list bytes)
| ForeignKey (fk_columns : list bytes) (foreign_table : bytes) (referred_columns : list bytes)
| OtherConstraint.
Record CreateTable : Type := mkCreateTable {
  create_name : bytes;
  create_columns : list ColumnDef;
  create_constraints : list TableConstraint;
}.

Inductive Statement : Type :=
| QueryStatement (query : SqlQuery)
| InsertStatement (insert : Insert)
| UpdateStatement (table : TableWithJoins) (assignments : list Assignment) (selection : option Expr)
| DeleteStatement (delete : Delete)
| CreateTableStatement (create_table : CreateTable)
| OtherStatement.

Inductive SqlDialect : Type := GenericDialect | MySqlDialect | PostgreSqlDialect | SQLiteDialect.

Class SqlParser : Type := {
  (** [Parser::parse_sql(&dialect, sql).ok()]. *)
  parse_sql : SqlDialect → bytes → option (list Statement);
  (** [format!("{expr}")]. *)
  expr_display : Expr → bytes;
}.
