(* ===== verification/Query.v ===== *)
(** The SQL subset, src/modules/query.rs: statements become operations of the
    data bus. *)
From stdpp Require Import prelude gmap sorting strings.
From Stdlib Require Import NArith Lia.
From S2P Require Import Prelude.
From S2P Require Import Bytes.
From S2P Require Import Text.
From S2P Require Import BTree.
From S2P Require Import Clock.
From S2P Require Import TimedMap.
From S2P Require Import Store.
From S2P Require Import Tric.
From S2P Require Import DataBus.
From S2P Require Import BusSpec.
From S2P Require Import Instances.
From S2P Require Import Codec.
From S2P Require Import Replies.
From S2P Require Import Sql.

(** * The translation *)

Inductive WhereCondition : Type :=
| KeyEquals (key : bytes)
| KeyLikePrefix (prefix : bytes)
| NoCondition
| Unsupported.

Definition create_error (request_id opcode : N) (message : bytes) : Response :=
  mkResponse request_id opcode message.

(** The text of a name without its back quotes and double quotes. *)
Definition unquoted (name : bytes) : bytes := remove_bytes [Byte.x60; Byte.x22] name.

Definition check_key_column (expr : Expr) : bool :=
  match expr with Identifier value => lowercase_is_key value | _ => false end.

Definition parse_string_value (expr : Expr) : option bytes :=
  match expr with
  | ValueExpr (SingleQuotedString text) => Some text
  | ValueExpr (Number number _) => Some number
  | _ => None
  end.

Definition parse_where_condition (selection : option Expr) : WhereCondition :=
  match selection with
  | None => NoCondition
  | Some (BinaryOp lhs Eq rhs) =>
      if check_key_column lhs then
        match parse_string_value rhs with
        | Some value => KeyEquals value
        | None => Unsupported
        end
      else Unsupported
  | Some (Like _ lhs pattern) =>
      if check_key_column lhs then
        match parse_string_value pattern with
        | Some pattern_str =>
            match strip_suffix pattern_str (bs "%") with
            | Some prefix => KeyLikePrefix prefix
            | None => Unsupported
            end
        | None => Unsupported
        end
      else Unsupported
  | Some _ => Unsupported
  end.

Definition parse_single_table_name (table : TableWithJoins) : option bytes :=
  match relation table with
  | Table name => Some (unquoted name)
  | OtherFactor => None
  end.

Definition parse_table_name (from : list TableWithJoins) : option bytes :=
  table ← head from; parse_single_table_name table.

(** [format!("{table_name}:{rest}")]. *)
Definition table_key (table_name rest : bytes) : bytes := table_name ++ bs ":" ++ rest.

Section query.
Context {S : Type} `{Clock, !DataBus S, SqlParser}.

Definition parse_expr_value (expr : Expr) : bytes :=
  match expr with
  | ValueExpr (Number number _) => number
  | ValueExpr (SingleQuotedString text) => text
  | ValueExpr (DoubleQuotedString text) => text
  | ValueExpr Null => []
  | ValueExpr (Boolean boolean) => if boolean then bs "true" else bs "false"
  | _ => expr_display expr
  end.

Definition parse_select (request_id : N) (query : SqlQuery) : M (World S) (list Response) :=
  match body query with
  | SelectExpr select =>
      match parse_table_name (from select) with
      | None => mret [create_error request_id ERROR_MALFORMED (bs "missing FROM table")]
      | Some table_name =>
          match parse_where_condition (selection select) with
          | KeyEquals key_value =>
              value ← read_value (table_key table_name key_value);
              mret [value_reply request_id value]
          | KeyLikePrefix prefix =>
              pairs ← find_by_prefix (table_key table_name prefix);
              mret (scan_responses request_id pairs)
          | NoCondition =>
              pairs ← find_by_prefix (table_key table_name []);
              mret (scan_responses request_id pairs)
          | Unsupported =>
              mret [create_error request_id ERROR_MALFORMED (bs "unsupported WHERE condition")]
          end
      end
  | _ => mret [create_error request_id ERROR_MALFORMED (bs "unsupported query form")]
  end.

(** The body of the loop over the rows: a row without columns is skipped. *)
Definition insert_row (table_name : bytes) (row : list Expr) : M (World S) unit :=
  match row with
  | [] => mret ()
  | pk :: rest =>
      write_value (table_key table_name (parse_expr_value pk))
        (join newline (parse_expr_value <$> rest))
  end.

Definition default_schema (col_count : nat) : bytes :=
  bs "col0:INT:pk" ++ newline ++
  mjoin ((λ index, bs "col" ++ decimal (N.of_nat index) ++ bs ":TEXT" ++ newline) <$> seq 1 (col_count - 1)).

Definition parse_insert (request_id : N) (insert : Insert) : M (World S) (list Response) :=
  let table_name := unquoted (table_name insert) in
  let schema_key := bs "_schema:" ++ table_name in
  schema_data ← read_value schema_key;
  match source insert with
  | None => mret [create_error request_id ERROR_MALFORMED (bs "INSERT without VALUES")]
  | Some source =>
      match body source with
      | Values rows =>
          mfor rows (insert_row table_name) ;;
          match schema_data, rows with
          | None, row :: _ => write_value schema_key (default_schema (length row))
          | _, _ => mret ()
          end ;;
          mret [create_ok request_id]
      | _ => mret [create_error request_id ERROR_MALFORMED (bs "INSERT without VALUES")]
      end
  end.

Definition parse_update (request_id : N) (table : TableWithJoins) (assignments : list Assignment)
  (selection : option Expr) : M (World S) (list Response) :=
  match parse_single_table_name table with
  | None => mret [create_error request_id ERROR_MALFORMED (bs "unsupported UPDATE table")]
  | Some table_name =>
      match parse_where_condition selection with
      | KeyEquals key_value =>
          let full_key := table_key table_name key_value in
          current ← read_value full_key;
          match current, assignments with
          | Some _, _ :: _ =>
              write_value full_key (join newline ((λ a, parse_expr_value (assigned a)) <$> assignments))
          | _, _ => mret ()
          end ;;
          mret [create_ok request_id]
      | _ => mret [create_error request_id ERROR_MALFORMED (bs "UPDATE requires WHERE key = ...")]
      end
  end.

Definition parse_delete (request_id : N) (delete : Delete) : M (World S) (list Response) :=
  let tables := match delete_from delete with WithFromKeyword tables | WithoutKeyword tables => tables end in
  match tables with
  | [] => mret [create_error request_id ERROR_MALFORMED (bs "DELETE without FROM")]
  | table_ref :: _ =>
      match relation table_ref with
      | OtherFactor => mret [create_error request_id ERROR_MALFORMED (bs "unsupported DELETE table")]
      | Table name =>
          let table_name := unquoted name in
          match parse_where_condition (delete_selection delete) with
          | KeyEquals key_value =>
              delete_value (table_key table_name key_value) ;;
              mret [create_ok request_id]
          | _ => mret [create_error request_id ERROR_MALFORMED (bs "DELETE requires WHERE key = ...")]
          end
      end
  end.

Definition parse_query (sql : bytes) (request_id : N) : M (World S) (list Response) :=
  match parse_sql GenericDialect sql with
  | None => mret [create_error request_id ERROR_MALFORMED (bs "invalid SQL")]
  | Some [] => mret [create_error request_id ERROR_MALFORMED (bs "empty SQL")]
  | Some (statement :: _) =>
      match statement with
      | QueryStatement query => parse_select request_id query
      | InsertStatement insert => parse_insert request_id insert
      | UpdateStatement table assignments selection =>
          parse_update request_id table assignments selection
      | DeleteStatement delete => parse_delete request_id delete
      | _ => mret [create_error request_id ERROR_MALFORMED (bs "unsupported SQL statement")]
      end
  end.
End query.

(** * Every statement is answered *)
Section query_returns.
Context {S : Type} `{TimedBus S, SqlParser}.

(** The keys a statement may write: the rows of an insertion and the schema of its
    table, the row an update names.  The other statements write none. *)
Definition row_writes (table_name : bytes) (row : list Expr) : list bytes :=
  match row with [] => [] | pk :: _ => [table_key table_name (parse_expr_value pk)] end.

Definition statement_writes (statement : Statement) : list bytes :=
  match statement with
  | InsertStatement (mkInsert name (Some (mkSqlQuery (Values rows)))) =>
      (bs "_schema:" ++ unquoted name) :: (rows ≫= row_writes (unquoted name))
  | UpdateStatement table _ selection =>
      match parse_single_table_name table, parse_where_condition selection with
      | Some table_name, KeyEquals key_value => [table_key table_name key_value]
      | _, _ => []
      end
  | _ => []
  end.

Definition query_writes (sql : bytes) : list bytes :=
  match parse_sql GenericDialect sql with Some (statement :: _) => statement_writes statement | _ => [] end.

Lemma insert_row_returns t row :
  Forall (bus_writable (S := S)) (row_writes t row) → returns (S := S) (insert_row t row) (λ _, True).
Proof using Type.
  destruct row as [|pk row]; [intros; by apply returns_ret|]. intros [Hk _]%Forall_cons. by apply returns_write.
Qed.

Lemma parse_insert_returns insert id :
  Forall (bus_writable (S := S)) (statement_writes (InsertStatement insert)) →
  returns (S := S) (parse_insert id insert) (answers id).
Proof using Type.
  destruct insert as [name source]. unfold parse_insert; cbn [table_name Sql.source]. intros Hk.
  apply (returns_bind _ _ (λ _, True)); [apply returns_read|]. intros schema _.
  destruct source as [[rows_body]|]; [|by apply returns_ret, answers_single].
  destruct rows_body as [|rows|]; try (by apply returns_ret, answers_single). cbn [Sql.body].
  apply Forall_cons in Hk as [Hschema Hrows].
  apply returns_seq.
  { apply returns_mfor_in. intros row Hrow. apply insert_row_returns. apply Forall_forall. intros k Hin.
    rewrite Forall_forall in Hrows. apply Hrows. apply list_elem_of_bind. eauto. }
  apply returns_seq; [|by apply returns_ret, answers_single].
  destruct schema, rows; first [by apply returns_ret|by apply returns_write].
Qed.

Lemma parse_update_returns table assignments selection id :
  Forall (bus_writable (S := S)) (statement_writes (UpdateStatement table assignments selection)) →
  returns (S := S) (parse_update id table assignments selection) (answers id).
Proof using Type.
  cbn [statement_writes]. unfold parse_update.
  destruct (parse_single_table_name table); [|intros; by apply returns_ret, answers_single].
  destruct (parse_where_condition selection); try (intros; by apply returns_ret, answers_single).
  intros [Hk _]%Forall_cons. cbv zeta.
  apply (returns_bind _ _ (λ _, True)); [apply returns_read|]. intros current _.
  apply returns_seq; [|by apply returns_ret, answers_single].
  destruct current, assignments; first [by apply returns_ret|by apply returns_write].
Qed.

(** A statement is answered on any bus that can hold the keys it may write. *)
Lemma parse_query_returns sql id :
  Forall (bus_writable (S := S)) (query_writes sql) → returns (S := S) (parse_query sql id) (answers id).
Proof using Type.
  unfold query_writes, parse_query. intros Hk.
  destruct (parse_sql GenericDialect sql) as [[|statement ?]|]; try (by apply returns_ret, answers_single).
  destruct statement; try (by apply returns_ret, answers_single);
    eauto using parse_insert_returns, parse_update_returns;
    unfold parse_select, parse_delete; repeat (returns_step || (progress cbv zeta)); try exact I; eauto with returns.
Qed.
End query_returns.

(** * What statements mean *)
Section query_meaning.
Context {S : Type} `{TimedBus S, SqlParser}.

(** The statements of the round trip: one row inserted, one key selected. *)
Definition insert_one (name : bytes) (row : list Expr) : Statement :=
  InsertStatement (mkInsert name (Some (mkSqlQuery (Values [row])))).
Definition select_where (name : bytes) (condition : option Expr) : Statement :=
  QueryStatement (mkSqlQuery (SelectExpr (mkSelect [mkTableWithJoins (Table name)] condition))).
Definition key_equals (column : bytes) (literal : Expr) : Expr := BinaryOp (Identifier column) Eq literal.

Lemma parse_where_key_equals column literal v :
  lowercase_is_key column = true → parse_string_value literal = Some v →
  parse_where_condition (Some (key_equals column literal)) = KeyEquals v.
Proof using Type. intros Hc Hl. simpl. by rewrite Hc, Hl. Qed.

(** Writing one key leaves another as it was. *)
Lemma write_keeps w k v k' :
  bus_wf (st w) → bus_writable k → k' ≠ k →
  ∃ w', write_value k v w = (Returned (), w') ∧ bus_wf (st w') ∧
    ∀ t, sample (tick w') ≤ t → bus_contents (st w') t !! k' = bus_contents (st w) t !! k'.
Proof using Type.
  intros Hwf Hk Hne. destruct (bus_write_law w k v Hwf Hk) as (now & w' & Hrun & Ht & Hwf' & Hn & Hc).
  exists w'. split_and!; [done..|]. intros t Ht'. by rewrite Hc, lookup_insert_ne by (done || lia).
Qed.

(** C19: a row that is inserted is found by its key: the first column is the key,
    the others, one per line, are the value; the schema entry written on the way
    does not disturb it. *)
Theorem insert_then_select ins sel name name' pk columns column literal rest rest' id id' w :
  parse_sql GenericDialect ins = Some (insert_one name (pk :: columns) :: rest) →
  parse_sql GenericDialect sel = Some (select_where name' (Some (key_equals column literal)) :: rest') →
  unquoted name = unquoted name' → lowercase_is_key column = true →
  parse_string_value literal = Some (parse_expr_value pk) →
  (let key := table_key (unquoted name) (parse_expr_value pk) in
   let schema_key := bs "_schema:" ++ unquoted name in
   key ≠ schema_key ∧ bus_writable key ∧ bus_writable schema_key) →
  bus_wf (st w) →
  ∃ w1 w2, parse_query ins id w = (Returned [create_ok id], w1) ∧
    parse_query sel id' w1 =
      (Returned [value_reply id' (Some (join newline (parse_expr_value <$> columns)))], w2).
Proof using Type.
  intros Hins Hsel Hname Hcol Hlit (Hne & Hk & Hsk) Hwf. cbv zeta in *.
  set (key := table_key (unquoted name) (parse_expr_value pk)) in *.
  set (schema_key := bs "_schema:" ++ unquoted name) in *.
  set (value := join newline (parse_expr_value <$> columns)).
  destruct (bus_read_law w schema_key Hwf) as (now0 & w0 & Hr0 & Ht0 & Hwf0 & _).
  set (schema := bus_contents (st w) (sample (tick w)) !! schema_key) in *.
  destruct (bus_write_law w0 key value Hwf0 Hk) as (now1 & w1 & Hr1 & Ht1 & Hwf1 & Hn1 & Hc1).
  assert (∃ w2, match schema with
      | None => write_value schema_key (default_schema (length (pk :: columns)))
      | Some _ => mret () end w1 = (Returned (), w2) ∧ bus_wf (st w2) ∧
      bus_contents (st w2) (sample (tick w2)) !! key = Some value) as (w2 & Hr2 & Hwf2 & Hc2).
  { destruct schema as [x|].
    - exists w1. split_and!; [done..|]. by rewrite Hc1, lookup_insert_eq by lia.
    - destruct (write_keeps w1 schema_key (default_schema (length (pk :: columns))) key Hwf1 Hsk Hne)
        as (w2 & Hr2 & Hwf2 & Hc2). exists w2. split_and!; [done..|]. rewrite Hc2 by lia.
      destruct (bus_write_law w1 schema_key (default_schema (length (pk :: columns))) Hwf1 Hsk)
        as (now2 & w2' & Hr2' & Ht2 & _). rewrite Hr2 in Hr2'. injection Hr2' as <-.
      pose proof (sample_mono _ _ Ht2). by rewrite Hc1, lookup_insert_eq by lia. }
  destruct (bus_read_law w2 key Hwf2) as (now3 & w3 & Hr3 & _). rewrite Hc2 in Hr3.
  exists w2, w3. split.
  - unfold parse_query. rewrite Hins. unfold insert_one, parse_insert; cbn [table_name source body].
    fold schema_key. run_with Hr0. cbn [mfor insert_row]. fold key value.
    assert ((write_value key value ;; mret ()) w0 = (Returned (), w1)) as Hrow by (by run_with Hr1).
    run_with Hrow. by destruct schema; run_with Hr2.
  - unfold parse_query. rewrite Hsel. unfold select_where, parse_select; cbn [body from selection].
    unfold parse_table_name; cbn [head]. simpl (relation _).
    unfold mbind at 1, option_bind, parse_single_table_name; cbn [relation]. rewrite <- Hname.
    rewrite (parse_where_key_equals _ _ _ Hcol Hlit). fold key. by run_with Hr3.
Qed.

(** A list of responses that is one error. *)
Definition refused (rs : list Response) : Prop := ∃ r, rs = [r] ∧ response_opcode r = ERROR_MALFORMED.

Lemma value_reply_not_refused id v : ¬ refused [value_reply id v].
Proof using Type. intros (r & [= <-] & Hr). by destruct v. Qed.
Lemma scan_not_refused id pairs : ¬ refused (scan_responses id pairs).
Proof using Type.
  intros (r & Heq & Hr). unfold scan_responses in Heq.
  assert (r = mkResponse id SCAN_END []) as ->; [|done].
  destruct (imap _ _) as [|x l]; simpl in Heq; [by injection Heq|]. injection Heq as _ Heq. by destruct l.
Qed.
Lemma ok_not_refused id : ¬ refused [create_ok id].
Proof using Type. by intros (r & [= <-] & Hr). Qed.

Lemma read_keeps k w v w' :
  bus_wf (st w) → read_value k w = (Returned v, w') →
  bus_wf (st w') ∧ (tick w ≤ tick w')%nat ∧
  ∀ t, sample (tick w') ≤ t → bus_contents (st w') t = bus_contents (st w) t.
Proof using Type.
  intros Hwf Hr. destruct (bus_read_law w k Hwf) as (now & w1 & Hr1 & Ht & Hwf1 & Hn & Hc).
  rewrite Hr in Hr1. injection Hr1 as -> <-. split_and!; [done..|]. intros t Ht'. apply Hc. lia.
Qed.

(** C20: a statement that is refused has no effect: when the answer is an error, the
    contents of the bus are those from before, whatever the statement was. *)
Theorem refused_statement_no_effect sql id w rs w' :
  bus_wf (st w) → parse_query sql id w = (Returned rs, w') → refused rs →
  bus_wf (st w') ∧ ∀ t, sample (tick w') ≤ t → bus_contents (st w') t = bus_contents (st w) t.
Proof using Type.
  intros Hwf Hrun Hrs.
  assert (∀ r, (mret [r] : M (World S) (list Response)) w = (Returned rs, w') → bus_wf (st w') ∧
    ∀ t, sample (tick w') ≤ t → bus_contents (st w') t = bus_contents (st w) t) as Hret by (by intros r [= <- <-]).
  assert (∀ {A} (m : M (World S) A) (f : A → list Response), (∀ a, ¬ refused (f a)) →
    (a ← m; mret (f a)) w = (Returned rs, w') → False) as Hnot.
  { intros A m f Hf (a & w1 & _ & [= <- <-])%bind_inv. by apply (Hf a). }
  unfold parse_query in Hrun. destruct (parse_sql GenericDialect sql) as [[|[query|insert|table assignments sel|del| |] rest]|];
    try (by eapply Hret).
  - unfold parse_select in Hrun. repeat case_match; try (by eapply Hret); exfalso;
      (eapply Hnot; [|exact Hrun]); intros a; [apply value_reply_not_refused|apply scan_not_refused..].
  - unfold parse_insert in Hrun. apply bind_inv in Hrun as (schema & w1 & Hr & Hrun).
    destruct (read_keeps _ _ _ _ Hwf Hr) as (Hwf1 & _ & Hc).
    destruct (source insert) as [src|]; [|by injection Hrun as <- <-].
    destruct (body src) as [| rows |]; [by injection Hrun as <- <-| |by injection Hrun as <- <-].
    apply bind_inv in Hrun as ([] & w2 & _ & Hrun). apply bind_inv in Hrun as ([] & w3 & _ & [= <- <-]).
    by apply ok_not_refused in Hrs.
  - unfold parse_update in Hrun. destruct (parse_single_table_name table); [|by eapply Hret].
    destruct (parse_where_condition sel); try (by eapply Hret).
    apply bind_inv in Hrun as (cur & w1 & _ & Hrun). apply bind_inv in Hrun as ([] & w2 & _ & [= <- <-]).
    by apply ok_not_refused in Hrs.
  - unfold parse_delete in Hrun. repeat case_match; try (by eapply Hret); exfalso;
      (eapply (Hnot _ _ (λ _, [create_ok id])); [|exact Hrun]); intros a; apply ok_not_refused.
Qed.

(** An UPDATE replaces the whole value of the row by the values it assigns, one
    per line: the columns it does not name are lost. *)
Theorem update_replaces_row sql id name column literal key_value assignments a rest v w :
  parse_sql GenericDialect sql = Some (UpdateStatement (mkTableWithJoins (Table name)) (a :: assignments)
                          (Some (key_equals column literal)) :: rest) →
  lowercase_is_key column = true → parse_string_value literal = Some key_value →
  (let key := table_key (unquoted name) key_value in
   bus_writable key ∧ bus_contents (st w) (sample (tick w)) !! key = Some v) →
  bus_wf (st w) →
  ∃ w', parse_query sql id w = (Returned [create_ok id], w') ∧ bus_wf (st w') ∧
    ∀ t, sample (tick w') ≤ t →
      bus_contents (st w') t !! table_key (unquoted name) key_value =
      Some (join newline ((λ a, parse_expr_value (assigned a)) <$> a :: assignments)).
Proof using Type.
  intros Hsql Hcol Hlit [Hk Hv] Hwf. set (key := table_key (unquoted name) key_value) in *.
  destruct (bus_read_law w key Hwf) as (now0 & w0 & Hr0 & Ht0 & Hwf0 & _). rewrite Hv in Hr0.
  set (value := join newline ((λ a, parse_expr_value (assigned a)) <$> a :: assignments)).
  destruct (bus_write_law w0 key value Hwf0 Hk) as (now1 & w1 & Hr1 & Ht1 & Hwf1 & Hn1 & Hc1).
  exists w1. split_and!; [|done|].
  - unfold parse_query. rewrite Hsql. unfold parse_update, parse_single_table_name; cbn [relation].
    rewrite (parse_where_key_equals _ _ _ Hcol Hlit). fold key. run_with Hr0. by run_with Hr1.
  - intros t Ht. by rewrite Hc1, lookup_insert_eq by lia.
Qed.
End query_meaning.

(** ** Concrete statements *)

Definition sql_text_insert : bytes := bs "INSERT INTO user VALUES (42, 'Ada', 'London')".
Definition sql_text_select : bytes := bs "SELECT * FROM user WHERE key = '42'".
Definition sql_text_update : bytes := bs "UPDATE user SET city = 'Paris' WHERE key = '42'".
Definition sql_text_drop : bytes := bs "DROP TABLE user".

Definition text_literal (s : string) : Expr := ValueExpr (SingleQuotedString (bs s)).

(** A parser that knows these four statements. *)
#[export] Instance example_parser : SqlParser | 100 := {
  parse_sql _ sql :=
    if bool_decide (sql = sql_text_insert) then
      Some [insert_one (bs "user") [ValueExpr (Number (bs "42") false); text_literal "Ada"; text_literal "London"]]
    else if bool_decide (sql = sql_text_select) then
      Some [select_where (bs "user") (Some (key_equals (bs "key") (text_literal "42")))]
    else if bool_decide (sql = sql_text_update) then
      Some [UpdateStatement (mkTableWithJoins (Table (bs "user"))) [mkAssignment (text_literal "Paris")]
              (Some (key_equals (bs "key") (text_literal "42")))]
    else if bool_decide (sql = sql_text_drop) then Some [OtherStatement]
    else None;
  expr_display _ := [];
}.

Definition example_world : World TricBus := mkWorld 0 create_tric_bus.

Lemma example_world_wf : bus_wf (st example_world).
Proof. apply create_store_wf. Defined.

Lemma insert_then_select_witness :
  ∃ w1 w2, parse_query sql_text_insert 7 example_world = (Returned [create_ok 7], w1) ∧
    parse_query sql_text_select 8 w1 =
      (Returned [value_reply 8 (Some (join newline [bs "Ada"; bs "London"]))], w2).
Proof.
  apply (insert_then_select sql_text_insert sql_text_select (bs "user") (bs "user")
    (ValueExpr (Number (bs "42") false)) [text_literal "Ada"; text_literal "London"]
    (bs "key") (text_literal "42") [] []); try (vm_compute; reflexivity).
  - split_and!; [|exact I|exact I]. apply (bool_decide_unpack _). vm_compute. exact I.
  - apply example_world_wf.
Defined.

Lemma refused_statement_no_effect_witness :
  let r := parse_query sql_text_drop 7 example_world in
  bus_wf (st r.2) ∧ ∀ t, sample (tick r.2) ≤ t → bus_contents (st r.2) t = bus_contents (st example_world) t.
Proof.
  apply (refused_statement_no_effect sql_text_drop 7 example_world
    [create_error 7 ERROR_MALFORMED (bs "unsupported SQL statement")]).
  - apply example_world_wf.
  - vm_compute. reflexivity.
  - eexists. split; [reflexivity|]. reflexivity.
Defined.

Lemma example_writable keys : Forall (bus_writable (S := TricBus)) keys.
Proof. by apply Forall_true. Defined.

(** The world after the insertion. *)
Definition example_inserted : World TricBus := (parse_query sql_text_insert 7 example_world).2.

Lemma example_inserted_wf : bus_wf (st example_inserted).
Proof.
  destruct (parse_query_returns sql_text_insert 7 (example_writable _) example_world example_world_wf) as (rs & w & Hr & Hwf & _).
  unfold example_inserted. by rewrite Hr.
Defined.

Lemma update_replaces_row_witness :
  ∃ w', parse_query sql_text_update 9 example_inserted = (Returned [create_ok 9], w') ∧ bus_wf (st w') ∧
    ∀ t, sample (tick w') ≤ t → bus_contents (st w') t !! table_key (bs "user") (bs "42") = Some (bs "Paris").
Proof.
  apply (update_replaces_row sql_text_update 9 (bs "user") (bs "key") (text_literal "42") (bs "42") []
    (mkAssignment (text_literal "Paris")) [] (join newline [bs "Ada"; bs "London"]));
    try (vm_compute; reflexivity).
  - split; [exact I|]. vm_compute. reflexivity.
  - apply example_inserted_wf.
Defined.
