(* ===== verification/Files.v ===== *)
(** The parts of [std::fs], of the tar and of the brotli crates that the
    administration commands use, as parameters.  Writing to a file that could be
    created succeeds. *)
From stdpp Require Import prelude gmap sorting strings.
From Stdlib Require Import NArith Lia.
From S2P Require Import Prelude.
From S2P Require Import Bytes.

(** [std::fs]: the error text of a failing call, or its result. *)
Class FileSystem : Type := {
  file_create : bytes → option bytes;
  file_open : bytes → option bytes;
  file_read_to_end : bytes → option bytes;
  (** [metadata(path)]: an error, or the length. *)
  file_metadata : bytes → bytes + N;
  (** [read_to_string(path)]. *)
  file_read_to_string : bytes → bytes + bytes;
}.

(** Archives: a tar stream, under a Brotli stream or as it is. *)
Inductive Encoding : Type := Plain | Brotli.

Class Archives : Type := {
  (** [builder.append_data(..)]: the error for a path, if there is one. *)
  append_error : bytes → option bytes;
  (** The file a builder leaves for the entries appended to it. *)
  archive_file : Encoding → list (bytes * bytes) → bytes;
  (** The entries (path, contents) of a file, in order; [None] when the stream
      cannot be read to its end. *)
  archive_entries : Encoding → bytes → option (list (bytes * bytes));
}.

(** [HashMap<String, Vec<u8>>]: the order of its iteration is any. *)
Class HashOrder : Type := {
  hash_iter : gmap bytes bytes → list (bytes * bytes);
  hash_iter_perm m : hash_iter m ≡ₚ map_to_list m;
}.

(** Concrete files: every path names the same file, here an empty one. *)
#[export] Instance example_files : FileSystem | 100 := {|
  file_create _ := None;
  file_open _ := None;
  file_read_to_end _ := Some [];
  file_metadata _ := inr 0;
  file_read_to_string _ := inr [];
|}.

(** A positive as bytes. *)
Fixpoint pos_bytes (p : positive) : bytes :=
  match p with xH => [] | xO p => Byte.x00 :: pos_bytes p | xI p => Byte.x01 :: pos_bytes p end.
Fixpoint bytes_pos (l : bytes) : positive :=
  match l with [] => xH | Byte.x00 :: l => xO (bytes_pos l) | _ :: l => xI (bytes_pos l) end.
Lemma bytes_pos_bytes p : bytes_pos (pos_bytes p) = p.
Proof. induction p as [p IH|p IH|]; cbn; by rewrite ?IH. Qed.

(** Archives that take every path. *)
#[export] Instance example_archives : Archives | 100 := {|
  append_error _ := None;
  archive_file encoding l := match encoding with Plain => [] | Brotli => [Byte.x42] end ++ pos_bytes (encode l);
  archive_entries encoding data := decode (bytes_pos (match encoding with Plain => data | Brotli => drop 1 data end));
|}.
