(* ===== verification/Analyser.v ===== *)
(** The schema analyser, src/modules/analyser.rs: CREATE TABLE statements become a
    storage plan, and a plan becomes the schema entries of the store.  The schema
    entry of a table is read back by the SQL export (Export.v); the round trip is
    stated there. *)
From stdpp Require Import prelude gmap sorting strings.
From Stdlib Require Import NArith Lia.
From S2P Require Import Prelude.
From S2P Require Import Bytes.
From S2P Require Import Text.
From S2P Require Import Sql.
From S2P Require Import Query.

Record ColumnPlan : Type := mkColumnPlan {
  name : bytes;
  data_type : bytes;
  is_primary_key : bool;
}.
Record ForeignKeyPlan : Type := mkForeignKeyPlan {
  column : bytes;
  references_table : bytes;
  references_column : bytes;
}.
Record TablePlan : Type := mkTablePlan {
  table : bytes;
  columns : list ColumnPlan;
  primary_key : list bytes;
  foreign_keys : list ForeignKeyPlan;
  ttl_column : option bytes;
}.
Record StoragePlan : Type := mkStoragePlan { tables : list TablePlan }.

(** The primary key of the first PRIMARY KEY constraint, else the first column
    with that option. *)
Definition is_primary_option (option : ColumnOption) : bool :=
  match option with Unique is_primary => is_primary | OtherOption => false end.

Definition constraint_key (constraint : TableConstraint) : option (list bytes) :=
  match constraint with PrimaryKey pk_cols => Some pk_cols | _ => None end.

Definition find_primary_key_columns (columns : list ColumnDef) (constraints : list TableConstraint) : list bytes :=
  match head (omap constraint_key constraints) with
  | Some pk_cols => pk_cols
  | None =>
      match list_find (λ column, existsb is_primary_option (column_options column) = true) columns with
      | Some (_, column) => [column_name column]
      | None => []
      end
  end.

Definition find_foreign_keys (constraints : list TableConstraint) : list ForeignKeyPlan :=
  omap (λ constraint,
    match constraint with
    | ForeignKey columns foreign_table referred_columns =>
        column ← head columns;
        ref_column ← head referred_columns;
        Some (mkForeignKeyPlan column foreign_table ref_column)
    | _ => None
    end) constraints.

Definition ttl_names : list bytes :=
  [bs "expires_at"; bs "expire_time"; bs "valid_until"; bs "ttl"; bs "last_seen"; bs "expiry"].

Definition find_ttl_candidate (columns : list ColumnDef) : option bytes :=
  match list_find (λ column, ascii_lowercase (column_name column) ∈ ttl_names) columns with
  | Some (_, column) => Some (column_name column)
  | None => None
  end.

(** [format!("{data_type}")]: the text of the type. *)
Definition render_data_type (data_type : bytes) : bytes := data_type.

Section analyser.
Context `{UnicodeTables}.

Definition parse_table_name_raw (name : bytes) : bytes :=
  mjoin (filter (λ c, is_alphanumeric c || bool_decide (c = bs "_") = true) (chars (unquoted name))).

Definition analyse_create_table (name : bytes) (columns : list ColumnDef) (constraints : list TableConstraint) :
  option TablePlan :=
  let sanitised_name := parse_table_name_raw name in
  if bool_decide (sanitised_name = []) then None
  else
    let primary_key_columns := find_primary_key_columns columns constraints in
    let column_plans := (λ column,
      mkColumnPlan (column_name column) (render_data_type (column_type column))
        (bool_decide (column_name column ∈ primary_key_columns))) <$> columns in
    Some (mkTablePlan sanitised_name column_plans primary_key_columns (find_foreign_keys constraints)
      (find_ttl_candidate columns)).

Definition analyse_statements (statements : list Statement) : StoragePlan :=
  mkStoragePlan (omap (λ statement,
    match statement with
    | CreateTableStatement create_table =>
        analyse_create_table (create_name create_table) (create_columns create_table)
          (create_constraints create_table)
    | _ => None
    end) statements).
End analyser.

(** One line of a schema entry, without its line feed. *)
Definition schema_line (t : TablePlan) (c : ColumnPlan) : bytes :=
  name c ++ bs ":" ++ data_type c ++
  (if is_primary_key c then bs ":pk" else []) ++
  match list_find (λ fk, column fk = name c) (foreign_keys t) with
  | Some (_, fk) => bs ":fk=" ++ references_table fk ++ bs "." ++ references_column fk
  | None => []
  end ++
  (if bool_decide (ttl_column t = Some (name c)) then bs ":ttl" else []).

Definition render_schema_entry (t : TablePlan) : bytes :=
  mjoin ((λ c, schema_line t c ++ newline) <$> columns t).

Definition render_storage_plan (plan : StoragePlan) : bytes :=
  mjoin ((λ t,
    pad_right 20 (table t) ++ bs " pk=" ++ pad_right 15 (join (bs ",") (primary_key t)) ++
    bs " ttl=" ++ pad_right 15 (default [Byte.xe2; Byte.x80; Byte.x94] (ttl_column t)) ++
    bs " fk=" ++ join (bs ", ") ((λ fk, column fk ++ bs "->" ++ references_table fk) <$> foreign_keys t) ++
    newline) <$> tables plan).
