(* ===== verification/Import.v ===== *)
(** The import module, src/modules/import.rs: the rows of an SQL dump become keys
    under a storage plan, and the difference of two archives is applied to the
    store. *)
From stdpp Require Import prelude gmap sorting strings.
From Stdlib Require Import NArith Lia.
From S2P Require Import Prelude.
From S2P Require Import Bytes.
From S2P Require Import Text.
From S2P Require Import BTree.
From S2P Require Import Clock.
From S2P Require Import TimedMap.
From S2P Require Import Store.
From S2P Require Import Tric.
From S2P Require Import DataBus.
From S2P Require Import BusSpec.
From S2P Require Import Instances.
From S2P Require Import Codec.
From S2P Require Import Replies.
From S2P Require Import Sql.
From S2P Require Import Query.
From S2P Require Import Analyser.
From S2P Require Import Files.

Definition dialect_of (format : bytes) : SqlDialect :=
  if bool_decide (format = bs "mysql") then MySqlDialect
  else if bool_decide (format = bs "postgres") then PostgreSqlDialect
  else if bool_decide (format = bs "sqlite") then SQLiteDialect
  else GenericDialect.

Record ImportResult : Type := mkImportResult {
  imported_tables : N;
  imported_rows : N;
  relationships : N;
  errors : N;
}.
Record DiffResult : Type := mkDiffResult { additions : N; modifications : N; deletions : N }.

(** * Paths of an archive *)

Definition parse_tar_path_to_key (path : bytes) : bytes :=
  match strip_prefix path (bs "_schema/") with
  | Some table_name => bs "_schema:" ++ table_name
  | None =>
      match strip_prefix path (bs "_rel/") with
      | Some rel_name => bs "_rel:" ++ rel_name
      | None =>
          match strip_prefix path (bs "_ttl/") with
          | Some ttl_path => bs "_ttl:" ++ replace_first Byte.x2f (bs ":") ttl_path
          | None => replace_first Byte.x2f (bs ":") path
          end
      end
  end.

Definition meta_path : bytes := bs "_meta/version".

(** [read_tar_entries]: a later entry replaces an earlier one with its path. *)
Definition read_tar_entries `{Archives} (encoding : Encoding) (data : bytes) : option (gmap bytes bytes) :=
  entries ← archive_entries encoding data;
  Some (foldl (λ m e, <[from_utf8_lossy e.1 := e.2]> m) ∅ entries).

Definition read_tric_archive `{FileSystem, Archives} (path : bytes) : bytes + gmap bytes bytes :=
  match file_open path with
  | Some error => inl (bs "cannot open " ++ path ++ bs ": " ++ error)
  | None =>
      let read encoding := data ← file_read_to_end path; read_tar_entries encoding data in
      match read Brotli with
      | Some parsed => inr parsed
      | None =>
          match read Plain with
          | Some parsed => inr parsed
          | None => inl (bs "cannot parse " ++ path ++ bs " as .tric archive")
          end
      end
  end.

Section import.
Context {S : Type} `{Clock, !DataBus S, SqlParser, UnicodeTables}.

(** [Parser::parse_sql(..).unwrap_or_default()]. *)
Definition parse_sql (content format : bytes) : list Statement :=
  default [] (Sql.parse_sql (dialect_of format) content).

Definition parse_value (expression : Expr) : bytes :=
  match expression with
  | ValueExpr (Number number _) => number
  | ValueExpr (SingleQuotedString text) => text
  | ValueExpr (DoubleQuotedString text) => text
  | ValueExpr Null => []
  | ValueExpr (Boolean boolean) => if boolean then bs "true" else bs "false"
  | _ => expr_display expression
  end.

(** [parse_value(&values[index])]. *)
Definition value_at (values : list Expr) (index : nat) : Outcome bytes :=
  expression ← unwrap (values !! index); mret (parse_value expression).

(** [table.columns.iter().position(|column| column.name == name)]. *)
Definition column_position (t : TablePlan) (column_name : bytes) : option nat :=
  fst <$> list_find (λ c, name c = column_name) (columns t).

(** The parts of the key: the values of the primary key columns that exist. *)
Definition key_indices (t : TablePlan) : list nat := omap (column_position t) (primary_key t).
(** The columns of the value, in order. *)
Definition value_indices (t : TablePlan) : list nat :=
  (filter (λ ic, is_primary_key ic.2 = false) (imap pair (columns t))).*1.

(** The loop over the foreign keys: the number of relations written. *)
Fixpoint write_relations (t : TablePlan) (key_parts : list bytes) (values : list Expr)
  (fks : list ForeignKeyPlan) (relationship_count : N) : M (World S) N :=
  match fks with
  | [] => mret relationship_count
  | fk :: fks =>
      match column_position t (column fk) with
      | Some fk_index =>
          fk_value ← lift_outcome (value_at values fk_index);
          write_value (bs "_rel:" ++ references_table fk ++ bs ":" ++ fk_value ++ bs ":" ++ table t ++ bs ":" ++
                       join (bs ":") key_parts) [] ;;
          write_relations t key_parts values fks (relationship_count + 1)
      | None => write_relations t key_parts values fks relationship_count
      end
  end.

(** [None] is [Err(())]. *)
Definition write_row (t : TablePlan) (values : list Expr) : M (World S) (option N) :=
  if negb (length values =? length (columns t))%nat then mret None
  else
    key_parts ← lift_outcome (mapM (value_at values) (key_indices t));
    if bool_decide (key_parts = []) then mret None
    else
      let key := table_key (table t) (join (bs ":") key_parts) in
      value_parts ← lift_outcome (mapM (value_at values) (value_indices t));
      write_value key (join newline value_parts) ;;
      relationship_count ← write_relations t key_parts values (foreign_keys t) 0;
      mret (Some relationship_count).

Definition count_row (result : ImportResult) (written : option N) : ImportResult :=
  match written with
  | Some relationship_count =>
      mkImportResult (imported_tables result) (imported_rows result + 1)
        (relationships result + relationship_count) (errors result)
  | None => mkImportResult (imported_tables result) (imported_rows result) (relationships result) (errors result + 1)
  end.

Fixpoint import_rows (t : TablePlan) (rows : list (list Expr)) (result : ImportResult) : M (World S) ImportResult :=
  match rows with
  | [] => mret result
  | row :: rows =>
      written ← write_row t row;
      import_rows t rows (count_row result written)
  end.

(** [plan.tables.iter().find(|table| table.name == table_name)]. *)
Definition find_table (plan : StoragePlan) (table_name : bytes) : option TablePlan :=
  snd <$> list_find (λ t, table t = table_name) (tables plan).

Definition import_statement (plan : StoragePlan) (statement : Statement) (result : ImportResult) :
  M (World S) ImportResult :=
  match statement with
  | InsertStatement insert =>
      match find_table plan (unquoted (table_name insert)) with
      | None => mret result
      | Some table_plan =>
          match body <$> source insert with
          | Some (Values rows) => import_rows table_plan rows result
          | _ => mret result
          end
      end
  | _ => mret result
  end.

Fixpoint import_statements (plan : StoragePlan) (statements : list Statement) (result : ImportResult) :
  M (World S) ImportResult :=
  match statements with
  | [] => mret result
  | statement :: statements =>
      result ← import_statement plan statement result;
      import_statements plan statements result
  end.

Definition parse_import (statements : list Statement) (plan : StoragePlan) : M (World S) ImportResult :=
  mfor (tables plan) (λ t, write_value (bs "_schema:" ++ table t) (render_schema_entry t)) ;;
  import_statements plan statements (mkImportResult (N.of_nat (length (tables plan))) 0 0 0).

(** * The difference of two archives *)

Definition write_diff_entry (key value path : bytes) : M (World S) unit :=
  if starts_with path (bs "_ttl/") then
    let data_key := replace_first Byte.x2f (bs ":") (default [] (strip_prefix path (bs "_ttl/"))) in
    if utf8_valid value then
      match parse_u64 (trim value) with
      | Some ttl_ms => if 0 <? ttl_ms then write_ttl data_key (from_millis ttl_ms) else mret ()
      | None => mret ()
      end
    else mret ()
  else write_value key value.

Fixpoint apply_new (old_entries : gmap bytes bytes) (new : list (bytes * bytes)) (result : DiffResult) :
  M (World S) DiffResult :=
  match new with
  | [] => mret result
  | (path, new_value) :: new =>
      if bool_decide (path = meta_path) then apply_new old_entries new result
      else
        let key := parse_tar_path_to_key path in
        match old_entries !! path with
        | Some old_value =>
            if bool_decide (old_value = new_value) then apply_new old_entries new result
            else
              write_diff_entry key new_value path ;;
              apply_new old_entries new (mkDiffResult (additions result) (modifications result + 1) (deletions result))
        | None =>
            write_diff_entry key new_value path ;;
            apply_new old_entries new (mkDiffResult (additions result + 1) (modifications result) (deletions result))
        end
  end.

Fixpoint delete_old (new_entries : gmap bytes bytes) (old : list bytes) (result : DiffResult) :
  M (World S) DiffResult :=
  match old with
  | [] => mret result
  | path :: old =>
      if bool_decide (path = meta_path ∨ is_Some (new_entries !! path)) then delete_old new_entries old result
      else
        delete_value (parse_tar_path_to_key path) ;;
        delete_old new_entries old (mkDiffResult (additions result) (modifications result) (deletions result + 1))
  end.

(** [parse_diff_import], once both archives have been read. *)
Definition apply_diff `{HashOrder} (old_entries new_entries : gmap bytes bytes) : M (World S) DiffResult :=
  result ← apply_new old_entries (hash_iter new_entries) (mkDiffResult 0 0 0);
  delete_old new_entries (hash_iter old_entries).*1 result.

Definition parse_diff_import `{FileSystem, Archives, HashOrder} (old_path new_path : bytes) :
  M (World S) (bytes + DiffResult) :=
  match read_tric_archive old_path with
  | inl error => mret (inl error)
  | inr old_entries =>
      match read_tric_archive new_path with
      | inl error => mret (inl error)
      | inr new_entries => result ← apply_diff old_entries new_entries; mret (inr result)
      end
  end.
End import.

(** * The writes of an import *)
Section writes.
Context `{SqlParser}.

(** The values of a row at some of its columns. *)
Definition values_at (values : list Expr) (indices : list nat) : list bytes :=
  omap (λ i, parse_value <$> values !! i) indices.

Definition row_key (t : TablePlan) (values : list Expr) : bytes := join (bs ":") (values_at values (key_indices t)).
Definition row_value (t : TablePlan) (values : list Expr) : bytes := join newline (values_at values (value_indices t)).

(** A row the plan accepts: a value for each column, and a key. *)
Definition row_fits (t : TablePlan) (values : list Expr) : bool :=
  (length values =? length (columns t))%nat && negb (bool_decide (key_indices t = [])).

Definition relation_write (t : TablePlan) (values : list Expr) (fk : ForeignKeyPlan) : option (bytes * bytes) :=
  fk_index ← column_position t (column fk);
  fk_value ← parse_value <$> values !! fk_index;
  Some (bs "_rel:" ++ references_table fk ++ bs ":" ++ fk_value ++ bs ":" ++ table t ++ bs ":" ++ row_key t values, []).

Definition relation_writes (t : TablePlan) (values : list Expr) : list (bytes * bytes) :=
  omap (relation_write t values) (foreign_keys t).

Definition row_writes (row : TablePlan * list Expr) : list (bytes * bytes) :=
  if row_fits row.1 row.2 then
    (table_key (table row.1) (row_key row.1 row.2), row_value row.1 row.2) :: relation_writes row.1 row.2
  else [].

(** The rows a statement inserts into a table of the plan. *)
Definition statement_rows (plan : StoragePlan) (statement : Statement) : list (TablePlan * list Expr) :=
  match statement with
  | InsertStatement insert =>
      match find_table plan (unquoted (table_name insert)), body <$> source insert with
      | Some t, Some (Values rows) => pair t <$> rows
      | _, _ => []
      end
  | _ => []
  end.

Definition schema_writes (plan : StoragePlan) : list (bytes * bytes) :=
  (λ t, (bs "_schema:" ++ table t, render_schema_entry t)) <$> tables plan.

(** All rows, and all writes, of an import, in order. *)
Definition import_rows_of (plan : StoragePlan) (statements : list Statement) : list (TablePlan * list Expr) :=
  mbind (statement_rows plan) statements.
Definition import_writes (plan : StoragePlan) (statements : list Statement) : list (bytes * bytes) :=
  schema_writes plan ++ mbind row_writes (import_rows_of plan statements).

(** The counters after some rows. *)
Definition counted (rows : list (TablePlan * list Expr)) (result : ImportResult) : ImportResult :=
  let accepted := filter (λ row, row_fits row.1 row.2 = true) rows in
  mkImportResult (imported_tables result) (imported_rows result + N.of_nat (length accepted))
    (relationships result + nsum ((λ row : TablePlan * list Expr, N.of_nat (length (relation_writes row.1 row.2))) <$> accepted))
    (errors result + N.of_nat (length rows - length accepted)).

(** ** Indices stay within the row *)

Lemma column_position_bound t nm i : column_position t nm = Some i → (i < length (columns t))%nat.
Proof.
  unfold column_position. intros ([j c] & Hf & ->)%fmap_Some. apply list_find_Some in Hf as [Hl _].
  by eapply lookup_lt_Some.
Qed.

Lemma key_indices_bound t : Forall (λ i, (i < length (columns t))%nat) (key_indices t).
Proof. apply Forall_forall. intros i (nm & _ & Hi)%list_elem_of_omap. by eapply column_position_bound. Qed.

Lemma value_indices_bound t : Forall (λ i, (i < length (columns t))%nat) (value_indices t).
Proof.
  apply Forall_forall. intros i (ic & -> & Hic)%list_elem_of_fmap. apply list_elem_of_filter in Hic as [_ Hic].
  apply elem_of_lookup_imap in Hic as (j & c & -> & Hj). by eapply lookup_lt_Some.
Qed.

Lemma value_at_ok values i : (i < length values)%nat →
  ∃ v, parse_value <$> values !! i = Some v ∧ value_at values i = Returned v.
Proof. intros Hi. destruct (lookup_lt_is_Some_2 values i Hi) as [e He]. unfold value_at. rewrite He. by eexists. Qed.

Lemma values_at_ok values indices :
  Forall (λ i, (i < length values)%nat) indices →
  mapM (value_at values) indices = Returned (values_at values indices) ∧ length (values_at values indices) = length indices.
Proof.
  intros Hall. unfold values_at. induction Hall as [|i indices Hi Hall [IH1 IH2]]; [done|].
  destruct (value_at_ok values i Hi) as (v & Hv & Hval). cbn [mapM omap list_omap].
  rewrite Hv, Hval. cbn. change (list_omap _ _ _ indices) with (omap (λ i, parse_value <$> values !! i) indices).
  rewrite IH1. cbn. by rewrite IH2.
Qed.
End writes.

(** * An import makes those writes *)
Section import_runs.
Context {S : Type} `{TimedBus S, SqlParser}.

(** The bus has a place for the keys of the writes. *)
Definition writable (writes : list (bytes * bytes)) : Prop := Forall (λ e, bus_writable (S := S) e.1) writes.

Lemma write_relations_transforms t values fks n :
  length values = length (columns t) → writable (omap (relation_write t values) fks) →
  transforms (write_relations t (values_at values (key_indices t)) values fks n)
    (n + N.of_nat (length (omap (relation_write t values) fks))) (write_all (omap (relation_write t values) fks)).
Proof using Type.
  intros Hlen. revert n. induction fks as [|fk fks IH]; intros n Hw.
  - cbn. rewrite N.add_0_r. apply transforms_ret.
  - cbn [write_relations]. destruct (column_position t (column fk)) as [i|] eqn:E.
    + destruct (value_at_ok values i) as (v & Hv & Hval); [rewrite Hlen; by eapply column_position_bound|].
      set (e := (bs "_rel:" ++ references_table fk ++ bs ":" ++ v ++ bs ":" ++ table t ++ bs ":" ++ row_key t values, [] : bytes)).
      assert (omap (relation_write t values) (fk :: fks) = e :: omap (relation_write t values) fks) as Hcons
        by (apply omap_cons_Some; unfold relation_write; rewrite E; cbn [mbind option_bind]; by rewrite Hv).
      rewrite Hcons in *. apply Forall_cons in Hw as [He Hw]. eapply transforms_lift; [exact Hval|].
      replace (n + N.of_nat (length (e :: omap (relation_write t values) fks)))
        with (n + 1 + N.of_nat (length (omap (relation_write t values) fks))) by (cbn [length]; lia).
      eapply transforms_ext; [|intros c; symmetry; apply write_all_cons].
      eapply (transforms_bind _ _ () _ <[e.1 := e.2]>); [by apply transforms_write|by apply IH].
    + assert (omap (relation_write t values) (fk :: fks) = omap (relation_write t values) fks) as Hcons
        by (apply omap_cons_None; unfold relation_write; by rewrite E).
      rewrite Hcons in *. by apply IH.
Qed.

Lemma write_row_transforms t values :
  writable (row_writes (t, values)) →
  transforms (write_row t values)
    (if row_fits t values then Some (N.of_nat (length (relation_writes t values))) else None)
    (write_all (row_writes (t, values))).
Proof using Type.
  intros Hw. unfold write_row, row_writes, row_fits in *. cbn [fst snd] in *.
  destruct (Nat.eqb_spec (length values) (length (columns t))) as [Hlen|Hlen]; cbn [negb andb] in *;
    [|apply transforms_ret].
  destruct (values_at_ok values (key_indices t)) as [Hkeys Hnum]; [rewrite Hlen; apply key_indices_bound|].
  destruct (values_at_ok values (value_indices t)) as [Hvals _]; [rewrite Hlen; apply value_indices_bound|].
  eapply transforms_lift; [exact Hkeys|].
  assert (bool_decide (values_at values (key_indices t) = []) = bool_decide (key_indices t = [])) as ->.
  { apply bool_decide_ext. rewrite <- !length_zero_iff_nil, Hnum. done. }
  case_bool_decide; cbn [negb] in *; [apply transforms_ret|]. apply Forall_cons in Hw as [Hk Hw].
  eapply transforms_lift; [exact Hvals|].
  eapply transforms_ext; [|intros c; symmetry; apply write_all_cons].
  eapply transforms_bind; [by apply transforms_write|].
  eapply transforms_ext; [eapply transforms_bind; [by apply write_relations_transforms|apply transforms_ret]|].
  done.
Qed.

Lemma import_rows_transforms t rows result :
  writable (mbind row_writes (pair t <$> rows)) →
  transforms (import_rows t rows result) (counted (pair t <$> rows) result) (write_all (mbind row_writes (pair t <$> rows))).
Proof using Type.
  revert result. induction rows as [|row rows IH]; intros result Hw.
  - destruct result. unfold counted. cbn. rewrite !N.add_0_r. apply transforms_ret.
  - csimpl in Hw. apply Forall_app in Hw as [Hrow Hw]. cbn [import_rows]. eapply transforms_ext.
    + eapply transforms_bind; [by apply write_row_transforms|].
      match goal with |- transforms _ ?r _ => assert (r = counted (pair t <$> rows) (count_row result
        (if row_fits t row then Some (N.of_nat (length (relation_writes t row))) else None))) as -> end; [|by apply IH].
      unfold counted. csimpl. rewrite filter_cons. cbn [fst snd].
      pose proof (length_filter (λ row, row_fits row.1 row.2 = true) (pair t <$> rows)).
      destruct (row_fits t row); [rewrite decide_True by done|rewrite decide_False by done]; csimpl; f_equal;
        unfold nsum; cbn [foldr]; lia.
    + intros c. csimpl. by rewrite write_all_app.
Qed.

Lemma counted_nil result : counted [] result = result.
Proof using Type. destruct result. unfold counted. cbn. by rewrite !N.add_0_r. Qed.

Lemma counted_app rows1 rows2 result : counted (rows1 ++ rows2) result = counted rows2 (counted rows1 result).
Proof using Type.
  unfold counted. cbn [imported_tables imported_rows relationships errors].
  rewrite filter_app, fmap_app, nsum_app, !length_app.
  pose proof (length_filter (λ row : TablePlan * list Expr, row_fits row.1 row.2 = true) rows1).
  pose proof (length_filter (λ row : TablePlan * list Expr, row_fits row.1 row.2 = true) rows2).
  f_equal; lia.
Qed.

Lemma import_statement_transforms plan statement result :
  writable (mbind row_writes (statement_rows plan statement)) →
  transforms (import_statement plan statement result) (counted (statement_rows plan statement) result)
    (write_all (mbind row_writes (statement_rows plan statement))).
Proof using Type.
  assert (∀ r : ImportResult, transforms (S := S) (mret r) (counted [] r) (write_all (mbind row_writes []))) as Hnone.
  { intros r. rewrite counted_nil. apply transforms_ret. }
  intros Hw. unfold import_statement, statement_rows in *. destruct statement as [|insert| | | |]; try apply Hnone.
  destruct (find_table plan _) as [t|]; [|apply Hnone].
  destruct (body <$> source insert) as [[|rows|]|]; try apply Hnone. by apply import_rows_transforms.
Qed.

Lemma import_statements_transforms plan statements result :
  writable (mbind row_writes (import_rows_of plan statements)) →
  transforms (import_statements plan statements result) (counted (import_rows_of plan statements) result)
    (write_all (mbind row_writes (import_rows_of plan statements))).
Proof using Type.
  unfold import_rows_of. revert result. induction statements as [|st statements IH]; intros result Hw.
  - rewrite counted_nil. apply transforms_ret.
  - csimpl in Hw. rewrite bind_app in Hw. apply Forall_app in Hw as [Hst Hw].
    cbn [import_statements]. csimpl. rewrite counted_app. eapply transforms_ext.
    + eapply transforms_bind; [by apply import_statement_transforms|by apply IH].
    + intros c. by rewrite bind_app, write_all_app.
Qed.

Lemma parse_import_transforms statements plan :
  writable (import_writes plan statements) →
  transforms (parse_import statements plan)
    (counted (import_rows_of plan statements) (mkImportResult (N.of_nat (length (tables plan))) 0 0 0))
    (write_all (import_writes plan statements)).
Proof using Type.
  intros [Hw Hrows]%Forall_app. unfold parse_import, import_writes. eapply transforms_ext.
  - eapply (transforms_bind _ _ ()); [|by apply import_statements_transforms].
    unfold schema_writes in *. revert Hw.
    assert (∀ ts : list TablePlan, writable ((λ t, (bs "_schema:" ++ table t, render_schema_entry t)) <$> ts) → transforms (S := S)
      (mfor ts (λ t, write_value (bs "_schema:" ++ table t) (render_schema_entry t))) ()
      (write_all ((λ t, (bs "_schema:" ++ table t, render_schema_entry t)) <$> ts))) as Hs; [|apply Hs].
    induction ts as [|t ts IH]; intros Hw; [apply transforms_ret|]. csimpl in Hw. apply Forall_cons in Hw as [Ht Hw].
    cbn [mfor]. eapply transforms_ext.
    + eapply (transforms_bind _ _ ()); [by apply transforms_write|by apply IH].
    + done.
  - intros c. by rewrite write_all_app.
Qed.

(** C25: what was imported is found by SQL.  After the import of a dump, of any
    statements, every row whose table is in the plan and whose width is the
    table's is counted, and is the answer of a SELECT of its table by its key: the
    primary key values joined by colons select the other values, one per line,
    provided that no other row or relation of the dump was written under the same
    key with another value. *)
Theorem import_then_select statements plan t row sql name column literal rest id w :
  bus_wf (st w) → writable (import_writes plan statements) → (t, row) ∈ import_rows_of plan statements → row_fits t row = true →
  (∀ v, (table_key (table t) (row_key t row), v) ∈ import_writes plan statements → v = row_value t row) →
  Sql.parse_sql GenericDialect sql = Some (select_where name (Some (key_equals column literal)) :: rest) →
  unquoted name = table t → lowercase_is_key column = true → parse_string_value literal = Some (row_key t row) →
  ∃ result w1 w2, parse_import statements plan w = (Returned result, w1) ∧
    imported_rows result = N.of_nat (length (filter (λ r, row_fits r.1 r.2 = true) (import_rows_of plan statements))) ∧
    imported_rows result + errors result = N.of_nat (length (import_rows_of plan statements)) ∧
    parse_query sql id w1 = (Returned [value_reply id (Some (row_value t row))], w2).
Proof using Type.
  intros Hwf Hw Hrow Hfit Huniq Hsql Hname Hcol Hlit.
  destruct (parse_import_transforms statements plan Hw w Hwf) as (w1 & Hrun & Hwf1 & _ & Hc).
  assert ((table_key (table t) (row_key t row), row_value t row) ∈ import_writes plan statements) as Hin.
  { apply elem_of_app. right. apply list_elem_of_bind. exists (t, row). split; [|done].
    unfold row_writes. cbn [fst snd]. rewrite Hfit. by left. }
  destruct (bus_read_law w1 (table_key (table t) (row_key t row)) Hwf1) as (now & w2 & Hr & _).
  rewrite Hc, (write_all_lookup _ _ _ _ Hin Huniq) in Hr by done.
  eexists _, w1, w2. split; [exact Hrun|]. split_and!.
  - unfold counted. cbn [imported_rows]. lia.
  - unfold counted. cbn [imported_rows errors].
    pose proof (length_filter (λ r : TablePlan * list Expr, row_fits r.1 r.2 = true) (import_rows_of plan statements)). lia.
  - unfold parse_query. rewrite Hsql. unfold select_where, parse_select. cbn [body from selection].
    cbn [parse_table_name head mbind option_bind parse_single_table_name relation].
    rewrite (parse_where_key_equals column literal _ Hcol Hlit), Hname. by run_with Hr.
Qed.
End import_runs.

(** * The difference of two archives, applied *)
Section diff_runs.
Context {S : Type} `{TimedBus S, HashOrder}.

(** The entries of the new archive the old one does not have, or not with this
    value: those that are applied. *)
Definition differs (old_entries : gmap bytes bytes) (entry : bytes * bytes) : Prop :=
  entry.1 ≠ meta_path ∧ old_entries !! entry.1 ≠ Some entry.2.
Definition data_path (path : bytes) : Prop := starts_with path (bs "_ttl/") = false.

(** What they write, and the keys they give a time-to-live. *)
Definition diff_writes (old_entries : gmap bytes bytes) (new : list (bytes * bytes)) : list (bytes * bytes) :=
  (λ e : bytes * bytes, (parse_tar_path_to_key e.1, e.2)) <$> filter (λ e, differs old_entries e ∧ data_path e.1) new.
Definition ttl_key (path : bytes) : bytes := replace_first Byte.x2f (bs ":") (default [] (strip_prefix path (bs "_ttl/"))).
Definition ttl_keys (old_entries : gmap bytes bytes) (new : list (bytes * bytes)) : list bytes :=
  (λ e : bytes * bytes, ttl_key e.1) <$> filter (λ e, differs old_entries e ∧ ¬ data_path e.1) new.

(** The paths of the old archive the new one does not have. *)
Definition dropped (new_entries : gmap bytes bytes) (paths : list bytes) : list bytes :=
  filter (λ path, path ≠ meta_path ∧ new_entries !! path = None) paths.

Definition delete_all (keys : list bytes) (c : gmap bytes bytes) : gmap bytes bytes :=
  foldl (λ c k, delete k c) c keys.

Lemma delete_all_lookup keys c k : delete_all keys c !! k = if decide (k ∈ keys) then None else c !! k.
Proof using Type.
  revert c. induction keys as [|k' keys IH]; intros c; [done|].
  change (delete_all (k' :: keys) c) with (delete_all keys (delete k' c)). rewrite IH.
  destruct (decide (k = k')) as [->|Hne].
  - rewrite lookup_delete_eq, (decide_True (P := k' ∈ k' :: keys)) by (by left). by case_decide.
  - rewrite lookup_delete_ne by done. repeat case_decide; try done; exfalso; set_solver.
Qed.

Lemma keywise_delete_all keys : keywise (delete_all keys).
Proof using Type.
  intros k. destruct (decide (k ∈ keys)); [right; exists None|left]; intros c; rewrite delete_all_lookup.
  - by rewrite decide_True.
  - by rewrite decide_False.
Qed.

Lemma write_diff_entry_data key value path :
  data_path path → write_diff_entry (S := S) key value path = write_value key value.
Proof using Type. unfold write_diff_entry. by intros ->. Qed.

(** A number of milliseconds that was parsed is a time-to-live a bus accepts. *)
Lemma parse_u64_millis text n : parse_u64 text = Some n → duration_ok (from_millis n).
Proof using Type.
  intros Hn. apply duration_ok_millis. unfold parse_u64 in Hn. repeat case_match; try done;
    apply bind_Some in Hn as (m & _ & Hm); destruct (N.ltb_spec m (2 ^ 64)); by simplify_eq.
Qed.

Lemma write_diff_entry_ttl ks key value path :
  ¬ data_path path → ttl_key path ∈ ks → transforms_upto (S := S) ks (write_diff_entry key value path) () id.
Proof using Type.
  intros Hp Hk. unfold write_diff_entry. apply not_false_is_true in Hp as ->. cbv zeta. fold (ttl_key path).
  destruct (utf8_valid value); [|apply transforms_upto_intro, transforms_ret].
  destruct (parse_u64 (trim value)) as [ms|] eqn:Hms; [|apply transforms_upto_intro, transforms_ret].
  destruct (0 <? ms); [|apply transforms_upto_intro, transforms_ret].
  apply transforms_upto_ttl; [by eapply parse_u64_millis|done].
Qed.

(** An entry that differs, whichever kind it is. *)
Lemma write_diff_entry_upto ks old_entries path v new :
  differs old_entries (path, v) → writable (S := S) (diff_writes old_entries ((path, v) :: new)) →
  ttl_keys old_entries ((path, v) :: new) ⊆ ks →
  transforms_upto (S := S) ks (write_diff_entry (parse_tar_path_to_key path) v path) ()
    (write_all (diff_writes old_entries [(path, v)])).
Proof using Type.
  intros Hd Hw Hks. unfold diff_writes, ttl_keys in *. rewrite filter_cons in *.
  destruct (decide (data_path path)) as [Hp|Hp].
  - rewrite decide_True in Hw |- * by done. csimpl in Hw. apply Forall_cons in Hw as [Hk _].
    rewrite write_diff_entry_data by done. by apply transforms_upto_intro, transforms_write.
  - rewrite decide_False by (by intros []). rewrite decide_True in Hks by done. csimpl in Hks.
    apply write_diff_entry_ttl; [done|]. set_solver.
Qed.

Lemma apply_new_upto ks old_entries new result :
  writable (S := S) (diff_writes old_entries new) → ttl_keys old_entries new ⊆ ks →
  ∃ result', deletions result' = deletions result ∧
    additions result' + modifications result' =
      additions result + modifications result + N.of_nat (length (filter (differs old_entries) new)) ∧
    transforms_upto (S := S) ks (apply_new old_entries new result) result' (write_all (diff_writes old_entries new)).
Proof using Type.
  revert result. induction new as [|[path v] new IH]; intros result Hw Hks.
  { exists result. split_and!; [done|cbn; lia|apply transforms_upto_intro, transforms_ret]. }
  assert (diff_writes old_entries ((path, v) :: new) = diff_writes old_entries [(path, v)] ++ diff_writes old_entries new) as Hcons.
  { unfold diff_writes. rewrite <- fmap_app, <- filter_app. done. }
  assert (writable (S := S) (diff_writes old_entries new)) as Hw' by (rewrite Hcons in Hw; by apply Forall_app in Hw as [_ ?]).
  assert (ttl_keys old_entries new ⊆ ks) as Hks'.
  { etrans; [|exact Hks]. unfold ttl_keys. rewrite filter_cons. case_decide; set_solver. }
  destruct (decide (differs old_entries (path, v))) as [Hd|Hd].
  - pose proof (write_diff_entry_upto ks old_entries path v new Hd Hw Hks) as Hentry.
    assert (∀ r, deletions r = deletions result →
      additions r + modifications r = additions result + modifications result + 1 →
      ∃ result', deletions result' = deletions result ∧
        additions result' + modifications result' = additions result + modifications result +
          N.of_nat (length (filter (differs old_entries) ((path, v) :: new))) ∧
        transforms_upto ks (write_diff_entry (parse_tar_path_to_key path) v path ;; apply_new old_entries new r) result'
          (write_all (diff_writes old_entries ((path, v) :: new)))) as Hstep.
    { intros r Hdel Ha. destruct (IH r Hw' Hks') as (r' & Hd' & Ha' & Hrun). exists r'.
      split_and!; [congruence|rewrite filter_cons, decide_True by done; cbn [length]; lia|].
      eapply transforms_upto_ext; [eapply transforms_upto_bind; [exact Hentry|apply keywise_write_all|exact Hrun]|].
      intros c. by rewrite Hcons, write_all_app. }
    destruct Hd as [Hm Ho]. cbn [apply_new]. rewrite bool_decide_eq_false_2 by done.
    destruct (old_entries !! path) as [v'|] eqn:E; [rewrite bool_decide_eq_false_2 by (cbn [fst snd] in *; congruence)|];
      apply Hstep; cbn [additions modifications deletions]; lia.
  - assert (diff_writes old_entries [(path, v)] = []) as Hnone.
    { unfold diff_writes. rewrite filter_cons, decide_False by tauto. done. }
    rewrite Hcons, Hnone, app_nil_l, filter_cons, decide_False by done.
    assert (apply_new (S := S) old_entries ((path, v) :: new) result = apply_new old_entries new result) as ->; [|by apply IH].
    cbn [apply_new]. case_bool_decide; [done|]. destruct (decide (old_entries !! path = Some v)) as [->|].
    + by rewrite bool_decide_eq_true_2.
    + by destruct Hd.
Qed.

Lemma delete_old_transforms new_entries paths result :
  ∃ result', additions result' = additions result ∧ modifications result' = modifications result ∧
    deletions result' = deletions result + N.of_nat (length (dropped new_entries paths)) ∧
    transforms (S := S) (delete_old new_entries paths result) result'
      (delete_all (parse_tar_path_to_key <$> dropped new_entries paths)).
Proof using Type.
  revert result. induction paths as [|path paths IH]; intros result.
  - exists result. split_and!; [done|done|cbn; lia|apply transforms_ret].
  - cbn [delete_old]. unfold dropped. rewrite filter_cons. fold (dropped new_entries paths).
    case_bool_decide as Hskip.
    + rewrite decide_False; [apply IH|]. intros [Hm Hn]. destruct Hskip as [|[? ?]]; congruence.
    + rewrite decide_True; [|split; [tauto|apply eq_None_not_Some; tauto]].
      destruct (IH (mkDiffResult (additions result) (modifications result) (deletions result + 1)))
        as (r & Ha & Hm & Hd & Hrun).
      exists r. split_and!; [done|done|cbn [length deletions] in *; lia|].
      eapply transforms_ext; [eapply (transforms_bind _ _ ()); [by apply transforms_delete|exact Hrun]|done].
Qed.

Lemma elem_of_diff_writes old_entries new_entries k v :
  (k, v) ∈ diff_writes old_entries (hash_iter new_entries) ↔
  ∃ path, k = parse_tar_path_to_key path ∧ new_entries !! path = Some v ∧ differs old_entries (path, v) ∧ data_path path.
Proof using Type.
  unfold diff_writes. rewrite list_elem_of_fmap. split.
  - intros ([path v'] & [= -> ->] & [[Hd Hp] Hin]%list_elem_of_filter). rewrite hash_iter_perm, elem_of_map_to_list in Hin.
    by exists path.
  - intros (path & -> & Hn & Hd & Hp). exists (path, v). split; [done|]. apply list_elem_of_filter.
    by rewrite hash_iter_perm, elem_of_map_to_list.
Qed.

Lemma elem_of_ttl_keys old_entries new_entries k :
  k ∈ ttl_keys old_entries (hash_iter new_entries) ↔
  ∃ path v, k = ttl_key path ∧ new_entries !! path = Some v ∧ differs old_entries (path, v) ∧ ¬ data_path path.
Proof using Type.
  unfold ttl_keys. rewrite list_elem_of_fmap. split.
  - intros ([path v] & -> & [[Hd Hp] Hin]%list_elem_of_filter). rewrite hash_iter_perm, elem_of_map_to_list in Hin.
    by exists path, v.
  - intros (path & v & -> & Hn & Hd & Hp). exists (path, v). split; [done|]. apply list_elem_of_filter.
    by rewrite hash_iter_perm, elem_of_map_to_list.
Qed.

Lemma elem_of_dropped old_entries new_entries path :
  path ∈ dropped new_entries (hash_iter old_entries).*1 ↔
  is_Some (old_entries !! path) ∧ path ≠ meta_path ∧ new_entries !! path = None.
Proof using Type.
  unfold dropped. rewrite list_elem_of_filter, hash_iter_perm, list_elem_of_fmap. split.
  - intros [[Hm Hn] ([p v] & -> & Hin%elem_of_map_to_list)]. cbn [fst] in *. split_and!; [by exists v|done|done].
  - intros ([v Hv] & Hm & Hn). split; [done|]. exists (path, v). by rewrite elem_of_map_to_list.
Qed.

(** The entries that are applied, as writes the bus has a place for. *)
Definition diff_writable (old_entries new_entries : gmap bytes bytes) : Prop :=
  ∀ path v, new_entries !! path = Some v → differs old_entries (path, v) → data_path path →
    bus_writable (S := S) (parse_tar_path_to_key path).

Lemma apply_diff_upto old_entries new_entries :
  diff_writable old_entries new_entries →
  ∃ result,
    transforms_upto (S := S) (ttl_keys old_entries (hash_iter new_entries)) (apply_diff old_entries new_entries) result (λ c,
      delete_all (parse_tar_path_to_key <$> dropped new_entries (hash_iter old_entries).*1)
        (write_all (diff_writes old_entries (hash_iter new_entries)) c)) ∧
    additions result + modifications result =
      N.of_nat (length (filter (differs old_entries) (map_to_list new_entries))) ∧
    deletions result = N.of_nat (length (dropped new_entries (map_to_list old_entries).*1)).
Proof using Type.
  intros Hwr.
  destruct (apply_new_upto (ttl_keys old_entries (hash_iter new_entries)) old_entries (hash_iter new_entries)
    (mkDiffResult 0 0 0)) as (r1 & Hd1 & Ha1 & Hrun1); [|done|].
  { apply Forall_forall. intros [k v] (path & -> & Hp & Hd & Hdp)%elem_of_diff_writes. by eapply Hwr. }
  destruct (delete_old_transforms new_entries (hash_iter old_entries).*1 r1) as (r2 & Ha2 & Hm2 & Hd2 & Hrun2).
  exists r2. split_and!.
  - unfold apply_diff. eapply transforms_upto_bind; [exact Hrun1|apply keywise_delete_all|by apply transforms_upto_intro].
  - rewrite Ha2, Hm2, Ha1. cbn [additions modifications]. by rewrite (hash_iter_perm new_entries).
  - rewrite Hd2, Hd1. cbn [deletions]. unfold dropped. by rewrite (hash_iter_perm old_entries).
Qed.

(** A path whose entry was added, changed or dropped. *)
Definition touched_path (old_entries new_entries : gmap bytes bytes) (path : bytes) : Prop :=
  (∃ v, new_entries !! path = Some v ∧ differs old_entries (path, v) ∧ data_path path) ∨
  (is_Some (old_entries !! path) ∧ path ≠ meta_path ∧ new_entries !! path = None).

(** C28: what the difference of two archives does to a store, in whatever order the
    entries are visited.  Every added or changed entry shows with its new value, no
    dropped one shows, and every other key is as it was; but a key that an added or
    changed time-to-live entry names may also expire, or live on, with that value:
    whether it does is left to the order.  The entries are counted.  The bus must
    have a place for the keys that are written, and no two of the paths that differ
    may be one key. *)
Theorem diff_import_applies (old_entries new_entries : gmap bytes bytes) w :
  let touched := touched_path old_entries new_entries in
  let ttl := ttl_keys old_entries (hash_iter new_entries) in
  bus_wf (st w) → diff_writable old_entries new_entries →
  (∀ path path', touched path → touched path' → parse_tar_path_to_key path = parse_tar_path_to_key path' → path = path') →
  ∃ result w', apply_diff old_entries new_entries w = (Returned result, w') ∧ bus_wf (st w') ∧
    (∀ path v t, new_entries !! path = Some v → differs old_entries (path, v) → data_path path → sample (tick w') ≤ t →
       let key := parse_tar_path_to_key path in
       bus_contents (st w') t !! key = Some v ∨ key ∈ ttl ∧ bus_contents (st w') t !! key = None) ∧
    (∀ path t, path ≠ meta_path → is_Some (old_entries !! path) → new_entries !! path = None →
       sample (tick w') ≤ t → bus_contents (st w') t !! parse_tar_path_to_key path = None) ∧
    (∀ k t, (∀ path, touched path → k ≠ parse_tar_path_to_key path) → sample (tick w') ≤ t →
       bus_contents (st w') t !! k = bus_contents (st w) t !! k ∨
       k ∈ ttl ∧ (bus_contents (st w') t !! k = None ∨
         ∃ t', sample (tick w) ≤ t' ≤ t ∧ bus_contents (st w') t !! k = bus_contents (st w) t' !! k)) ∧
    additions result + modifications result =
      N.of_nat (length (filter (differs old_entries) (map_to_list new_entries))) ∧
    deletions result = N.of_nat (length (dropped new_entries (map_to_list old_entries).*1)).
Proof using Type.
  intros touched ttl Hwf Hwr Hinj.
  destruct (apply_diff_upto old_entries new_entries Hwr) as (result & Hrun & Hcounts).
  destruct (Hrun w Hwf) as (w' & Hw & Hwf' & Ht' & Hc). clear Hrun.
  exists result, w'. split_and!; [exact Hw|done| | | |apply Hcounts..].
  - intros path v t Hp Hd Hdp Ht key.
    assert (∀ c, delete_all (parse_tar_path_to_key <$> dropped new_entries (hash_iter old_entries).*1)
      (write_all (diff_writes old_entries (hash_iter new_entries)) c) !! key = Some v) as Hf.
    { intros c. rewrite delete_all_lookup, decide_False.
      - apply write_all_lookup; [apply elem_of_diff_writes; by exists path|].
        intros v' (path' & Heq & Hp' & Hd' & Hdp')%elem_of_diff_writes.
        apply Hinj in Heq as ->; [congruence|left; by exists v|left; by exists v'].
      - intros (path' & Heq & Hx%elem_of_dropped)%list_elem_of_fmap.
        apply Hinj in Heq as ->; [destruct Hx as (_ & _ & Hx); congruence|left; by exists v|by right]. }
    destruct (Hc t key Ht) as [Hoff Hon]. rewrite Hf in Hoff. destruct (decide (key ∈ ttl)) as [Hin|Hn]; [|left; by apply Hoff].
    destruct Hon as [Hon|(t' & _ & Hon)]; [by right|left]. by rewrite Hon, Hf.
  - intros path t Hm Ho Hn Ht. destruct (Hc t (parse_tar_path_to_key path) Ht) as [_ [Hon|(t' & _ & ->)]]; [done|].
    rewrite delete_all_lookup, decide_True; [done|]. apply list_elem_of_fmap. exists path.
    split; [done|]. by apply elem_of_dropped.
  - intros k t Hk Ht.
    assert (∀ c, delete_all (parse_tar_path_to_key <$> dropped new_entries (hash_iter old_entries).*1)
      (write_all (diff_writes old_entries (hash_iter new_entries)) c) !! k = c !! k) as Hf.
    { intros c. rewrite delete_all_lookup, decide_False, write_all_other; [done|..].
      - intros ([k' v'] & Heq & (path' & -> & Hp' & Hd' & Hdp')%elem_of_diff_writes)%list_elem_of_fmap. cbn [fst] in Heq.
        apply (Hk path'); [left; by exists v'|done].
      - intros (path' & Heq & Hx%elem_of_dropped)%list_elem_of_fmap. apply (Hk path'); [by right|done]. }
    destruct (Hc t k Ht) as [Hoff Hon]. rewrite Hf in Hoff. destruct (decide (k ∈ ttl)) as [Hin|Hn]; [|left; by apply Hoff].
    right. split; [done|]. destruct Hon as [Hon|(t' & Hle & Hon)]; [by left|right]. exists t'. by rewrite Hon, Hf.
Qed.

(** C39: the order in which the entries of an archive are visited decides whether a
    key expires.  A new key and its time-to-live entry, visited in this order, make
    the key expire when the time-to-live says; visited in the other, the
    time-to-live is given to a key that is not there, and the key is there for
    good.  A hash map may give either order. *)
Theorem diff_import_ttl_order path v text ms w :
  let key := parse_tar_path_to_key path in
  let ttl_path := bs "_ttl/" ++ path in
  bus_wf (st w) → bus_writable key → data_path path → path ≠ meta_path →
  key = replace_first Byte.x2f (bs ":") path → utf8_valid text = true → parse_u64 (trim text) = Some ms → 0 < ms →
  (∀ t, sample (tick w) ≤ t → bus_contents (st w) t !! key = None) →
  (∃ result w', apply_new ∅ [(path, v); (ttl_path, text)] (mkDiffResult 0 0 0) w = (Returned result, w') ∧
     ∃ i, sample (tick w) + from_millis ms ≤ i ≤ sample (tick w') + from_millis ms ∧
       ∀ t, sample (tick w') ≤ t → bus_contents (st w') t !! key = if decide (t < i) then Some v else None) ∧
  (∃ result w', apply_new ∅ [(ttl_path, text); (path, v)] (mkDiffResult 0 0 0) w = (Returned result, w') ∧
     ∀ t, sample (tick w') ≤ t → bus_contents (st w') t !! key = Some v).
Proof using Type.
  intros key ttl_path Hwf Hk Hdata Hm Hkey Hu Hms Hpos Hnone.
  pose proof (parse_u64_millis _ _ Hms) as Hd.
  assert (∀ k, write_diff_entry (S := S) k text ttl_path = write_ttl key (from_millis ms)) as Httl.
  { intros k. unfold write_diff_entry, ttl_path. rewrite (proj2 (starts_with_app _ _)) by (by eexists).
    rewrite strip_prefix_app. change (default [] (Some path)) with path. rewrite Hu, Hms, <- Hkey. by rewrite (proj2 (N.ltb_lt _ _)). }
  assert (bool_decide (ttl_path = meta_path) = false) as Hmt by (apply bool_decide_eq_false; done).
  assert (bool_decide (path = meta_path) = false) as Hmp by (by apply bool_decide_eq_false).
  split.
  - destruct (bus_write_law w key v Hwf Hk) as (n1 & w1 & Hr1 & Ht1 & Hwf1 & Hn1 & Hc1).
    destruct (bus_write_ttl_law w1 key (from_millis ms) Hwf1 Hd) as (n2 & w2 & Hr2 & Ht2 & Hwf2 & Hn2 & Hc2).
    eexists _, w2. split.
    + cbn [apply_new]. rewrite Hmp, Hmt, !lookup_empty, (write_diff_entry_data _ v path Hdata), Httl.
      fold key. run_with Hr1. run_with Hr2. reflexivity.
    + pose proof (sample_mono _ _ Ht1). pose proof (sample_mono _ _ Ht2).
      exists (n2 + from_millis ms). split; [lia|]. intros t Ht. rewrite Hc2 by lia.
      rewrite (Hc1 n2), lookup_insert_eq by lia. rewrite expiring_lookup. by rewrite decide_True.
  - destruct (bus_write_ttl_law w key (from_millis ms) Hwf Hd) as (n1 & w1 & Hr1 & Ht1 & Hwf1 & Hn1 & Hc1).
    destruct (bus_write_law w1 key v Hwf1 Hk) as (n2 & w2 & Hr2 & Ht2 & Hwf2 & Hn2 & Hc2).
    eexists _, w2. split.
    + cbn [apply_new]. rewrite Hmp, Hmt, !lookup_empty, (write_diff_entry_data _ v path Hdata), Httl.
      fold key. run_with Hr1. run_with Hr2. reflexivity.
    + intros t Ht. rewrite Hc2 by lia. apply lookup_insert_eq.
Qed.
End diff_runs.

(** ** Concrete runs *)

#[export] Instance ascii_tables : UnicodeTables | 100 := {| unicode_alphanumeric _ := false |}.
#[export] Program Instance listed_order : HashOrder | 100 := {| hash_iter := map_to_list |}.
Next Obligation. done. Qed.

(** A dump of one table with two rows. *)
Definition dump_statements : list Statement :=
  [CreateTableStatement (mkCreateTable (bs "user")
     [mkColumnDef (bs "id") (bs "INT") [Unique true]; mkColumnDef (bs "name") (bs "TEXT") [];
      mkColumnDef (bs "city") (bs "TEXT") []]
     [ForeignKey [bs "city"] (bs "city") [bs "name"]]);
   InsertStatement (mkInsert (bs "user") (Some (mkSqlQuery (Values
     [[ValueExpr (Number (bs "42") false); text_literal "Ada"; text_literal "London"];
      [ValueExpr (Number (bs "7") false); text_literal "Bob"; ValueExpr Null]]))))].
Definition dump_plan : StoragePlan := analyse_statements dump_statements.
Definition dump_table : TablePlan := default (mkTablePlan [] [] [] [] None) (head (tables dump_plan)).
Definition dump_row : list Expr := [ValueExpr (Number (bs "42") false); text_literal "Ada"; text_literal "London"].

Lemma dump_rows : import_rows_of dump_plan dump_statements =
  [(dump_table, dump_row); (dump_table, [ValueExpr (Number (bs "7") false); text_literal "Bob"; ValueExpr Null])].
Proof. vm_compute. reflexivity. Qed.

Lemma dump_writes : import_writes dump_plan dump_statements =
  [(bs "_schema:user", mjoin ((λ l, bs l ++ newline) <$> ["id:INT:pk"; "name:TEXT"; "city:TEXT:fk=city.name"]%string));
   (bs "user:42", join newline [bs "Ada"; bs "London"]); (bs "_rel:city:London:user:42", []);
   (bs "user:7", join newline [bs "Bob"; []]); (bs "_rel:city::user:7", [])].
Proof. vm_compute. reflexivity. Qed.

Lemma import_then_select_witness :
  ∃ result w1 w2, parse_import dump_statements dump_plan example_world = (Returned result, w1) ∧
    imported_rows result = 2 ∧ imported_rows result + errors result = 2 ∧
    parse_query sql_text_select 8 w1 = (Returned [value_reply 8 (Some (join newline [bs "Ada"; bs "London"]))], w2).
Proof.
  apply (import_then_select dump_statements dump_plan dump_table dump_row sql_text_select (bs "user") (bs "key")
    (text_literal "42") [] 8 example_world); try (vm_compute; reflexivity).
  - apply example_world_wf.
  - apply Forall_forall. intros e _. exact I.
  - rewrite dump_rows. by left.
  - intros v. rewrite dump_writes. assert (table_key (table dump_table) (row_key dump_table dump_row) = bs "user:42") as ->
      by (vm_compute; reflexivity).
    assert (row_value dump_table dump_row = join newline [bs "Ada"; bs "London"]) as -> by (vm_compute; reflexivity).
    intros Hin. repeat (apply elem_of_cons in Hin as [Hin|Hin]; [by injection Hin|]). by apply elem_of_nil in Hin.
Defined.

(** Two archives: a value changed, one dropped, one added with a time-to-live. *)
Definition archive_old : gmap bytes bytes := {[ bs "user/7" := bs "Bob"; bs "user/8" := bs "Zoe" ]}.
Definition archive_new : gmap bytes bytes :=
  {[ bs "user/7" := bs "Rob"; bs "user/9" := bs "Eve"; bs "_ttl/user/9" := bs "5000" ]}.

Lemma example_touched path : touched_path archive_old archive_new path →
  path = bs "user/7" ∨ path = bs "user/8" ∨ path = bs "user/9".
Proof.
  intros [(v & Hn & _ & Hd)|([v Ho] & _)].
  - unfold archive_new in Hn. apply lookup_insert_Some in Hn as [[<- _]|[_ Hn]]; [by left|].
    apply lookup_insert_Some in Hn as [[<- _]|[_ [<- _]%lookup_singleton_Some]]; [by right; right|discriminate Hd].
  - unfold archive_old in Ho. apply lookup_insert_Some in Ho as [[<- _]|[_ [<- _]%lookup_singleton_Some]]; [by left|by right; left].
Qed.

Lemma diff_import_applies_witness :
  let ttl := ttl_keys archive_old (hash_iter archive_new) in
  ∃ result w', apply_diff archive_old archive_new example_world = (Returned result, w') ∧ bus_wf (st w') ∧
    (∀ path v t, archive_new !! path = Some v → differs archive_old (path, v) → data_path path → sample (tick w') ≤ t →
       let key := parse_tar_path_to_key path in
       bus_contents (st w') t !! key = Some v ∨ key ∈ ttl ∧ bus_contents (st w') t !! key = None) ∧
    (∀ path t, path ≠ meta_path → is_Some (archive_old !! path) → archive_new !! path = None →
       sample (tick w') ≤ t → bus_contents (st w') t !! parse_tar_path_to_key path = None) ∧
    (∀ k t, (∀ path, touched_path archive_old archive_new path → k ≠ parse_tar_path_to_key path) → sample (tick w') ≤ t →
       bus_contents (st w') t !! k = bus_contents (st example_world) t !! k ∨
       k ∈ ttl ∧ (bus_contents (st w') t !! k = None ∨
         ∃ t', sample (tick example_world) ≤ t' ≤ t ∧ bus_contents (st w') t !! k = bus_contents (st example_world) t' !! k)) ∧
    additions result + modifications result =
      N.of_nat (length (filter (differs archive_old) (map_to_list archive_new))) ∧
    deletions result = N.of_nat (length (dropped archive_new (map_to_list archive_old).*1)).
Proof.
  apply (diff_import_applies archive_old archive_new example_world).
  - apply example_world_wf.
  - intros path v _ _ _. exact I.
  - intros path path' Hp Hp'. apply example_touched in Hp as [-> |[-> | ->]], Hp' as [-> |[-> | ->]];
      first [reflexivity|intros He; vm_compute in He; discriminate He].
Defined.

Lemma diff_import_ttl_order_witness :
  let key := bs "user:7" in
  (∃ result w', apply_new ∅ [(bs "user/7", bs "Bob"); (bs "_ttl/user/7", bs "5000")] (mkDiffResult 0 0 0) example_world =
      (Returned result, w') ∧
     ∃ i, sample 0 + from_millis 5000 ≤ i ≤ sample (tick w') + from_millis 5000 ∧
       ∀ t, sample (tick w') ≤ t → bus_contents (st w') t !! key = if decide (t < i) then Some (bs "Bob") else None) ∧
  (∃ result w', apply_new ∅ [(bs "_ttl/user/7", bs "5000"); (bs "user/7", bs "Bob")] (mkDiffResult 0 0 0) example_world =
      (Returned result, w') ∧
     ∀ t, sample (tick w') ≤ t → bus_contents (st w') t !! key = Some (bs "Bob")).
Proof.
  apply (diff_import_ttl_order (bs "user/7") (bs "Bob") (bs "5000") 5000 example_world); try done.
  apply example_world_wf.
Defined.
