(* ===== verification/Export.v ===== *)
(** The export module, src/modules/export.rs: the store as an archive, and as SQL
    statements in a dialect.  What was imported is exported, and the lines of
    different rows differ. *)
From stdpp Require Import prelude gmap sorting strings.
From Stdlib Require Import NArith Lia.
From S2P Require Import Prelude.
From S2P Require Import Bytes.
From S2P Require Import Text.
From S2P Require Import BTree.
From S2P Require Import Clock.
From S2P Require Import TimedMap.
From S2P Require Import Store.
From S2P Require Import Tric.
From S2P Require Import DataBus.
From S2P Require Import BusSpec.
From S2P Require Import Instances.
From S2P Require Import Codec.
From S2P Require Import Replies.
From S2P Require Import Sql.
From S2P Require Import Query.
From S2P Require Import Files.
From S2P Require Import Analyser.
From S2P Require Import Import.

Record ExportResult : Type := mkExportResult { entries : N; bytes_written : N }.

(** * The schema entry *)

Record SchemaColumn : Type := mkSchemaColumn { schema_type : bytes; is_pk : bool }.

Definition parse_schema_columns (schema : bytes) : list SchemaColumn :=
  (λ line, let parts := split_on Byte.x3a line in
           mkSchemaColumn (default (bs "TEXT") (parts !! 1%nat)) (bool_decide (bs "pk" ∈ parts))) <$>
  filter (λ line, line ≠ []) (lines schema).

(** * SQL text *)

Definition map_type_to_dialect (tric_type dialect : bytes) : bytes :=
  let upper := ascii_uppercase tric_type in
  if bool_decide ((upper = bs "INT" ∨ upper = bs "INTEGER") ∧ dialect = bs "sqlite") then bs "INTEGER"
  else if bool_decide (upper = bs "BOOLEAN" ∧ dialect = bs "mysql") then bs "TINYINT(1)"
  else if bool_decide (upper = bs "BOOLEAN" ∧ dialect = bs "sqlite") then bs "INTEGER"
  else if bool_decide ((upper = bs "TIMESTAMP" ∨ upper = bs "DATETIME") ∧ dialect = bs "sqlite") then bs "TEXT"
  else tric_type.

Definition back_quote : bytes := [Byte.x60].
Definition double_quote : bytes := [Byte.x22].
Definition single_quote : bytes := [Byte.x27].

Definition quote_table_name (name dialect : bytes) : bytes :=
  if bool_decide (dialect = bs "mysql") then back_quote ++ name ++ back_quote else name.

Definition quote_column_name (name dialect : bytes) : bytes :=
  if bool_decide (dialect = bs "mysql") then back_quote ++ name ++ back_quote
  else if bool_decide (dialect = bs "postgres") then double_quote ++ name ++ double_quote
  else name.

Definition build_create_table (table_name schema dialect : bytes) : bytes :=
  let rows := split_on Byte.x3a <$> filter (λ line, line ≠ []) (lines schema) in
  let col_name parts := default (bs "unknown") (head parts) in
  let columns := (λ parts,
    bs "    " ++ quote_column_name (col_name parts) dialect ++ bs " " ++
    map_type_to_dialect (default (bs "TEXT") (parts !! 1%nat)) dialect) <$> rows in
  let pk_columns := col_name <$> filter (λ parts, bs "pk" ∈ parts) rows in
  let columns :=
    if bool_decide (pk_columns = []) then columns
    else
      let pk_list := join (bs ", ") ((λ column, quote_column_name column dialect) <$> pk_columns) in
      columns ++ [bs "    PRIMARY KEY (" ++ pk_list ++ bs ")"] in
  bs "CREATE TABLE " ++ quote_table_name table_name dialect ++ bs " (" ++ newline ++
  join (bs "," ++ newline) columns ++ newline ++ bs ");".

(** The types whose values are written without quotes. *)
Definition is_numeric_type (data_type : bytes) : bool :=
  let upper_type := ascii_uppercase data_type in
  existsb (starts_with upper_type) [bs "INT"; bs "DECIMAL"; bs "NUMERIC"; bs "REAL"; bs "FLOAT"; bs "DOUBLE"].

Definition format_sql_value (value data_type : bytes) : bytes :=
  if is_numeric_type data_type then (if bool_decide (value = []) then bs "NULL" else value)
  else if bool_decide (value = []) then bs "NULL"
  else single_quote ++ replace_byte Byte.x27 (single_quote ++ single_quote) value ++ single_quote.

(** The loop over the columns: a key column takes the key, another the next part
    of the value, while there is one. *)
Fixpoint row_values (columns : list SchemaColumn) (pk_value : bytes) (value_parts : list bytes) : list bytes :=
  match columns with
  | [] => []
  | c :: columns =>
      if is_pk c then format_sql_value pk_value (schema_type c) :: row_values columns pk_value value_parts
      else match value_parts with
           | part :: value_parts => format_sql_value part (schema_type c) :: row_values columns pk_value value_parts
           | [] => row_values columns pk_value []
           end
  end.

(** [&s[i..]]: panics unless a character starts at the index, or the string ends. *)
Definition str_from (s : bytes) (i : N) : Outcome bytes :=
  match s !! N.to_nat i with
  | Some b => if continuation b then Panicked else mret (bdrop i s)
  | None => if i =? blen s then mret [] else Panicked
  end.

Definition insert_line (table_name dialect : bytes) (columns : list SchemaColumn) (row : bytes * bytes) :
  Outcome bytes :=
  let key_str := from_utf8_lossy row.1 in
  pk_value ← str_from key_str (blen table_name + 1);
  let value_parts := split_on Byte.x0a (from_utf8_lossy row.2) in
  mret (bs "INSERT INTO " ++ quote_table_name table_name dialect ++ bs " VALUES (" ++
        join (bs ", ") (row_values columns pk_value value_parts) ++ bs ");" ++ newline).

Section export.
Context {S : Type} `{Clock, !DataBus S, FileSystem, Archives}.

(** The text of one table, and the number of its rows. *)
Definition export_table (dialect : bytes) (schema : bytes * bytes) : M (World S) (bytes * N) :=
  let table_name := from_utf8_lossy (default schema.1 (strip_prefix schema.1 (bs "_schema:"))) in
  let schema_str := from_utf8_lossy schema.2 in
  rows ← find_by_prefix (table_name ++ bs ":");
  inserts ← lift_outcome (mapM (insert_line table_name dialect (parse_schema_columns schema_str)) rows);
  mret (build_create_table table_name schema_str dialect ++ newline ++ mjoin inserts, N.of_nat (length rows)).

(** The result, and the file that was written. *)
Definition write_sql_file (path dialect : bytes) : M (World S) (bytes + (ExportResult * bytes)) :=
  match file_create path with
  | Some error => mret (inl (bs "cannot create " ++ path ++ bs ": " ++ error))
  | None =>
      schemas ← find_by_prefix (bs "_schema:");
      tables ← mmap (export_table dialect) schemas;
      mret (inr (mkExportResult (nsum tables.*2) (nsum ((λ e : bytes * bytes, blen e.2) <$> schemas)), mjoin tables.*1))
  end.

(** * The archive *)

(** [write_tar_entry], on the entries appended so far. *)
Definition write_tar_entry (archive : list (bytes * bytes)) (path data : bytes) : bytes + list (bytes * bytes) :=
  match append_error path with
  | Some error => inl (bs "tar append " ++ path ++ bs " failed: " ++ error)
  | None => inr (archive ++ [(path, data)])
  end.

(** The path of the entry of a key. *)
Definition export_path (key_str : bytes) : bytes :=
  match strip_prefix key_str (bs "_schema:") with
  | Some table_name => bs "_schema/" ++ table_name
  | None =>
      match strip_prefix key_str (bs "_rel:") with
      | Some rel_name => bs "_rel/" ++ rel_name
      | None => replace_byte Byte.x3a (bs "/") key_str
      end
  end.

(** What one key adds: its entry, and, if it is no schema and no relation, one for
    its time-to-live if it has one.  An error ends the export, and keeps what was
    appended before. *)
Definition export_entry (archive : list (bytes * bytes)) (entry : bytes * bytes) :
  M (World S) (option bytes * list (bytes * bytes)) :=
  let '(key, value) := entry in
  let key_str := from_utf8_lossy key in
  let tar_path := export_path key_str in
  let appended data :=
    match write_tar_entry archive tar_path data with
    | inl error => (Some error, archive)
    | inr archive => (None, archive)
    end in
  if starts_with key_str (bs "_schema:") then mret (appended value)
  else if starts_with key_str (bs "_rel:") then mret (appended [])
  else
    match appended value with
    | (Some error, archive) => mret (Some error, archive)
    | (None, archive) =>
        ttl_remaining ← read_ttl_remaining key;
        match ttl_remaining with
        | Some remaining =>
            let ttl_path := bs "_ttl/" ++ replace_byte Byte.x3a (bs "/") key_str in
            match write_tar_entry archive ttl_path (decimal (as_millis remaining)) with
            | inl error => mret (Some error, archive)
            | inr archive => mret (None, archive)
            end
        | None => mret (None, archive)
        end
    end.

Fixpoint export_entries (archive : list (bytes * bytes)) (pairs : list (bytes * bytes)) (result : ExportResult) :
  M (World S) ((bytes + ExportResult) * list (bytes * bytes)) :=
  match pairs with
  | [] => mret (inr result, archive)
  | row :: pairs =>
      appended ← export_entry archive row;
      match appended with
      | (Some error, archive) => mret (inl error, archive)
      | (None, archive) =>
          export_entries archive pairs
            (mkExportResult (entries result + 1) (bytes_written result + (blen row.1 + blen row.2)))
      end
  end.

Definition write_tar_contents : M (World S) ((bytes + ExportResult) * list (bytes * bytes)) :=
  match write_tar_entry [] meta_path (bs "tric+1") with
  | inl error => mret (inl error, [])
  | inr archive =>
      all_entries ← find_by_prefix [];
      export_entries archive all_entries (mkExportResult 1 0)
  end.

(** The result, and the file: a builder that is dropped after an error still
    finishes its archive. *)
Definition write_tric_archive (path : bytes) (debug_uncompressed : bool) :
  M (World S) ((bytes + ExportResult) * option bytes) :=
  match file_create path with
  | Some error => mret (inl (bs "cannot create " ++ path ++ bs ": " ++ error), None)
  | None =>
      written ← write_tar_contents;
      mret (written.1, Some (archive_file (if debug_uncompressed then Plain else Brotli) written.2))
  end.
End export.

(** * The schema entry is read back *)

(** A part of a line of the entry that stays one part. *)
Definition plain_part (p : bytes) : Prop :=
  Byte.x3a ∉ p ∧ Byte.x0a ∉ p ∧ Byte.x0d ∉ p ∧ p ≠ bs "pk" ∧ utf8_valid p = true.

(** The names, types and references of a table leave the lines and colons of its
    schema entry alone, and none of its columns or types is called pk. *)
Record plain_table (t : TablePlan) : Prop := {
  plain_columns : Forall (λ c, plain_part (Analyser.name c) ∧ plain_part (data_type c)) (columns t);
  plain_references : Forall (λ fk, plain_part (references_table fk) ∧ plain_part (references_column fk)) (foreign_keys t);
}.

Definition schema_parts (t : TablePlan) (c : ColumnPlan) : list bytes :=
  [Analyser.name c; data_type c] ++
  (if is_primary_key c then [bs "pk"] else []) ++
  match list_find (λ fk, column fk = Analyser.name c) (foreign_keys t) with
  | Some (_, fk) => [bs "fk=" ++ references_table fk ++ bs "." ++ references_column fk]
  | None => []
  end ++
  (if bool_decide (ttl_column t = Some (Analyser.name c)) then [bs "ttl"] else []).

Lemma schema_line_join t c : schema_line t c = join (bs ":") (schema_parts t c).
Proof.
  unfold schema_line, schema_parts. destruct (is_primary_key c), (list_find _ _) as [[i fk]|], (bool_decide _);
    cbn [app join]; rewrite ?app_nil_r; repeat rewrite <- ?app_assoc; done.
Qed.

(** The parts have no colon and no line break, and tell a key column. *)
Lemma schema_parts_plain t c : plain_table t → c ∈ columns t →
  Forall (λ p, Byte.x3a ∉ p ∧ Byte.x0a ∉ p ∧ Byte.x0d ∉ p) (schema_parts t c) ∧
  (bs "pk" ∈ schema_parts t c ↔ is_primary_key c = true).
Proof.
  intros [Hc Hf] Hin. rewrite Forall_forall in Hc. rewrite Forall_forall in Hf.
  destruct (Hc c Hin) as [(Hn1 & Hn2 & Hn3 & Hn4 & _) (Ht1 & Ht2 & Ht3 & Ht4 & _)].
  assert (∀ fk, fk ∈ foreign_keys t → let p := bs "fk=" ++ references_table fk ++ bs "." ++ references_column fk in
    Byte.x3a ∉ p ∧ Byte.x0a ∉ p ∧ Byte.x0d ∉ p) as Hfk.
  { intros fk Hfk. destruct (Hf fk Hfk) as [(?&?&?&_) (?&?&?&_)]. cbv zeta. rewrite !not_elem_of_app.
    split_and!; try done; by apply (bool_decide_unpack _); vm_compute. }
  unfold schema_parts. split.
  - rewrite !Forall_app. split_and!; [by repeat constructor| | |].
    + destruct (is_primary_key c); repeat constructor; by apply (bool_decide_unpack _); vm_compute.
    + destruct (list_find _ _) as [[i fk]|] eqn:E; repeat constructor; apply Hfk;
        apply list_find_Some in E as [E _]; by eapply list_elem_of_lookup_2.
    + destruct (bool_decide _); repeat constructor; by apply (bool_decide_unpack _); vm_compute.
  - rewrite !elem_of_app. split.
    + intros [Hp|[Hp|[Hp|Hp]]].
      * apply elem_of_cons in Hp as [Hp|Hp]; [done|]. by apply list_elem_of_singleton in Hp.
      * by destruct (is_primary_key c); [|apply elem_of_nil in Hp].
      * destruct (list_find _ _) as [[i fk]|]; [by apply list_elem_of_singleton in Hp|by apply elem_of_nil in Hp].
      * destruct (bool_decide _); [by apply list_elem_of_singleton in Hp|by apply elem_of_nil in Hp].
    + intros ->. right; left. by left.
Qed.

Lemma schema_line_plain t c : plain_table t → c ∈ columns t →
  Byte.x0a ∉ schema_line t c ∧ Byte.x0d ∉ schema_line t c ∧ schema_line t c ≠ [].
Proof.
  intros Ht Hc. destruct (schema_parts_plain t c Ht Hc) as [Hall _]. rewrite Forall_forall in Hall.
  split_and!; [rewrite schema_line_join..|].
  - intros [Hb|(p & Hp & Hb)]%elem_of_join; [by apply list_elem_of_singleton in Hb|by destruct (Hall p Hp) as (?&?&?)].
  - intros [Hb|(p & Hp & Hb)]%elem_of_join; [by apply list_elem_of_singleton in Hb|by destruct (Hall p Hp) as (?&?&?)].
  - unfold schema_line. by destruct (Analyser.name c).
Qed.

Lemma split_schema_line t c : plain_table t → c ∈ columns t →
  split_on Byte.x3a (schema_line t c) = schema_parts t c.
Proof.
  intros Ht Hc. rewrite schema_line_join. apply split_on_join; [done|].
  eapply Forall_impl; [apply (schema_parts_plain t c Ht Hc)|]. by intros p (? & _).
Qed.

Lemma schema_lines t : plain_table t → lines (render_schema_entry t) = schema_line t <$> columns t.
Proof.
  intros Ht. unfold render_schema_entry. unfold newline.
  assert ((λ c, schema_line t c ++ [Byte.x0a]) <$> columns t = (λ l, l ++ [Byte.x0a]) <$> (schema_line t <$> columns t)) as ->
    by (by rewrite <- list_fmap_compose).
  rewrite lines_ended.
  - rewrite <- list_fmap_compose. apply list_fmap_ext. intros i c Hc. apply list_elem_of_lookup_2 in Hc.
    cbn. apply strip_cr_plain. intros [l Hl]%last_Some. destruct (schema_line_plain t c Ht Hc) as (_ & Hcr & _).
    apply Hcr. rewrite Hl. apply elem_of_app. right. by left.
  - apply Forall_fmap, Forall_forall. intros c Hc. by apply schema_line_plain.
Qed.

(** The schema entry is read back: the type of every column, in order, and whether
    it belongs to the key. *)
Lemma parse_render_schema t : plain_table t →
  parse_schema_columns (render_schema_entry t) =
  (λ c, mkSchemaColumn (data_type c) (is_primary_key c)) <$> columns t.
Proof.
  intros Ht. unfold parse_schema_columns. rewrite schema_lines by done.
  rewrite filter_all.
  - rewrite <- list_fmap_compose. apply list_fmap_ext. intros i c Hc. apply list_elem_of_lookup_2 in Hc. cbn.
    rewrite split_schema_line by done. destruct (schema_parts_plain t c Ht Hc) as [_ Hpk]. f_equal.
    apply eq_bool_prop_intro. by rewrite bool_decide_spec, Hpk, Is_true_true.
  - apply Forall_fmap, Forall_forall. intros c Hc. by apply (schema_line_plain t c Ht Hc).
Qed.

Lemma render_schema_utf8 t : plain_table t → utf8_valid (render_schema_entry t) = true.
Proof.
  intros [Hc Hf]. unfold render_schema_entry. rewrite Forall_forall in Hf. induction Hc as [|c cs [Hn Hd] Hc IH]; [done|].
  destruct Hn as (_ & _ & _ & _ & Hn), Hd as (_ & _ & _ & _ & Hd). csimpl. rewrite utf8_valid_app; [done|].
  unfold schema_line. repeat (rewrite utf8_valid_app; [|done]).
  destruct (is_primary_key c); repeat (rewrite utf8_valid_app; [|done]);
    destruct (list_find _ _) as [[i fk]|] eqn:E; cbn [app].
  all: try (apply list_find_Some in E as [E%list_elem_of_lookup_2 _];
    destruct (Hf fk E) as [(_ & _ & _ & _ & ?) (_ & _ & _ & _ & ?)]).
  all: repeat (rewrite <- ?app_assoc, utf8_valid_app; [|done]); by destruct (bool_decide _).
Qed.

(** * The rows *)

Lemma str_from_app p r : utf8_valid r = true → str_from (p ++ r) (blen p) = Returned r.
Proof.
  intros Hr. unfold str_from. rewrite bdrop_app. unfold blen at 1. rewrite Nat2N.id, lookup_app_r, Nat.sub_diag by lia.
  destruct r as [|b r]; cbn [lookup list_lookup].
  - by rewrite app_nil_r, N.eqb_refl.
  - by rewrite (utf8_head b r).
Qed.

(** The INSERT of a row with this key and these values. *)
Definition insert_text (table_name dialect : bytes) (literals : list bytes) : bytes :=
  bs "INSERT INTO " ++ quote_table_name table_name dialect ++ bs " VALUES (" ++ join (bs ", ") literals ++ bs ");" ++ newline.

(** No key of the table makes the slice panic. *)
Lemma insert_line_ok table_name dialect columns rest value :
  utf8_valid table_name = true →
  insert_line table_name dialect columns (table_name ++ bs ":" ++ rest, value) =
  Returned (insert_text table_name dialect
    (row_values columns (from_utf8_lossy rest) (split_on Byte.x0a (from_utf8_lossy value)))).
Proof.
  intros Hu. unfold insert_line. cbn [fst snd]. rewrite !from_utf8_lossy_app by done. rewrite app_assoc.
  replace (blen table_name + 1) with (blen (table_name ++ bs ":")) by (by rewrite blen_app).
  by rewrite str_from_app by apply from_utf8_lossy_utf8.
Qed.

(** The values of a row that has one for each column, when the key columns all have
    the key. *)
Lemma row_values_zip (cols : list ColumnPlan) (vals : list bytes) pk_value extra :
  length vals = length cols → (∀ c v, (c, v) ∈ zip cols vals → is_primary_key c = true → v = pk_value) →
  row_values ((λ c, mkSchemaColumn (data_type c) (is_primary_key c)) <$> cols) pk_value
    ((filter (λ cv, is_primary_key cv.1 = false) (zip cols vals)).*2 ++ extra) =
  zip_with (λ c v, format_sql_value v (data_type c)) cols vals.
Proof.
  revert vals. induction cols as [|c cols IH]; intros [|v vals] Hl Hpk; try done. injection Hl as Hl. csimpl.
  rewrite filter_cons. cbn [fst]. destruct (is_primary_key c) eqn:E.
  - rewrite decide_False by done. rewrite IH by (try done; intros; by eapply Hpk; [right|]).
    by rewrite <- (Hpk c v) by (try done; by left).
  - rewrite decide_True by done. csimpl. f_equal. apply IH; [done|]. intros. by eapply Hpk; [right|].
Qed.

(** A table with one key column. *)
Record single_key (t : TablePlan) (pk : bytes) : Prop := {
  single_primary : primary_key t = [pk];
  single_columns c : c ∈ columns t → is_primary_key c = bool_decide (Analyser.name c = pk);
  single_names : NoDup (Analyser.name <$> columns t);
}.

Section rows.
Context `{SqlParser}.

Lemma values_at_zip (before values : list Expr) (cols : list ColumnPlan) :
  length values = length cols →
  values_at (before ++ values)
    (filter (λ ic, is_primary_key ic.2 = false) (imap (λ i c, ((length before + i)%nat, c)) cols)).*1 =
  (filter (λ cv, is_primary_key cv.1 = false) (zip cols (parse_value <$> values))).*2.
Proof.
  revert before values. induction cols as [|c cols IH]; intros before [|e values] Hl; try done. injection Hl as Hl.
  csimpl. rewrite !filter_cons. cbn [fst snd].
  assert (imap ((λ i c, ((length before + i)%nat, c)) ∘ Datatypes.S) cols =
    imap (λ i c, ((length (before ++ [e]) + i)%nat, c)) cols) as ->.
  { apply imap_ext. intros i x _. cbn. rewrite length_app. cbn. f_equal. lia. }
  specialize (IH (before ++ [e]) values Hl). rewrite <- app_assoc in IH. cbn [app] in IH.
  destruct (is_primary_key c); [by rewrite !decide_False by done|]. rewrite !decide_True by done.
  csimpl. rewrite <- IH. unfold values_at. rewrite Nat.add_0_r.
  apply (omap_cons_Some (λ i, parse_value <$> (before ++ e :: values) !! i)). by rewrite list_lookup_middle.
Qed.

Lemma values_at_value_indices t row : length row = length (columns t) →
  values_at row (value_indices t) =
  (filter (λ cv, is_primary_key cv.1 = false) (zip (columns t) (parse_value <$> row))).*2.
Proof. intros Hl. apply (values_at_zip [] row (columns t) Hl). Qed.

(** The key of a row of such a table is the value of its key column. *)
Lemma single_key_value t pk row c v :
  single_key t pk → row_fits t row = true → (c, v) ∈ zip (columns t) (parse_value <$> row) → is_primary_key c = true →
  v = row_key t row.
Proof.
  intros [Hp Hc Hn] Hfit [i Hi]%list_elem_of_lookup Hpk. apply lookup_zip_Some in Hi as [Hci Hvi].
  assert (Analyser.name c = pk) as Hname by (rewrite Hc in Hpk by (by eapply list_elem_of_lookup_2); by apply bool_decide_eq_true in Hpk).
  assert (column_position t pk = Some i) as Hpos.
  { unfold column_position. assert (list_find (λ c, Analyser.name c = pk) (columns t) = Some (i, c)) as ->; [|done].
    apply list_find_Some. split_and!; [done|done|]. intros j y Hj Hlt Hy.
    assert (j = i); [|lia]. eapply (NoDup_lookup (Analyser.name <$> columns t)); [done| |].
    - by rewrite list_lookup_fmap, Hj.
    - rewrite list_lookup_fmap, Hci. cbn. by rewrite Hname, Hy. }
  unfold row_key, key_indices. rewrite Hp. csimpl. rewrite Hpos. csimpl.
  rewrite list_lookup_fmap in Hvi. by rewrite Hvi.
Qed.

(** The literals of a row, in the order of the columns. *)
Definition row_literals (t : TablePlan) (row : list Expr) : list bytes :=
  zip_with (λ c e, format_sql_value (parse_value e) (data_type c)) (columns t) row.

(** The values of a row that one line each can hold. *)
Definition exportable_row (t : TablePlan) (row : list Expr) : Prop :=
  Forall (λ e, utf8_valid (parse_value e) = true) row ∧
  ∀ c e, (c, e) ∈ zip (columns t) row → is_primary_key c = false → Byte.x0a ∉ parse_value e.

(** The row is exported with the values it was imported with. *)
Lemma insert_line_row t pk dialect row :
  plain_table t → utf8_valid (table t) = true → single_key t pk → row_fits t row = true → exportable_row t row →
  insert_line (table t) dialect (parse_schema_columns (from_utf8_lossy (render_schema_entry t)))
    (table_key (table t) (row_key t row), row_value t row) =
  Returned (insert_text (table t) dialect (row_literals t row)).
Proof.
  intros Ht Hu Hsk Hfit [Hutf Hlf]. pose proof (render_schema_utf8 t Ht) as Hus. pose proof Hfit as [Hlen _]%andb_true_iff. apply Nat.eqb_eq in Hlen.
  unfold table_key. rewrite insert_line_ok by done. do 3 f_equal.
  rewrite from_utf8_lossy_valid, parse_render_schema by done.
  rewrite Forall_forall in Hutf.
  assert (Forall (λ v, utf8_valid v = true ∧ Byte.x0a ∉ v) (values_at row (value_indices t))) as Hvals.
  { rewrite values_at_value_indices by done. apply Forall_fmap, Forall_forall.
    intros [c v] [Hpk Hin]%list_elem_of_filter. cbn [fst snd compose] in *.
    rewrite zip_with_fmap_r in Hin. apply elem_of_lookup_zip_with in Hin as (i & c' & e & [= -> ->] & Hc & He).
    split; [apply Hutf; by eapply list_elem_of_lookup_2|]. apply (Hlf c'); [|done].
    apply elem_of_lookup_zip_with. by exists i, c', e. }
  assert (utf8_valid (row_key t row) = true) as Hk.
  { unfold row_key. apply utf8_valid_join; [done|]. apply Forall_forall.
    intros v (i & _ & (e & He & ->)%fmap_Some)%list_elem_of_omap. apply Hutf. by eapply list_elem_of_lookup_2. }
  rewrite (from_utf8_lossy_valid (row_key t row)) by done. unfold row_value.
  rewrite from_utf8_lossy_valid by (apply utf8_valid_join; [done|]; eapply Forall_impl; [exact Hvals|]; by intros ? []).
  assert (row_literals t row = zip_with (λ c v, format_sql_value v (data_type c)) (columns t) (parse_value <$> row)) as ->
    by (unfold row_literals; by rewrite zip_with_fmap_r).
  assert (∃ extra, split_on Byte.x0a (join newline (values_at row (value_indices t))) =
    values_at row (value_indices t) ++ extra) as [extra ->].
  { destruct (decide (values_at row (value_indices t) = [])) as [-> | Hne]; [by exists [[]]|]. exists [].
    rewrite app_nil_r. apply split_on_join; [done|]. eapply Forall_impl; [exact Hvals|]. by intros ? []. }
  rewrite values_at_value_indices by done. apply row_values_zip; [by rewrite length_fmap|].
  intros c v Hin Hpk. by eapply single_key_value.
Qed.
End rows.

(** * A run of the SQL export *)

Lemma mapM_Returned {A B} (f : A → Outcome B) l :
  (∀ x, x ∈ l → ∃ y, f x = Returned y) →
  ∃ ys, mapM f l = Returned ys ∧ ∀ x y, x ∈ l → f x = Returned y → y ∈ ys.
Proof.
  induction l as [|x l IH]; intros Hf; [by exists []; split; [|intros x y []%elem_of_nil]|].
  destruct (Hf x) as [y Hy]; [by left|]. destruct IH as (ys & Hys & Hin); [intros; apply Hf; by right|].
  exists (y :: ys). cbn [mapM]. rewrite Hy. cbn. rewrite Hys. split; [done|].
  intros x' y' [-> |Hx]%elem_of_cons Hx'; [rewrite Hy in Hx'; injection Hx' as <-; by left|]. right. by eapply Hin.
Qed.

Lemma elem_of_mjoin_bytes (l : list bytes) x : x ∈ l → ∃ a b, mjoin l = a ++ x ++ b.
Proof.
  intros (l1 & l2 & ->)%list_elem_of_split. exists (mjoin l1), (mjoin l2). by rewrite join_app.
Qed.

Section sql_runs.
Context {S : Type} `{TimedBus S, SqlParser, FileSystem, UnicodeTables}.

(** The text of one table has the line of every row that shows. *)
Lemma export_table_observes dialect schema w : bus_wf (st w) →
  let table_name := from_utf8_lossy (default schema.1 (strip_prefix schema.1 (bs "_schema:"))) in
  let schema_str := from_utf8_lossy schema.2 in
  observes (export_table dialect schema) w (λ r,
    (∃ b, r.1 = build_create_table table_name schema_str dialect ++ newline ++ b) ∧
    ∀ rest v line, shows w (table_name ++ bs ":" ++ rest) v →
      insert_line table_name dialect (parse_schema_columns schema_str) (table_name ++ bs ":" ++ rest, v) = Returned line →
      ∃ a b, r.1 = a ++ line ++ b).
Proof using Type.
  intros Hwf table_name schema_str.
  destruct (find_by_prefix_observes w (table_name ++ bs ":") Hwf) as (rows & w' & Hr & -> & Hwf' & Ht & Hc).
  set (rows := prefix_entries _ _) in *.
  destruct (mapM_Returned (insert_line table_name dialect (parse_schema_columns schema_str)) rows) as (ls & Hls & Hin).
  { intros [k v] Hkv. apply elem_of_prefix_entries in Hkv as [(rest & ->)%starts_with_app _].
    rewrite <- app_assoc. eexists. apply insert_line_ok, from_utf8_lossy_utf8. }
  eexists _, w'. split; [unfold export_table; fold table_name schema_str; run_with Hr; rewrite Hls; reflexivity|].
  split_and!; [by eexists| |done..]. intros rest v line Hs Hl.
  destruct (elem_of_mjoin_bytes ls line) as (a & b & ->).
  { eapply Hin; [|exact Hl]. apply elem_of_prefix_entries. split; [|apply Hs; lia].
    apply starts_with_app. exists rest. by rewrite <- app_assoc. }
  exists (build_create_table table_name schema_str dialect ++ newline ++ a), b. cbn [fst]. by rewrite <- !app_assoc.
Qed.

(** The export of a bus that shows a table's schema entry has its CREATE TABLE, and
    the line of each of its rows that shows. *)
Lemma write_sql_file_observes path dialect nm sv w :
  file_create path = None → bus_wf (st w) → utf8_valid nm = true → shows w (bs "_schema:" ++ nm) sv →
  observes (write_sql_file path dialect) w (λ r,
    ∃ result file, r = inr (result, file) ∧
    (∃ a b, file = a ++ build_create_table nm (from_utf8_lossy sv) dialect ++ newline ++ b) ∧
    ∀ rest v line, shows w (nm ++ bs ":" ++ rest) v →
      insert_line nm dialect (parse_schema_columns (from_utf8_lossy sv)) (nm ++ bs ":" ++ rest, v) = Returned line →
      ∃ a b, file = a ++ line ++ b).
Proof using Type.
  intros Hpath Hwf Hu Hs.
  destruct (find_by_prefix_observes w (bs "_schema:") Hwf) as (schemas & w1 & Hr & -> & Hwf1 & Ht1 & Hc1).
  set (schemas := prefix_entries _ _) in *. pose proof (sample_mono _ _ Ht1).
  assert ((bs "_schema:" ++ nm, sv) ∈ schemas) as Hin.
  { apply elem_of_prefix_entries. split; [apply starts_with_app; by exists nm|apply Hs; lia]. }
  assert (from_utf8_lossy (default (bs "_schema:" ++ nm) (strip_prefix (bs "_schema:" ++ nm) (bs "_schema:"))) = nm) as Hnm
    by (rewrite strip_prefix_app; by apply from_utf8_lossy_valid).
  destruct (mmap_observes (export_table dialect)
    (λ r, (∃ b, r.1 = build_create_table nm (from_utf8_lossy sv) dialect ++ newline ++ b) ∧
       ∀ rest v line, shows w (nm ++ bs ":" ++ rest) v →
         insert_line nm dialect (parse_schema_columns (from_utf8_lossy sv)) (nm ++ bs ":" ++ rest, v) = Returned line →
         ∃ a b, r.1 = a ++ line ++ b)
    (λ w', (tick w ≤ tick w')%nat ∧ ∀ t, sample (tick w') ≤ t → bus_contents (st w') t = bus_contents (st w) t)
    schemas (bs "_schema:" ++ nm, sv) w1) as (tables & w2 & Htab & HQ & Hwf2 & Ht2 & Hc2); [|..].
  - intros x w' Hw'. destruct (export_table_observes dialect x w' Hw') as (r & w'' & Hrun & [Hcr Hl] & ? & ? & ?).
    exists r, w''. split_and!; try done. intros [Htw Hcw] ->. cbn [fst snd] in *. rewrite Hnm in *. split; [done|].
    intros rest v line Hsh. apply Hl. by eapply shows_later.
  - intros w' w'' [Ht' Hc'] Ht'' Hc''. pose proof (sample_mono _ _ Ht''). split; [lia|]. intros t Hle.
    rewrite Hc'', Hc' by lia. done.
  - done.
  - destruct HQ as (r & Hr' & (b & Hcr) & Hl); [done|done|]. pose proof (sample_mono _ _ Ht2).
    destruct (elem_of_mjoin_bytes tables.*1 r.1) as (a & b' & Hfile); [by apply list_elem_of_fmap_2|].
    eexists _, w2. split; [unfold write_sql_file; rewrite Hpath; run_with Hr; run_with Htab; reflexivity|].
    split_and!; [|done|lia|intros t Hle; rewrite Hc2, Hc1 by lia; done].
    eexists _, _. split; [done|]. rewrite Hfile. split.
    + exists a, (b ++ b'). by rewrite Hcr, <- !app_assoc.
    + intros rest v line Hsh Hline. destruct (Hl rest v line Hsh Hline) as (a1 & b1 & ->).
      exists (a ++ a1), (b1 ++ b'). by rewrite <- !app_assoc.
Qed.

(** C26: what was imported is exported.  After the import of a dump, the SQL export
    in any dialect returns, and its file has, for a table with one key column, the
    CREATE TABLE statement of the schema entry, and for each imported row of the
    table an INSERT with the literals of its values, in the order of the columns;
    provided that names and types keep clear of colons, line breaks and the word
    pk, the values other than the key of line feeds, and no other row or relation of
    the dump was written under the same key with another value. *)
Theorem import_then_export statements plan t pk row path dialect w :
  bus_wf (st w) → writable (import_writes plan statements) →
  t ∈ tables plan → (t, row) ∈ import_rows_of plan statements → row_fits t row = true →
  (∀ v, (table_key (table t) (row_key t row), v) ∈ import_writes plan statements → v = row_value t row) →
  (∀ v, (bs "_schema:" ++ table t, v) ∈ import_writes plan statements → v = render_schema_entry t) →
  plain_table t → utf8_valid (table t) = true → single_key t pk → exportable_row t row → file_create path = None →
  ∃ result w1 exported file w2, parse_import statements plan w = (Returned result, w1) ∧
    write_sql_file path dialect w1 = (Returned (inr (exported, file)), w2) ∧
    (∃ a b, file = a ++ build_create_table (table t) (render_schema_entry t) dialect ++ newline ++ b) ∧
    (∃ a b, file = a ++ insert_text (table t) dialect (row_literals t row) ++ b).
Proof using Type.
  intros Hwf Hw Ht Hrow Hfit Huniq Huniqs Hplain Hu Hsk Hex Hpath.
  destruct (parse_import_transforms statements plan Hw w Hwf) as (w1 & Hrun & Hwf1 & _ & Hc).
  assert (shows w1 (table_key (table t) (row_key t row)) (row_value t row)) as Hsr.
  { intros t' Ht'. rewrite Hc by done. apply write_all_lookup; [|done]. apply elem_of_app. right.
    apply list_elem_of_bind. exists (t, row). split; [|done]. unfold row_writes. cbn [fst snd]. rewrite Hfit. by left. }
  assert (shows w1 (bs "_schema:" ++ table t) (render_schema_entry t)) as Hss.
  { intros t' Ht'. rewrite Hc by done. apply write_all_lookup; [|done]. apply elem_of_app. left.
    apply list_elem_of_fmap. by exists t. }
  destruct (write_sql_file_observes path dialect (table t) (render_schema_entry t) w1 Hpath Hwf1 Hu Hss)
    as (r & w2 & Hr & (exported & file & -> & Hcr & Hl) & _).
  rewrite (from_utf8_lossy_valid (render_schema_entry t)) in * by (by apply render_schema_utf8).
  eexists _, w1, exported, file, w2. split_and!; [exact Hrun|exact Hr|exact Hcr|].
  apply (Hl (row_key t row) (row_value t row)); [exact Hsr|].
  rewrite <- (from_utf8_lossy_valid (render_schema_entry t)) by (by apply render_schema_utf8).
  by apply (insert_line_row t pk).
Qed.
End sql_runs.

(** * The lines of different rows *)

(** What may follow a literal: no quote. *)
Definition literal_ends (rest : bytes) : Prop := head rest ≠ Some Byte.x27.

(** A text whose quotes are doubled ends where a quote is not. *)
Lemma doubled_quotes_inj v1 v2 r1 r2 : literal_ends r1 → literal_ends r2 →
  replace_byte Byte.x27 (single_quote ++ single_quote) v1 ++ single_quote ++ r1 =
  replace_byte Byte.x27 (single_quote ++ single_quote) v2 ++ single_quote ++ r2 → v1 = v2 ∧ r1 = r2.
Proof.
  unfold literal_ends, replace_byte, single_quote. intros Hr1 Hr2.
  revert v2. induction v1 as [|b1 v1 IH]; intros [|b2 v2] Heq; csimpl in Heq; rewrite <- ?app_assoc in Heq.
  - by injection Heq.
  - case_bool_decide; simplify_eq/=; done.
  - case_bool_decide; simplify_eq/=; done.
  - destruct (decide (b1 = Byte.x27)), (decide (b2 = Byte.x27)); repeat case_bool_decide; simplify_eq/=; try done;
      match goal with E : _ |- _ => by destruct (IH v2 E) as [-> ->] end.
Qed.

Lemma format_sql_value_inj v1 v2 ty1 ty2 r1 r2 :
  is_numeric_type ty1 = false → is_numeric_type ty2 = false → literal_ends r1 → literal_ends r2 →
  format_sql_value v1 ty1 ++ r1 = format_sql_value v2 ty2 ++ r2 → v1 = v2 ∧ r1 = r2.
Proof.
  unfold format_sql_value. intros -> -> Hr1 Hr2. repeat case_bool_decide; try done; rewrite <- ?app_assoc.
  - intros Heq%app_inv_head. by subst.
  - intros Heq%app_inv_head. by apply doubled_quotes_inj in Heq.
Qed.

(** A list of literals ends at the parenthesis behind it. *)
Definition textual (l : list (bytes * bytes)) : Prop := Forall (λ vt, is_numeric_type vt.2 = false) l.
Definition literals (l : list (bytes * bytes)) : list bytes := (λ vt, format_sql_value vt.1 vt.2) <$> l.

Lemma literals_cons x l rest : literal_ends rest →
  ∃ rest', join (bs ", ") (literals (x :: l)) ++ rest = format_sql_value x.1 x.2 ++ rest' ∧ literal_ends rest' ∧
    rest' = match l with [] => rest | _ => bs ", " ++ join (bs ", ") (literals l) ++ rest end.
Proof.
  intros Hr. destruct l as [|y l]; [by exists rest|]. exists (bs ", " ++ join (bs ", ") (literals (y :: l)) ++ rest). split_and!; [|done..].
  change (join (bs ", ") (literals (x :: y :: l))) with
    (format_sql_value x.1 x.2 ++ bs ", " ++ join (bs ", ") (literals (y :: l))).
  by rewrite <- !app_assoc.
Qed.

Lemma literals_inj l1 l2 r1 r2 : textual l1 → textual l2 →
  join (bs ", ") (literals l1) ++ bs ");" ++ r1 = join (bs ", ") (literals l2) ++ bs ");" ++ r2 → l1.*1 = l2.*1.
Proof.
  assert (∀ r, literal_ends (bs ");" ++ r)) as Hend by done.
  assert (∀ x l r r', is_numeric_type x.2 = false → join (bs ", ") (literals (x :: l)) ++ bs ");" ++ r ≠ bs ");" ++ r') as Hne.
  { intros x l r r' Hx. destruct (literals_cons x l (bs ");" ++ r) (Hend r)) as (rest & -> & _).
    unfold format_sql_value. rewrite Hx. by case_bool_decide. }
  intros H1. revert l2. induction H1 as [|x1 l1 Hx1 H1 IH]; intros [|x2 l2] H2 Heq; [done|..].
  - apply Forall_cons in H2 as [Hx2 _]. by destruct (Hne x2 l2 r2 r1 Hx2).
  - by destruct (Hne x1 l1 r1 r2 Hx1).
  - apply Forall_cons in H2 as [Hx2 H2].
    destruct (literals_cons x1 l1 _ (Hend r1)) as (t1 & E1 & Ht1 & Et1), (literals_cons x2 l2 _ (Hend r2)) as (t2 & E2 & Ht2 & Et2).
    rewrite E1, E2 in Heq. apply format_sql_value_inj in Heq as [Hv Ht]; [|done..]. rewrite Et1, Et2 in Ht.
    csimpl. f_equal; [done|]. destruct l1 as [|y1 l1], l2 as [|y2 l2]; try done.
    apply app_inv_head in Ht. by apply (IH (y2 :: l2)).
Qed.

(** The values of the literals of a row, with the types of their columns. *)
Fixpoint row_pairs (columns : list SchemaColumn) (pk_value : bytes) (parts : list bytes) : list (bytes * bytes) :=
  match columns with
  | [] => []
  | c :: columns =>
      if is_pk c then (pk_value, schema_type c) :: row_pairs columns pk_value parts
      else match parts with
           | part :: parts => (part, schema_type c) :: row_pairs columns pk_value parts
           | [] => row_pairs columns pk_value []
           end
  end.

Lemma row_pairs_ok columns pk_value parts :
  row_values columns pk_value parts = literals (row_pairs columns pk_value parts) ∧
  (Forall (λ c, is_numeric_type (schema_type c) = false) columns → textual (row_pairs columns pk_value parts)).
Proof.
  revert parts. induction columns as [|c columns IH]; intros parts; [by split; [|constructor]|]. cbn [row_values row_pairs].
  destruct (is_pk c); [|destruct parts as [|p parts]].
  - destruct (IH parts) as [-> Ht]. split; [done|]. intros [? ?]%Forall_cons. constructor; [done|by apply Ht].
  - destruct (IH []) as [-> Ht]. split; [done|]. intros [? ?]%Forall_cons. by apply Ht.
  - destruct (IH parts) as [-> Ht]. split; [done|]. intros [? ?]%Forall_cons. constructor; [done|by apply Ht].
Qed.

(** The columns that take a part of the value. *)
Definition value_columns (columns : list SchemaColumn) : list SchemaColumn := filter (λ c, is_pk c = false) columns.

Lemma length_row_pairs columns pk_value parts : (length parts ≤ length (value_columns columns))%nat →
  length (row_pairs columns pk_value parts) = (length (filter (λ c, is_pk c = true) columns) + length parts)%nat.
Proof.
  unfold value_columns. revert parts. induction columns as [|c columns IH]; intros parts; [simpl; lia|].
  cbn [row_pairs]. rewrite !filter_cons. destruct (is_pk c).
  - rewrite decide_False, decide_True by done. intros Hl. cbn [length]. rewrite IH by done. lia.
  - rewrite decide_True, decide_False by done. intros Hl. destruct parts as [|p parts]; cbn [length] in *.
    + rewrite IH by (simpl; lia). simpl. lia.
    + rewrite IH by lia. lia.
Qed.

Lemma row_pairs_inj columns pk1 pk2 parts1 parts2 :
  length parts1 = length parts2 → (length parts1 ≤ length (value_columns columns))%nat →
  (row_pairs columns pk1 parts1).*1 = (row_pairs columns pk2 parts2).*1 →
  (Exists (λ c, is_pk c = true) columns → pk1 = pk2) ∧ parts1 = parts2.
Proof.
  unfold value_columns. revert parts1 parts2. induction columns as [|c columns IH]; intros parts1 parts2 Hl Hle Heq.
  { simpl in Hle. destruct parts1, parts2; try done; [|simpl in Hle; lia]. split; [by intros ?%Exists_nil|done]. }
  rewrite filter_cons in Hle. cbn [row_pairs] in Heq. destruct (is_pk c) eqn:Ec.
  - rewrite decide_False in Hle by done. csimpl in Heq. injection Heq as -> Heq. by destruct (IH parts1 parts2 Hl Hle Heq) as [_ ->].
  - rewrite decide_True in Hle by done. destruct parts1 as [|p1 parts1], parts2 as [|p2 parts2]; try done.
    + destruct (IH [] [] eq_refl ltac:(simpl; lia) Heq) as [Hpk _]. split; [|done]. intros [?|?]%Exists_cons; [congruence|auto].
    + csimpl in Heq. injection Heq as -> Heq. injection Hl as Hl. simpl in Hle.
      destruct (IH parts1 parts2 Hl ltac:(lia) Heq) as [Hpk ->]. split; [|done]. intros [?|?]%Exists_cons; [congruence|auto].
Qed.

(** C37: the INSERT lines of different rows differ, and neither begins a text that
    begins with the other: whatever quotes, commas, parentheses or line feeds its
    values have, no row of textual columns is exported as another row, or as another
    row and more.  The rows are compared as text, that is after the lossy
    conversion; the table has a key column, and as many other columns as the values
    have lines. *)
Theorem insert_lines_differ table_name dialect schema k1 v1 k2 v2 rest1 rest2 :
  let columns := parse_schema_columns schema in
  let fits v := (length (split_on Byte.x0a (from_utf8_lossy v)) ≤ length (value_columns columns))%nat in
  utf8_valid table_name = true → Forall (λ c, is_numeric_type (schema_type c) = false) columns →
  Exists (λ c, is_pk c = true) columns → fits v1 → fits v2 →
  ∃ line1 line2,
    insert_line table_name dialect columns (table_key table_name k1, v1) = Returned line1 ∧
    insert_line table_name dialect columns (table_key table_name k2, v2) = Returned line2 ∧
    (line1 ++ rest1 = line2 ++ rest2 →
     from_utf8_lossy k1 = from_utf8_lossy k2 ∧ from_utf8_lossy v1 = from_utf8_lossy v2).
Proof.
  intros columns fits Hu Htext Hpk Hf1 Hf2. unfold fits in Hf1, Hf2.
  eexists _, _. split_and!; [by apply insert_line_ok..|]. unfold insert_text. rewrite <- !app_assoc.
  intros Heq. do 3 apply app_inv_head in Heq.
  destruct (row_pairs_ok columns (from_utf8_lossy k1) (split_on Byte.x0a (from_utf8_lossy v1))) as [E1 T1].
  destruct (row_pairs_ok columns (from_utf8_lossy k2) (split_on Byte.x0a (from_utf8_lossy v2))) as [E2 T2].
  rewrite E1, E2 in Heq. apply literals_inj in Heq; [|auto..].
  pose proof (f_equal length Heq) as Hlen. rewrite !length_fmap, !length_row_pairs in Hlen by done.
  apply row_pairs_inj in Heq as [Hk Hv]; [|lia|done]. split; [auto|].
  apply (f_equal (join [Byte.x0a])) in Hv. by rewrite !join_split_on in Hv.
Qed.

(** ** Concrete runs *)

Lemma dump_table_plain : plain_table dump_table.
Proof.
  split; repeat (apply Forall_cons; split); try apply Forall_nil; split; split_and!;
    first [discriminate|reflexivity|by apply (bool_decide_unpack _); vm_compute].
Qed.

Lemma import_then_export_witness :
  ∃ result w1 exported file w2, parse_import dump_statements dump_plan example_world = (Returned result, w1) ∧
    write_sql_file (bs "/tmp/store.sql") (bs "sqlite") w1 = (Returned (inr (exported, file)), w2) ∧
    (∃ a b, file = a ++ build_create_table (bs "user") (render_schema_entry dump_table) (bs "sqlite") ++ newline ++ b) ∧
    (∃ a b, file = a ++ (bs "INSERT INTO user VALUES (42, 'Ada', 'London');" ++ newline) ++ b).
Proof.
  apply (import_then_export dump_statements dump_plan dump_table (bs "id") dump_row (bs "/tmp/store.sql") (bs "sqlite")
    example_world); try (vm_compute; reflexivity).
  - apply example_world_wf.
  - apply Forall_forall. intros e _. exact I.
  - by left.
  - rewrite dump_rows. by left.
  - intros v. rewrite dump_writes. assert (table_key (table dump_table) (row_key dump_table dump_row) = bs "user:42") as ->
      by (vm_compute; reflexivity).
    assert (row_value dump_table dump_row = join newline [bs "Ada"; bs "London"]) as -> by (vm_compute; reflexivity).
    intros Hin. repeat (apply elem_of_cons in Hin as [Hin|Hin]; [by injection Hin|]). by apply elem_of_nil in Hin.
  - intros v. rewrite dump_writes. intros Hin.
    apply elem_of_cons in Hin as [Hin|Hin]; [injection Hin as ->; vm_compute; reflexivity|].
    repeat (apply elem_of_cons in Hin as [Hin|Hin]; [discriminate Hin|]). by apply elem_of_nil in Hin.
  - apply dump_table_plain.
  - split; [reflexivity| |by apply (bool_decide_unpack _); vm_compute].
    apply Forall_forall. repeat constructor.
  - split; [repeat constructor|]. intros c e Hin _. cbn in Hin.
    repeat (apply elem_of_cons in Hin as [Hin|Hin]; [injection Hin as _ ->; by apply (bool_decide_unpack _); vm_compute|]).
    by apply elem_of_nil in Hin.
Defined.

Lemma insert_lines_differ_witness :
  let columns := parse_schema_columns (bs "id:TEXT:pk" ++ newline ++ bs "name:TEXT" ++ newline) in
  ∃ line1 line2,
    insert_line (bs "user") (bs "sqlite") columns (table_key (bs "user") (bs "7"), bs "Bob');--") = Returned line1 ∧
    insert_line (bs "user") (bs "sqlite") columns (table_key (bs "user") (bs "7"), bs "Bob") = Returned line2 ∧
    (line1 ++ [] = line2 ++ bs "--');" →
     from_utf8_lossy (bs "7") = from_utf8_lossy (bs "7") ∧ from_utf8_lossy (bs "Bob');--") = from_utf8_lossy (bs "Bob")).
Proof.
  apply (insert_lines_differ (bs "user") (bs "sqlite") (bs "id:TEXT:pk" ++ newline ++ bs "name:TEXT" ++ newline)
    (bs "7") (bs "Bob');--") (bs "7") (bs "Bob") [] (bs "--');")).
  - reflexivity.
  - apply (bool_decide_unpack _). vm_compute. exact I.
  - apply (bool_decide_unpack _). vm_compute. exact I.
  - apply (bool_decide_unpack _). vm_compute. exact I.
  - apply (bool_decide_unpack _). vm_compute. exact I.
Defined.
