(* ===== verification/Transfer.v ===== *)
(** From store to store through an archive: what the export (export.rs) writes is
    what the diff import (import.rs) reads.  Which keys keep their name on the way,
    and that a store all of whose keys do is copied, but for what expires. *)
From stdpp Require Import prelude gmap sorting strings.
From Stdlib Require Import NArith Lia.
From S2P Require Import Prelude.
From S2P Require Import Bytes.
From S2P Require Import Text.
From S2P Require Import BTree.
From S2P Require Import Clock.
From S2P Require Import TimedMap.
From S2P Require Import Store.
From S2P Require Import Tric.
From S2P Require Import DataBus.
From S2P Require Import BusSpec.
From S2P Require Import Instances.
From S2P Require Import Codec.
From S2P Require Import Replies.
From S2P Require Import Sql.
From S2P Require Import Query.
From S2P Require Import Analyser.
From S2P Require Import Files.
From S2P Require Import Import.
From S2P Require Import Export.

(** * Keys and paths *)

(** At most one colon, and no slash before it, or none at all. *)
Definition plain_key (key : bytes) : bool :=
  match find_byte Byte.x3a key with
  | Some i => bool_decide (Byte.x2f ∉ btake i key ∧ Byte.x3a ∉ bdrop (i + 1) key)
  | None => bool_decide (Byte.x2f ∉ key)
  end.

(** The first two cases of [parse_tar_path_to_key] do what its last case does. *)
Lemma parse_tar_path_first_slash path :
  starts_with path (bs "_ttl/") = false → parse_tar_path_to_key path = replace_first Byte.x2f (bs ":") path.
Proof.
  intros Ht. unfold parse_tar_path_to_key. unfold strip_prefix at 3. rewrite Ht.
  destruct (strip_prefix path (bs "_schema/")) as [r|] eqn:E1.
  { apply strip_prefix_Some in E1 as ->. symmetry.
    apply (replace_first_app Byte.x2f (bs ":") (bs "_schema") r). by apply (bool_decide_unpack _); vm_compute. }
  destruct (strip_prefix path (bs "_rel/")) as [r|] eqn:E2; [|done].
  apply strip_prefix_Some in E2 as ->. symmetry.
  apply (replace_first_app Byte.x2f (bs ":") (bs "_rel") r). by apply (bool_decide_unpack _); vm_compute.
Qed.

Lemma find_byte_split c s i : find_byte c s = Some i →
  s = btake i s ++ c :: bdrop (i + 1) s ∧ c ∉ btake i s.
Proof.
  revert i. induction s as [|b s IH]; intros i; [done|]. cbn [find_byte]. case_bool_decide as Hb.
  - intros [= <-]. subst b. split; [done|]. intros Hin. by apply elem_of_nil in Hin.
  - intros (j & Hj & ->)%fmap_Some. destruct (IH j Hj) as [Hs Hn]. unfold btake, bdrop in *.
    replace (N.to_nat (N.succ j)) with (Datatypes.S (N.to_nat j)) by lia.
    replace (N.to_nat (N.succ j + 1)) with (Datatypes.S (N.to_nat (j + 1))) by lia.
    cbn [take drop app]. split; [by rewrite <- Hs|]. by rewrite not_elem_of_cons.
Qed.

Lemma slash_not_in_replaced s : Byte.x3a ∉ replace_byte Byte.x3a (bs "/") s.
Proof. by intros [|[_ ?]]%elem_of_replace_byte. Qed.

Lemma replace_colon_ttl key : starts_with key (bs "_ttl:") = false → starts_with key (bs "_ttl/") = false →
  starts_with (replace_byte Byte.x3a (bs "/") key) (bs "_ttl/") = false.
Proof.
  intros H1 H2. apply not_true_is_false. intros [r Hr]%starts_with_app.
  assert (replace_byte Byte.x3a (bs "/") key = (λ b, if bool_decide (b = Byte.x3a) then Byte.x2f else b) <$> key) as E.
  { unfold replace_byte. clear. induction key as [|b key IH]; [done|]. csimpl. rewrite IH. by case_bool_decide. }
  rewrite E in Hr. apply fmap_app_inv in Hr as (k1 & k2 & Hk & _ & ->). rename select (_ = _ <$> k1) into Hk.
  destruct k1 as [|b0 [|b1 [|b2 [|b3 [|b4 [|]]]]]]; try done. cbn in Hk.
  injection Hk as H0' H1' H2' H3' H4'. repeat case_bool_decide; simplify_eq; done.
Qed.

(** The path of an ordinary key, as its first colon splits it. *)
Lemma path_of_split s1 s2 : Byte.x3a ∉ s1 →
  replace_byte Byte.x3a (bs "/") (s1 ++ Byte.x3a :: s2) = s1 ++ Byte.x2f :: replace_byte Byte.x3a (bs "/") s2.
Proof. intros H1. rewrite replace_byte_app, (replace_byte_plain _ _ s1) by done. done. Qed.

Lemma replace_slash_back key : replace_first Byte.x2f (bs ":") (replace_byte Byte.x3a (bs "/") key) = key ↔ plain_key key = true.
Proof.
  unfold plain_key. destruct (find_byte Byte.x3a key) as [i|] eqn:E.
  - destruct (find_byte_split _ _ _ E) as [Hk Hn]. set (s1 := btake i key) in *. set (s2 := bdrop (i + 1) key) in *.
    clearbody s1 s2. clear E. subst key. rewrite path_of_split, bool_decide_eq_true by done.
    destruct (decide (Byte.x2f ∈ s1)) as [Hs|Hs].
    + split; [|tauto]. intros Heq. exfalso. apply list_elem_of_split_l in Hs as (a & b & -> & Ha).
      rewrite <- !app_assoc in Heq. cbn [app] in Heq. rewrite replace_first_app in Heq by done.
      by apply app_inv_head in Heq.
    + rewrite replace_first_app by done. cbn [app]. split.
      * intros Heq%app_inv_head. injection Heq as Heq. split; [done|]. rewrite <- Heq. apply slash_not_in_replaced.
      * intros [_ H2]. by rewrite replace_byte_plain.
  - apply find_byte_None in E. rewrite replace_byte_plain, bool_decide_eq_true by done. split.
    + intros Heq Hs. apply list_elem_of_split_l in Hs as (a & b & -> & Ha).
      rewrite replace_first_app in Heq by done. by apply app_inv_head in Heq.
    + intros Hs. by apply replace_first_plain.
Qed.

(** A key that the import does not take for a time-to-live. *)
Definition not_ttl (key : bytes) : bool := negb (starts_with key (bs "_ttl:")) && negb (starts_with key (bs "_ttl/")).
(** A key whose name survives. *)
Definition kept_key (key : bytes) : bool := starts_with key (bs "_schema:") || starts_with key (bs "_rel:") || plain_key key.

Lemma export_path_kept key : not_ttl key = true →
  starts_with (export_path key) (bs "_ttl/") = false ∧ (parse_tar_path_to_key (export_path key) = key ↔ kept_key key = true).
Proof.
  intros [Ht1 Ht2]%andb_true_iff. apply negb_true_iff in Ht1, Ht2. unfold export_path, kept_key.
  destruct (strip_prefix key (bs "_schema:")) as [r|] eqn:E1.
  { apply strip_prefix_Some in E1 as ->. rewrite (proj2 (starts_with_app (_ ++ r) (bs "_schema:"))) by (by eexists). split; [done|].
    split; [done|]. intros _. unfold parse_tar_path_to_key. by rewrite strip_prefix_app. }
  destruct (strip_prefix key (bs "_rel:")) as [r|] eqn:E2.
  { apply strip_prefix_Some in E2 as ->. rewrite (proj2 (starts_with_app (_ ++ r) (bs "_rel:"))) by (by eexists). split; [done|].
    split; [by rewrite orb_true_r|]. intros _. rewrite parse_tar_path_first_slash by done.
    apply (replace_first_app Byte.x2f (bs ":") (bs "_rel") r). by apply (bool_decide_unpack _); vm_compute. }
  assert (starts_with key (bs "_schema:") = false) as -> by (unfold strip_prefix in E1; by destruct (starts_with key (bs "_schema:"))).
  assert (starts_with key (bs "_rel:") = false) as -> by (unfold strip_prefix in E2; by destruct (starts_with key (bs "_rel:"))).
  pose proof (replace_colon_ttl key Ht1 Ht2) as Ht. split; [done|].
  rewrite parse_tar_path_first_slash by done. apply replace_slash_back.
Qed.

(** The path of a key, the second case of which is for keys that begin like a
    time-to-live: the import takes the path for one, and keeps the rest of its name. *)
Lemma export_path_ttl key : not_ttl key = false →
  parse_tar_path_to_key (export_path key) = key ↔
  match strip_prefix key (bs "_ttl:") with Some rest => plain_key rest = true | None => False end.
Proof.
  unfold not_ttl. intros Ht.
  assert (strip_prefix key (bs "_schema:") = None ∧ strip_prefix key (bs "_rel:") = None) as [E1 E2].
  { split; apply eq_None_not_Some; intros [r ->%strip_prefix_Some]; done. }
  assert (∀ rest, parse_tar_path_to_key (bs "_ttl/" ++ replace_byte Byte.x3a (bs "/") rest) =
    bs "_ttl:" ++ replace_first Byte.x2f (bs ":") (replace_byte Byte.x3a (bs "/") rest)) as Hparse.
  { intros rest. unfold parse_tar_path_to_key. by rewrite strip_prefix_app. }
  unfold export_path. rewrite E1, E2. destruct (strip_prefix key (bs "_ttl:")) as [rest|] eqn:E.
  - apply strip_prefix_Some in E as ->. rewrite replace_byte_app.
    change (replace_byte Byte.x3a (bs "/") (bs "_ttl:")) with (bs "_ttl/"). rewrite Hparse, <- replace_slash_back.
    split; [by intros ?%app_inv_head|by intros ->].
  - split; [|done]. apply andb_false_iff in Ht as [Ht|Ht]; apply negb_false_iff in Ht;
      apply starts_with_app in Ht as [rest ->]; [by rewrite strip_prefix_app in E|].
    rewrite replace_byte_app. change (replace_byte Byte.x3a (bs "/") (bs "_ttl/")) with (bs "_ttl/"). by rewrite Hparse.
Qed.

(** A key that comes back under its name. *)
Definition name_survives (key : bytes) : bool :=
  starts_with key (bs "_schema:") || starts_with key (bs "_rel:") ||
  plain_key match strip_prefix key (bs "_ttl:") with Some rest => rest | None => key end.

(** A key that holds a slash before its first colon is not plain. *)
Lemma plain_key_ttl_slash rest : plain_key (bs "_ttl/" ++ rest) = false.
Proof.
  apply not_true_is_false. intros Hp%replace_slash_back. revert Hp. rewrite replace_byte_app.
  change (replace_byte Byte.x3a (bs "/") (bs "_ttl/")) with (bs "_ttl" ++ Byte.x2f :: []). rewrite <- app_assoc. cbn [app].
  rewrite (replace_first_app Byte.x2f (bs ":") (bs "_ttl")) by (by apply (bool_decide_unpack _); vm_compute).
  done.
Qed.

Lemma name_survives_spec key :
  parse_tar_path_to_key (export_path key) = key ↔ name_survives key = true.
Proof.
  destruct (not_ttl key) eqn:Ht.
  - destruct (export_path_kept key Ht) as [_ ->]. unfold kept_key, name_survives.
    apply andb_true_iff in Ht as [Ht _]. unfold strip_prefix at 1. apply negb_true_iff in Ht as ->. done.
  - rewrite (export_path_ttl key Ht). unfold name_survives.
    assert (starts_with key (bs "_schema:") || starts_with key (bs "_rel:") = false) as ->.
    { unfold not_ttl in Ht. apply andb_false_iff in Ht as [Ht|Ht]; apply negb_false_iff in Ht;
        apply starts_with_app in Ht as [rest ->]; done. }
    destruct (strip_prefix key (bs "_ttl:")) as [rest|] eqn:E; [done|].
    apply andb_false_iff in Ht as [Ht|Ht]; apply negb_false_iff, starts_with_app in Ht as [rest ->];
      [by rewrite strip_prefix_app in E|]. by rewrite plain_key_ttl_slash.
Qed.

(** What the import makes of text is text. *)
Lemma utf8_valid_replace_first s : utf8_valid s = true → utf8_valid (replace_first Byte.x2f (bs ":") s) = true.
Proof.
  intros Hs. destruct (decide (Byte.x2f ∈ s)) as [(a & b & -> & Ha)%list_elem_of_split_l|Hn].
  - apply utf8_valid_split in Hs as [Ha' Hb]; [|done]. rewrite replace_first_app, utf8_valid_app by done. exact Hb.
  - by rewrite replace_first_plain.
Qed.

Lemma parse_tar_path_utf8 path : utf8_valid path = true → utf8_valid (parse_tar_path_to_key path) = true.
Proof.
  intros Hp. unfold parse_tar_path_to_key.
  destruct (strip_prefix path (bs "_schema/")) as [r|] eqn:E1;
    [apply strip_prefix_Some in E1 as ->; by rewrite utf8_valid_app in * by done|].
  destruct (strip_prefix path (bs "_rel/")) as [r|] eqn:E2;
    [apply strip_prefix_Some in E2 as ->; by rewrite utf8_valid_app in * by done|].
  destruct (strip_prefix path (bs "_ttl/")) as [r|] eqn:E3; [|by apply utf8_valid_replace_first].
  apply strip_prefix_Some in E3 as ->. rewrite utf8_valid_app in * by done. by apply utf8_valid_replace_first.
Qed.

Lemma export_path_utf8 key : utf8_valid key = true → utf8_valid (export_path key) = true.
Proof.
  intros Hu. unfold export_path. destruct (strip_prefix key (bs "_schema:")) as [r|] eqn:E1.
  { apply strip_prefix_Some in E1 as ->. by rewrite utf8_valid_app in * by done. }
  destruct (strip_prefix key (bs "_rel:")) as [r|] eqn:E2.
  { apply strip_prefix_Some in E2 as ->. by rewrite utf8_valid_app in * by done. }
  by apply utf8_valid_replace.
Qed.

(** C38: which keys keep their names on the way through an archive.  Of any key, of
    any bytes, the export takes the text, and the import takes the path of the text
    back to the key exactly when the key is UTF-8 and is a schema or relation key,
    or has at most one colon and no slash before it (behind [_ttl:], if the key
    begins with that); every other key comes back under another name. *)
Theorem archive_path_roundtrip key :
  parse_tar_path_to_key (export_path (from_utf8_lossy key)) = key ↔
  utf8_valid key = true ∧ name_survives key = true.
Proof.
  split.
  - intros Heq. assert (utf8_valid key = true) as Hu.
    { rewrite <- Heq. apply parse_tar_path_utf8, export_path_utf8, from_utf8_lossy_utf8. }
    rewrite from_utf8_lossy_valid in Heq by done. by rewrite <- name_survives_spec.
  - intros [Hu Hs]. rewrite from_utf8_lossy_valid by done. by apply name_survives_spec.
Qed.

(** * Archives *)

(** A path that tar takes and gives back as it is: relative, no empty component, no
    [.] or [..], no zero byte. *)
Definition plain_path (path : bytes) : bool :=
  bool_decide (Byte.x00 ∉ path ∧ Forall (λ c, c ≠ [] ∧ c ≠ bs "." ∧ c ≠ bs "..") (split_on Byte.x2f path)).

(** The tar and brotli crates: such paths are accepted, and what a builder has
    written is read back. *)
Class ArchiveLaws `{Archives} : Prop := {
  append_plain path : plain_path path = true → append_error path = None;
  archive_reads_back encoding l : Forall (λ e, plain_path e.1 = true) l →
    archive_entries encoding (archive_file encoding l) = Some l;
}.

(** A pair that an archive carries: its key survives, its path is plain and no
    other entry's, and a relation has no value. *)
Record portable (e : bytes * bytes) : Prop := {
  portable_utf8 : utf8_valid e.1 = true;
  portable_ttl : not_ttl e.1 = true;
  portable_kept : kept_key e.1 = true;
  portable_path : plain_path (export_path e.1) = true;
  portable_meta : export_path e.1 ≠ meta_path;
  portable_relation : starts_with e.1 (bs "_rel:") = true → e.2 = [];
}.

Lemma ttl_path_plain path : plain_path path = true → plain_path (bs "_ttl/" ++ path) = true.
Proof.
  unfold plain_path. rewrite !bool_decide_eq_true. intros [H0 Hall]. split.
  - rewrite not_elem_of_app. split; [by apply (bool_decide_unpack _); vm_compute|done].
  - change (bs "_ttl/" ++ path) with (bs "_ttl" ++ Byte.x2f :: path).
    rewrite split_on_app by (by apply (bool_decide_unpack _); vm_compute). by constructor.
Qed.

(** The entries an archive has for some pairs. *)
Record entries_of (pairs archive : list (bytes * bytes)) : Prop := {
  entries_pairs e : e ∈ pairs → (export_path e.1, e.2) ∈ archive;
  entries_only a : a ∈ archive →
    ∃ e, e ∈ pairs ∧ (a = (export_path e.1, e.2) ∨ ∃ text, a = (bs "_ttl/" ++ export_path e.1, text));
  entries_plain : Forall (λ a, plain_path a.1 = true ∧ utf8_valid a.1 = true) archive;
}.

Lemma entries_of_nil : entries_of [] [].
Proof. split; [by intros e []%elem_of_nil|by intros a []%elem_of_nil|done]. Qed.

Lemma entries_of_app p1 p2 a1 a2 : entries_of p1 a1 → entries_of p2 a2 → entries_of (p1 ++ p2) (a1 ++ a2).
Proof.
  intros [H1 H2 H3] [H1' H2' H3']. split.
  - intros e [He|He]%elem_of_app; apply elem_of_app; [left; by apply H1|right; by apply H1'].
  - intros a [Ha|Ha]%elem_of_app; [destruct (H2 a Ha) as (e & ? & ?)|destruct (H2' a Ha) as (e & ? & ?)];
      exists e; (split; [apply elem_of_app; tauto|done]).
  - by apply Forall_app.
Qed.

Lemma entries_of_pair e ttl :
  portable e → Forall (λ a, ∃ text, a = (bs "_ttl/" ++ export_path e.1, text)) ttl →
  entries_of [e] ((export_path e.1, e.2) :: ttl).
Proof.
  intros [Hu _ _ Hp _ _] Httl. split.
  - intros e' ->%list_elem_of_singleton. by left.
  - intros a [-> |Ha]%elem_of_cons; (exists e; split; [by left|]); [by left|]. rewrite Forall_forall in Httl. right. by apply Httl.
  - constructor; [split; [done|by apply export_path_utf8]|]. eapply Forall_impl; [exact Httl|]. intros a [text ->]. cbn [fst].
    split; [by apply ttl_path_plain|]. rewrite utf8_valid_app by done. by apply export_path_utf8.
Qed.

Section exporting.
Context {S : Type} `{TimedBus S, ArchiveLaws}.

Lemma write_tar_entry_plain archive path data :
  plain_path path = true → write_tar_entry archive path data = inr (archive ++ [(path, data)]).
Proof using Type*. intros Hp. unfold write_tar_entry. by rewrite append_plain. Qed.

(** One pair adds its entry, and perhaps one for a time-to-live. *)
Lemma export_entry_observes archive e w : bus_wf (st w) → portable e →
  observes (export_entry archive e) w (λ r, ∃ added, r = (None, archive ++ added) ∧ entries_of [e] added).
Proof using Type*.
  intros Hwf Hport. pose proof Hport as [Hu Ht Hk Hp Hm Hr]. destruct e as [key value]. cbn [fst snd] in *.
  unfold export_entry. rewrite from_utf8_lossy_valid by done. rewrite write_tar_entry_plain by done.
  destruct (starts_with key (bs "_schema:")) eqn:E1.
  { apply observes_ret; [done|]. eexists. split; [done|]. by apply (entries_of_pair (key, value)). }
  destruct (starts_with key (bs "_rel:")) eqn:E2.
  { rewrite write_tar_entry_plain by done. apply observes_ret; [done|]. assert (value = []) as -> by (by apply Hr). eexists. split; [done|]. by apply (entries_of_pair (key, [])). }
  assert (replace_byte Byte.x3a (bs "/") key = export_path key) as ->
    by (unfold export_path, strip_prefix; by rewrite E1, E2).
  eapply observes_bind; [by apply read_ttl_remaining_observes|]. intros [remaining|] w' Hwf' _ _ _.
  - rewrite write_tar_entry_plain by (by apply ttl_path_plain).
    apply observes_ret; [done|]. eexists. rewrite <- app_assoc. split; [done|].
    apply (entries_of_pair (key, value)); [done|]. repeat constructor. by eexists.
  - apply observes_ret; [done|]. eexists. split; [done|]. by apply (entries_of_pair (key, value)).
Qed.

Lemma export_entries_observes pairs archive result w : bus_wf (st w) → Forall portable pairs →
  observes (export_entries archive pairs result) w (λ r, ∃ result' added,
    r = (inr result', archive ++ added) ∧ entries_of pairs added ∧
    entries result' = entries result + N.of_nat (length pairs) ∧
    bytes_written result' = bytes_written result + nsum ((λ e : bytes * bytes, blen e.1 + blen e.2) <$> pairs)).
Proof using Type*.
  intros Hwf Hall. revert archive result w Hwf. induction Hall as [|e pairs He Hall IH]; intros archive result w Hwf.
  - apply observes_ret; [done|]. exists result, []. rewrite app_nil_r.
    split_and!; [done|apply entries_of_nil|cbn; lia|cbn; lia].
  - cbn [export_entries]. eapply observes_bind; [by apply export_entry_observes|].
    intros r w' Hwf' _ _ (added & -> & Hadded).
    eapply observes_weaken; [by apply IH|]. intros r (result' & added' & -> & Hadded' & Hn & Hb).
    exists result', (added ++ added'). rewrite <- app_assoc. split_and!; [done|by apply (entries_of_app [e])|..].
    + rewrite Hn. cbn [entries length]. lia.
    + rewrite Hb. cbn [bytes_written]. csimpl. unfold nsum. cbn [foldr]. lia.
Qed.

Lemma write_tar_contents_observes w : bus_wf (st w) →
  Forall portable (btree_iter (bus_contents (st w) (sample (tick w)))) →
  observes write_tar_contents w (λ r, ∃ result added,
    r = (inr result, (meta_path, bs "tric+1") :: added) ∧
    entries_of (btree_iter (bus_contents (st w) (sample (tick w)))) added ∧
    entries result = 1 + N.of_nat (size (bus_contents (st w) (sample (tick w))))).
Proof using Type*.
  intros Hwf Hall. unfold write_tar_contents. rewrite write_tar_entry_plain by (vm_compute; reflexivity).
  eapply observes_bind; [by apply find_by_prefix_observes|]. intros pairs w' Hwf' _ _ ->. rewrite prefix_entries_nil.
  eapply observes_weaken; [by apply export_entries_observes|]. intros r (result & added & -> & Hadded & Hn & _).
  exists result, added. split_and!; [done|done|]. rewrite Hn. cbn [entries].
  f_equal. f_equal. by rewrite btree_iter_permutation, length_map_to_list.
Qed.
End exporting.

(** * The copy *)

Lemma portable_inj (c : gmap bytes bytes) e e' : portable e → portable e' → export_path e.1 = export_path e'.1 →
  e ∈ btree_iter c → e' ∈ btree_iter c → e = e'.
Proof.
  intros [_ Ht Hk _ _ _] [_ Ht' Hk' _ _ _] Heq. destruct e as [k v], e' as [k' v']. cbn [fst snd] in *.
  destruct (export_path_kept k Ht) as [_ Hp], (export_path_kept k' Ht') as [_ Hp'].
  apply Hp in Hk. apply Hp' in Hk'. rewrite Heq, Hk' in Hk. subst k'. rewrite !elem_of_btree_iter. congruence.
Qed.

(** The entries of an archive, read back: each pair under its path, and nothing else
    but the version and times-to-live. *)
Lemma read_back `{ArchiveLaws} encoding c version added :
  Forall portable (btree_iter c) → entries_of (btree_iter c) added →
  ∃ E, read_tar_entries encoding (archive_file encoding ((meta_path, version) :: added)) = Some E ∧
    (∀ e, e ∈ btree_iter c → E !! export_path e.1 = Some e.2) ∧
    ∀ path v, E !! path = Some v → path = meta_path ∨
      ∃ e, e ∈ btree_iter c ∧ ((path = export_path e.1 ∧ v = e.2) ∨
        (path = bs "_ttl/" ++ export_path e.1 ∧ (path, v) ∈ added)).
Proof.
  intros Hport [H1 H2 H3]. rewrite Forall_forall in Hport.
  exists (write_all ((meta_path, version) :: added) ∅). split_and!.
  - unfold read_tar_entries. rewrite archive_reads_back.
    + cbn [mbind option_bind]. f_equal. unfold write_all. cbn [foldl fst snd].
      rewrite (from_utf8_lossy_valid meta_path) by (vm_compute; reflexivity).
      generalize (<[meta_path := version]> (∅ : gmap bytes bytes)). clear -H3.
      induction H3 as [|a added [_ Ha] _ IH]; intros m; [done|]. cbn [foldl]. rewrite IH. by rewrite from_utf8_lossy_valid.
    + constructor; [vm_compute; reflexivity|]. eapply Forall_impl; [exact H3|]. by intros a [].
  - intros e He. apply write_all_lookup; [right; by apply H1|]. intros v' [Hv|Hv]%elem_of_cons.
    + injection Hv as Hm _. by destruct (portable_meta e (Hport e He)).
    + destruct (H2 _ Hv) as (e' & He' & [Heq|[text Heq]]); injection Heq as Hpath ->.
      * by rewrite (portable_inj c e e' (Hport e He) (Hport e' He') Hpath He He').
      * destruct (export_path_kept e.1) as [Hd _]; [by apply (Hport e He)|].
        rewrite Hpath, (proj2 (starts_with_app _ _)) in Hd by (by eexists). done.
  - intros path v [Hin|Hin]%write_all_inv; [|by rewrite lookup_empty in Hin].
    apply elem_of_cons in Hin as [[= -> _]|Hin]; [by left|]. right.
    destruct (H2 _ Hin) as (e & He & [[= -> ->]|[text [= -> ->]]]); exists e; (split; [done|]); [by left|by right].
Qed.

(** The difference of the entries from nothing: it writes the pairs, and its
    times-to-live are for keys of the store. *)
Lemma exported_diff `{HashOrder} (c E : gmap bytes bytes) (added : list (bytes * bytes)) :
  Forall portable (btree_iter c) →
  (∀ e, e ∈ btree_iter c → E !! export_path e.1 = Some e.2) →
  (∀ path v, E !! path = Some v → path = meta_path ∨
      ∃ e, e ∈ btree_iter c ∧ ((path = export_path e.1 ∧ v = e.2) ∨
        (path = bs "_ttl/" ++ export_path e.1 ∧ (path, v) ∈ added))) →
  (∀ path v, E !! path = Some v → differs ∅ (path, v) → data_path path → c !! parse_tar_path_to_key path = Some v) ∧
  (∀ k v, c !! k = Some v → k = parse_tar_path_to_key (export_path k) ∧ E !! export_path k = Some v ∧
     differs ∅ (export_path k, v) ∧ data_path (export_path k)) ∧
  (∀ k, k ∈ ttl_keys ∅ (hash_iter E) → ∃ text, (bs "_ttl/" ++ export_path k, text) ∈ added ∧ is_Some (c !! k)).
Proof.
  intros Hport Hin Hout. rewrite Forall_forall in Hport.
  assert (∀ e, e ∈ btree_iter c → data_path (export_path e.1) ∧ parse_tar_path_to_key (export_path e.1) = e.1) as Hkept.
  { intros e He. destruct (Hport e He) as [_ Ht Hk _ _ _]. destruct (export_path_kept e.1 Ht) as [Hd Hp]. split; [done|by apply Hp]. }
  split_and!.
  - intros path v Hp [Hm _] Hd. destruct (Hout path v Hp) as [|(e & He & [[-> ->]|[-> _]])]; [done| |].
    + destruct (Hkept e He) as [_ ->]. destruct e. by apply elem_of_btree_iter in He.
    + unfold data_path in Hd. rewrite (proj2 (starts_with_app _ _)) in Hd by (by eexists). done.
  - intros k v Hk. assert ((k, v) ∈ btree_iter c) as He by (by apply elem_of_btree_iter).
    destruct (Hkept _ He) as [Hd Hp]. cbn [fst] in *. split_and!; [done|by apply (Hin (k, v))| |done].
    split; [by apply (Hport _ He)|by rewrite lookup_empty].
  - intros k (path & v & -> & Hp & [Hm _] & Hd)%elem_of_ttl_keys.
    destruct (Hout path v Hp) as [|(e & He & [[-> ->]|[-> Ha]])]; [done|by destruct Hd; apply Hkept|].
    destruct (Hkept e He) as [Hde Hk]. unfold ttl_key. rewrite strip_prefix_app. cbn [default from_option].
    rewrite parse_tar_path_first_slash in Hk by done. unfold id. rewrite Hk. exists v. split; [done|].
    destruct e as [k v']. apply elem_of_btree_iter in He. by exists v'.
Qed.

Section copy.
Context {S S2 : Type} `{Clock, !DataBus S, !TimedBus S, !DataBus S2, !TimedBus S2, HashOrder, ArchiveLaws}.

(** C27: an archive copies a store, of portable pairs.  The export of such a store
    returns, and counts the pairs; what is read back from its file, under the same
    encoding, and applied to another store as the difference from nothing, gives
    that store every pair of the first, but for those that were exported with a
    time-to-live, which may have expired; and it leaves the other keys alone. *)
Theorem archive_copies_store encoding (w : World S) (w2 : World S2) :
  let c := bus_contents (st w) (sample (tick w)) in
  bus_wf (st w) → bus_wf (st w2) → Forall portable (btree_iter c) →
  (∀ k, is_Some (c !! k) → bus_writable (S := S2) k) →
  ∃ result archive w1 E r w3, write_tar_contents w = (Returned (inr result, archive), w1) ∧
    entries result = 1 + N.of_nat (size c) ∧
    read_tar_entries encoding (archive_file encoding archive) = Some E ∧
    apply_diff ∅ E w2 = (Returned r, w3) ∧ bus_wf (st w3) ∧ deletions r = 0 ∧
    ∀ t, sample (tick w3) ≤ t →
      (∀ k v, c !! k = Some v → bus_contents (st w3) t !! k = Some v ∨
         (∃ text, (bs "_ttl/" ++ export_path k, text) ∈ archive) ∧ bus_contents (st w3) t !! k = None) ∧
      (∀ k, c !! k = None → bus_contents (st w3) t !! k = bus_contents (st w2) t !! k).
Proof using Type*.
  intros c Hwf Hwf2 Hport Hwr.
  destruct (write_tar_contents_observes w Hwf Hport) as ([written archive] & w1 & Hrun & (result & added & Heq & Hof & Hn) & _).
  injection Heq as -> ->. destruct (read_back encoding c (bs "tric+1") added Hport Hof) as (E & HE & Hin & Hout).
  destruct (exported_diff c E added Hport Hin Hout) as (Hdata & Hcover & Httl).
  destruct (apply_diff_upto (S := S2) ∅ E) as (r & Htr & _ & Hdel).
  { intros path v Hp Hd Hdp. apply Hwr. exists v. by eapply Hdata. }
  destruct (Htr w2 Hwf2) as (w3 & Hr & Hwf3 & _ & Hc).
  exists result, ((meta_path, bs "tric+1") :: added), w1, E, r, w3. split_and!; [exact Hrun|exact Hn|exact HE|exact Hr|done| |].
  { rewrite Hdel. unfold dropped. by rewrite map_to_list_empty. }
  assert (∀ c' k, delete_all (parse_tar_path_to_key <$> dropped E (hash_iter ∅).*1) c' !! k = c' !! k) as Hnodel.
  { intros c' k. rewrite delete_all_lookup, decide_False; [done|].
    intros (path & _ & (Ho & _)%elem_of_dropped)%list_elem_of_fmap. rewrite lookup_empty in Ho. by destruct Ho. }
  intros t Ht. split.
  - intros k v Hk. destruct (Hc t k Ht) as [Hoff Hon].
    assert (∀ c', write_all (diff_writes ∅ (hash_iter E)) c' !! k = Some v) as Hw.
    { intros c'. apply write_all_lookup.
      - apply elem_of_diff_writes. exists (export_path k). by apply Hcover.
      - intros v' (path & Hkey & Hp & Hd & Hdp)%elem_of_diff_writes. pose proof (Hdata path v' Hp Hd Hdp). congruence. }
    setoid_rewrite Hnodel in Hoff. setoid_rewrite Hnodel in Hon. rewrite Hw in Hoff. setoid_rewrite Hw in Hon.
    destruct (decide (k ∈ ttl_keys ∅ (hash_iter E))) as [Hkt|Hkt]; [|left; by apply Hoff].
    destruct Hon as [Hon|(_ & _ & Hon)]; [right|by left]. split; [|done].
    destruct (Httl k Hkt) as (text & Ha & _). exists text. by right.
  - intros k Hk. destruct (Hc t k Ht) as [Hoff _]. rewrite Hnodel, write_all_other in Hoff.
    + apply Hoff. intros Hkt. destruct (Httl k Hkt) as (_ & _ & [v Hv]). congruence.
    + intros ([k' v'] & Hkk & (path & Hkey & Hp & Hd & Hdp)%elem_of_diff_writes)%list_elem_of_fmap. cbn [fst] in Hkk.
      pose proof (Hdata path v' Hp Hd Hdp). congruence.
Qed.
End copy.

(** ** Concrete archives *)

#[export] Program Instance example_archive_laws : ArchiveLaws | 100.
Next Obligation. done. Qed.
Next Obligation.
  intros encoding l _. assert (archive_entries encoding (archive_file encoding l) = decode (bytes_pos (pos_bytes (encode l)))) as ->
    by (by destruct encoding). by rewrite bytes_pos_bytes, decode_encode.
Qed.

(** A store with a schema entry, two rows, a relation and an expiring pair. *)
Definition stored_ops : list BusOp :=
  [OpWrite (bs "_schema:user") (bs "id:INT:pk"); OpWrite (bs "user:42") (bs "Ada"); OpWrite (bs "user:7") (bs "Bob");
   OpWrite (bs "_rel:city:London:user:42") []; OpWriteWithTtl (bs "cart:9") (bs "tea") (from_secs 30)].
Definition stored : World TricBus := (run_ops stored_ops example_world).2.

Lemma stored_wf : bus_wf (st stored).
Proof.
  destruct (run_ops_refines stored_ops example_world ∅) as (rs & w & T & Hr & Hwf & _).
  - apply example_world_wf.
  - done.
  - repeat constructor. by apply duration_ok_secs.
  - intros t _. change (tm_contents (store_abs create_store) t = tm_contents ∅ t). by rewrite create_store_abs.
  - unfold stored. by rewrite Hr.
Qed.

Lemma stored_pairs : btree_iter (bus_contents (st stored) (sample (tick stored))) =
  [(bs "_rel:city:London:user:42", []); (bs "_schema:user", bs "id:INT:pk"); (bs "cart:9", bs "tea");
   (bs "user:42", bs "Ada"); (bs "user:7", bs "Bob")].
Proof. vm_compute. reflexivity. Qed.

Lemma archive_copies_store_witness :
  let c := bus_contents (st stored) (sample (tick stored)) in
  ∃ result archive w1 E r w3, write_tar_contents stored = (Returned (inr result, archive), w1) ∧
    entries result = 1 + N.of_nat (size c) ∧
    read_tar_entries Brotli (archive_file Brotli archive) = Some E ∧
    apply_diff ∅ E example_world = (Returned r, w3) ∧ bus_wf (st w3) ∧ deletions r = 0 ∧
    ∀ t, sample (tick w3) ≤ t →
      (∀ k v, c !! k = Some v → bus_contents (st w3) t !! k = Some v ∨
         (∃ text, (bs "_ttl/" ++ export_path k, text) ∈ archive) ∧ bus_contents (st w3) t !! k = None) ∧
      (∀ k, c !! k = None → bus_contents (st w3) t !! k = bus_contents (st example_world) t !! k).
Proof.
  apply (archive_copies_store Brotli stored example_world).
  - apply stored_wf.
  - apply example_world_wf.
  - rewrite stored_pairs. repeat constructor; vm_compute; try reflexivity; discriminate.
  - intros k _. exact I.
Defined.

(** Concrete keys: the second slash is not a colon, a byte that is no text is lost,
    a key that begins like a time-to-live keeps its name. *)
Example archive_path_examples :
  parse_tar_path_to_key (export_path (from_utf8_lossy (bs "order:7:2"))) = bs "order:7/2" ∧
  parse_tar_path_to_key (export_path (from_utf8_lossy (Byte.xff :: bs ":1"))) = [Byte.xef; Byte.xbf; Byte.xbd] ++ bs ":1" ∧
  parse_tar_path_to_key (export_path (from_utf8_lossy (bs "_ttl:a:b"))) = bs "_ttl:a:b".
Proof. vm_compute. done. Qed.
