(* ===== verification/Router.v ===== *)
(** The dispatcher, src/modules/router.rs: an opcode becomes calls of the data
    bus and a list of responses.  The handlers work on any [DataBus]; their
    theorems hold of any bus that keeps the contract [TimedBus]. *)
From stdpp Require Import prelude gmap sorting strings.
From Stdlib Require Import NArith Lia.
From S2P Require Import Prelude.
From S2P Require Import Bytes.
From S2P Require Import Text.
From S2P Require Import BTree.
From S2P Require Import Clock.
From S2P Require Import TimedMap.
From S2P Require Import Store.
From S2P Require Import Tric.
From S2P Require Import DataBus.
From S2P Require Import BusSpec.
From S2P Require Import Sqlite.
From S2P Require Import Instances.
From S2P Require Import Permutive.
From S2P Require Import Buses.
From S2P Require Import Metrics.
From S2P Require Import Codec.
From S2P Require Import Replies.
From S2P Require Import Sql.
From S2P Require Import Query.

Definition create_error (request_id error_opcode : N) : Response :=
  mkResponse request_id error_opcode [].

(** The field at an offset and the offset behind it. *)
Definition read_field_with_offset (payload : bytes) (offset : N) : Outcome (option (bytes * N)) :=
  if blen payload <? offset + 4 then mret None
  else
    length ← u32_at payload offset;
    let field_start := offset + 4 in
    let field_end := field_start + length in
    if blen payload <? field_end then mret None
    else
      field ← slice payload field_start field_end;
      mret (Some (field, field_end)).

Definition read_field (payload : bytes) (offset : N) : Outcome (option bytes) :=
  found ← read_field_with_offset payload offset;
  mret (option_map fst found).

Section router.
Context {S : Type} `{Clock, !DataBus S}.
Implicit Types request : Request.

Definition read_value request : M (World S) Response :=
  key ← lift_outcome (read_field (payload request) 0);
  match key with
  | None => mret (create_error (request_id request) ERROR_MALFORMED)
  | Some key =>
      value ← DataBus.read_value key;
      mret (value_reply (request_id request) value)
  end.

Definition write_value request : M (World S) Response :=
  first ← lift_outcome (read_field_with_offset (payload request) 0);
  match first with
  | None => mret (create_error (request_id request) ERROR_MALFORMED)
  | Some (key, offset) =>
      second ← lift_outcome (read_field_with_offset (payload request) offset);
      match second with
      | None => mret (create_error (request_id request) ERROR_MALFORMED)
      | Some (value, offset) =>
          if blen (payload request) <? offset + 8 then
            mret (create_error (request_id request) ERROR_MALFORMED)
          else
            duration_ms ← lift_outcome (u64_at (payload request) offset);
            (if duration_ms =? 0 then DataBus.write_value key value
             else DataBus.write_value_with_ttl key value (from_millis duration_ms)) ;;
            mret (create_ok (request_id request))
      end
  end.

Definition delete_value request : M (World S) Response :=
  key ← lift_outcome (read_field (payload request) 0);
  match key with
  | None => mret (create_error (request_id request) ERROR_MALFORMED)
  | Some key =>
      DataBus.delete_value key ;;
      mret (create_ok (request_id request))
  end.

Definition delete_value_if_match request : M (World S) Response :=
  first ← lift_outcome (read_field_with_offset (payload request) 0);
  match first with
  | None => mret (create_error (request_id request) ERROR_MALFORMED)
  | Some (key, offset) =>
      expected ← lift_outcome (read_field (payload request) offset);
      match expected with
      | None => mret (create_error (request_id request) ERROR_MALFORMED)
      | Some expected =>
          matched ← DataBus.delete_value_if_match key expected;
          mret (mkResponse (request_id request) OK_PAYLOAD
                  [if (matched : bool) then Byte.x01 else Byte.x00])
      end
  end.

Definition write_ttl request : M (World S) Response :=
  first ← lift_outcome (read_field_with_offset (payload request) 0);
  match first with
  | None => mret (create_error (request_id request) ERROR_MALFORMED)
  | Some (key, offset) =>
      if blen (payload request) <? offset + 8 then
        mret (create_error (request_id request) ERROR_MALFORMED)
      else
        duration_ms ← lift_outcome (u64_at (payload request) offset);
        DataBus.write_ttl key (from_millis duration_ms) ;;
        mret (create_ok (request_id request))
  end.

Definition find_by_prefix request : M (World S) (list Response) :=
  prefix ← lift_outcome (read_field (payload request) 0);
  match prefix with
  | None => mret [create_error (request_id request) ERROR_MALFORMED]
  | Some prefix =>
      pairs ← DataBus.find_by_prefix prefix;
      mret (scan_responses (request_id request) pairs)
  end.

Definition parse_query_request `{SqlParser} request : M (World S) (list Response) :=
  sql_bytes ← lift_outcome (read_field (payload request) 0);
  match sql_bytes with
  | None => mret [create_error (request_id request) ERROR_MALFORMED]
  | Some sql_bytes => parse_query (from_utf8_lossy sql_bytes) (request_id request)
  end.

(** [metrics] is what the counters show when they are read. *)
Definition read_status request (metrics : Metrics) : Response :=
  if negb (is_local request) then create_error (request_id request) ERROR_INVALID_OPCODE
  else
    mkResponse (request_id request) OK_PAYLOAD
      (u64_be (read_requests_total metrics) ++ u64_be (read_requests_local metrics) ++
       u64_be (read_requests_network metrics) ++ u64_be (read_errors_total metrics) ++
       u64_be (read_active_sessions metrics) ++
       u64_be (read_latency_average_microseconds metrics) ++
       u64_be (read_latency_max_microseconds metrics)).

Definition parse_shutdown request : M (World S) Response :=
  if negb (is_local request) then mret (create_error (request_id request) ERROR_INVALID_OPCODE)
  else exit_process 0.

(** A reload is logged and acknowledged. *)
Definition parse_reload request : Response :=
  if negb (is_local request) then create_error (request_id request) ERROR_INVALID_OPCODE
  else create_ok (request_id request).

Definition read_keys request : M (World S) (list Response) :=
  prefix ← lift_outcome (read_field (payload request) 0);
  pairs ← DataBus.find_by_prefix (default [] prefix);
  mret (scan_responses (request_id request) pairs).

(** [read_ttl_remaining(key).map(|duration| duration.as_millis() as u64).unwrap_or(0)]. *)
Definition ttl_millis (remaining : option Duration) : N :=
  default 0 ((λ d, as_u64 (as_millis d)) <$> remaining).

Definition read_inspect request : M (World S) Response :=
  key ← lift_outcome (read_field (payload request) 0);
  match key with
  | None => mret (create_error (request_id request) ERROR_MALFORMED)
  | Some key =>
      value ← DataBus.read_value key;
      match value with
      | Some value =>
          remaining ← DataBus.read_ttl_remaining key;
          mret (mkResponse (request_id request) OK_PAYLOAD
                  (u32_be (as_u32 (blen value)) ++ value ++ u64_be (ttl_millis remaining)))
      | None => mret (create_ok (request_id request))
      end
  end.

Definition dump_chunk (total chunk_id : N) (key value : bytes) (ttl_ms : N) : bytes :=
  scan_chunk total chunk_id key value ++ u64_be ttl_ms.

(** One pair of a dump: its time-to-live is asked for when it is sent. *)
Definition dump_response (request_id total : N) (entry : nat * (bytes * bytes)) : M (World S) Response :=
  remaining ← DataBus.read_ttl_remaining entry.2.1;
  mret (mkResponse request_id SCAN_CHUNK
          (dump_chunk total (N.of_nat entry.1) entry.2.1 entry.2.2 (ttl_millis remaining))).

Definition read_dump request : M (World S) (list Response) :=
  pairs ← DataBus.find_by_prefix [];
  responses ← mmap (dump_response (request_id request) (scan_total pairs))
                (imap pair (take (N.to_nat u16_max) pairs));
  mret (responses ++ [mkResponse (request_id request) SCAN_END []]).

Definition write_restore request : M (World S) Response :=
  first ← lift_outcome (read_field_with_offset (payload request) 0);
  match first with
  | None => mret (create_error (request_id request) ERROR_MALFORMED)
  | Some (key, offset) =>
      second ← lift_outcome (read_field_with_offset (payload request) offset);
      match second with
      | None => mret (create_error (request_id request) ERROR_MALFORMED)
      | Some (value, offset) =>
          DataBus.write_value key value ;;
          (if offset + 8 <=? blen (payload request) then
             ttl_ms ← lift_outcome (u64_at (payload request) offset);
             if 0 <? ttl_ms then DataBus.write_ttl key (from_millis ttl_ms) else mret ()
           else mret ()) ;;
          mret (create_ok (request_id request))
      end
  end.

(** [vec![handler(..)]]. *)
Definition single (m : M (World S) Response) : M (World S) (list Response) :=
  r ← m; mret [r].

Definition dispatch_request `{SqlParser} request (metrics : Metrics) : M (World S) (list Response) :=
  match opcode request with
  | 0x01 => single (read_value request)
  | 0x02 => single (write_value request)
  | 0x03 => single (delete_value request)
  | 0x04 => single (delete_value_if_match request)
  | 0x05 => single (write_ttl request)
  | 0x06 => find_by_prefix request
  | 0x07 => parse_query_request request
  | 0x13 => mret [create_ok (request_id request)]
  | 0x14 => mret [read_status request metrics]
  | 0x15 => single (parse_shutdown request)
  | 0x16 => mret [parse_reload request]
  | 0x17 => read_keys request
  | 0x18 => single (read_inspect request)
  | 0x19 => read_dump request
  | 0x1A => single (write_restore request)
  | _ => mret [create_error (request_id request) ERROR_INVALID_OPCODE]
  end.
End router.

(** * Reading fields *)

Lemma read_field_at before l after :
  blen l < 2 ^ 32 →
  read_field_with_offset (before ++ field l ++ after) (blen before) =
  Returned (Some (l, blen before + blen (field l))).
Proof.
  intros Hl. unfold read_field_with_offset. rewrite field_length_at by done. rewrite !blen_app, blen_field.
  destruct (N.ltb_spec (blen before + (4 + blen l + blen after)) (blen before + 4)); [lia|].
  cbn [mbind Outcome_bind].
  destruct (N.ltb_spec (blen before + (4 + blen l + blen after)) (blen before + 4 + blen l)); [lia|].
  unfold field. rewrite <- app_assoc, app_assoc, (slice_app _ l after).
  - cbn. unfold mret, Outcome_ret. do 3 f_equal. lia.
  - by rewrite blen_app, blen_u32_be.
  - rewrite !blen_app, blen_u32_be. lia.
Qed.

(** A payload holds a field at the offset. *)
Definition field_at (payload : bytes) (offset : N) (l : bytes) : Prop :=
  blen l < 2 ^ 32 ∧ ∃ before after, payload = before ++ field l ++ after ∧ blen before = offset.

Lemma read_field_cases payload offset :
  (∃ l, field_at payload offset l ∧
        read_field_with_offset payload offset = Returned (Some (l, offset + blen (field l)))) ∨
  ((∀ l, ¬ field_at payload offset l) ∧ read_field_with_offset payload offset = Returned None).
Proof.
  destruct (N.ltb_spec (blen payload) (offset + 4)) as [Hshort|Hlong].
  { right. split.
    - intros l (_ & b & a & -> & Hb). rewrite !blen_app, blen_field in Hshort. lia.
    - unfold read_field_with_offset. by apply N.ltb_lt in Hshort as ->. }
  destruct (split_at payload offset 4 Hlong) as (before & w & rest & -> & <- & Hw & _).
  assert (length w = 4%nat) as Hw4 by (unfold blen in Hw; lia).
  assert (of_be w < 2 ^ 32) as Hbound.
  { pose proof (of_be_bound w) as Hb. rewrite Hw in Hb. done. }
  destruct (N.ltb_spec (blen (before ++ w ++ rest)) (blen before + 4 + of_be w)) as [Hend|Hend].
  - right. split.
    + intros l (Hl & b & a & Heq & Hb). pose proof (field_length_at b l a Hl) as Hf.
      rewrite <- Heq, Hb, u32_at_app in Hf by done. injection Hf as Hf.
      rewrite Heq, !blen_app, blen_field in Hend. lia.
    + unfold read_field_with_offset. apply N.ltb_ge in Hlong as ->. rewrite u32_at_app by done.
      cbn [mbind Outcome_bind]. by apply N.ltb_lt in Hend as ->.
  - left. rewrite !blen_app, Hw in Hend. exists (btake (of_be w) rest).
    assert (blen (btake (of_be w) rest) = of_be w) as Hlen by (apply blen_btake; lia).
    assert (before ++ w ++ rest = before ++ field (btake (of_be w) rest) ++ bdrop (of_be w) rest) as Heq.
    { unfold field. by rewrite Hlen, u32_be_of_be, <- app_assoc, btake_bdrop by done. }
    split.
    + split; [by rewrite Hlen|]. eauto.
    + rewrite Heq. apply read_field_at. by rewrite Hlen.
Qed.

Lemma field_at_inj payload offset l1 l2 :
  field_at payload offset l1 → field_at payload offset l2 → l1 = l2.
Proof.
  intros (H1 & b1 & a1 & -> & <-) (H2 & b2 & a2 & Heq & Hb).
  pose proof (read_field_at b1 l1 a1 H1) as Hr1. rewrite Heq, <- Hb, read_field_at in Hr1 by done.
  by injection Hr1.
Qed.

Lemma read_field_head l after :
  blen l < 2 ^ 32 →
  read_field_with_offset (field l ++ after) 0 = Returned (Some (l, blen (field l))).
Proof. intros Hl. by rewrite (read_field_at [] l after Hl : read_field_with_offset (field l ++ after) 0 = _). Qed.

(** The three ways to read on: a first field, a second one, a 64-bit number. *)
Lemma first_field_cases payload :
  (∃ l after, blen l < 2 ^ 32 ∧ payload = field l ++ after ∧
     read_field_with_offset payload 0 = Returned (Some (l, blen (field l)))) ∨
  ((∀ l after, blen l < 2 ^ 32 → payload ≠ field l ++ after) ∧
   read_field_with_offset payload 0 = Returned None).
Proof.
  destruct (read_field_cases payload 0) as [(l & (Hl & b & a & -> & Hb) & Hr)|[Hn Hr]].
  - left. assert (b = []) as -> by (by destruct b). exists l, a. split_and!; [done..|]. exact Hr.
  - right. split; [|done]. intros l after Hl ->. apply (Hn l). split; [done|]. by exists [], after.
Qed.

Lemma second_field_cases head rest :
  (∃ l after, blen l < 2 ^ 32 ∧ rest = field l ++ after ∧
     read_field_with_offset (head ++ rest) (blen head) = Returned (Some (l, blen (head ++ field l)))) ∨
  ((∀ l after, blen l < 2 ^ 32 → rest ≠ field l ++ after) ∧
   read_field_with_offset (head ++ rest) (blen head) = Returned None).
Proof.
  destruct (read_field_cases (head ++ rest) (blen head)) as [(l & (Hl & b & a & Heq & Hb) & Hr)|[Hn Hr]].
  - left. apply app_inj_1 in Heq as [<- ->]; [|unfold blen in Hb; lia]. exists l, a. rewrite blen_app. eauto.
  - right. split; [|done]. intros l after Hl ->. apply (Hn l). split; [done|]. by exists head, after.
Qed.

Lemma number_cases head rest :
  (∃ n after, n < 2 ^ 64 ∧ rest = u64_be n ++ after ∧
     blen (head ++ rest) <? blen head + 8 = false ∧ u64_at (head ++ rest) (blen head) = Returned n) ∨
  ((∀ n after, rest ≠ u64_be n ++ after) ∧ blen (head ++ rest) <? blen head + 8 = true).
Proof.
  destruct (N.ltb_spec (blen (head ++ rest)) (blen head + 8)) as [Hs|Hl]; rewrite blen_app in *.
  - right. split; [|done]. intros n after ->. rewrite blen_app, blen_u64_be in Hs. lia.
  - left. destruct (split_at rest 0 8) as (b & w & after & -> & Hb & Hw & _); [lia|].
    assert (b = []) as -> by (by destruct b). assert (length w = 8%nat) as Hw8 by (unfold blen in Hw; lia).
    exists (of_be w), after. split_and!; [| |done|by apply (u64_at_app head w after)].
    + pose proof (of_be_bound w) as Hbound. by rewrite Hw in Hbound.
    + by rewrite u64_be_of_be.
Qed.

Lemma second_field_head l1 l2 after :
  blen l2 < 2 ^ 32 →
  read_field_with_offset (field l1 ++ field l2 ++ after) (blen (field l1)) =
  Returned (Some (l2, blen (field l1 ++ field l2))).
Proof. intros Hl. by rewrite read_field_at, blen_app. Qed.

Lemma number_at head n after :
  n < 2 ^ 64 →
  blen (head ++ u64_be n ++ after) <? blen head + 8 = false ∧
  u64_at (head ++ u64_be n ++ after) (blen head) = Returned n.
Proof.
  intros Hn. split.
  - apply N.ltb_ge. rewrite !blen_app, blen_u64_be. lia.
  - rewrite u64_at_app by (done || apply length_u64_be). by rewrite of_be_u64_be, N.mod_small.
Qed.

(** * The requests of the data opcodes *)

(** The payload of a data opcode and the operation it asks for; bytes behind the
    last field are ignored. *)
Inductive data_request : N → bytes → BusOp → Prop :=
| dr_read k after : blen k < 2 ^ 32 → data_request 0x01 (field k ++ after) (OpRead k)
| dr_write k v after : blen k < 2 ^ 32 → blen v < 2 ^ 32 →
    data_request 0x02 (field k ++ field v ++ u64_be 0 ++ after) (OpWrite k v)
| dr_write_with_ttl k v ms after : blen k < 2 ^ 32 → blen v < 2 ^ 32 → 0 < ms < 2 ^ 64 →
    data_request 0x02 (field k ++ field v ++ u64_be ms ++ after) (OpWriteWithTtl k v (from_millis ms))
| dr_delete k after : blen k < 2 ^ 32 → data_request 0x03 (field k ++ after) (OpDelete k)
| dr_match k e after : blen k < 2 ^ 32 → blen e < 2 ^ 32 →
    data_request 0x04 (field k ++ field e ++ after) (OpDeleteIfMatch k e)
| dr_ttl k ms after : blen k < 2 ^ 32 → ms < 2 ^ 64 →
    data_request 0x05 (field k ++ u64_be ms ++ after) (OpWriteTtl k (from_millis ms))
| dr_scan p after : blen p < 2 ^ 32 → data_request 0x06 (field p ++ after) (OpScan p).

(** The responses to an operation. *)
Definition reply_responses (id : N) (r : BusReply) : list Response :=
  match r with
  | ReplyValue v => [value_reply id v]
  | ReplyUnit => [create_ok id]
  | ReplyMatched b => [mkResponse id OK_PAYLOAD [if b then Byte.x01 else Byte.x00]]
  | ReplyPairs pairs => scan_responses id pairs
  | ReplyTtl _ => []
  end.

Section dispatch.
Context {S : Type} `{Clock, !DataBus S, SqlParser}.
Implicit Types request : Request.

Lemma bind_bind {Σ A B C} (m : M Σ A) (f : A → M Σ B) (g : B → M Σ C) σ :
  ((m ≫= f) ≫= g) σ = (m ≫= λ a, f a ≫= g) σ.
Proof. unfold mbind, M_bind. by destruct (m σ) as [[]]. Qed.

(** A request that encodes an operation. *)
Lemma dispatch_data_request_run request metrics op w :
  data_request (opcode request) (payload request) op →
  dispatch_request request metrics w =
  (r ← run_op op; mret (reply_responses (request_id request) r)) w.
Proof.
  destruct request as [id opc pl loc]. cbn [opcode payload request_id]. intros Hd.
  destruct Hd as [k after Hk|k v after Hk Hv|k v ms after Hk Hv [Hms0 Hms]|k after Hk|k e after Hk He
    |k ms after Hk Hms|p after Hp];
    unfold dispatch_request; cbn [opcode]; unfold single, read_value, write_value, delete_value,
    delete_value_if_match, write_ttl, find_by_prefix, read_field; cbn [payload request_id].
  all: unfold mbind, M_bind, Outcome_bind, lift_outcome; rewrite read_field_head by done;
    cbn [mret Outcome_ret M_ret option_map fst]; rewrite ?second_field_head by done;
    cbn [mret Outcome_ret M_ret option_map fst].
  all: simpl run_op; unfold mbind, M_bind.
  - by destruct (DataBus.read_value k w) as [[] ?].
  - rewrite !(app_assoc (field k)). destruct (number_at (field k ++ field v) 0 after) as [-> ->]; [done|].
    cbn. by destruct (DataBus.write_value k v w) as [[] ?].
  - rewrite !(app_assoc (field k)). destruct (number_at (field k ++ field v) ms after) as [-> ->]; [done|].
    destruct (N.eqb_spec ms 0); [lia|].
    cbn. by destruct (DataBus.write_value_with_ttl k v (from_millis ms) w) as [[] ?].
  - by destruct (DataBus.delete_value k w) as [[] ?].
  - by destruct (DataBus.delete_value_if_match k e w) as [[] ?].
  - destruct (number_at (field k) ms after) as [-> ->]; [done|].
    cbn. by destruct (DataBus.write_ttl k (from_millis ms) w) as [[] ?].
  - by destruct (DataBus.find_by_prefix p w) as [[] ?].
Qed.

(** C4: a request that encodes an operation is answered by running that operation
    on the data bus, and by nothing else: the same effects, and the responses that
    encode its reply, for every bus. *)
Theorem dispatch_data_request request metrics op w :
  data_request (opcode request) (payload request) op →
  dispatch_request request metrics w =
  (r ← run_op op; mret (reply_responses (request_id request) r)) w.
Proof. apply dispatch_data_request_run. Qed.

(** C7: a request with one of the data opcodes whose payload encodes no operation
    is answered by one malformed-request error, and the bus is not touched. *)
Theorem dispatch_malformed request metrics w :
  1 ≤ opcode request ≤ 6 → (∀ op, ¬ data_request (opcode request) (payload request) op) →
  dispatch_request request metrics w =
  (Returned [mkResponse (request_id request) ERROR_MALFORMED []], w).
Proof.
  destruct request as [id opc pl loc]. cbn [opcode payload request_id]. intros Hopc Hn.
  assert (opc = 1 ∨ opc = 2 ∨ opc = 3 ∨ opc = 4 ∨ opc = 5 ∨ opc = 6) as Hcases by lia.
  destruct (first_field_cases pl) as [(k & rest & Hk & -> & Hr)|[_ Hr]].
  2: { unfold dispatch_request; cbn [opcode].
    destruct Hcases as [->|[->|[->|[->|[->| ->]]]]]; unfold single, read_value, write_value, delete_value,
      delete_value_if_match, write_ttl, find_by_prefix, read_field; cbn [payload request_id];
      unfold mbind, M_bind, Outcome_bind, lift_outcome; by rewrite Hr. }
  unfold dispatch_request; cbn [opcode].
  destruct Hcases as [->|[->|[->|[->|[->| ->]]]]].
  1, 3, 6: exfalso; eapply Hn; by constructor.
  - unfold single, write_value; cbn [payload request_id]. unfold mbind, M_bind, lift_outcome. rewrite Hr.
    destruct (second_field_cases (field k) rest) as [(v & rest2 & Hv & -> & Hr2)|[_ Hr2]]; rewrite Hr2; [|done].
    rewrite app_assoc. destruct (number_cases (field k ++ field v) rest2) as [(ms & after & Hms & -> & _)|[_ Hs]].
    + exfalso. destruct (decide (ms = 0)) as [->|]; eapply Hn; [by constructor|].
      apply dr_write_with_ttl; [done..|lia].
    + by rewrite Hs.
  - unfold single, delete_value_if_match, read_field; cbn [payload request_id].
    unfold mbind, M_bind, Outcome_bind, lift_outcome. rewrite Hr.
    destruct (second_field_cases (field k) rest) as [(e & rest2 & He & -> & Hr2)|[_ Hr2]]; [|by rewrite Hr2].
    exfalso. eapply Hn. by constructor.
  - unfold single, write_ttl; cbn [payload request_id]. unfold mbind, M_bind, lift_outcome. rewrite Hr.
    destruct (number_cases (field k) rest) as [(ms & after & Hms & -> & _)|[_ Hs]]; [|by rewrite Hs].
    exfalso. eapply Hn. by constructor.
Qed.
End dispatch.

(** * Every request is answered *)
Section router_returns.
Context {S : Type} `{TimedBus S, SqlParser}.
Implicit Types request : Request.

(** The keys a request may write without a time-to-live: that of a write whose
    milliseconds are zero, that of a restore, and those of a statement.  A write
    with a time-to-live goes to the transient tier, which holds any key. *)
Definition stored_key (payload : bytes) (expires : bytes → N → bool) : list bytes :=
  match read_field_with_offset payload 0 with
  | Returned (Some (key, offset)) =>
      match read_field_with_offset payload offset with
      | Returned (Some (_, offset)) => if expires payload offset then [] else [key]
      | _ => []
      end
  | _ => []
  end.

Definition request_writes request : list bytes :=
  match opcode request with
  | 0x02 => stored_key (payload request) (λ payload offset,
              match u64_at payload offset with Returned ms => negb (ms =? 0) | _ => true end)
  | 0x07 =>
      match read_field (payload request) 0 with
      | Returned (Some sql) => query_writes (from_utf8_lossy sql)
      | _ => []
      end
  | 0x1A => stored_key (payload request) (λ _ _, false)
  | _ => []
  end.

Lemma read_field_with_offset_returns payload offset :
  returns (S := S) (lift_outcome (read_field_with_offset payload offset)) (λ _, True).
Proof using Type. destruct (read_field_cases payload offset) as [(? & _ & ->)|[_ ->]]; by eapply returns_lift. Qed.

Lemma read_field_returns payload offset :
  returns (S := S) (lift_outcome (read_field payload offset)) (λ _, True).
Proof using Type.
  unfold read_field. destruct (read_field_cases payload offset) as [(? & _ & ->)|[_ ->]]; by eapply returns_lift.
Qed.

Lemma u64_at_returns payload offset :
  blen payload <? offset + 8 = false →
  returns (S := S) (lift_outcome (u64_at payload offset)) (λ n, n < 2 ^ 64).
Proof using Type.
  intros Hl%N.ltb_ge. eapply returns_lift; [by apply u64_at_ok|]. eapply u64_at_bound. by apply u64_at_ok.
Qed.

Lemma u64_at_returns_le payload offset :
  offset + 8 <=? blen payload = true →
  returns (S := S) (lift_outcome (u64_at payload offset)) (λ n, n < 2 ^ 64).
Proof using Type. intros Hl%N.leb_le. apply u64_at_returns. by apply N.ltb_ge. Qed.

Hint Resolve read_field_with_offset_returns read_field_returns u64_at_returns u64_at_returns_le
  duration_ok_millis : returns.

Ltac returns_handler :=
  repeat (returns_step || (progress cbv zeta)); try exact I; cbv beta in *; eauto with returns.

Lemma single_returns (m : M (World S) Response) id :
  returns m (λ r, response_id r = id) → returns (single m) (answers id).
Proof using Type.
  intros Hm. unfold single. eapply returns_bind; [exact Hm|]. intros r Hr. by apply returns_ret, answers_single.
Qed.

(** The handlers that write none of these keys. *)
Lemma handlers_return request :
  let ok := λ r, response_id r = request_id request in
  returns (S := S) (read_value request) ok ∧ returns (S := S) (delete_value request) ok ∧
  returns (S := S) (delete_value_if_match request) ok ∧ returns (S := S) (write_ttl request) ok ∧
  returns (S := S) (read_inspect request) ok.
Proof using Type.
  intros ok. subst ok. unfold read_value, delete_value, delete_value_if_match, write_ttl, read_inspect.
  split_and!; returns_handler.
Qed.

(** The three that do. *)
Lemma write_value_returns request :
  opcode request = 0x02 → Forall (bus_writable (S := S)) (request_writes request) →
  returns (S := S) (write_value request) (λ r, response_id r = request_id request).
Proof using Type.
  intros Ho. unfold request_writes, stored_key, write_value. rewrite Ho. intros Hk.
  destruct (read_field_cases (payload request) 0) as [(k & _ & E1)|[_ E1]]; rewrite E1 in *;
    (eapply returns_lift_bind; [done|]; cbv beta iota); [|by apply returns_ret].
  destruct (read_field_cases (payload request) (0 + blen (field k))) as [(v & _ & E2)|[_ E2]]; rewrite E2 in *;
    (eapply returns_lift_bind; [done|]; cbv beta iota); [|by apply returns_ret].
  set (offset := 0 + blen (field k) + blen (field v)) in *.
  destruct (N.ltb_spec (blen (payload request)) (offset + 8)) as [|E3]; [by apply returns_ret|].
  pose proof (u64_at_ok _ _ E3) as Hms. rewrite Hms in Hk. eapply returns_lift_bind; [exact Hms|].
  apply returns_seq; [|by apply returns_ret].
  destruct (of_be (btake 8 (bdrop offset (payload request))) =? 0); cbn [negb] in Hk; [apply returns_write; by inversion Hk|].
  apply returns_write_value_with_ttl, duration_ok_millis. by eapply u64_at_bound.
Qed.

Lemma write_restore_returns request :
  opcode request = 0x1A → Forall (bus_writable (S := S)) (request_writes request) →
  returns (S := S) (write_restore request) (λ r, response_id r = request_id request).
Proof using Type.
  intros Ho. unfold request_writes, stored_key, write_restore. rewrite Ho. intros Hk.
  destruct (read_field_cases (payload request) 0) as [(k & _ & E1)|[_ E1]]; rewrite E1 in *;
    (eapply returns_lift_bind; [done|]; cbv beta iota); [|by apply returns_ret].
  destruct (read_field_cases (payload request) (0 + blen (field k))) as [(v & _ & E2)|[_ E2]]; rewrite E2 in *;
    (eapply returns_lift_bind; [done|]; cbv beta iota); [|by apply returns_ret].
  apply returns_seq; [apply returns_write; by inversion Hk|]. returns_handler.
Qed.

Lemma parse_query_request_returns request :
  opcode request = 0x07 → Forall (bus_writable (S := S)) (request_writes request) →
  returns (S := S) (parse_query_request request) (answers (request_id request)).
Proof using Type.
  intros Ho. unfold request_writes, parse_query_request, read_field. rewrite Ho. intros Hk.
  destruct (read_field_cases (payload request) 0) as [(sql & _ & E1)|[_ E1]]; rewrite E1 in *;
    (eapply returns_lift_bind; [done|]; cbv beta iota); [by apply parse_query_returns|by apply returns_ret, answers_single].
Qed.

Lemma dump_response_returns id total e :
  returns (S := S) (dump_response id total e) (λ r, response_id r = id).
Proof using Type. unfold dump_response. returns_handler. Qed.

Lemma scan_handlers_return request :
  let ok := answers (request_id request) in
  returns (S := S) (find_by_prefix request) ok ∧
  returns (S := S) (read_keys request) ok ∧ returns (S := S) (read_dump request) ok.
Proof using Type.
  intros ok. subst ok. unfold find_by_prefix, read_keys, read_dump.
  split_and!; [returns_handler..|].
  eapply returns_bind; [eauto with returns|]. intros pairs _.
  eapply returns_bind; [apply returns_mmap, dump_response_returns|]. intros rs Hrs.
  apply returns_ret. split; [by destruct rs|]. apply Forall_app. split; [done|]. by repeat constructor.
Qed.

(** The dispatcher returns, unless it is asked to end the process. *)
Lemma dispatch_returns request metrics w :
  bus_wf (st w) → Forall (bus_writable (S := S)) (request_writes request) →
  (opcode request = 0x15 → is_local request = false) →
  ∃ rs w', dispatch_request request metrics w = (Returned rs, w') ∧ bus_wf (st w') ∧
    rs ≠ [] ∧ Forall (λ r, response_id r = request_id request) rs.
Proof using Type.
  intros Hwf Hk Hshut.
  destruct (handlers_return request) as (? & ? & ? & ? & ?).
  destruct (scan_handlers_return request) as (? & ? & ?).
  pose proof (write_value_returns request). pose proof (write_restore_returns request).
  pose proof (parse_query_request_returns request).
  assert (returns (S := S) (dispatch_request request metrics) (answers (request_id request))) as Hr.
  { destruct (decide (opcode request = 0x15)) as [Ho|Ho].
    - unfold dispatch_request. rewrite Ho. apply single_returns. unfold parse_shutdown.
      rewrite Hshut by done. by apply returns_ret.
    - unfold dispatch_request. repeat case_match; try (by apply single_returns; auto); try done; try (by auto);
        try (apply returns_ret, answers_single); unfold read_status, parse_reload; by repeat case_match. }
  destruct (Hr w Hwf) as (rs & w' & ? & ? & _ & ? & ?). by exists rs, w'.
Qed.

(** C6: the dispatcher answers every request that writes no key the bus cannot
    hold.  The keys are those the payload itself names to be stored ([request_writes]),
    and for all others no opcode and no payload makes it panic: but for a local
    shutdown, it returns at least one response, all with the identifier of the
    request, and a well-formed bus. *)
Theorem dispatch_answers request metrics w :
  bus_wf (st w) → Forall (bus_writable (S := S)) (request_writes request) →
  (opcode request = 0x15 → is_local request = false) →
  ∃ rs w', dispatch_request request metrics w = (Returned rs, w') ∧ bus_wf (st w') ∧
    rs ≠ [] ∧ Forall (λ r, response_id r = request_id request) rs.
Proof using Type. apply dispatch_returns. Qed.
End router_returns.

(** * What the dispatcher refuses *)

(** The opcodes it handles. *)
Definition handled_opcodes : list N :=
  [0x01; 0x02; 0x03; 0x04; 0x05; 0x06; 0x07; 0x13; 0x14; 0x15; 0x16; 0x17; 0x18; 0x19; 0x1A].
Definition local_only_opcodes : list N := [0x14; 0x15; 0x16].

(** C21: status, shutdown and reload over the network, and every opcode that is
    not handled, the two of the authentication handshake among them, are answered
    by one invalid-opcode error without touching the bus; a local shutdown ends the
    process, and of the requests that write no key the bus cannot hold, it is the
    only one that does. *)
Theorem dispatch_refuses {S : Type} `{TimedBus S, SqlParser} request metrics w :
  ((opcode request ∈ local_only_opcodes ∧ is_local request = false) ∨ opcode request ∉ handled_opcodes →
   dispatch_request request metrics w =
   (Returned [mkResponse (request_id request) ERROR_INVALID_OPCODE []], w)) ∧
  (bus_wf (st w) → Forall (bus_writable (S := S)) (request_writes request) →
   (∃ code, (dispatch_request request metrics w).1 = Exited code) ↔
   opcode request = 0x15 ∧ is_local request = true).
Proof.
  split.
  - intros [[Ho Hl]|Ho]; destruct request as [id opc pl loc]; cbn [opcode is_local request_id] in *.
    + unfold local_only_opcodes in Ho. rewrite !elem_of_cons, elem_of_nil in Ho.
      unfold dispatch_request, single, read_status, parse_shutdown, parse_reload; cbn [opcode is_local request_id].
      rewrite Hl. by destruct Ho as [->|[->|[->|[]]]].
    + unfold handled_opcodes in Ho. unfold dispatch_request; cbn [opcode].
      repeat case_match; try done; exfalso; apply Ho; set_solver.
  - intros Hwf Hk. split.
    + intros [code Hc]. destruct (decide (opcode request = 0x15 ∧ is_local request = true)) as [|Hn]; [done|].
      destruct (dispatch_returns request metrics w Hwf Hk) as (rs & w' & Hr & _).
      { intros Ho. destruct (is_local request); [|done]. by destruct Hn. }
      by rewrite Hr in Hc.
    + intros [Ho Hl]. exists 0. unfold dispatch_request. rewrite Ho. unfold single, parse_shutdown.
      by rewrite Hl.
Qed.

(** ** Concrete requests *)

Definition example_write : Request :=
  mkRequest 7 0x02 (field (bs "user:42") ++ field (bs "Ada") ++ u64_be 1500) true.

Lemma dispatch_data_request_witness :
  dispatch_request example_write create_metrics example_world =
  (r ← run_op (OpWriteWithTtl (bs "user:42") (bs "Ada") (from_millis 1500)); mret (reply_responses 7 r)) example_world.
Proof.
  apply (dispatch_data_request example_write create_metrics).
  apply (dr_write_with_ttl (bs "user:42") (bs "Ada") 1500 []); vm_compute; try split; reflexivity.
Defined.

Lemma dispatch_malformed_witness :
  dispatch_request (mkRequest 7 0x01 [Byte.x00; Byte.x01] true) create_metrics example_world =
  (Returned [mkResponse 7 ERROR_MALFORMED []], example_world).
Proof.
  apply (dispatch_malformed (mkRequest 7 0x01 [Byte.x00; Byte.x01] true)).
  - vm_compute. split; discriminate.
  - intros op Hop. inversion Hop.
Defined.

(** The bus the server runs on, with the in-memory tables, and a row that is
    inserted over the network. *)
Definition example_permutive_world : World PermutiveBus := mkWorld 0 (fresh_permutive memory_bus).
Definition example_insert : Request := mkRequest 7 0x07 (field sql_text_insert) false.

Lemma example_insert_writable : Forall (bus_writable (S := PermutiveBus)) (request_writes example_insert).
Proof.
  replace (request_writes example_insert) with [bs "_schema:user"; bs "user:42"] by (vm_compute; reflexivity).
  repeat constructor; apply memory_openable; apply (bool_decide_unpack _); vm_compute; exact I.
Defined.

Lemma dispatch_answers_witness :
  ∃ rs w', dispatch_request example_insert create_metrics example_permutive_world = (Returned rs, w') ∧
    bus_wf (st w') ∧ rs ≠ [] ∧ Forall (λ r, response_id r = 7) rs.
Proof.
  apply (dispatch_answers example_insert).
  - apply memory_bus_permutive_wf.
  - apply example_insert_writable.
  - discriminate.
Defined.

Lemma dispatch_refuses_witness :
  dispatch_request (mkRequest 7 0x10 (bs "hello") false) create_metrics example_permutive_world =
    (Returned [mkResponse 7 ERROR_INVALID_OPCODE []], example_permutive_world) ∧
  (∃ code, (dispatch_request (mkRequest 7 0x15 [] true) create_metrics example_permutive_world).1 = Exited code) ∧
  ¬ ∃ code, (dispatch_request example_insert create_metrics example_permutive_world).1 = Exited code.
Proof.
  split_and!.
  - apply (dispatch_refuses (mkRequest 7 0x10 (bs "hello") false) create_metrics example_permutive_world).
    right. apply (bool_decide_unpack _). vm_compute. exact I.
  - apply (dispatch_refuses (mkRequest 7 0x15 [] true) create_metrics example_permutive_world);
      [apply memory_bus_permutive_wf|constructor|done].
  - intros He. apply (dispatch_refuses example_insert create_metrics example_permutive_world) in He as [[=] _];
      [apply memory_bus_permutive_wf|apply example_insert_writable].
Defined.
