(* ===== verification/Cli.v ===== *)
(** The administration commands, src/modules/cli.rs: listing, inspection, queries,
    and the binary dump and restore of the store.  The file system is a parameter
    ([FileSystem]); a command is the text it answers and the file it writes. *)
From stdpp Require Import prelude gmap sorting strings.
From Stdlib Require Import NArith Lia.
From S2P Require Import Prelude.
From S2P Require Import Bytes.
From S2P Require Import Text.
From S2P Require Import BTree.
From S2P Require Import Clock.
From S2P Require Import TimedMap.
From S2P Require Import Store.
From S2P Require Import Tric.
From S2P Require Import DataBus.
From S2P Require Import BusSpec.
From S2P Require Import Sqlite.
From S2P Require Import Instances.
From S2P Require Import Permutive.
From S2P Require Import Buses.
From S2P Require Import Metrics.
From S2P Require Import Codec.
From S2P Require Import Replies.
From S2P Require Import Sql.
From S2P Require Import Query.
From S2P Require Import Files.
From S2P Require Import Router.

(** The answer of a command, and the file it wrote. *)
Record Rendered : Type := mkRendered { text : bytes; written : option (bytes * bytes) }.
Definition answer (text : bytes) : Rendered := mkRendered text None.

(** * Scan chunks *)

Definition parse_scan_key (data : bytes) : Outcome (option bytes) :=
  if blen data <? 4 then mret None
  else
    len ← u32_at data 0;
    if 4 + len <=? blen data then
      key ← slice data 4 (4 + len); mret (Some key)
    else mret None.

Definition parse_scan_value (data : bytes) : Outcome (option bytes) :=
  if blen data <? 4 then mret None
  else
    key_len ← u32_at data 0;
    let value_offset := 4 + key_len in
    if blen data <? value_offset + 4 then mret None
    else
      value_len ← u32_at data value_offset;
      let value_start := value_offset + 4 in
      if value_start + value_len <=? blen data then
        value ← slice data value_start (value_start + value_len); mret (Some value)
      else mret None.

Section cli.
Context {S : Type} `{Clock, !DataBus S, SqlParser, FileSystem}.

(** * Commands; [parts] are the words behind the verb *)

Definition render_keys (parts : list bytes) : M (World S) bytes :=
  let prefix := match parts with
    | flag :: rest => if bool_decide (flag = bs "-p") then default [] (head rest) else []
    | [] => []
    end in
  pairs ← DataBus.find_by_prefix prefix;
  match pairs with
  | [] => mret (bs "(no keys)" ++ newline)
  | _ => mret (mjoin ((λ e : bytes * bytes,
           from_utf8_lossy e.1 ++ bs "  " ++ decimal (blen e.2) ++ bs "B" ++ newline) <$> pairs))
  end.

Definition render_inspect (parts : list bytes) : M (World S) bytes :=
  match parts with
  | [] => mret (bs "usage: inspect <key>" ++ newline)
  | key :: _ =>
      value ← DataBus.read_value key;
      match value with
      | Some value =>
          remaining ← DataBus.read_ttl_remaining key;
          let ttl_info := match remaining with
            | Some remaining => decimal (as_secs remaining) ++ bs "s"
            | None => bs "none (persistent)"
            end in
          mret (bs "key     " ++ key ++ newline ++ bs "size    " ++ decimal (blen value) ++ bs "B" ++ newline ++
                bs "ttl     " ++ ttl_info ++ newline ++ bs "tier    transient" ++ newline)
      | None => mret (bs "key " ++ key ++ bs " not found" ++ newline)
      end
  end.

(** [flag.zip(path)] matched against [Some(("-f", path))]. *)
Definition file_argument (parts : list bytes) : option bytes :=
  match parts with
  | flag :: path :: _ => if bool_decide (flag = bs "-f") then Some path else None
  | _ => None
  end.

(** The bytes of one entry of a dump. *)
Definition dump_record (key value : bytes) (ttl_ms : N) : bytes :=
  u32_be (as_u32 (blen key)) ++ key ++ u32_be (as_u32 (blen value)) ++ value ++ u64_be ttl_ms.

Definition dump_entry (entry : bytes * bytes) : M (World S) bytes :=
  remaining ← DataBus.read_ttl_remaining entry.1;
  mret (dump_record entry.1 entry.2 (ttl_millis remaining)).

Definition render_dump (parts : list bytes) : M (World S) Rendered :=
  match file_argument parts with
  | None => mret (answer (bs "usage: dump -f <path>" ++ newline))
  | Some path =>
      pairs ← DataBus.find_by_prefix [];
      match file_create path with
      | Some error => mret (answer (bs "error: cannot create " ++ path ++ bs ": " ++ error ++ newline))
      | None =>
          records ← mmap dump_entry pairs;
          let count := N.of_nat (length pairs) in
          let bytes_written := nsum ((λ e : bytes * bytes, 4 + blen e.1 + 4 + blen e.2 + 8) <$> pairs) in
          mret (mkRendered
            (decimal count ++ bs " entries  " ++ decimal bytes_written ++ bs "B  written to " ++ path ++ newline)
            (Some (path, mjoin records)))
      end
  end.

(** One turn of the loop of [render_restore]: the next entry and the offset behind
    it, or the end. *)
Definition restore_next (data : bytes) (offset : N) : Outcome (option (bytes * bytes * N * N)) :=
  if offset + 4 <=? blen data then
    key_len ← u32_at data offset;
    let offset := offset + 4 in
    if blen data <? offset + key_len + 4 then mret None
    else
      key ← slice data offset (offset + key_len);
      let offset := offset + key_len in
      value_len ← u32_at data offset;
      let offset := offset + 4 in
      if blen data <? offset + value_len + 8 then mret None
      else
        value ← slice data offset (offset + value_len);
        let offset := offset + value_len in
        ttl_ms ← u64_at data offset;
        mret (Some (key, value, ttl_ms, offset + 8))
  else mret None.

Definition restore_entry (key value : bytes) (ttl_ms : N) : M (World S) unit :=
  DataBus.write_value key value ;;
  if 0 <? ttl_ms then DataBus.write_ttl key (from_millis ttl_ms) else mret ().

(** The loop; each turn that does not end it moves the offset by 16 or more. *)
Fixpoint restore_loop (fuel : nat) (data : bytes) (offset count : N) : M (World S) N :=
  match fuel with
  | O => mret count
  | Datatypes.S fuel' =>
      next ← lift_outcome (restore_next data offset);
      match next with
      | None => mret count
      | Some (key, value, ttl_ms, offset) =>
          restore_entry key value ttl_ms ;;
          restore_loop fuel' data offset (count + 1)
      end
  end.

Definition restore_data (data : bytes) : M (World S) N :=
  restore_loop (Datatypes.S (length data)) data 0 0.

Definition render_restore (parts : list bytes) : M (World S) bytes :=
  match file_argument parts with
  | None => mret (bs "usage: restore -f <path>" ++ newline)
  | Some path =>
      match file_open path with
      | Some error => mret (bs "error: cannot open " ++ path ++ bs ": " ++ error ++ newline)
      | None =>
          match file_read_to_end path with
          | None => mret (bs "error: cannot read " ++ path ++ newline)
          | Some data =>
              count ← restore_data data;
              mret (decimal count ++ bs " entries restored from " ++ path ++ newline)
          end
      end
  end.

(** What a response of a query shows. *)
Definition render_response (response : Response) : Outcome bytes :=
  let payload := response_payload response in
  match response_opcode response with
  | 0x80 => mret (bs "OK" ++ newline)
  | 0x81 =>
      if 4 <=? blen payload then
        value_len ← u32_at payload 0;
        if 4 + value_len <=? blen payload then
          value ← slice payload 4 (4 + value_len);
          mret (from_utf8_lossy value ++ newline)
        else mret []
      else mret []
  | 0x90 =>
      if 4 <=? blen payload then
        rest ← slice_from payload 4;
        key ← parse_scan_key rest;
        value ← parse_scan_value rest;
        mret (match key with Some key_data => from_utf8_lossy key_data ++ bs "  " | None => [] end ++
              match value with Some value_data => decimal (blen value_data) ++ bs "B" | None => [] end ++ newline)
      else mret []
  | 0x91 => mret []
  | 0xA1 => mret (bs "error: " ++ from_utf8_lossy payload ++ newline)
  | _ => mret []
  end.

Definition render_query (parts : list bytes) : M (World S) bytes :=
  let sql := join (bs " ") parts in
  if bool_decide (sql = []) then mret (bs "usage: query <SQL statement>" ++ newline)
  else if 4096 <? blen sql then mret (bs "error: SQL exceeds 4096 byte limit" ++ newline)
  else
    responses ← parse_query sql 0;
    shown ← mmap (λ r, lift_outcome (render_response r)) responses;
    let output := mjoin shown in
    mret (if bool_decide (output = []) then bs "(no results)" ++ newline else output).

Definition render_status (metrics : Metrics) : bytes :=
  bs "tric-server" ++ newline ++
  bs "  requests  " ++ decimal (read_requests_total metrics) ++ bs " total " ++
  decimal (read_requests_local metrics) ++ bs " local " ++
  decimal (read_requests_network metrics) ++ bs " network" ++ newline ++
  bs "  errors    " ++ decimal (read_errors_total metrics) ++ newline ++
  bs "  sessions  " ++ decimal (read_active_sessions metrics) ++ newline ++
  bs "  latency   " ++ decimal (read_latency_average_microseconds metrics) ++ bs "us avg " ++
  decimal (read_latency_max_microseconds metrics) ++ bs "us max" ++ newline.

Definition render_reload (auth_keys_path : option bytes) : bytes :=
  match auth_keys_path with
  | Some path => bs "reloaded " ++ path ++ newline
  | None => bs "auth disabled (--no-auth); nothing to reload" ++ newline
  end.

Definition render_shutdown : M (World S) bytes := exit_process 0.
End cli.

(** * Reading back what was written *)

Lemma parse_scan_pair key value :
  blen key < 2 ^ 32 → blen value < 2 ^ 32 →
  parse_scan_key (field key ++ field value) = Returned (Some key) ∧
  parse_scan_value (field key ++ field value) = Returned (Some value).
Proof.
  intros Hk Hv.
  assert (u32_at (field key ++ field value) 0 = Returned (blen key)) as H0
    by exact (field_length_at [] key (field value) Hk).
  assert (u32_at (field key ++ field value) (4 + blen key) = Returned (blen value)) as H1.
  { rewrite <- blen_field, <- (app_nil_r (field value)). by apply field_length_at. }
  assert (slice (field key ++ field value) 4 (4 + blen key) = Returned key) as Hs0.
  { unfold field at 1. rewrite <- app_assoc. apply slice_app; rewrite ?blen_u32_be; done. }
  assert (slice (field key ++ field value) (4 + blen key + 4) (4 + blen key + 4 + blen value) = Returned value) as Hs1.
  { replace (field key ++ field value) with ((field key ++ u32_be (blen value)) ++ value ++ [])
      by (unfold field; by rewrite app_nil_r, <- !app_assoc).
    apply slice_app; rewrite !blen_app, blen_field, blen_u32_be; lia. }
  unfold parse_scan_key, parse_scan_value. rewrite !blen_app, !blen_field.
  destruct (N.ltb_spec (4 + blen key + (4 + blen value)) 4); [lia|]. rewrite H0. cbn [mbind Outcome_bind].
  destruct (N.leb_spec (4 + blen key) (4 + blen key + (4 + blen value))); [|lia].
  destruct (N.ltb_spec (4 + blen key + (4 + blen value)) (4 + blen key + 4)); [lia|].
  rewrite H1, Hs0. cbn [mbind Outcome_bind].
  destruct (N.leb_spec (4 + blen key + 4 + blen value) (4 + blen key + (4 + blen value))); [|lia].
  by rewrite Hs1.
Qed.

(** The pair a client reads out of a chunk. *)
Definition chunk_pair (response : Response) : option (bytes * bytes) :=
  if response_opcode response =? SCAN_CHUNK then
    match parse_scan_key (bdrop 4 (response_payload response)),
          parse_scan_value (bdrop 4 (response_payload response)) with
    | Returned (Some key), Returned (Some value) => Some (key, value)
    | _, _ => None
    end
  else None.

Lemma scan_chunk_fields total i key value :
  blen key < 2 ^ 32 → blen value < 2 ^ 32 →
  bdrop 4 (scan_chunk total i key value) = field key ++ field value.
Proof.
  intros Hk Hv. unfold scan_chunk, field, as_u32. rewrite !N.mod_small by done.
  rewrite (app_assoc (u16_be total)). by apply (bdrop_app (u16_be total ++ u16_be _)).
Qed.

Lemma chunk_pair_chunk id total i key value :
  blen key < 2 ^ 32 → blen value < 2 ^ 32 →
  chunk_pair (mkResponse id SCAN_CHUNK (scan_chunk total i key value)) = Some (key, value).
Proof.
  intros Hk Hv. unfold chunk_pair. cbn [response_opcode response_payload]. rewrite scan_chunk_fields by done.
  by destruct (parse_scan_pair key value Hk Hv) as [-> ->].
Qed.

(** A pair whose lengths fit their fields. *)
Definition fits (e : bytes * bytes) : Prop := blen e.1 < 2 ^ 32 ∧ blen e.2 < 2 ^ 32.

Lemma omap_chunks id total (l : list (bytes * bytes)) : ∀ j,
  Forall fits l →
  omap chunk_pair (imap (λ i pair, mkResponse id SCAN_CHUNK (scan_chunk total (N.of_nat (j + i)) pair.1 pair.2)) l) = l.
Proof.
  induction l as [|[k v] l IH]; intros j Hl; [done|]. apply Forall_cons in Hl as [[Hk Hv] Hl]. csimpl.
  rewrite chunk_pair_chunk by done. f_equal. rewrite <- (IH (S j) Hl) at 2. f_equal. apply imap_ext.
  intros i x _. simpl. by rewrite Nat.add_succ_r.
Qed.

(** A scan delivers its pairs: a client that reads the key and the value out of
    each chunk gets, in the order of the bus, the first 65535 pairs, and all of them
    when there are no more; every chunk announces that number, and the last response
    is the end of the scan. *)
Theorem scan_delivers_pairs id pairs :
  Forall fits pairs →
  omap chunk_pair (scan_responses id pairs) = take (N.to_nat u16_max) pairs ∧
  (N.of_nat (length pairs) ≤ u16_max → omap chunk_pair (scan_responses id pairs) = pairs) ∧
  last (scan_responses id pairs) = Some (mkResponse id SCAN_END []) ∧
  ∀ r, r ∈ scan_responses id pairs → response_opcode r = SCAN_CHUNK →
    btake 2 (response_payload r) = u16_be (N.min (N.of_nat (length pairs)) u16_max).
Proof.
  intros Hp.
  assert (omap chunk_pair (scan_responses id pairs) = take (N.to_nat u16_max) pairs) as Heq.
  { unfold scan_responses. rewrite omap_app. change (omap chunk_pair [mkResponse id SCAN_END []]) with
      (@nil (bytes * bytes)). rewrite app_nil_r. apply (omap_chunks id (scan_total pairs) _ 0). by apply Forall_take. }
  split_and!; [done| |unfold scan_responses; by rewrite last_app|].
  - intros Hle. rewrite Heq. apply take_ge. lia.
  - intros r Hr Ho. unfold scan_responses in Hr. apply elem_of_app in Hr as [Hr|Hr].
    + apply elem_of_lookup_imap in Hr as (i & e & -> & _). rewrite <- scan_total_spec. cbn [response_payload].
      unfold scan_chunk. apply (btake_app (u16_be _)).
    + apply list_elem_of_singleton in Hr. subst r. done.
Qed.

Lemma scan_delivers_pairs_witness :
  let pairs := [(bs "user:1", bs "Ada"); (bs "user:2", [])] in
  omap chunk_pair (scan_responses 7 pairs) = take (N.to_nat u16_max) pairs ∧
  (N.of_nat (length pairs) ≤ u16_max → omap chunk_pair (scan_responses 7 pairs) = pairs) ∧
  last (scan_responses 7 pairs) = Some (mkResponse 7 SCAN_END []) ∧
  ∀ r, r ∈ scan_responses 7 pairs → response_opcode r = SCAN_CHUNK →
    btake 2 (response_payload r) = u16_be (N.min (N.of_nat (length pairs)) u16_max).
Proof. apply scan_delivers_pairs. repeat constructor. Defined.

(** * Dump and restore *)

(** An entry of a dump: a pair and its time-to-live in milliseconds. *)
Definition dumped : Type := bytes * bytes * N.
Definition dumped_fits (e : dumped) : Prop := blen e.1.1 < 2 ^ 32 ∧ blen e.1.2 < 2 ^ 32 ∧ e.2 < 2 ^ 64.
Definition record_of (e : dumped) : bytes := dump_record e.1.1 e.1.2 e.2.

Lemma dump_record_fields k v ms :
  blen k < 2 ^ 32 → blen v < 2 ^ 32 → dump_record k v ms = field k ++ field v ++ u64_be ms.
Proof. intros Hk Hv. unfold dump_record, field, as_u32. rewrite !N.mod_small by done. by rewrite <- !app_assoc. Qed.

Lemma blen_dump_record k v ms : blen (dump_record k v ms) = 16 + blen k + blen v.
Proof. unfold dump_record. rewrite !blen_app, !blen_u32_be, blen_u64_be. lia. Qed.

(** An offset moves past the record it stands on. *)
Lemma restore_next_record before k v ms after :
  blen k < 2 ^ 32 → blen v < 2 ^ 32 → ms < 2 ^ 64 →
  restore_next (before ++ dump_record k v ms ++ after) (blen before) =
  Returned (Some (k, v, ms, blen before + blen (dump_record k v ms))).
Proof.
  intros Hk Hv Hms. rewrite blen_dump_record, dump_record_fields by done.
  set (data := before ++ (field k ++ field v ++ u64_be ms) ++ after).
  assert (blen data = blen before + (4 + blen k) + (4 + blen v) + 8 + blen after) as Hlen.
  { subst data. rewrite !blen_app, !blen_field, blen_u64_be. lia. }
  assert (u32_at data (blen before) = Returned (blen k)) as H1.
  { subst data. rewrite <- !app_assoc. by apply field_length_at. }
  assert (slice data (blen before + 4) (blen before + 4 + blen k) = Returned k) as H2.
  { replace data with ((before ++ u32_be (blen k)) ++ k ++ (field v ++ u64_be ms ++ after))
      by (subst data; unfold field; by rewrite <- !app_assoc).
    apply slice_app; rewrite blen_app, blen_u32_be; lia. }
  assert (u32_at data (blen before + 4 + blen k) = Returned (blen v)) as H3.
  { replace data with ((before ++ field k) ++ field v ++ (u64_be ms ++ after))
      by (subst data; by rewrite <- !app_assoc).
    replace (blen before + 4 + blen k) with (blen (before ++ field k)) by (rewrite blen_app, blen_field; lia).
    by apply field_length_at. }
  assert (slice data (blen before + 4 + blen k + 4) (blen before + 4 + blen k + 4 + blen v) = Returned v) as H4.
  { replace data with ((before ++ field k ++ u32_be (blen v)) ++ v ++ (u64_be ms ++ after))
      by (subst data; unfold field; by rewrite <- !app_assoc).
    apply slice_app; rewrite !blen_app, blen_field, blen_u32_be; lia. }
  assert (u64_at data (blen before + 4 + blen k + 4 + blen v) = Returned ms) as H5.
  { replace data with ((before ++ field k ++ field v) ++ u64_be ms ++ after)
      by (subst data; by rewrite <- !app_assoc).
    rewrite u64_at_app; [by rewrite of_be_u64_be, N.mod_small| |apply length_u64_be].
    rewrite !blen_app, !blen_field. lia. }
  unfold restore_next. rewrite Hlen.
  destruct (N.leb_spec (blen before + 4) (blen before + (4 + blen k) + (4 + blen v) + 8 + blen after)); [|lia].
  rewrite H1. cbn [mbind Outcome_bind].
  destruct (N.ltb_spec (blen before + (4 + blen k) + (4 + blen v) + 8 + blen after) (blen before + 4 + blen k + 4)); [lia|].
  rewrite H2. cbn [mbind Outcome_bind]. rewrite H3. cbn [mbind Outcome_bind].
  destruct (N.ltb_spec (blen before + (4 + blen k) + (4 + blen v) + 8 + blen after)
    (blen before + 4 + blen k + 4 + blen v + 8)); [lia|].
  rewrite H4. cbn [mbind Outcome_bind]. rewrite H5. cbn. unfold mret, Outcome_ret. do 3 f_equal. lia.
Qed.

(** A turn returns, and moves the offset by 16 or more within the data. *)
Lemma restore_next_total data offset :
  ∃ o, restore_next data offset = Returned o ∧
  match o with
  | Some (_, _, ms, next) => offset + 16 ≤ next ≤ blen data ∧ ms < 2 ^ 64
  | None => True
  end.
Proof.
  unfold restore_next. destruct (N.leb_spec (offset + 4) (blen data)); [|by exists None].
  rewrite u32_at_ok by lia. cbn [mbind Outcome_bind].
  destruct (N.ltb_spec (blen data) (offset + 4 + of_be (btake 4 (bdrop offset data)) + 4)); [by exists None|].
  rewrite slice_ok, u32_at_ok by lia. cbn [mbind Outcome_bind].
  match goal with |- context [blen data <? ?x] => destruct (N.ltb_spec (blen data) x); [by exists None|] end.
  rewrite slice_ok by lia. cbn [mbind Outcome_bind].
  match goal with |- context [u64_at data ?x] => pose proof (u64_at_ok data x) as Hu end.
  rewrite Hu by lia. eexists. split; [done|]. split; [lia|]. eapply u64_at_bound. apply Hu. lia.
Qed.

Section restore.
Context {S : Type} `{Clock, !DataBus S}.

(** Enough fuel is as good as any: the loop has ended by itself. *)
Lemma restore_loop_fuel data : ∀ fuel fuel' offset count (w : World S),
  blen data < offset + N.of_nat fuel → blen data < offset + N.of_nat fuel' →
  restore_loop fuel data offset count w = restore_loop fuel' data offset count w.
Proof.
  induction fuel as [|fuel IH]; intros [|fuel'] offset count w Hf Hf'.
  - done.
  - cbn [restore_loop]. destruct (restore_next_total data offset) as ([[[[k v] ms] next]|] & Ho & Hn).
    + exfalso. lia.
    + unfold lift_outcome, mbind, M_bind. by rewrite Ho.
  - cbn [restore_loop]. destruct (restore_next_total data offset) as ([[[[k v] ms] next]|] & Ho & Hn).
    + exfalso. lia.
    + unfold lift_outcome, mbind, M_bind. by rewrite Ho.
  - cbn [restore_loop]. destruct (restore_next_total data offset) as ([[[[k v] ms] next]|] & Ho & Hn);
      unfold lift_outcome, mbind, M_bind; rewrite Ho; [|done].
    destruct (restore_entry k v ms w) as [[[]| |] w']; try done. apply IH; lia.
Qed.

(** What the entries do, in order. *)
Definition restore_all (entries : list dumped) : M (World S) unit :=
  mfor entries (λ e, restore_entry e.1.1 e.1.2 e.2).

Lemma restore_loop_records entries : ∀ fuel before count (w : World S),
  Forall dumped_fits entries →
  blen (before ++ mjoin (record_of <$> entries)) < blen before + N.of_nat fuel →
  restore_loop fuel (before ++ mjoin (record_of <$> entries)) (blen before) count w =
  (restore_all entries ;; mret (count + N.of_nat (length entries))) w.
Proof.
  induction entries as [|[[k v] ms] entries IH]; intros fuel before count w Hfit Hfuel.
  - destruct fuel as [|fuel]; cbn in Hfuel; rewrite app_nil_r in *; [lia|]. cbn [restore_loop fmap list_fmap mjoin list_join].
    unfold restore_next. rewrite ?app_nil_r. destruct (N.leb_spec (blen before + 4) (blen before)); [lia|].
    cbn. by rewrite N.add_0_r.
  - apply Forall_cons in Hfit as [(Hk & Hv & Hms) Hfit]. cbn [fst snd] in Hk, Hv, Hms.
    change (mjoin (record_of <$> (k, v, ms) :: entries)) with
      (dump_record k v ms ++ mjoin (record_of <$> entries)) in *.
    destruct fuel as [|fuel]; [rewrite blen_app in Hfuel; lia|]. cbn [restore_loop length].
    rewrite (restore_next_record before k v ms (mjoin (record_of <$> entries)) Hk Hv Hms).
    unfold lift_outcome at 1. unfold restore_all in *. cbn [mfor fst snd].
    unfold mbind, M_bind in *. destruct (restore_entry k v ms w) as [[[]| |] w'] eqn:E; try done.
    replace (count + N.of_nat (Datatypes.S (length entries))) with (count + 1 + N.of_nat (length entries)) by lia.
    rewrite <- (IH fuel (before ++ dump_record k v ms) (count + 1) w' Hfit).
    + rewrite <- app_assoc, blen_app. done.
    + rewrite <- app_assoc.
      rewrite !blen_app, blen_dump_record in *. lia.
Qed.

(** C32: restoring the bytes of a dump runs its entries, in order and no others: for
    each, a write, and a time-to-live if it has one.  The number of turns the loop is
    given is always enough: it ends by itself on any bytes. *)
Theorem restore_reads_dump entries (w : World S) :
  Forall dumped_fits entries →
  restore_data (mjoin (record_of <$> entries)) w =
    (restore_all entries ;; mret (N.of_nat (length entries))) w ∧
  ∀ data fuel, (length data < fuel)%nat → restore_loop fuel data 0 0 w = restore_data data w.
Proof.
  intros Hfit. split.
  - unfold restore_data. apply (restore_loop_records entries _ [] 0 w Hfit).
    rewrite app_nil_l. unfold blen. simpl. lia.
  - intros data fuel Hf. apply restore_loop_fuel; unfold blen; lia.
Qed.
End restore.

Section dump_contents.
Context {S : Type} `{TimedBus S, FileSystem}.

Lemma dump_entries_run (pairs : list (bytes * bytes)) : ∀ w : World S,
  bus_wf (st w) →
  ∃ ttls w', mmap dump_entry pairs w = (Returned (record_of <$> zip pairs ttls), w') ∧
    bus_wf (st w') ∧ length ttls = length pairs ∧ Forall (λ ms, ms < 2 ^ 64) ttls.
Proof.
  induction pairs as [|[k v] pairs IH]; intros w Hwf; [by exists [], w|].
  destruct (bus_read_ttl_remaining_law w k Hwf) as (r & now & (w1 & Hr & _ & Hwf1 & _) & _).
  destruct (IH w1 Hwf1) as (ttls & w2 & Hm & Hwf2 & Hlen & Hall).
  exists (ttl_millis r :: ttls), w2. split_and!; [|done|simpl; by rewrite Hlen|].
  - assert (dump_entry (k, v) w = (Returned (record_of (k, v, ttl_millis r)), w1)) as He
      by (unfold dump_entry; simpl; by run_with Hr).
    cbn [mmap]. run_with He. by run_with Hm.
  - constructor; [|done]. unfold ttl_millis. destruct r as [d|]; simpl; [by apply N.mod_lt|done].
Qed.

(** C34: a dump holds the store: the file is made of one record for each pair a
    reader sees, in key order, and nothing else. *)
Theorem dump_holds_contents path (w : World S) :
  bus_wf (st w) → file_create path = None →
  ∃ entries shown w', render_dump [bs "-f"; path] w =
      (Returned (mkRendered shown (Some (path, mjoin (record_of <$> entries)))), w') ∧ bus_wf (st w') ∧
    entries.*1 = btree_iter (bus_contents (st w) (sample (tick w))).
Proof.
  intros Hwf Hfile. destruct (bus_find_by_prefix_law w [] Hwf) as (now & w1 & Hscan & _ & Hwf1 & _).
  set (pairs := prefix_entries [] (bus_contents (st w) (sample (tick w)))) in *.
  destruct (dump_entries_run pairs w1 Hwf1) as (ttls & w2 & Hm & Hwf2 & Hlen & _).
  exists (zip pairs ttls). eexists _, w2. split_and!; [|done|].
  - unfold render_dump. cbn [file_argument]. rewrite bool_decide_eq_true_2 by done. run_with Hscan. rewrite Hfile.
    run_with Hm. reflexivity.
  - rewrite fst_zip by lia. subst pairs. apply prefix_entries_nil.
Qed.
End dump_contents.

(** * What a restored store shows *)
Section restore_contents.
Context {S : Type} `{TimedBus S}.

(** How an entry shows between two readings of the clock: for good, or until an
    instant that lies its time-to-live after one of the readings between. *)
Definition expiry_of (ms : N) (from to : Instant) (e : option Instant) : Prop :=
  match e with
  | None => ms = 0
  | Some i => 0 < ms ∧ from + from_millis ms ≤ i ≤ to + from_millis ms
  end.
Definition shown_at (v : bytes) (e : option Instant) (t : Instant) : option bytes :=
  match e with None => Some v | Some i => if decide (t < i) then Some v else None end.

Lemma restore_entry_run k v ms w :
  bus_wf (st w) → bus_writable k → ms < 2 ^ 64 →
  ∃ e w', restore_entry k v ms w = (Returned (), w') ∧ bus_wf (st w') ∧ (tick w ≤ tick w')%nat ∧
    expiry_of ms (sample (tick w)) (sample (tick w')) e ∧
    ∀ t, sample (tick w') ≤ t → ∀ k', bus_contents (st w') t !! k' =
      if decide (k = k') then shown_at v e t else bus_contents (st w) t !! k'.
Proof.
  intros Hwf Hk Hms. destruct (bus_write_law w k v Hwf Hk) as (now1 & w1 & Hr1 & Ht1 & Hwf1 & Hn1 & Hc1).
  unfold restore_entry. destruct (N.ltb_spec 0 ms) as [Hpos|Hzero].
  - destruct (bus_write_ttl_law w1 k (from_millis ms) Hwf1 (duration_ok_millis ms Hms))
      as (now2 & w2 & Hr2 & Ht2 & Hwf2 & Hn2 & Hc2).
    pose proof (sample_mono _ _ Ht1). exists (Some (now2 + from_millis ms)), w2.
    split_and!; [run_with Hr1; exact Hr2|done|lia|unfold expiry_of; lia..|]. intros t Ht k'.
    rewrite Hc2 by lia. rewrite (Hc1 now2), lookup_insert_eq by lia.
    rewrite expiring_lookup. case_decide; [done|]. by rewrite Hc1, lookup_insert_ne by (done || lia).
  - exists None, w1. split_and!; [by run_with Hr1|done|done|simpl; lia|]. intros t Ht k'.
    rewrite Hc1 by lia. rewrite lookup_insert. by case_decide.
Qed.

Lemma expiry_of_widen ms f f' t t' e : f' ≤ f → t ≤ t' → expiry_of ms f t e → expiry_of ms f' t' e.
Proof. unfold expiry_of. destruct e; [lia|done]. Qed.

(** C33: what a restore leaves.  After the entries of a dump with distinct keys are
    restored into any bus, a reader finds each of them: for good if it had no
    time-to-live, else until an instant that lies its time-to-live after a moment of
    the restore; the keys the dump does not have are as they were. *)
Theorem restore_contents entries w :
  bus_wf (st w) → Forall (λ e : dumped, bus_writable e.1.1 ∧ e.2 < 2 ^ 64) entries → NoDup entries.*1.*1 →
  ∃ w', restore_all entries w = (Returned (), w') ∧ bus_wf (st w') ∧ (tick w ≤ tick w')%nat ∧
    (∀ k v ms, (k, v, ms) ∈ entries →
       ∃ e, expiry_of ms (sample (tick w)) (sample (tick w')) e ∧
            ∀ t, sample (tick w') ≤ t → bus_contents (st w') t !! k = shown_at v e t) ∧
    (∀ k t, k ∉ entries.*1.*1 → sample (tick w') ≤ t → bus_contents (st w') t !! k = bus_contents (st w) t !! k).
Proof.
  intros Hwf Hall. revert w Hwf. induction Hall as [|[[k v] ms] entries [Hk Hms] Hall IH]; intros w Hwf Hnd.
  - exists w. split_and!; [done|done|done| |done]. intros k v ms Hin. by apply elem_of_nil in Hin.
  - csimpl in *. apply NoDup_cons in Hnd as [Hnin Hnd].
    destruct (restore_entry_run k v ms w Hwf Hk Hms) as (e & w1 & Hr1 & Hwf1 & Ht1 & He & Hc1).
    destruct (IH w1 Hwf1 Hnd) as (w2 & Hr2 & Hwf2 & Ht2 & Hin & Hout).
    pose proof (sample_mono _ _ Ht1). pose proof (sample_mono _ _ Ht2).
    exists w2. split_and!; [by unfold restore_all in *; cbn [mfor fst snd]; run_with Hr1|done|lia| |].
    + intros k' v' ms' [[= -> -> ->]|Hin']%elem_of_cons.
      * exists e. split; [by eapply expiry_of_widen; [| |exact He]|]. intros t Ht.
        rewrite Hout, Hc1, decide_True by (done || lia). done.
      * destruct (Hin k' v' ms' Hin') as (e' & He' & Hc'). exists e'. split; [|done].
        eapply expiry_of_widen; [| |exact He']; done.
    + intros k' t Hk' Ht. apply not_elem_of_cons in Hk' as [Hne Hk'].
      rewrite Hout, Hc1, decide_False by (done || lia). done.
Qed.
End restore_contents.

(** ** Concrete runs *)

Definition example_dump : list dumped := [(bs "lock", bs "1", 1500); (bs "user:42", bs "Ada", 0)].

Lemma restore_reads_dump_witness :
  restore_data (mjoin (record_of <$> example_dump)) example_world =
    (restore_all example_dump ;; mret 2) example_world ∧
  ∀ data fuel, (length data < fuel)%nat → restore_loop fuel data 0 0 example_world = restore_data data example_world.
Proof. apply (restore_reads_dump example_dump example_world). repeat constructor. Defined.

(** A store with two rows, an expiring pair and a key that is deleted again. *)
Definition dumped_ops : list BusOp :=
  [OpWrite (bs "user:7") (bs "Bob"); OpWrite (bs "user:42") (bs "Ada");
   OpWriteWithTtl (bs "cart:9") (bs "tea") (from_secs 30); OpWrite (bs "tmp:1") []; OpDelete (bs "tmp:1")].
Definition dumped_world : World TricBus := (run_ops dumped_ops example_world).2.

Lemma dumped_world_wf : bus_wf (st dumped_world).
Proof.
  destruct (run_ops_refines dumped_ops example_world ∅) as (rs & w & T & Hr & Hwf & _).
  - apply example_world_wf.
  - done.
  - repeat constructor. by apply duration_ok_secs.
  - intros t _. change (tm_contents (store_abs create_store) t = tm_contents ∅ t). by rewrite create_store_abs.
  - unfold dumped_world. by rewrite Hr.
Qed.

Lemma dump_holds_contents_witness :
  ∃ entries shown w', render_dump [bs "-f"; bs "/tmp/store.dump"] dumped_world =
      (Returned (mkRendered shown (Some (bs "/tmp/store.dump", mjoin (record_of <$> entries)))), w') ∧ bus_wf (st w') ∧
    entries.*1 = [(bs "cart:9", bs "tea"); (bs "user:42", bs "Ada"); (bs "user:7", bs "Bob")].
Proof.
  assert (btree_iter (bus_contents (st dumped_world) (sample (tick dumped_world))) =
    [(bs "cart:9", bs "tea"); (bs "user:42", bs "Ada"); (bs "user:7", bs "Bob")]) as <- by (vm_compute; reflexivity).
  apply (dump_holds_contents (bs "/tmp/store.dump") dumped_world); [apply dumped_world_wf|reflexivity].
Defined.

Lemma restore_contents_witness :
  ∃ w', restore_all example_dump example_world = (Returned (), w') ∧ bus_wf (st w') ∧
    (tick example_world ≤ tick w')%nat ∧
    (∀ k v ms, (k, v, ms) ∈ example_dump →
       ∃ e, expiry_of ms (sample (tick example_world)) (sample (tick w')) e ∧
            ∀ t, sample (tick w') ≤ t → bus_contents (st w') t !! k = shown_at v e t) ∧
    (∀ k t, k ∉ example_dump.*1.*1 → sample (tick w') ≤ t →
       bus_contents (st w') t !! k = bus_contents (st example_world) t !! k).
Proof.
  apply (restore_contents example_dump example_world).
  - apply example_world_wf.
  - repeat constructor.
  - apply (bool_decide_unpack _). vm_compute. exact I.
Defined.

Lemma pair_first {A B} (r : A * B) a : r.1 = a → r = (a, r.2).
Proof. intros <-. apply surjective_pairing. Qed.

(** A dump makes a persistent key expire.  A value written without a
    time-to-live and read once is in the cache of the permutive bus; the dump
    reports the time left to the cache entry as the key's, and the bus the dump is
    restored into drops the key when it is over. *)
Theorem dump_of_cached_key_expires :
  let key := bs "user:42" in
  let empty := mkWorld 0 (fresh_permutive memory_bus) in
  ∃ w1 shown file w2 w3,
    run_ops [OpWrite key (bs "Ada"); OpRead key] empty =
      (Returned [ReplyUnit; ReplyValue (Some (bs "Ada"))], w1) ∧
    tm_contents (store_abs (transient (st w1))) (sample (tick w1) + from_secs CACHE_PROMOTION_SECONDS) !! key = None ∧
    sqlite_contents (persistent (st w1)) !! key = Some (bs "Ada") ∧
    render_dump [bs "-f"; bs "dump"] w1 = (Returned (mkRendered shown (Some (bs "dump", file))), w2) ∧
    restore_data file empty = (Returned 1, w3) ∧
    permutive_contents (st w3) (sample (tick w3)) !! key = Some (bs "Ada") ∧
    permutive_contents (st w3) (sample (tick w3) + from_secs CACHE_PROMOTION_SECONDS) !! key = None.
Proof.
  intros key empty.
  set (written := run_ops [OpWrite key (bs "Ada"); OpRead key] empty).
  set (dumped := render_dump [bs "-f"; bs "dump"] written.2).
  pose (file := dump_record key (bs "Ada") 59998).
  exists written.2, (match dumped.1 with Returned r => text r | _ => [] end), file, dumped.2, (restore_data file empty).2.
  split_and!; try apply pair_first; vm_compute; reflexivity.
Qed.
