(* ===== verification/Admin.v ===== *)
(** The admin module, src/modules/cli.rs: the import, export and help commands, the
    dispatch of a command line, and a turn of the module's loop.  The other commands
    are in Cli.v. *)
From stdpp Require Import prelude gmap sorting strings.
From Stdlib Require Import NArith Lia.
From S2P Require Import Prelude.
From S2P Require Import Bytes.
From S2P Require Import Text.
From S2P Require Import BTree.
From S2P Require Import Clock.
From S2P Require Import TimedMap.
From S2P Require Import Store.
From S2P Require Import Tric.
From S2P Require Import DataBus.
From S2P Require Import BusSpec.
From S2P Require Import Sqlite.
From S2P Require Import Instances.
From S2P Require Import Permutive.
From S2P Require Import Buses.
From S2P Require Import Metrics.
From S2P Require Import Codec.
From S2P Require Import Replies.
From S2P Require Import Modules.
From S2P Require Import Sql.
From S2P Require Import Query.
From S2P Require Import Files.
From S2P Require Import Analyser.
From S2P Require Import Import.
From S2P Require Import Export.
From S2P Require Import Cli.

Record CliConfig : Type := mkCliConfig { admin_path : bytes; auth_keys_path : option bytes }.
(** The counters are shared with the server: [metrics] is what they are now. *)
Record CliModule : Type := mkCliModule { config : CliConfig; metrics : Metrics }.
Definition create_cli (config : CliConfig) (metrics : Metrics) : CliModule := mkCliModule config metrics.

Definition max_file_size : N := 1073741824.

(** The arguments of an export behind the file: whether it is left uncompressed, and
    the dialect. *)
Fixpoint export_options (parts : list bytes) (debug : bool) (sql_format : option bytes) : bool * option bytes :=
  match parts with
  | [] => (debug, sql_format)
  | arg :: parts =>
      if bool_decide (arg = bs "-d" ∨ arg = bs "--debug") then export_options parts true sql_format
      else if bool_decide (arg = bs "-F" ∨ arg = bs "--format") then
        match parts with
        | [] => (debug, None)
        | format :: parts => export_options parts debug (Some format)
        end
      else export_options parts debug sql_format
  end.

Definition import_usage : bytes :=
  bs "usage: import -f <path> -F mysql|postgres|sqlite [-a]" ++ newline ++
  bs "       import -D <old.tric> <new.tric>" ++ newline.

Definition render_help : bytes :=
  mjoin ((λ line, bs line ++ newline) <$>
    ["commands:";
     "  status                                server status";
     "  keys [-p prefix]                      list keys";
     "  inspect <key>                         key metadata";
     "  query <SQL>                           SQL query";
     "  import -f <path> -F mysql|postgres|sqlite [-a]";
     "  import -D <old.tric> <new.tric>       diff-import";
     "  export -f <path.tric> [-d] [-F mysql|postgres|sqlite]";
     "  dump -f <path>                        binary store dump";
     "  restore -f <path>                     binary store restore";
     "  reload                                reload authorized_keys";
     "  shutdown                              stop server";
     "  help                                  this message"]%string).

Section admin.
Context {S : Type} `{Clock, !DataBus S, SqlParser, UnicodeTables, FileSystem, Archives, HashOrder}.

(** The size check: the answer that refuses a file. *)
Definition check_size (path file : bytes) : option bytes :=
  match file_metadata path with
  | inr len =>
      if max_file_size <? len then
        Some (bs "error: " ++ file ++ bs " exceeds 1 GB limit (" ++ decimal len ++ bs "B)" ++ newline)
      else None
  | inl error => Some (bs "error: cannot stat " ++ path ++ bs ": " ++ error ++ newline)
  end.

Definition render_diff_import (old_path new_path : bytes) : M (World S) bytes :=
  match head (omap (λ path, check_size path path) [old_path; new_path]) with
  | Some refusal => mret refusal
  | None =>
      result ← parse_diff_import old_path new_path;
      mret match result with
           | inr result =>
               decimal (additions result) ++ bs " additions, " ++ decimal (modifications result) ++
               bs " modifications, " ++ decimal (deletions result) ++ bs " deletions applied." ++ newline
           | inl error => bs "error: " ++ error ++ newline
           end
  end.

(** [parts] are the words behind the verb; each [next] takes one of them. *)
Definition render_import (parts : list bytes) : M (World S) bytes :=
  let flag_f := parts !! 0%nat in
  if bool_decide (flag_f = Some (bs "-D") ∨ flag_f = Some (bs "--diff")) then
    match parts !! 1%nat, parts !! 2%nat with
    | Some old_path, Some new_path => render_diff_import old_path new_path
    | _, _ => mret (bs "usage: import -D <old.tric> <new.tric>" ++ newline)
    end
  else
    let flag_format := parts !! 2%nat in
    let analyse_only := bool_decide (parts !! 4%nat = Some (bs "-a")) || bool_decide (parts !! 5%nat = Some (bs "--analyse")) in
    match file_argument parts with
    | None => mret import_usage
    | Some path =>
        match parts !! 3%nat with
        | Some format =>
            if bool_decide (flag_format = Some (bs "-F") ∨ flag_format = Some (bs "--format")) then
              match check_size path (bs "file") with
              | Some refusal => mret refusal
              | None =>
                  match file_read_to_string path with
                  | inl error => mret (bs "error: cannot read " ++ path ++ bs ": " ++ error ++ newline)
                  | inr content =>
                      let statements := parse_sql content format in
                      let plan := analyse_statements statements in
                      if analyse_only then mret (render_storage_plan plan)
                      else
                        result ← parse_import statements plan;
                        mret (decimal (imported_tables result) ++ bs " tables, " ++ decimal (imported_rows result) ++
                              bs " rows, " ++ decimal (relationships result) ++ bs " relationships imported. " ++
                              decimal (errors result) ++ bs " errors." ++ newline)
                  end
              end
            else mret import_usage
        | None => mret import_usage
        end
    end.

Definition render_export (parts : list bytes) : M (World S) Rendered :=
  match file_argument parts with
  | None => mret (answer (bs "usage: export -f <path.tric> [-d] [-F mysql|postgres|sqlite]" ++ newline))
  | Some path =>
      match export_options (drop 2 parts) false None with
      | (_, Some dialect) =>
          result ← write_sql_file path dialect;
          mret match result with
               | inr (result, file) =>
                   mkRendered (decimal (entries result) ++ bs " rows exported to " ++ path ++ bs " (" ++ dialect ++ bs ")" ++ newline)
                     (Some (path, file))
               | inl error => answer (bs "error: " ++ error ++ newline)
               end
      | (debug, None) =>
          '(result, file) ← write_tric_archive path debug;
          mret (mkRendered
            match result with
            | inr result =>
                let mode := if debug then bs "uncompressed tar" else bs "Brotli" in
                decimal (entries result) ++ bs " entries exported to " ++ path ++ bs " (" ++ mode ++ bs ")" ++ newline
            | inl error => bs "error: " ++ error ++ newline
            end
            (pair path <$> file))
      end
  end.

Definition dispatch_command (module : CliModule) (command : bytes) : M (World S) Rendered :=
  let words := split_whitespace command in
  let verb := default [] (head words) in
  let parts := tail words in
  if bool_decide (verb = bs "status") then mret (answer (render_status (metrics module)))
  else if bool_decide (verb = bs "keys") then text ← render_keys parts; mret (answer text)
  else if bool_decide (verb = bs "inspect") then text ← render_inspect parts; mret (answer text)
  else if bool_decide (verb = bs "import") then text ← render_import parts; mret (answer text)
  else if bool_decide (verb = bs "query") then text ← render_query parts; mret (answer text)
  else if bool_decide (verb = bs "export") then render_export parts
  else if bool_decide (verb = bs "dump") then render_dump parts
  else if bool_decide (verb = bs "restore") then text ← render_restore parts; mret (answer text)
  else if bool_decide (verb = bs "reload") then mret (answer (render_reload (auth_keys_path (config module))))
  else if bool_decide (verb = bs "shutdown") then text ← render_shutdown; mret (answer text)
  else if bool_decide (verb = bs "help") then mret (answer render_help)
  else mret (answer (bs "error: unknown command '" ++ verb ++ bs "'" ++ newline)).

(** * The module's loop *)

Definition cli_name : bytes := bs "cli".
Definition module_key : bytes := bs "module:cli".

(** What [run] does before its loop: it ends the process when the socket cannot be
    bound. *)
Definition run_start (bound : bool) : M (World (ModuleContext S)) unit :=
  if bound then on_core_bus (Tric.write_value module_key (bs "running"))
  else exit_process 1.

(** A turn of the loop, from one heartbeat to the next: the answer to the datagram.
    [input] is [None] when [recv_from] fails; a longer datagram is cut. *)
Definition cli_turn (module : CliModule) (input : option bytes) : M (World (ModuleContext S)) (option Rendered) :=
  on_core_bus (Tric.write_ttl module_key heartbeat) ;;
  match input with
  | None => mret None
  | Some datagram =>
      let command := from_utf8_lossy (btake 4096 datagram) in
      response ← on_data_bus (dispatch_command module (trim command));
      mret (Some response)
  end.
End admin.

(** * Every command returns *)
Section admin_returns.
Context {S : Type} `{TimedBus S, SqlParser, UnicodeTables, FileSystem, Archives, HashOrder}.

(** The verb of a command line. *)
Definition command_verb (command : bytes) : bytes := default [] (head (split_whitespace command)).

(** The keys a command may store without a time-to-live: those of the entries of
    the file it restores, of the data entries in which two archives differ, of the
    rows it imports, and of its statement. *)
Fixpoint restore_keys (fuel : nat) (data : bytes) (offset : N) : list bytes :=
  match fuel with
  | O => []
  | Datatypes.S fuel' =>
      match restore_next data offset with
      | Returned (Some (key, _, _, offset)) => key :: restore_keys fuel' data offset
      | _ => []
      end
  end.

Definition restore_writes (parts : list bytes) : list bytes :=
  match file_argument parts with
  | Some path =>
      match file_read_to_end path with
      | Some data => restore_keys (Datatypes.S (length data)) data 0
      | None => []
      end
  | None => []
  end.

Definition diff_keys (old_entries : gmap bytes bytes) (new : list (bytes * bytes)) : list bytes :=
  (diff_writes old_entries new).*1.

Definition diff_import_writes (old_path new_path : bytes) : list bytes :=
  match read_tric_archive old_path, read_tric_archive new_path with
  | inr old_entries, inr new_entries => diff_keys old_entries (hash_iter new_entries)
  | _, _ => []
  end.

Definition import_command_writes (parts : list bytes) : list bytes :=
  let flag_f := parts !! 0%nat in
  if bool_decide (flag_f = Some (bs "-D") ∨ flag_f = Some (bs "--diff")) then
    match parts !! 1%nat, parts !! 2%nat with
    | Some old_path, Some new_path => diff_import_writes old_path new_path
    | _, _ => []
    end
  else
    match file_argument parts, parts !! 3%nat with
    | Some path, Some format =>
        match file_read_to_string path with
        | inr content =>
            let statements := parse_sql content format in
            (import_writes (analyse_statements statements) statements).*1
        | inl _ => []
        end
    | _, _ => []
    end.

Definition command_writes (command : bytes) : list bytes :=
  let verb := command_verb command in
  let parts := tail (split_whitespace command) in
  if bool_decide (verb = bs "import") then import_command_writes parts
  else if bool_decide (verb = bs "query") then query_writes (join (bs " ") parts)
  else if bool_decide (verb = bs "restore") then restore_writes parts
  else [].

Lemma apply_new_returns old_entries new result :
  Forall (bus_writable (S := S)) (diff_keys old_entries new) →
  returns (S := S) (apply_new old_entries new result) (λ _, True).
Proof using Type.
  unfold diff_keys. rewrite Forall_fmap. intros Hk.
  destruct (apply_new_upto (ttl_keys old_entries new) old_entries new result Hk) as (r & _ & _ & Hrun); [done|].
  intros w Hw. destruct (Hrun w Hw) as (w' & ? & ? & ? & _). by exists r, w'.
Qed.

Lemma delete_old_returns new_entries old result : returns (S := S) (delete_old new_entries old result) (λ _, True).
Proof using Type.
  revert result. induction old as [|path old IH]; intros result; [by apply returns_ret|]. cbn [delete_old].
  case_bool_decide; [apply IH|]. eapply returns_bind; [apply returns_delete|]. intros; apply IH.
Qed.

Lemma parse_diff_import_returns old_path new_path :
  Forall (bus_writable (S := S)) (diff_import_writes old_path new_path) →
  returns (S := S) (parse_diff_import old_path new_path) (λ _, True).
Proof using Type.
  unfold parse_diff_import, apply_diff, diff_import_writes. intros Hk. repeat case_match; try (by apply returns_ret).
  apply (returns_bind _ _ (λ _, True)); [|intros; by apply returns_ret].
  apply (returns_bind _ _ (λ _, True)); [by apply apply_new_returns|intros; apply delete_old_returns].
Qed.

Lemma render_diff_import_returns old_path new_path :
  Forall (bus_writable (S := S)) (diff_import_writes old_path new_path) →
  returns (S := S) (render_diff_import old_path new_path) (λ _, True).
Proof using Type.
  intros Hk. unfold render_diff_import. case_match; [by apply returns_ret|].
  apply (returns_bind _ _ (λ _, True)); [by apply parse_diff_import_returns|intros; by apply returns_ret].
Qed.

Lemma render_import_returns parts :
  Forall (bus_writable (S := S)) (import_command_writes parts) → returns (S := S) (render_import parts) (λ _, True).
Proof using Type.
  unfold render_import, import_command_writes. intros Hk.
  repeat case_match; try congruence; try (by apply returns_ret); simplify_eq; try (by apply render_diff_import_returns).
  apply (returns_bind _ _ (λ _, True)); [|intros; by apply returns_ret].
  rewrite Forall_fmap in Hk. eapply transforms_returns, parse_import_transforms. exact Hk.
Qed.

Lemma write_sql_file_returns path dialect : returns (S := S) (write_sql_file path dialect) (λ _, True).
Proof using Type.
  unfold write_sql_file. case_match; [by apply returns_ret|].
  apply (returns_bind _ _ (λ _, True)); [apply returns_find_by_prefix|]. intros schemas _.
  apply (returns_bind _ _ (Forall (λ _, True))); [|intros; by apply returns_ret].
  apply returns_mmap. intros schema. apply observes_returns. intros w Hw.
  eapply observes_weaken; [by apply export_table_observes|done].
Qed.

Lemma export_entry_returns archive entry : returns (S := S) (export_entry archive entry) (λ _, True).
Proof using Type.
  unfold export_entry. destruct entry as [key value]. cbv zeta. case_match; [by apply returns_ret|].
  case_match; [by apply returns_ret|]. destruct (write_tar_entry _ _ value); [by apply returns_ret|].
  apply (returns_bind _ _ (λ _, True)); [apply returns_read_ttl_remaining|]. intros remaining _.
  repeat case_match; by apply returns_ret.
Qed.

Lemma write_tric_archive_returns path debug : returns (S := S) (write_tric_archive path debug) (λ _, True).
Proof using Type.
  assert (∀ pairs archive result, returns (S := S) (export_entries archive pairs result) (λ _, True)) as Hentries.
  { induction pairs as [|e pairs IH]; intros archive result; [by apply returns_ret|]. cbn [export_entries].
    apply (returns_bind _ _ (λ _, True)); [apply export_entry_returns|]. intros [[error|] archive'] _; [by apply returns_ret|apply IH]. }
  unfold write_tric_archive, write_tar_contents. case_match; [by apply returns_ret|].
  apply (returns_bind _ _ (λ _, True)); [|intros; by apply returns_ret]. case_match; [by apply returns_ret|].
  apply (returns_bind _ _ (λ _, True)); [apply returns_find_by_prefix|]. intros pairs _. apply Hentries.
Qed.

Lemma render_export_returns parts : returns (S := S) (render_export parts) (λ _, True).
Proof using Type.
  unfold render_export. case_match; [|by apply returns_ret]. case_match. case_match;
    (apply (returns_bind _ _ (λ _, True)); [first [apply write_sql_file_returns|apply write_tric_archive_returns]|]).
  - intros; by apply returns_ret.
  - intros []; intros; by apply returns_ret.
Qed.

Lemma render_dump_returns parts : returns (S := S) (render_dump parts) (λ _, True).
Proof using Type.
  unfold render_dump. case_match; [|by apply returns_ret].
  apply (returns_bind _ _ (λ _, True)); [apply returns_find_by_prefix|]. intros pairs _. case_match; [by apply returns_ret|].
  apply (returns_bind _ _ (Forall (λ _, True))); [|intros; by apply returns_ret].
  apply returns_mmap. intros e. apply (returns_bind _ _ (λ _, True)); [apply returns_read_ttl_remaining|intros; by apply returns_ret].
Qed.

Lemma restore_loop_returns data : ∀ fuel offset count,
  Forall (bus_writable (S := S)) (restore_keys fuel data offset) →
  returns (S := S) (restore_loop fuel data offset count) (λ _, True).
Proof using Type.
  induction fuel as [|fuel IH]; intros offset count Hk; [by apply returns_ret|]. cbn [restore_loop restore_keys] in *.
  destruct (restore_next_total data offset) as (o & Ho & Hms). rewrite Ho in Hk.
  apply (returns_bind _ _ (λ o', o' = o)); [by eapply returns_lift|]. intros ? ->.
  destruct o as [[[[k v] ms] next]|]; [|by apply returns_ret].
  apply Forall_cons in Hk as [Hkey Hk].
  apply (returns_bind _ _ (λ _, True)); [|intros; by apply IH]. unfold restore_entry.
  apply (returns_bind _ _ (λ _, True)); [by apply returns_write|]. intros _ _. case_match; [|by apply returns_ret].
  apply returns_write_ttl, duration_ok_millis. tauto.
Qed.

Lemma render_restore_returns parts :
  Forall (bus_writable (S := S)) (restore_writes parts) → returns (S := S) (render_restore parts) (λ _, True).
Proof using Type.
  unfold render_restore, restore_writes. intros Hk. repeat case_match; try (by apply returns_ret).
  apply (returns_bind _ _ (λ _, True)); [by apply restore_loop_returns|intros; by apply returns_ret].
Qed.

(** What a response shows can always be read. *)
Lemma parse_scan_key_total data : ∃ o, parse_scan_key data = Returned o.
Proof using Type.
  unfold parse_scan_key. destruct (N.ltb_spec (blen data) 4); [by eexists|]. rewrite u32_at_ok by lia. cbn [mbind Outcome_bind].
  match goal with |- context [?x <=? blen data] => destruct (N.leb_spec x (blen data)) end; [|by eexists].
  rewrite slice_ok by lia. by eexists.
Qed.

Lemma parse_scan_value_total data : ∃ o, parse_scan_value data = Returned o.
Proof using Type.
  unfold parse_scan_value. destruct (N.ltb_spec (blen data) 4); [by eexists|]. rewrite u32_at_ok by lia. cbn [mbind Outcome_bind].
  match goal with |- context [blen data <? ?x] => destruct (N.ltb_spec (blen data) x) end; [by eexists|].
  rewrite u32_at_ok by lia. cbn [mbind Outcome_bind].
  match goal with |- context [?x <=? blen data] => destruct (N.leb_spec x (blen data)) end; [|by eexists].
  rewrite slice_ok by lia. by eexists.
Qed.

Lemma shown_pair_total payload (f : option bytes → option bytes → bytes) : ∃ text,
  (if 4 <=? blen payload then
     rest ← slice_from payload 4; key ← parse_scan_key rest; value ← parse_scan_value rest; mret (f key value)
   else mret []) = Returned text.
Proof using Type.
  destruct (N.leb_spec 4 (blen payload)); [|by eexists]. rewrite slice_from_ok by done. cbn [mbind Outcome_bind].
  destruct (parse_scan_key_total (bdrop 4 payload)) as [? ->], (parse_scan_value_total (bdrop 4 payload)) as [? ->]. by eexists.
Qed.

Lemma shown_value_total payload : ∃ text,
  (if 4 <=? blen payload then
     value_len ← u32_at payload 0;
     if 4 + value_len <=? blen payload then
       value ← slice payload 4 (4 + value_len); mret (from_utf8_lossy value ++ newline)
     else mret []
   else mret []) = Returned text.
Proof using Type.
  destruct (N.leb_spec 4 (blen payload)); [|by eexists]. rewrite u32_at_ok by lia. cbn [mbind Outcome_bind].
  match goal with |- context [?x <=? blen payload] => destruct (N.leb_spec x (blen payload)) end; [|by eexists].
  rewrite slice_ok by lia. by eexists.
Qed.

Lemma render_response_total response : ∃ text, render_response response = Returned text.
Proof using Type.
  unfold render_response. set (payload := response_payload response).
  destruct (shown_pair_total payload (λ key value,
    match key with Some key_data => from_utf8_lossy key_data ++ bs "  " | None => [] end ++
    match value with Some value_data => decimal (blen value_data) ++ bs "B" | None => [] end ++ newline)) as [ts Hs].
  destruct (shown_value_total payload) as [tv Hv]. cbv beta in Hs. rewrite Hs, Hv. repeat case_match; by eexists.
Qed.

Lemma render_query_returns parts :
  Forall (bus_writable (S := S)) (query_writes (join (bs " ") parts)) → returns (S := S) (render_query parts) (λ _, True).
Proof using Type.
  intros Hk. unfold render_query. repeat case_match; try (by apply returns_ret).
  eapply returns_bind; [by apply parse_query_returns|]. intros responses _.
  apply (returns_bind _ _ (Forall (λ _, True))); [|intros; by apply returns_ret].
  apply returns_mmap. intros response. destruct (render_response_total response) as [text Ht]. by eapply returns_lift.
Qed.

Lemma render_keys_returns parts : returns (S := S) (render_keys parts) (λ _, True).
Proof using Type.
  unfold render_keys. apply (returns_bind _ _ (λ _, True)); [apply returns_find_by_prefix|].
  intros pairs _. case_match; by apply returns_ret.
Qed.

Lemma render_inspect_returns parts : returns (S := S) (render_inspect parts) (λ _, True).
Proof using Type.
  unfold render_inspect. case_match; [by apply returns_ret|].
  apply (returns_bind _ _ (λ _, True)); [apply returns_read|]. intros value _. case_match; [|by apply returns_ret].
  apply (returns_bind _ _ (λ _, True)); [apply returns_read_ttl_remaining|]. intros; by apply returns_ret.
Qed.

Lemma dispatch_command_returns module command :
  command_verb command ≠ bs "shutdown" → Forall (bus_writable (S := S)) (command_writes command) →
  returns (S := S) (dispatch_command module command) (λ _, True).
Proof using Type.
  intros Hv Hk. unfold dispatch_command. fold (command_verb command). unfold command_writes in Hk.
  assert (∀ m : M (World S) bytes, returns m (λ _, True) → returns (text ← m; mret (answer text)) (λ _, True)) as Htext.
  { intros m Hm. apply (returns_bind _ _ (λ _, True)); [done|]. intros; by apply returns_ret. }
  repeat case_bool_decide; try (by apply returns_ret); try congruence; try apply Htext;
    eauto using render_keys_returns, render_inspect_returns, render_import_returns, render_query_returns,
      render_export_returns, render_dump_returns, render_restore_returns.
Qed.

Lemma dispatch_shutdown module command (w : World S) : command_verb command = bs "shutdown" →
  dispatch_command module command w = (Exited 0, w).
Proof using Type. unfold command_verb, dispatch_command. by intros ->. Qed.

(** A module's buses keep their invariants. *)
Definition context_wf (c : ModuleContext S) : Prop := store_wf (core_bus c) ∧ bus_wf (data_bus c).

(** C24: the admin socket answers every command that stores no key the bus cannot
    hold.  Whatever bytes a client sends, but for such a command ([command_writes]),
    the turn of the module's loop returns, with an answer, and leaves both buses
    well-formed, unless the first word is shutdown: then the process ends, with code
    0.  A failed receive is passed over. *)
Theorem admin_answers module input n c :
  context_wf c →
  (∀ datagram, input = Some datagram →
     let command := trim (from_utf8_lossy (btake 4096 datagram)) in
     command_verb command ≠ bs "shutdown" ∧ Forall (bus_writable (S := S)) (command_writes command)) →
  (∃ response n' c', cli_turn module input (mkWorld n c) = (Returned response, mkWorld n' c') ∧ context_wf c' ∧
    (is_Some response ↔ is_Some input)) ∧
  ∀ datagram, command_verb (trim (from_utf8_lossy (btake 4096 datagram))) = bs "shutdown" →
    (cli_turn (S := S) module (Some datagram) (mkWorld n c)).1 = Exited 0.
Proof using Type.
  intros [Hcore Hdata] Hverb.
  destruct (write_ttl_tric module_key heartbeat n (core_bus c) Hcore (duration_ok_secs 15 ltac:(done))) as (t & Hbeat & Hwf & _).
  pose proof (on_context_core_run _ n c _ _ _ Hbeat) as Hrun. split.
  - destruct input as [datagram|].
    + destruct (dispatch_command_returns module _ (proj1 (Hverb datagram eq_refl)) (proj2 (Hverb datagram eq_refl)) (mkWorld (Datatypes.S n) (data_bus c)) Hdata)
        as (response & [n' b] & Hr & Hb & _).
      exists (Some response), n', (mkModuleContext t b). split_and!; [|done|done].
      unfold cli_turn. run_with Hrun.
      by run_with (on_context_data_run _ (Datatypes.S n) (set_core_bus t c) _ _ _ Hr).
    + eexists None, _, (set_core_bus t c). split_and!; [unfold cli_turn; by run_with Hrun|by split|done].
  - intros datagram Hd. unfold cli_turn. run_with Hrun.
    pose proof (dispatch_shutdown module _ (mkWorld (Datatypes.S n) (data_bus c)) Hd) as Hs.
    revert Hs. generalize (trim (from_utf8_lossy (btake 4096 datagram))). intros command Hs.
    unfold on_data_bus, zoom_world, mbind, M_bind. cbn [tick st data_bus set_core_bus]. by rewrite Hs.
Qed.
End admin_returns.

(** * The analysis flag *)
Section analysis.
Context {S : Type} `{Clock, !DataBus S, SqlParser, UnicodeTables, FileSystem, Archives, HashOrder}.

(** An import that only analyses changes nothing; but of the two spellings of the
    flag, the long one is not seen where the short one is: an import that ends with
    it is carried out.  It is seen one word later only. *)
Theorem analyse_flag path format (w : World S) :
  (render_import [bs "-f"; path; bs "-F"; format; bs "-a"] w).2 = w ∧
  render_import [bs "-f"; path; bs "-F"; format; bs "--analyse"] w = render_import [bs "-f"; path; bs "-F"; format] w ∧
  ∀ word, render_import [bs "-f"; path; bs "-F"; format; word; bs "--analyse"] w =
          render_import [bs "-f"; path; bs "-F"; format; bs "-a"] w.
Proof.
  assert (∀ rest, render_import (S := S) (bs "-f" :: path :: bs "-F" :: format :: rest) =
    match check_size path (bs "file") with
    | Some refusal => mret refusal
    | None =>
        match file_read_to_string path with
        | inl error => mret (bs "error: cannot read " ++ path ++ bs ": " ++ error ++ newline)
        | inr content =>
            let plan := analyse_statements (parse_sql content format) in
            if bool_decide (rest !! 0%nat = Some (bs "-a")) || bool_decide (rest !! 1%nat = Some (bs "--analyse"))
            then mret (render_storage_plan plan)
            else
              result ← parse_import (parse_sql content format) plan;
              mret (decimal (imported_tables result) ++ bs " tables, " ++ decimal (imported_rows result) ++
                    bs " rows, " ++ decimal (relationships result) ++ bs " relationships imported. " ++
                    decimal (errors result) ++ bs " errors." ++ newline)
        end
    end) as Hrun by done.
  split_and!; rewrite ?Hrun.
  - by repeat case_match.
  - done.
  - intros word. rewrite !Hrun. repeat case_match; try done; by rewrite orb_true_r in *.
Qed.
End analysis.

(** ** Concrete runs *)

Definition example_module : CliModule := create_cli (mkCliConfig (bs "/var/run/tric/admin.sock") None) create_metrics.
Definition example_context : ModuleContext PermutiveBus := mkModuleContext create_tric (fresh_permutive memory_bus).

Lemma example_context_wf : context_wf example_context.
Proof. split; [apply create_store_wf|apply memory_bus_permutive_wf]. Defined.

Definition example_command : bytes := bs "query " ++ sql_text_insert ++ newline.

Lemma admin_answers_witness :
  (∃ response n' c', cli_turn example_module (Some example_command) (mkWorld 0 example_context) =
     (Returned response, mkWorld n' c') ∧ context_wf c' ∧
     (is_Some response ↔ is_Some (Some example_command))) ∧
  ∀ datagram, command_verb (trim (from_utf8_lossy (btake 4096 datagram))) = bs "shutdown" →
    (cli_turn example_module (Some datagram) (mkWorld 0 example_context)).1 = Exited 0.
Proof.
  apply (admin_answers example_module (Some example_command) 0 example_context).
  - apply example_context_wf.
  - intros datagram [= <-]. split; [apply (bool_decide_unpack _); vm_compute; exact I|].
    replace (command_writes (trim (from_utf8_lossy (btake 4096 example_command))))
      with [bs "_schema:user"; bs "user:42"] by (vm_compute; reflexivity).
    repeat constructor; apply memory_openable; apply (bool_decide_unpack _); vm_compute; exact I.
Defined.
