(* ===== verification/Server.v ===== *)
(** The server module, src/modules/server.rs: what one turn of a worker's loop
    does to the core bus, the data bus, the sessions and the counters, and the
    datagrams it sends.  A turn is what the loop does from one [recv_from] to the
    next; the turns of all workers run one after the other here (the workers share
    the state; inside a turn each lock is taken and released as modelled). *)
From stdpp Require Import prelude gmap sorting strings.
From Stdlib Require Import NArith Lia.
From S2P Require Import Prelude.
From S2P Require Import Bytes.
From S2P Require Import BTree.
From S2P Require Import Clock.
From S2P Require Import TimedMap.
From S2P Require Import Store.
From S2P Require Import Tric.
From S2P Require Import DataBus.
From S2P Require Import BusSpec.
From S2P Require Import Sqlite.
From S2P Require Import Instances.
From S2P Require Import Permutive.
From S2P Require Import Buses.
From S2P Require Import Metrics.
From S2P Require Import Auth.
From S2P Require Import Codec.
From S2P Require Import Replies.
From S2P Require Import Sql.
From S2P Require Import Query.
From S2P Require Import Router.

Definition MAX_DATAGRAM : N := 2048.

(** [OsRng]: what the n-th encoding of a response draws. *)
Class OsRng : Type := {
  draw : nat → Entropy;
  draw_ok : ∀ n, entropy_ok (draw n);
}.

(** What the workers share, and the request a local worker reuses. *)
Record Server (S : Type) `{Aead} : Type := mkServer {
  core_bus : Tric;
  data_bus : S;
  session_table : SessionTable;
  metrics : Metrics;
  local_request : Request;
  rng_draws : nat;
}.
Arguments mkServer {S _} _ _ _ _ _ _.
Arguments core_bus {S _} _.
Arguments data_bus {S _} _.
Arguments session_table {S _} _.
Arguments metrics {S _} _.
Arguments local_request {S _} _.
Arguments rng_draws {S _} _.

Section server.
Context {S : Type} `{Clock, !DataBus S, SqlParser, Aead, OsRng}.
Implicit Types s : Server S.

Definition set_core_bus (t : Tric) s : Server S :=
  mkServer t (data_bus s) (session_table s) (metrics s) (local_request s) (rng_draws s).
Definition set_data_bus (b : S) s : Server S :=
  mkServer (core_bus s) b (session_table s) (metrics s) (local_request s) (rng_draws s).
Definition set_session_table (t : SessionTable) s : Server S :=
  mkServer (core_bus s) (data_bus s) t (metrics s) (local_request s) (rng_draws s).
Definition set_metrics (m : Metrics) s : Server S :=
  mkServer (core_bus s) (data_bus s) (session_table s) m (local_request s) (rng_draws s).
Definition set_local_request (r : Request) s : Server S :=
  mkServer (core_bus s) (data_bus s) (session_table s) (metrics s) r (rng_draws s).
Definition set_rng_draws (n : nat) s : Server S :=
  mkServer (core_bus s) (data_bus s) (session_table s) (metrics s) (local_request s) n.

Definition on_core_bus {A} (m : M (World Tric) A) : M (World (Server S)) A :=
  zoom_world core_bus set_core_bus m.
Definition on_data_bus {A} (m : M (World S) A) : M (World (Server S)) A :=
  zoom_world data_bus set_data_bus m.
Definition on_metrics {A} (m : M (World Metrics) A) : M (World (Server S)) A :=
  zoom_world metrics set_metrics m.
Definition on_sessions {A} (m : M SessionTable A) : M (World (Server S)) A :=
  stateful (zoom session_table set_session_table m).
Definition on_local_request {A} (m : M Request A) : M (World (Server S)) A :=
  stateful (zoom local_request set_local_request m).

(** [recv_from] into a buffer of [MAX_DATAGRAM] bytes. *)
Definition received (raw : bytes) : bytes := btake MAX_DATAGRAM raw.

Definition module_key : bytes := bs "module:server".
Definition heartbeat : Duration := from_secs 15.

(** The buffer is cleared, then filled. *)
Definition write_local_to_buffer (buffer : bytes) (response : Response) : bytes :=
  [] ++ u32_be (response_id response) ++ [as_u8 (response_opcode response)] ++ response_payload response.

(** What [run] does before it spawns the workers. *)
Definition run_start : M (World (Server S)) unit :=
  on_core_bus (Tric.write_value module_key (bs "running")) ;;
  on_core_bus (Tric.write_ttl module_key heartbeat).

(** A turn of [run_local_worker]; [input] is [None] when [recv_from] fails. *)
Definition local_turn (input : option bytes) : M (World (Server S)) (list bytes) :=
  on_core_bus (Tric.write_ttl module_key heartbeat) ;;
  match input with
  | None => mret []
  | Some raw =>
      start ← instant_now;
      on_metrics (stateful (call record_local_request)) ;;
      decoded ← on_local_request (decode_local_into (received raw));
      if negb decoded then
        on_metrics (stateful (call record_error)) ;;
        mret [write_local_to_buffer [] (create_error 0 ERROR_MALFORMED)]
      else
        request ← gets (λ w, local_request (st w));
        counters ← gets (λ w, metrics (st w));
        responses ← on_data_bus (dispatch_request request counters);
        on_metrics (record_latency start) ;;
        mret (write_local_to_buffer [] <$> responses)
  end.

(** One response of a network turn: a datagram, unless it cannot be encrypted. *)
Definition send_network (session_id : bytes) (response : Response) : M (World (Server S)) (option bytes) :=
  n ← gets (λ w, rng_draws (st w));
  stateful (modify (set_rng_draws (Datatypes.S n))) ;;
  on_sessions (encode_network response session_id (draw n)).

(** A turn of [run_network_worker]. *)
Definition network_turn (input : option bytes) : M (World (Server S)) (list bytes) :=
  on_core_bus (Tric.write_ttl module_key heartbeat) ;;
  match input with
  | None => mret []
  | Some raw =>
      start ← instant_now;
      table ← gets (λ w, session_table (st w));
      decoded ← lift_outcome (decode_network (received raw) table);
      match decoded with
      | None => mret []
      | Some (request, session_id) =>
          on_metrics (stateful (call record_network_request)) ;;
          counters ← gets (λ w, metrics (st w));
          responses ← on_data_bus (dispatch_request request counters);
          sent ← mmap (send_network session_id) responses;
          on_metrics (record_latency start) ;;
          mret (omap id sent)
      end
  end.

(** The turns of all workers, in the order they run. *)
Inductive Turn : Type :=
| LocalTurn (input : option bytes)
| NetworkTurn (input : option bytes).

Definition turn (t : Turn) : M (World (Server S)) (list bytes) :=
  match t with
  | LocalTurn input => local_turn input
  | NetworkTurn input => network_turn input
  end.

(** The number of workers of each kind, of [worker_count] in all. *)
Definition local_workers (worker_count : N) : N := N.max (worker_count / 2) 1.
Definition network_workers (worker_count : N) : N := N.max (worker_count - worker_count / 2) 1.

Definition server_start (bus : S) (core : Tric) (max_sessions : N) : Server S :=
  mkServer core bus (create_session_table max_sessions) create_metrics (mkRequest 0 0 [] true) 0.
End server.

(** * The steps of a turn *)
Section steps.
Context {S : Type} `{TimedBus S, SqlParser, Aead, OsRng}.
Implicit Types s : Server S.

Record server_wf s : Prop := {
  sw_core : store_wf (core_bus s);
  sw_data : bus_wf (data_bus s);
}.

Lemma heartbeat_ok : duration_ok heartbeat.
Proof using Type. apply duration_ok_secs. done. Qed.

(** The heartbeat that starts every turn: it extends the module's key if that is
    there, and touches nothing else. *)
Lemma heartbeat_run n s :
  store_wf (core_bus s) →
  ∃ t, on_core_bus (Tric.write_ttl module_key heartbeat) (mkWorld n s) =
         (Returned (), mkWorld (Datatypes.S n) (set_core_bus t s)) ∧
       store_wf t ∧
       store_abs t = tm_write_ttl module_key (sample n + heartbeat) (tm_purge (sample n) (store_abs (core_bus s))).
Proof using Type.
  intros Hwf. destruct (write_ttl_tric module_key heartbeat n (core_bus s) Hwf heartbeat_ok) as (t & Hrun & ? & ?).
  exists t. split; [|done]. exact (zoom_world_returned core_bus set_core_bus _ n s _ _ _ Hrun).
Qed.

Lemma on_data_bus_run {A} (m : M (World S) A) n s a w :
  m (mkWorld n (data_bus s)) = (Returned a, w) →
  on_data_bus m (mkWorld n s) = (Returned a, mkWorld (tick w) (set_data_bus (st w) s)).
Proof using Type. destruct w as [n' b]. intros Hm. exact (zoom_world_returned data_bus set_data_bus _ n s _ _ _ Hm). Qed.

Lemma decode_into_run raw n s :
  ∃ o, decode_local raw = Returned o ∧
  on_local_request (decode_local_into raw) (mkWorld n s) =
  (Returned (bool_decide (is_Some o)), mkWorld n (set_local_request (default (local_request s) o) s)).
Proof using Type.
  destruct (decode_local_into_total raw (local_request s)) as (o & Ho & Hrun). exists o. split; [done|].
  unfold on_local_request, stateful, zoom. cbn [st tick]. by rewrite Hrun.
Qed.

(** The counters after a request was seen. *)
Definition counted (c : MetricsCall) (m : Metrics) : Metrics := atomic_ops (method_of c) m.

(** A turn on a local datagram, for what the dispatcher does with its request. *)
Lemma local_turn_run raw n s :
  store_wf (core_bus s) →
  ∃ t o, store_wf t ∧
    store_abs t = tm_write_ttl module_key (sample n + heartbeat) (tm_purge (sample n) (store_abs (core_bus s))) ∧
    decode_local (received raw) = Returned o ∧
    match o with
    | None => local_turn (Some raw) (mkWorld n s) =
        (Returned [encode_local (create_error 0 ERROR_MALFORMED)],
         mkWorld (n + 2) (set_metrics (counted ErrorSeen (counted LocalRequest (metrics s)))
           (set_core_bus t s)))
    | Some request => ∀ responses w,
        dispatch_request request (counted LocalRequest (metrics s)) (mkWorld (n + 2) (data_bus s)) =
          (Returned responses, w) →
        ∃ us, local_turn (Some raw) (mkWorld n s) =
          (Returned (encode_local <$> responses),
           mkWorld (Datatypes.S (tick w))
             (mkServer t (st w) (session_table s)
                (counted (Latency us) (counted LocalRequest (metrics s))) request (rng_draws s)))
    end.
Proof using Type.
  intros Hwf. destruct (heartbeat_run n s Hwf) as (t & Hh & Ht & Habs).
  set (s1 := set_metrics (counted LocalRequest (metrics s)) (set_core_bus t s)).
  destruct (decode_into_run (received raw) (n + 2) s1) as (o & Ho & Hd).
  exists t, o. split_and!; [done..|].
  assert (local_turn (Some raw) (mkWorld n s) =
    (decoded ← on_local_request (decode_local_into (received raw));
      if negb decoded then
        on_metrics (stateful (call record_error)) ;;
        mret [write_local_to_buffer [] (create_error 0 ERROR_MALFORMED)]
      else
        request ← gets (λ w, local_request (st w));
        counters ← gets (λ w, metrics (st w));
        responses ← on_data_bus (dispatch_request request counters);
        on_metrics (record_latency (sample (Datatypes.S n))) ;;
        mret (write_local_to_buffer [] <$> responses)) (mkWorld (n + 2) s1)) as ->.
  { unfold local_turn. run_with Hh. replace (n + 2)%nat with (Datatypes.S (Datatypes.S n)) by lia. reflexivity. }
  run_with Hd. destruct o as [request|]; [|reflexivity].
  intros responses w Hdisp. eexists. rewrite bool_decide_eq_true_2 by eauto. cbn [negb].
  run. run. erewrite bind_returned; [|apply on_data_bus_run; exact Hdisp]. reflexivity.
Qed.

(** * Network turns *)

(** A datagram that a client of the session opens, with the counter as nonce, to
    the response and 64 to 1024 bytes of noise. *)
Definition opens_to (c : Cipher) (sid : bytes) (counter : N) (response : Response) (datagram : bytes) : Prop :=
  ∃ header e noise, datagram = sid ++ header ++ e ∧ blen header = 12 ∧ 64 ≤ blen noise ≤ 1024 ∧
    cipher_decrypt c (counter_nonce counter) e =
      Some (u32_be (response_id response) ++ [as_u8 (response_opcode response)] ++
            response_payload response ++ noise).

Lemma send_network_run `{!AeadSpec} sid ses r n s :
  sessions (session_table s) !! sid = Some ses → nonce_counter ses + 1 < 2 ^ 64 → blen sid = 16 →
  ∃ d t, send_network sid r (mkWorld n s) =
      (Returned (Some d), mkWorld n (set_session_table t (set_rng_draws (Datatypes.S (rng_draws s)) s))) ∧
    opens_to (cipher ses) sid (nonce_counter ses + 1) r d ∧
    sessions t !! sid = Some (mkSession (label ses) (cipher ses) (nonce_counter ses + 1)).
Proof using Type.
  intros Hs Hc Hsid.
  destruct (encode_network_ok r sid ses (draw (rng_draws s)) (session_table s) Hs (draw_ok _) Hc Hsid)
    as (e & t & Hrun & Hdec & _ & Hses & _).
  exists (sid ++ rng_nonce (draw (rng_draws s)) ++ e), t. split_and!; [| |done].
  - unfold send_network. run. run. unfold on_sessions, stateful, zoom. cbn [st tick session_table set_rng_draws]. by rewrite Hrun.
  - unfold opens_to, response_plaintext in *. eexists _, _, _. split_and!; [done| | | |exact Hdec].
    + unfold blen. by rewrite (rng_nonce_length _ (draw_ok _)).
    + unfold blen. rewrite (rng_noise_length _ (draw_ok _)), N2Nat.id. apply N.le_add_r.
    + unfold blen. rewrite (rng_noise_length _ (draw_ok _)), N2Nat.id. apply noise_length_bound.
Qed.

Lemma send_all_run `{!AeadSpec} sid rs : ∀ ses n s,
  sessions (session_table s) !! sid = Some ses →
  nonce_counter ses + N.of_nat (length rs) < 2 ^ 64 → blen sid = 16 →
  ∃ ds t k, mmap (send_network sid) rs (mkWorld n s) =
      (Returned (Some <$> ds), mkWorld n (set_session_table t (set_rng_draws k s))) ∧
    length ds = length rs ∧
    (∀ i r d, rs !! i = Some r → ds !! i = Some d →
       opens_to (cipher ses) sid (nonce_counter ses + 1 + N.of_nat i) r d) ∧
    sessions t !! sid = Some (mkSession (label ses) (cipher ses) (nonce_counter ses + N.of_nat (length rs))).
Proof using Type.
  induction rs as [|r rs IH]; intros ses n s Hs Hc Hsid.
  - exists [], (session_table s), (rng_draws s). split_and!; try done; [by destruct s|].
    rewrite Hs. simpl. rewrite N.add_0_r. by destruct ses.
  - cbn [length] in Hc. destruct (send_network_run sid ses r n s Hs) as (d & t & Hrun & Hopen & Hses); [lia|done|].
    destruct (IH _ n (set_session_table t (set_rng_draws (Datatypes.S (rng_draws s)) s)) Hses)
      as (ds & t' & k & Hrun' & Hlen & Hall & Hses'); [cbn [nonce_counter]; lia|done|].
    exists (d :: ds), t', k. split_and!.
    + cbn [mmap]. run_with Hrun. run_with Hrun'. done.
    + simpl. by rewrite Hlen.
    + intros [|i] r' d' Hr Hd; simpl in Hr, Hd.
      * injection Hr as <-. injection Hd as <-. by rewrite N.add_0_r.
      * specialize (Hall i r' d' Hr Hd). cbn [cipher nonce_counter] in Hall.
        replace (nonce_counter ses + 1 + N.of_nat (Datatypes.S i)) with (nonce_counter ses + 1 + 1 + N.of_nat i) by lia.
        done.
    + rewrite Hses'. cbn [label cipher nonce_counter length]. do 2 f_equal. lia.
Qed.

(** A turn on a network datagram that is refused: only the heartbeat. *)
Lemma network_turn_refused raw n s :
  store_wf (core_bus s) → decode_network (received raw) (session_table s) = Returned None →
  ∃ t, store_wf t ∧ network_turn (Some raw) (mkWorld n s) = (Returned [], mkWorld (n + 2) (set_core_bus t s)).
Proof using Type.
  intros Hwf Hd. destruct (heartbeat_run n s Hwf) as (t & Hh & Ht & _). exists t. split; [done|].
  unfold network_turn. run_with Hh. run. run. cbn [session_table set_core_bus st]. rewrite Hd.
  by replace (n + 2)%nat with (Datatypes.S (Datatypes.S n)) by lia.
Qed.

(** A turn on a request of a session. *)
Lemma network_turn_run `{!AeadSpec} raw request sid ses responses w n s :
  store_wf (core_bus s) → decode_network (received raw) (session_table s) = Returned (Some (request, sid)) →
  sessions (session_table s) !! sid = Some ses → blen sid = 16 →
  dispatch_request request (counted NetworkRequest (metrics s)) (mkWorld (n + 2) (data_bus s)) =
    (Returned responses, w) →
  nonce_counter ses + N.of_nat (length responses) < 2 ^ 64 →
  ∃ t ds table us k, store_wf t ∧
    network_turn (Some raw) (mkWorld n s) =
      (Returned ds, mkWorld (Datatypes.S (tick w))
         (mkServer t (st w) table (counted (Latency us) (counted NetworkRequest (metrics s))) (local_request s) k)) ∧
    length ds = length responses ∧
    (∀ i r d, responses !! i = Some r → ds !! i = Some d →
       opens_to (cipher ses) sid (nonce_counter ses + 1 + N.of_nat i) r d) ∧
    sessions table !! sid = Some (mkSession (label ses) (cipher ses) (nonce_counter ses + N.of_nat (length responses))).
Proof using Type.
  intros Hwf Hd Hses Hsid Hdisp Hc. destruct (heartbeat_run n s Hwf) as (t & Hh & Ht & _).
  set (s1 := set_metrics (counted NetworkRequest (metrics s)) (set_core_bus t s)).
  destruct (send_all_run sid responses ses (tick w) (set_data_bus (st w) s1) Hses Hc Hsid)
    as (ds & table & k & Hsend & Hlen & Hall & Hses').
  eexists t, ds, table, _, k. split_and!; [done| |done|done|done].
  unfold network_turn. run_with Hh. run. run. cbn [session_table set_core_bus st]. rewrite Hd.
  erewrite bind_returned by reflexivity. cbn beta iota. run. run.
  erewrite bind_returned; [|apply on_data_bus_run with (n := Datatypes.S (Datatypes.S n)) (s := s1);
    replace (Datatypes.S (Datatypes.S n)) with (n + 2)%nat by lia; exact Hdisp].
  run_with Hsend. run. rewrite list_omap_fmap_Some. reflexivity.
Qed.
End steps.

(** * Every turn ends *)
Section turns.
Context {S : Type} `{TimedBus S, SqlParser, Aead, OsRng}.
Implicit Types s : Server S.

(** The keys a datagram on the local socket may store without a time-to-live. *)
Definition datagram_writes (raw : bytes) : list bytes :=
  match decode_local (received raw) with
  | Returned (Some request) => request_writes request
  | _ => []
  end.

(** A turn that is not asked, on the local socket, to end the process. *)
Definition shuts_down (t : Turn) : Prop :=
  ∃ raw request, t = LocalTurn (Some raw) ∧ decode_local (received raw) = Returned (Some request) ∧
                 opcode request = 0x15.

(** C13: the server keeps serving.  Every turn of a local worker, whatever bytes it
    received, returns and leaves a well-formed server, unless the datagram is a
    request to shut down or one that stores a key the bus cannot hold
    ([datagram_writes]); and it answers every datagram with at least one. *)
Theorem local_turn_answers input n s :
  server_wf s → ¬ shuts_down (LocalTurn input) →
  (∀ raw, input = Some raw → Forall (bus_writable (S := S)) (datagram_writes raw)) →
  ∃ sent w', local_turn input (mkWorld n s) = (Returned sent, w') ∧ server_wf (st w') ∧
    session_table (st w') = session_table s ∧ (is_Some input → sent ≠ []).
Proof using Type.
  intros [Hcore Hdata] Hshut Hkeys. destruct input as [raw|].
  - destruct (local_turn_run raw n s Hcore) as (t & o & Ht & _ & Ho & Hrun).
    destruct o as [request|]; [|by eexists _, _].
    specialize (Hkeys raw eq_refl). unfold datagram_writes in Hkeys. rewrite Ho in Hkeys.
    destruct (dispatch_returns request (counted LocalRequest (metrics s)) (mkWorld (n + 2) (data_bus s)) Hdata Hkeys)
      as (rs & w & Hdisp & Hwf & Hne & _).
    { intros Hop. exfalso. apply Hshut. by exists raw, request. }
    destruct (Hrun rs w Hdisp) as (us & ->). eexists _, _. split_and!; [done|done|done|].
    intros _. by destruct rs.
  - destruct (heartbeat_run n s Hcore) as (t & Hh & Ht & _). unfold local_turn. run_with Hh.
    eexists _, _. split_and!; [done|done|done|]. by intros [].
Qed.
End turns.

(** * The network is never answered *)
Section network.
Context {S : Type} `{Clock, !DataBus S, SqlParser, Aead, OsRng}.
Implicit Types s : Server S.

(** A call that leaves the core bus and the sessions alone, whatever its outcome. *)
Definition spares {A} (m : M (World (Server S)) A) : Prop :=
  ∀ w, core_bus (st (m w).2) = core_bus (st w) ∧ session_table (st (m w).2) = session_table (st w).

Lemma spares_bind {A B} (m : M (World (Server S)) A) (f : A → M (World (Server S)) B) :
  spares m → (∀ a, spares (f a)) → spares (m ≫= f).
Proof using Type.
  intros Hm Hf w. destruct (Hm w) as [Hc Ht]. unfold mbind, M_bind. destruct (m w) as [[a| |code] w']; try done.
  destruct (Hf a w') as [Hc' Ht']. cbn [snd] in *. by rewrite Hc', Ht'.
Qed.

Lemma spares_zoom_world {T A} (proj : Server S → T) upd (m : M (World T) A) :
  (∀ x s, core_bus (upd x s) = core_bus s ∧ session_table (upd x s) = session_table s) →
  spares (zoom_world proj upd m).
Proof using Type. intros Hu w. unfold zoom_world. destruct (m _) as [o w']. apply Hu. Qed.

Lemma spares_zoom {T A} (proj : Server S → T) upd (m : M T A) :
  (∀ x s, core_bus (upd x s) = core_bus s ∧ session_table (upd x s) = session_table s) →
  spares (stateful (zoom proj upd m)).
Proof using Type. intros Hu w. unfold stateful, zoom. destruct (m _) as [o x]. apply Hu. Qed.

(** Behind its heartbeat, a local turn spares both, also one that panics. *)
Lemma local_turn_spares input w :
  store_wf (core_bus (st w)) → sessions (session_table (st w)) = ∅ →
  let w' := (local_turn input w).2 in
  store_wf (core_bus (st w')) ∧ sessions (session_table (st w')) = ∅.
Proof using Type.
  destruct w as [n s]. cbn [st]. intros Hwf Hno. cbv zeta. unfold local_turn.
  destruct (heartbeat_run n s Hwf) as (t & Hh & Ht & _). run_with Hh.
  match goal with |- store_wf (core_bus (st (?m ?w).2)) ∧ _ =>
    assert (spares m) as Hm; [|destruct (Hm w) as [-> ->]; by split] end.
  destruct input as [raw|]; [|by intros w].
  repeat first [apply spares_bind; [|intros ?] | apply spares_zoom_world; done | apply spares_zoom; done |
    progress cbv zeta | case_match | by intros w].
Qed.

(** With no session, a network turn sends nothing, and leaves all but the core bus
    and the clock alone. *)
Lemma network_turn_no_session input n s :
  store_wf (core_bus s) → sessions (session_table s) = ∅ →
  ∃ n' t, network_turn input (mkWorld n s) = (Returned [], mkWorld n' (set_core_bus t s)) ∧ store_wf t.
Proof using Type.
  intros Hcore Hno. destruct input as [raw|].
  - destruct (decode_network_total (received raw) (session_table s)) as (o & Ho & Hacc).
    destruct o as [[request sid]|].
    { destruct (Hacc request sid) as (_ & _ & _ & _ & _ & ses & _ & Hses & _); [done|].
      by rewrite Hno, lookup_empty in Hses. }
    destruct (network_turn_refused raw n s Hcore Ho) as (t & Ht & Hrun). by eexists _, t.
  - destruct (heartbeat_run n s Hcore) as (t & Hh & Ht & _). unfold network_turn. run_with Hh. by eexists _, t.
Qed.

(** The world after turns of any outcome: a turn that panics ends its worker, and
    leaves what it changed until then. *)
Definition after_turns (turns : list Turn) (w : World (Server S)) : World (Server S) :=
  foldl (λ w t, (turn t w).2) w turns.

Lemma after_turns_no_session turns w :
  store_wf (core_bus (st w)) → sessions (session_table (st w)) = ∅ →
  store_wf (core_bus (st (after_turns turns w))) ∧ sessions (session_table (st (after_turns turns w))) = ∅.
Proof using Type.
  revert w. induction turns as [|t turns IH]; intros w Hwf Hno; [done|].
  change (after_turns (t :: turns) w) with (after_turns turns (turn t w).2).
  destruct t as [input|input]; cbn [turn].
  - destruct (local_turn_spares input w Hwf Hno). by apply IH.
  - destruct w as [n s]. destruct (network_turn_no_session input n s Hwf Hno) as (n' & t & -> & Ht). by apply IH.
Qed.

(** C12: no client of the network is ever served.  The server starts without
    sessions and no turn creates one: after any turns of its workers, on any data
    bus and whatever their outcome, panics included, a network turn on any datagram
    returns, sends nothing, and leaves the data bus and the counters as they were. *)
Theorem network_never_answers turns input n bus core max :
  store_wf core →
  let w := after_turns turns (mkWorld n (server_start bus core max)) in
  ∃ w', network_turn input w = (Returned [], w') ∧
    data_bus (st w') = data_bus (st w) ∧ metrics (st w') = metrics (st w) ∧
    session_table (st w') = session_table (st w).
Proof using Type.
  intros Hcore w. destruct (after_turns_no_session turns (mkWorld n (server_start bus core max))) as [Hwf Hno];
    [done|done|]. fold w in Hwf, Hno. destruct w as [n' s].
  destruct (network_turn_no_session input n' s Hwf Hno) as (n'' & t & Hrun & _). by eexists.
Qed.
End network.

(** * Requests end to end *)
Section end_to_end.
Context {S : Type} `{TimedBus S, SqlParser, Aead, OsRng}.
Implicit Types s : Server S.

(** C5: a local client that sends the frame of an operation gets the frames of its
    reply: the turn runs exactly that operation on the data bus, counts one local
    request, and leaves the sessions and the other counters alone. *)
Theorem local_request_served raw id opc p op r w n s :
  store_wf (core_bus s) → raw = u32_be id ++ [as_u8 opc] ++ p → blen raw ≤ MAX_DATAGRAM → id < 2 ^ 32 →
  data_request opc p op → run_op op (mkWorld (n + 2) (data_bus s)) = (Returned r, w) →
  ∃ w', local_turn (Some raw) (mkWorld n s) = (Returned (encode_local <$> reply_responses id r), w') ∧
    data_bus (st w') = st w ∧ session_table (st w') = session_table s ∧
    requests_total (metrics (st w')) = as_u64 (requests_total (metrics s) + 1) ∧
    requests_local (metrics (st w')) = as_u64 (requests_local (metrics s) + 1) ∧
    requests_network (metrics (st w')) = requests_network (metrics s) ∧
    errors_total (metrics (st w')) = errors_total (metrics s).
Proof using Type.
  intros Hcore Hraw Hlen Hid Hop Hrun.
  assert (opc < 256 ∧ reserved_opcode opc = false) as [Ho Hres] by (by destruct Hop).
  assert (decode_local (received raw) = Returned (Some (mkRequest id opc p true))) as Hdec.
  { unfold received, btake. rewrite take_ge by (unfold blen in Hlen; lia).
    by rewrite Hraw, decode_local_frame, byte_val_as_u8, N.mod_small, Hres by done. }
  destruct (local_turn_run raw n s Hcore) as (t & o & Ht & _ & Ho' & Hturn).
  rewrite Hdec in Ho'. injection Ho' as <-.
  destruct (Hturn (reply_responses id r) w) as (us & ->).
  { rewrite (dispatch_data_request_run _ _ op); [|exact Hop]. by run_with Hrun. }
  eexists. split_and!; done.
Qed.

(** The same over the network, for a table that has a session (no turn creates
    one): a client that encrypts the frame of an operation, with any noise, under
    any nonce, gets one datagram for each response, each of which opens, under the
    next value of the session's counter, to the response and the noise behind it. *)
Lemma network_request_served `{!AeadSpec} sid ses nonce id opc p noise e op r w n s :
  store_wf (core_bus s) → sessions (session_table s) !! sid = Some ses → blen sid = 16 → blen nonce = 12 →
  id < 2 ^ 32 → wire_payload opc p → data_request opc p op →
  cipher_encrypt (cipher ses) nonce (u32_be id ++ [as_u8 opc] ++ p ++ noise) = Some e →
  blen (sid ++ nonce ++ e) ≤ MAX_DATAGRAM →
  run_op op (mkWorld (n + 2) (data_bus s)) = (Returned r, w) →
  nonce_counter ses + N.of_nat (length (reply_responses id r)) < 2 ^ 64 →
  ∃ ds w', network_turn (Some (sid ++ nonce ++ e)) (mkWorld n s) = (Returned ds, w') ∧
    data_bus (st w') = st w ∧ length ds = length (reply_responses id r) ∧
    ∀ i response d, reply_responses id r !! i = Some response → ds !! i = Some d →
      opens_to (cipher ses) sid (nonce_counter ses + 1 + N.of_nat i) response d.
Proof using Type.
  intros Hcore Hses Hsid Hnonce Hid Hwire Hop He Hlen Hrun Hc.
  assert (opc < 256 ∧ reserved_opcode opc = false) as [Ho Hres] by (by destruct Hop).
  assert (decode_network (received (sid ++ nonce ++ e)) (session_table s) =
    Returned (Some (mkRequest id opc p false, sid))) as Hdec.
  { unfold received, btake. rewrite take_ge by (unfold blen in Hlen; lia).
    by apply (decode_network_request _ _ ses _ _ _ _ noise). }
  destruct (network_turn_run _ _ sid ses (reply_responses id r) w n s Hcore Hdec Hses Hsid)
    as (t & ds & table & us & k & Ht & Hturn & Hl & Hall & _); [|done|].
  { rewrite (dispatch_data_request_run _ _ op); [|exact Hop]. by run_with Hrun. }
  rewrite Hturn. eexists _, _. by split_and!.
Qed.
End end_to_end.

(** ** Concrete turns *)

#[export] Instance example_rng : OsRng | 100 :=
  {| draw := λ _, example_entropy; draw_ok := λ _, example_entropy_ok |}.

Definition example_server : Server TricBus := server_start create_tric_bus create_tric 8.
Definition example_session_server : Server TricBus := set_session_table example_sessions example_server.

Lemma example_server_wf : server_wf example_server.
Proof. split; apply create_store_wf. Defined.

(** The server on the bus it runs on, and two frames: a write of a key that has a
    database, and one of a key that has none. *)
Definition example_permutive_server : Server PermutiveBus := server_start (fresh_permutive memory_bus) create_tric 8.
Definition example_write_frame : bytes :=
  u32_be 7 ++ [as_u8 0x02] ++ field (bs "user:42") ++ field (bs "Ada") ++ u64_be 0.
Definition example_unopenable_frame : bytes :=
  u32_be 7 ++ [as_u8 0x02] ++ field [Byte.x00; Byte.x3a] ++ field (bs "Ada") ++ u64_be 0.

Lemma local_turn_answers_witness :
  ∃ sent w', local_turn (Some example_write_frame) (mkWorld 0 example_permutive_server) = (Returned sent, w') ∧
    server_wf (st w') ∧ session_table (st w') = session_table example_permutive_server ∧
    (is_Some (Some example_write_frame) → sent ≠ []).
Proof.
  apply (local_turn_answers (Some example_write_frame)).
  - split; [apply create_store_wf|apply memory_bus_permutive_wf].
  - intros (raw & request & Heq & Hd & Ho). injection Heq as Heq. rewrite <- Heq in Hd.
    vm_compute in Hd. injection Hd as <-. discriminate Ho.
  - intros raw Heq. injection Heq as <-.
    replace (datagram_writes example_write_frame) with [bs "user:42"] by (vm_compute; reflexivity).
    constructor; [apply example_openable|constructor].
Defined.

Lemma network_never_answers_witness :
  let w := after_turns [NetworkTurn (Some (bs "hello")); LocalTurn (Some example_unopenable_frame)]
             (mkWorld 0 example_permutive_server) in
  ∃ w', network_turn (Some (bs "hello")) w = (Returned [], w') ∧
    data_bus (st w') = data_bus (st w) ∧ metrics (st w') = metrics (st w) ∧
    session_table (st w') = session_table (st w).
Proof.
  apply (network_never_answers [NetworkTurn (Some (bs "hello")); LocalTurn (Some example_unopenable_frame)]
    (Some (bs "hello")) 0 (fresh_permutive memory_bus) create_tric 8).
  apply create_store_wf.
Defined.

Definition example_read_frame : bytes := u32_be 7 ++ [as_u8 0x01] ++ field (bs "user:42").

Lemma local_request_served_witness :
  ∃ w', local_turn (Some example_read_frame) (mkWorld 0 example_server) =
      (Returned [encode_local (create_ok 7)], w') ∧
    data_bus (st w') = create_tric_bus ∧ session_table (st w') = session_table example_server ∧
    requests_total (metrics (st w')) = as_u64 (0 + 1) ∧ requests_local (metrics (st w')) = as_u64 (0 + 1) ∧
    requests_network (metrics (st w')) = 0 ∧ errors_total (metrics (st w')) = 0.
Proof.
  apply (local_request_served example_read_frame 7 0x01 (field (bs "user:42")) (OpRead (bs "user:42"))
    (ReplyValue None) (mkWorld 3 create_tric_bus) 0 example_server); try (vm_compute; reflexivity).
  - apply create_store_wf.
  - vm_compute. discriminate.
  - apply (dr_read (bs "user:42") []). vm_compute. reflexivity.
Defined.

Definition example_nonce : bytes := replicate 12 Byte.x01.
Definition example_ciphertext : bytes :=
  (u32_be 7 ++ [as_u8 0x01] ++ field (bs "user:42") ++ bs "noise") ++ tag (bs "key") example_nonce.

Lemma network_request_served_witness :
  ∃ ds w', network_turn (Some (example_session_id ++ example_nonce ++ example_ciphertext))
      (mkWorld 0 example_session_server) = (Returned ds, w') ∧
    data_bus (st w') = create_tric_bus ∧ length ds = 1%nat ∧
    ∀ i response d, [create_ok 7] !! i = Some response → ds !! i = Some d →
      opens_to (cipher example_session) example_session_id (41 + 1 + N.of_nat i) response d.
Proof.
  apply (network_request_served example_session_id example_session example_nonce 7 0x01 (field (bs "user:42"))
    (bs "noise") example_ciphertext (OpRead (bs "user:42")) (ReplyValue None) (mkWorld 3 create_tric_bus) 0
    example_session_server); try (vm_compute; reflexivity).
  - apply create_store_wf.
  - apply wire_key; [left; reflexivity|vm_compute; reflexivity].
  - apply (dr_read (bs "user:42") []). vm_compute. reflexivity.
  - vm_compute. discriminate.
Defined.
