(* ===== verification/Supervision.v ===== *)
(** The core, src/core/mod.rs: the registry of modules, the threads it spawns and
    the supervision check that looks for the heartbeat of each module on the core
    bus.  Threads belong to the operating system: the model keeps which threads
    have been spawned and which of them still run; joining a thread that runs
    blocks the supervisor. *)
From stdpp Require Import prelude gmap sorting strings.
From Stdlib Require Import NArith Lia.
From S2P Require Import Prelude.
From S2P Require Import Bytes.
From S2P Require Import BTree.
From S2P Require Import Clock.
From S2P Require Import TimedMap.
From S2P Require Import Store.
From S2P Require Import Tric.
From S2P Require Import Instances.

(** A [JoinHandle]: the number of the thread. *)
Abbreviation JoinHandle := N.

Record RegisteredModule : Type := mkRegistered {
  name : bytes;
  handle : option JoinHandle;
}.

Record Core : Type := mkCore {
  core_bus : Tric;
  modules : list RegisteredModule;
  supervision_interval : Duration;
  heartbeat_ttl : Duration;
  (** The operating system: the next thread number, and the threads that run. *)
  next_thread : N;
  running : gset N;
}.

Definition create_core : Core := mkCore create_tric [] (from_secs 5) (from_secs 15) 0 ∅.

Definition set_core_bus (t : Tric) (c : Core) : Core :=
  mkCore t (modules c) (supervision_interval c) (heartbeat_ttl c) (next_thread c) (running c).
Definition set_modules (ms : list RegisteredModule) (c : Core) : Core :=
  mkCore (core_bus c) ms (supervision_interval c) (heartbeat_ttl c) (next_thread c) (running c).
Definition set_threads (n : N) (r : gset N) (c : Core) : Core :=
  mkCore (core_bus c) (modules c) (supervision_interval c) (heartbeat_ttl c) n r.

(** [format!("module:{name}")]. *)
Definition module_key (name : bytes) : bytes := bs "module:" ++ name.

Section supervision.
Context `{Clock}.

(** [thread::spawn], and the handle it returns. *)
Definition create_module_thread : M (World Core) JoinHandle :=
  c ← gets st;
  stateful (modify (set_threads (next_thread c + 1) ({[ next_thread c ]} ∪ running c))) ;;
  mret (next_thread c).

(** What the spawned thread does before it runs the module. *)
Definition module_thread_start (name : bytes) (heartbeat_ttl : Duration) : M (World Tric) unit :=
  Tric.write_value (module_key name) (bs "starting") ;;
  Tric.write_ttl (module_key name) heartbeat_ttl ;;
  Tric.write_value (module_key name) (bs "running") ;;
  Tric.write_ttl (module_key name) heartbeat_ttl.

Definition register_module (name : bytes) : M (World Core) unit :=
  handle ← create_module_thread;
  stateful (modify (λ c, set_modules (modules c ++ [mkRegistered name (Some handle)]) c)).

(** The end of a check: all modules were looked at, or the supervisor waits for
    a thread that has not ended. *)
Inductive Supervised : Type := Checked | BlockedOnJoin (thread : JoinHandle).

(** [handle.join()] of the module waits for this thread. *)
Definition still_running (m : RegisteredModule) (runs : gset N) : option JoinHandle :=
  match handle m with
  | Some h => if bool_decide (h ∈ runs) then Some h else None
  | None => None
  end.

(** The loop over the modules; [seen] are those before the current one. *)
Fixpoint check_modules (alive_names : list bytes) (seen todo : list RegisteredModule) :
  M (World Core) Supervised :=
  match todo with
  | [] => mret Checked
  | registered :: todo' =>
      if bool_decide (module_key (name registered) ∈ alive_names) then
        check_modules alive_names (seen ++ [registered]) todo'
      else
        (** [registered.handle.take()]. *)
        stateful (modify (set_modules (seen ++ mkRegistered (name registered) None :: todo'))) ;;
        runs ← gets (λ w, running (st w));
        match still_running registered runs with
        | Some h => mret (BlockedOnJoin h)
        | None =>
            h ← create_module_thread;
            stateful (modify (set_modules (seen ++ mkRegistered (name registered) (Some h) :: todo'))) ;;
            check_modules alive_names (seen ++ [mkRegistered (name registered) (Some h)]) todo'
        end
  end.

Definition check_and_respawn_modules : M (World Core) Supervised :=
  alive ← zoom_world core_bus set_core_bus (Tric.find_by_prefix (bs "module:"));
  let alive_names := alive.*1 in
  ms ← gets (λ w, modules (st w));
  check_modules alive_names [] ms.
End supervision.

(** * What a check does *)
Section spec.
Context `{Clock}.

(** The module's key is on the core bus. *)
Definition live (now : Instant) (t : Tric) (nm : bytes) : Prop :=
  is_Some (tm_contents (store_abs t) now !! module_key nm).

(** Every handle was given out by the operating system. *)
Record core_wf (c : Core) : Prop := {
  cw_store : store_wf (core_bus c);
  cw_handles : ∀ m h, m ∈ modules c → handle m = Some h → h < next_thread c;
  cw_running : ∀ h, h ∈ running c → h < next_thread c;
}.

Lemma module_key_starts nm : starts_with (module_key nm) (bs "module:") = true.
Proof. apply starts_with_app. by eexists. Qed.

Lemma alive_names_live now t nm :
  module_key nm ∈ (prefix_entries (bs "module:") (tm_contents (store_abs t) now)).*1 ↔ live now t nm.
Proof.
  unfold live, prefix_entries. rewrite list_elem_of_fmap. split.
  - intros ([k v] & -> & Hin). apply list_elem_of_filter in Hin as [_ Hin].
    apply elem_of_btree_iter in Hin. by eexists.
  - intros [v Hv]. exists (module_key nm, v). split; [done|]. apply list_elem_of_filter.
    rewrite elem_of_btree_iter. split; [apply module_key_starts|done].
Qed.

(** The check finds the live modules on the bus, then goes through the list. *)
Lemma check_run n c :
  store_wf (core_bus c) →
  ∃ t alive, store_wf t ∧ (∀ nm, module_key nm ∈ alive ↔ live (sample n) (core_bus c) nm) ∧
    check_and_respawn_modules (mkWorld n c) =
    check_modules alive [] (modules c) (mkWorld (S n) (set_core_bus t c)).
Proof.
  intros Hwf. destruct (find_by_prefix_tric (bs "module:") n (core_bus c) Hwf) as (t & Hrun & Ht & _).
  exists t, (prefix_entries (bs "module:") (tm_contents (store_abs (core_bus c)) (sample n))).*1.
  split_and!; [done|intros nm; apply alive_names_live|]. unfold check_and_respawn_modules.
  by run_with (zoom_world_returned core_bus set_core_bus _ n c _ _ _ Hrun).
Qed.

(** What the check makes of one module: a live one is kept, another one gets a
    new thread. *)
Definition respawned (alive : list bytes) (next : N) (runs : gset N) (m m' : RegisteredModule) : Prop :=
  name m' = name m ∧
  if decide (module_key (name m) ∈ alive) then m' = m
  else ∃ h, handle m' = Some h ∧ next ≤ h ∧ h ∈ runs.

Lemma check_modules_all alive todo : ∀ seen n c,
  (∀ m, m ∈ todo → module_key (name m) ∉ alive → still_running m (running c) = None) →
  (∀ m h, m ∈ todo → handle m = Some h → h < next_thread c) →
  modules c = seen ++ todo →
  ∃ c' todo', check_modules alive seen todo (mkWorld n c) = (Returned Checked, mkWorld n c') ∧
    modules c' = seen ++ todo' ∧ core_bus c' = core_bus c ∧ next_thread c ≤ next_thread c' ∧
    running c ⊆ running c' ∧ (∀ h, h ∈ running c' → h ∉ running c → next_thread c ≤ h < next_thread c') ∧
    Forall2 (respawned alive (next_thread c) (running c')) todo todo'.
Proof.
  induction todo as [|m todo IH]; intros seen n c Hend Hfresh Hms; cbn [check_modules].
  { exists c, []. split_and!; try done; lia. }
  case_bool_decide as Hin.
  - destruct (IH (seen ++ [m]) n c) as (c' & todo' & Hrun & Hms' & Hbus & Hnext & Hsub & Hnew & Hall).
    { intros m' Hm'. apply Hend. set_solver. }
    { intros m' h Hm'. apply Hfresh. set_solver. }
    { by rewrite Hms, <- app_assoc. }
    exists c', (m :: todo'). split_and!; try done; [by rewrite Hms', <- app_assoc|].
    constructor; [|done]. split; [done|]. by rewrite decide_True.
  - run. run. cbn [st running set_modules]. rewrite (Hend m) by set_solver. run. run.
    set (h := next_thread c). set (m' := mkRegistered (name m) (Some h)).
    set (c1 := set_modules (seen ++ m' :: todo)
      (set_threads (next_thread c + 1) ({[ next_thread c ]} ∪ running c)
        (set_modules (seen ++ mkRegistered (name m) None :: todo) c))).
    destruct (IH (seen ++ [m']) n c1) as (c' & todo' & Hrun & Hms' & Hbus & Hnext & Hsub & Hnew & Hall).
    { intros m2 Hm2 Hal. pose proof (Hend m2) as He. unfold still_running in *.
      destruct (handle m2) as [h2|] eqn:E; [|done]. rewrite bool_decide_eq_false_2; [done|].
      pose proof (Hfresh m2 h2 ltac:(set_solver) E). cbn [running c1 set_modules set_threads].
      rewrite elem_of_union, elem_of_singleton. intros [->|Hr]; [lia|].
      rewrite bool_decide_eq_true_2 in He by done. by discriminate He; [set_solver|]. }
    { intros m2 h2 Hm2 E. pose proof (Hfresh m2 h2 ltac:(set_solver) E). cbn. lia. }
    { cbn. by rewrite <- app_assoc. }
    cbn in Hbus, Hnext, Hsub, Hnew. exists c', (m' :: todo'). split_and!; try done.
    + by rewrite Hms', <- app_assoc.
    + lia.
    + set_solver.
    + intros h' Hh' Hn. destruct (decide (h' = next_thread c)) as [->|]; [lia|].
      destruct (Hnew h' Hh'); [set_solver|lia].
    + constructor.
      * split; [done|]. rewrite decide_False by done. exists h. split_and!; [done|lia|set_solver].
      * eapply Forall2_impl; [exact Hall|]. intros a b [Hname Hab]. split; [done|].
        case_decide; [done|]. destruct Hab as (h' & ? & ? & ?). exists h'. cbn in *. split_and!; [done|lia|done].
Qed.

(** The first module that is missing and still runs stops the check. *)
Lemma check_modules_blocks alive before m after h : ∀ seen n c,
  Forall (λ b, module_key (name b) ∈ alive) before → module_key (name m) ∉ alive →
  handle m = Some h → h ∈ running c → modules c = seen ++ before ++ m :: after →
  check_modules alive seen (before ++ m :: after) (mkWorld n c) =
  (Returned (BlockedOnJoin h),
   mkWorld n (set_modules (seen ++ before ++ mkRegistered (name m) None :: after) c)).
Proof.
  induction before as [|b before IH]; intros seen n c Hb Hm Hh Hr Hms; cbn [app check_modules].
  - rewrite bool_decide_eq_false_2 by done. run. run. unfold still_running. rewrite Hh.
    by rewrite bool_decide_eq_true_2.
  - apply Forall_cons in Hb as [Hb1 Hb]. rewrite bool_decide_eq_true_2 by done.
    rewrite IH; [by rewrite <- app_assoc|done..|]. by rewrite Hms, <- app_assoc.
Qed.

(** ** Heartbeats *)

(** The workers' heartbeats: each extends the key of a module. *)
Definition heartbeats (names : list bytes) : M (World Core) unit :=
  mfor names (λ nm, zoom_world core_bus set_core_bus (Tric.write_ttl (module_key nm) (from_secs 15))).

Lemma module_key_inj nm1 nm2 : module_key nm1 = module_key nm2 → nm1 = nm2.
Proof. unfold module_key. apply app_inv_head. Qed.

Lemma live_back now now' t nm : now ≤ now' → live now' t nm → live now t nm.
Proof.
  intros Hle [v Hv]. exists v. apply tm_contents_lookup in Hv as (e & Hk & Hl).
  apply tm_contents_lookup. exists e. split; [done|]. by eapply live_mono.
Qed.

(** A heartbeat revives no key: what a purge has removed, or was never there, an
    extension does not bring back. *)
Lemma heartbeat_not_live nm d i T now (k : bytes) :
  tm_contents T now !! k = None → tm_contents (tm_write_ttl nm i (tm_purge now T)) d !! k = None.
Proof.
  unfold tm_contents at 1. rewrite lookup_fmap, fmap_None. intros Hk. apply eq_None_not_Some. intros [v Hv].
  apply tm_contents_lookup in Hv as (e & He & _). unfold tm_write_ttl in He. rewrite lookup_alter in He.
  case_decide as E; [subst; by rewrite Hk in He|congruence].
Qed.

Lemma heartbeats_run names : ∀ n c,
  store_wf (core_bus c) →
  ∃ t, heartbeats names (mkWorld n c) = (Returned (), mkWorld (n + length names) (set_core_bus t c)) ∧
    store_wf t ∧ ∀ nm, ¬ live (sample n) (core_bus c) nm → ¬ live (sample (n + length names)) t nm.
Proof.
  induction names as [|nm names IH]; intros n c Hwf.
  - exists (core_bus c). simpl. rewrite Nat.add_0_r. split_and!; [by destruct c|done..].
  - destruct (write_ttl_tric (module_key nm) (from_secs 15) n (core_bus c) Hwf (duration_ok_secs 15 ltac:(done)))
      as (t1 & Hrun & Ht1 & Habs).
    destruct (IH (S n) (set_core_bus t1 c) Ht1) as (t & Hrun2 & Ht & Hlive).
    exists t. cbn [length]. replace (n + S (length names))%nat with (S n + length names)%nat by lia.
    split_and!; [|done|].
    + cbn [heartbeats mfor]. run_with (zoom_world_returned core_bus set_core_bus _ n c _ _ _ Hrun). exact Hrun2.
    + intros nm2 Hl. apply Hlive. cbn [core_bus set_core_bus].
      unfold live in *. rewrite Habs. apply eq_None_not_Some. apply heartbeat_not_live. by apply eq_None_not_Some.
Qed.

(** The check keeps the registry consistent with the threads. *)
Lemma check_ok n c :
  core_wf c →
  (∀ m, m ∈ modules c → ¬ live (sample n) (core_bus c) (name m) → still_running m (running c) = None) →
  ∃ w', check_and_respawn_modules (mkWorld n c) = (Returned Checked, w') ∧ core_wf (st w') ∧
    running c ⊆ running (st w') ∧
    Forall2 (λ m m', name m' = name m ∧
        (live (sample n) (core_bus c) (name m) → m' = m) ∧
        (¬ live (sample n) (core_bus c) (name m) →
         ∃ h, handle m' = Some h ∧ h ∉ running c ∧ h ∈ running (st w')))
      (modules c) (modules (st w')).
Proof.
  intros Hwf Hend. destruct (check_run n c (cw_store c Hwf)) as (t & alive & Ht & Hal & ->).
  destruct (check_modules_all alive (modules c) [] (S n) (set_core_bus t c)) as
    (c' & todo' & Hrun & Hms & Hbus & Hnext & Hsub & Hnew & Hall); [|by apply cw_handles|done|].
  { intros m Hm Hn. apply Hend; [done|]. by rewrite <- Hal. }
  cbn in Hms, Hbus, Hnext, Hsub, Hnew, Hall. exists (mkWorld (S n) c'). cbn [st]. rewrite Hms.
  assert (∀ h, h ∈ running c' → h < next_thread c') as Hrunning.
  { intros h Hh. destruct (decide (h ∈ running c)) as [Hc|Hc]; [|by apply Hnew].
    pose proof (cw_running c Hwf h Hc). lia. }
  split_and!; [done| |done|].
  - split; [by rewrite Hbus| |done]. intros m' h Hm' Hh. rewrite Hms in Hm'.
    apply list_elem_of_lookup in Hm' as [i Hi].
    destruct (Forall2_lookup_r _ _ _ _ _ Hall Hi) as (m & Hm & _ & Hr). case_decide.
    + subst m'. apply list_elem_of_lookup_2 in Hm. pose proof (cw_handles c Hwf m h Hm Hh). lia.
    + destruct Hr as (h' & Hh' & _ & Hin). rewrite Hh in Hh'. injection Hh' as <-. by apply Hrunning.
  - eapply Forall2_impl; [exact Hall|]. intros m m' [Hname Hr]. split; [done|].
    split; intros Hl; [rewrite decide_True in Hr by (by apply Hal); done|].
    rewrite decide_False in Hr by (by rewrite Hal). destruct Hr as (h & Hh & Hge & Hin). exists h.
    split_and!; [done| |done]. intros Hc. pose proof (cw_running c Hwf h Hc). lia.
Qed.

(** C30: supervision replaces dead modules and leaves living ones alone.  When
    every module whose key is missing has ended, a check returns, keeps each module
    whose key is on the core bus with its thread, gives every other one a new
    thread that runs, and stops no thread; the registry stays consistent. *)
Theorem check_respawns_dead n c :
  core_wf c →
  (∀ m, m ∈ modules c → ¬ live (sample n) (core_bus c) (name m) → still_running m (running c) = None) →
  ∃ w', check_and_respawn_modules (mkWorld n c) = (Returned Checked, w') ∧ core_wf (st w') ∧
    running c ⊆ running (st w') ∧
    Forall2 (λ m m', name m' = name m ∧
        (live (sample n) (core_bus c) (name m) → m' = m) ∧
        (¬ live (sample n) (core_bus c) (name m) →
         ∃ h, handle m' = Some h ∧ h ∉ running c ∧ h ∈ running (st w')))
      (modules c) (modules (st w')).
Proof. apply check_ok. Qed.

(** C31: a module that lost its key while its thread runs blocks supervision for
    good.  Heartbeats only extend a key that is there, so no number of them, from
    any module, brings the key back; and the next check that finds the modules
    before it alive takes the module's handle and waits for its thread. *)
Theorem lost_heartbeat_blocks_supervision n c before m after h names :
  store_wf (core_bus c) → modules c = before ++ m :: after → handle m = Some h → h ∈ running c →
  ¬ live (sample n) (core_bus c) (name m) →
  ∃ t, let n' := (n + length names)%nat in
    heartbeats names (mkWorld n c) = (Returned (), mkWorld n' (set_core_bus t c)) ∧
    ¬ live (sample n') t (name m) ∧
    (Forall (λ b, live (sample n') t (name b)) before →
     ∃ w', check_and_respawn_modules (mkWorld n' (set_core_bus t c)) = (Returned (BlockedOnJoin h), w') ∧
       modules (st w') = before ++ mkRegistered (name m) None :: after ∧ running (st w') = running c).
Proof.
  intros Hwf Hms Hh Hr Hl. destruct (heartbeats_run names n c Hwf) as (t & Hrun & Ht & Hlive).
  exists t. split_and!; [done|by apply Hlive|]. intros Hb.
  destruct (check_run (n + length names) (set_core_bus t c) Ht) as (t2 & alive & _ & Hal & Hcheck).
  rewrite Hcheck. cbn [modules set_core_bus]. rewrite Hms.
  rewrite (check_modules_blocks alive before m after h); [by eexists| |by rewrite Hal; apply Hlive|done|done|done].
  eapply Forall_impl; [exact Hb|]. intros b. by rewrite Hal.
Qed.
End spec.

(** ** Concrete checks *)

(** A core bus on which only the cli module is alive. *)
Definition example_core_bus : Tric :=
  st (Tric.write_value (module_key (bs "cli")) (bs "running") (mkWorld 0 create_tric)).2.

Lemma example_core_bus_wf : store_wf example_core_bus.
Proof.
  unfold example_core_bus.
  destruct (write_value_tric (module_key (bs "cli")) (bs "running") 0 create_tric create_store_wf) as (t & -> & Ht & _).
  exact Ht.
Defined.

(** Two modules; the thread of the first is 0, that of the second 1. *)
Definition example_core (runs : gset N) : Core :=
  mkCore example_core_bus [mkRegistered (bs "server") (Some 0); mkRegistered (bs "cli") (Some 1)]
    (from_secs 5) (from_secs 15) 2 runs.

Lemma check_respawns_dead_witness :
  let c := example_core {[ 1 ]} in
  ∃ w', check_and_respawn_modules (mkWorld 1 c) = (Returned Checked, w') ∧ core_wf (st w') ∧
    running c ⊆ running (st w') ∧
    Forall2 (λ m m', name m' = name m ∧
        (live (sample 1) (core_bus c) (name m) → m' = m) ∧
        (¬ live (sample 1) (core_bus c) (name m) →
         ∃ h, handle m' = Some h ∧ h ∉ running c ∧ h ∈ running (st w')))
      (modules c) (modules (st w')).
Proof.
  apply (check_respawns_dead 1 (example_core {[ 1 ]})).
  - split; [apply example_core_bus_wf| |].
    + intros m h Hm Hh. simpl in Hm. rewrite !elem_of_cons, elem_of_nil in Hm.
      destruct Hm as [->|[->|[]]]; injection Hh as <-; simpl; lia.
    + intros h Hh. simpl in Hh. apply elem_of_singleton in Hh. subst h. simpl. lia.
  - intros m Hm Hl. simpl in Hm. rewrite !elem_of_cons, elem_of_nil in Hm. destruct Hm as [->|[->|[]]].
    + vm_compute. reflexivity.
    + exfalso. apply Hl. eexists. vm_compute. reflexivity.
Defined.

Lemma lost_heartbeat_blocks_supervision_witness :
  let c := example_core {[ 0; 1 ]} in
  ∃ t, let n' := (1 + 1)%nat in
    heartbeats [bs "server"] (mkWorld 1 c) = (Returned (), mkWorld n' (set_core_bus t c)) ∧
    ¬ live (sample n') t (bs "server") ∧
    (Forall (λ b, live (sample n') t (name b)) [] →
     ∃ w', check_and_respawn_modules (mkWorld n' (set_core_bus t c)) = (Returned (BlockedOnJoin 0), w') ∧
       modules (st w') = [] ++ mkRegistered (bs "server") None :: [mkRegistered (bs "cli") (Some 1)] ∧
       running (st w') = running c).
Proof.
  apply (lost_heartbeat_blocks_supervision 1 (example_core {[ 0; 1 ]}) [] (mkRegistered (bs "server") (Some 0))
    [mkRegistered (bs "cli") (Some 1)] 0 [bs "server"]).
  - apply example_core_bus_wf.
  - reflexivity.
  - reflexivity.
  - apply (bool_decide_unpack _). vm_compute. exact I.
  - intros [v Hv]. vm_compute in Hv. discriminate Hv.
Defined.
