(* ===== verification/Logger.v ===== *)
(** The timestamps of the log, src/modules/logger.rs: the date of a day number,
    and the RFC 3164 line.  The socket to the log daemon is not modelled: a log
    call is the line it would send. *)
From stdpp Require Import prelude gmap sorting strings.
From Stdlib Require Import NArith Lia.
From S2P Require Import Prelude.
From S2P Require Import Bytes.
From S2P Require Import Text.

Definition FACILITY_DAEMON : N := 3.
Definition SEVERITY_INFO : N := 6.
Definition SEVERITY_WARNING : N := 4.
Definition SEVERITY_ERROR : N := 3.

(** All subtractions stay above zero (see [year_of_era_spec]); the one addition to
    the argument, of 719468, fits a u64 for the days of any [SystemTime]. *)
Definition days_to_date (days_since_epoch : N) : N * N * N :=
  let z := days_since_epoch + 719468 in
  let era := z / 146097 in
  let day_of_era := z - era * 146097 in
  let year_of_era :=
    (day_of_era - day_of_era / 1460 + day_of_era / 36524 - day_of_era / 146096) / 365 in
  let year := year_of_era + era * 400 in
  let day_of_year := day_of_era - (365 * year_of_era + year_of_era / 4 - year_of_era / 100) in
  let month := (5 * day_of_year + 2) / 153 in
  let day := day_of_year - (153 * month + 2) / 5 + 1 in
  let month := if month <? 10 then month + 3 else month - 9 in
  let year := if month <=? 2 then year + 1 else year in
  (year, byte_val (as_u8 month), byte_val (as_u8 day)).

Definition month_name (month : N) : bytes :=
  match month with
  | 1 => bs "Jan" | 2 => bs "Feb" | 3 => bs "Mar" | 4 => bs "Apr"
  | 5 => bs "May" | 6 => bs "Jun" | 7 => bs "Jul" | 8 => bs "Aug"
  | 9 => bs "Sep" | 10 => bs "Oct" | 11 => bs "Nov" | 12 => bs "Dec"
  | _ => bs "???"
  end.

(** [{:>2}] and [{:02}]. *)
Definition pad_left (fill : byte) (width : nat) (text : bytes) : bytes :=
  replicate (width - length text) fill ++ text.

(** [format_timestamp] at a number of seconds since the epoch. *)
Definition format_timestamp (secs : N) : bytes :=
  let days := secs / 86400 in
  let time_of_day := secs mod 86400 in
  let hours := time_of_day / 3600 in
  let minutes := (time_of_day mod 3600) / 60 in
  let seconds := time_of_day mod 60 in
  let '(_, month, day) := days_to_date days in
  month_name month ++ bs " " ++ pad_left Byte.x20 2 (decimal day) ++ bs " " ++
  pad_left Byte.x30 2 (decimal hours) ++ bs ":" ++ pad_left Byte.x30 2 (decimal minutes) ++ bs ":" ++
  pad_left Byte.x30 2 (decimal seconds).

(** The line [write_syslog] sends. *)
Definition write_syslog (severity : N) (message : bytes) (secs : N) : bytes :=
  let priority := FACILITY_DAEMON * 8 + severity in
  bs "<" ++ decimal priority ++ bs ">" ++ format_timestamp secs ++ bs " tric-server: " ++ message.

Definition log_info (message : bytes) (secs : N) : bytes := write_syslog SEVERITY_INFO message secs.
Definition log_warning (message : bytes) (secs : N) : bytes := write_syslog SEVERITY_WARNING message secs.
Definition log_error (message : bytes) (secs : N) : bytes := write_syslog SEVERITY_ERROR message secs.

(** * The calendar *)

Definition leap_year (y : N) : bool :=
  (y mod 4 =? 0) && (negb (y mod 100 =? 0) || (y mod 400 =? 0)).

Definition days_in_month (y m : N) : N :=
  match m with
  | 4 | 6 | 9 | 11 => 30
  | 2 => if leap_year y then 29 else 28
  | _ => 31
  end.

(** The day after a day of the Gregorian calendar. *)
Definition next_day (d : N * N * N) : N * N * N :=
  let '(y, m, day) := d in
  if day <? days_in_month y m then (y, m, day + 1)
  else if m <? 12 then (y, m + 1, 1)
  else (y + 1, 1, 1).

(** * Years of an era that start in March *)

(** The day of the era on which its year [y] starts, and the one after its end. *)
Definition year_start (y : N) : N := 365 * y + y / 4 - y / 100.
Definition year_end (y : N) : N := if y =? 399 then 146097 else year_start (y + 1).

(** The quotient that finds the year of a day. *)
Definition year_numerator (doe : N) : N := doe - doe / 1460 + doe / 36524 - doe / 146096.

Lemma year_numerator_mono a b : a ≤ b → b < 146097 → year_numerator a ≤ year_numerator b.
Proof.
  intros Hab Hb. revert Hb. induction b as [|b IH] using N.peano_ind.
  - intros _. by replace a with 0 by lia.
  - intros Hb. destruct (decide (a = N.succ b)) as [->|]; [done|].
    etrans; [apply IH; lia|]. unfold year_numerator. clear IH Hab. div_lia.
Qed.

(** Every year of an era, checked at its first and its last day. *)
Lemma year_ends_check :
  forallb (λ i, let y := N.of_nat i in
    (year_numerator (year_start y) / 365 =? y) && (year_numerator (year_end y - 1) / 365 =? y) &&
    (year_start y <? year_end y) && (year_end y <=? 146097) &&
    (year_end y - year_start y =? if leap_year (y + 1) then 366 else 365)) (seq 0 400) = true.
Proof. vm_compute. reflexivity. Qed.

Lemma year_ends y :
  y < 400 →
  year_numerator (year_start y) / 365 = y ∧ year_numerator (year_end y - 1) / 365 = y ∧
  year_start y < year_end y ∧ year_end y ≤ 146097 ∧
  year_end y = year_start y + if leap_year (y + 1) then 366 else 365.
Proof.
  intros Hy. pose proof year_ends_check as Hc. rewrite forallb_forall in Hc.
  specialize (Hc (N.to_nat y)). rewrite N2Nat.id in Hc. cbv zeta in Hc.
  rewrite !andb_true_iff, !N.eqb_eq, N.ltb_lt, N.leb_le in Hc.
  destruct Hc as [[[[? ?] ?] ?] ?]; [apply in_seq; lia|]. split_and!; try done. lia.
Qed.

(** The year that contains a day is the one the program computes. *)
Lemma year_of_day y doe :
  y < 400 → year_start y ≤ doe < year_end y → year_numerator doe / 365 = y.
Proof.
  intros Hy [Hs He]. destruct (year_ends y Hy) as (H1 & H2 & _ & H4 & _).
  apply N.le_antisymm.
  - etrans; [|apply N.eq_le_incl, H2]. apply N.Div0.div_le_mono, year_numerator_mono; lia.
  - etrans; [apply N.eq_le_incl, eq_sym, H1|]. apply N.Div0.div_le_mono, year_numerator_mono; lia.
Qed.

Lemma year_exists doe : doe < 146097 → ∃ y, y < 400 ∧ year_start y ≤ doe < year_end y.
Proof.
  induction doe as [|doe IH] using N.peano_ind; intros Hd.
  - exists 0. split; [done|]. vm_compute. by split.
  - destruct IH as (y & Hy & Hs & He); [lia|].
    destruct (decide (N.succ doe < year_end y)); [exists y; lia|].
    assert (N.succ doe = year_end y) as Heq by lia. unfold year_end in Heq.
    destruct (N.eqb_spec y 399) as [->|Hne]; [lia|]. exists (y + 1). split; [lia|].
    destruct (year_ends (y + 1)) as (_ & _ & ? & _); lia.
Qed.

(** * The date of a day of a year *)

(** Month and day of a day of a year that starts in March, and whether the
    calendar year has changed. *)
Definition month_day (doy : N) : N * N * bool :=
  let month := (5 * doy + 2) / 153 in
  let day := doy - (153 * month + 2) / 5 + 1 in
  let month := if month <? 10 then month + 3 else month - 9 in
  (byte_val (as_u8 month), byte_val (as_u8 day), month <=? 2).

Definition date_of (year doy : N) : N * N * N :=
  let '(month, day, carry) := month_day doy in (if (carry : bool) then year + 1 else year, month, day).

Definition month_day_ok (doy : N) : bool :=
  let '(m, d, carry) := month_day doy in
  (negb (m =? 2) || (d <? 28)) &&
  (if d <? days_in_month 1 m then bool_decide (month_day (doy + 1) = (m, d + 1, carry))
   else if m <? 12 then bool_decide (month_day (doy + 1) = (m + 1, 1, carry))
   else negb carry && bool_decide (month_day (doy + 1) = (1, 1, true))).

(** Every day before the 28th of February, checked against the next. *)
Lemma month_day_check : forallb (λ i, month_day_ok (N.of_nat i)) (seq 0 364) = true.
Proof. vm_compute. reflexivity. Qed.

Lemma days_in_month_not_february y y' m : m ≠ 2 → days_in_month y m = days_in_month y' m.
Proof. intros Hm. unfold days_in_month. by repeat case_match. Qed.

Lemma date_of_next year doy : doy < 364 → date_of year (doy + 1) = next_day (date_of year doy).
Proof.
  intros Hd. pose proof month_day_check as Hc. rewrite forallb_forall in Hc.
  specialize (Hc (N.to_nat doy)). rewrite N2Nat.id in Hc.
  assert (month_day_ok doy = true) as Hok by (apply Hc, in_seq; lia). clear Hc.
  unfold month_day_ok in Hok. unfold date_of. destruct (month_day doy) as [[m d] carry].
  rewrite andb_true_iff, orb_true_iff, negb_true_iff, N.eqb_neq, N.ltb_lt in Hok. destruct Hok as [Hfeb Hok].
  unfold next_day.
  assert ((d <? days_in_month (if carry then year + 1 else year) m) = (d <? days_in_month 1 m)) as ->.
  { destruct (decide (m = 2)) as [->|Hm]; [|by rewrite (days_in_month_not_february _ 1)].
    destruct Hfeb as [|Hlt]; [done|]. transitivity true; [|symmetry]; apply N.ltb_lt;
      match goal with |- _ < days_in_month ?y 2 =>
        change (days_in_month y 2) with (if leap_year y then 29 else 28); destruct (leap_year y); lia end. }
  destruct (d <? days_in_month 1 m); [by apply bool_decide_eq_true in Hok as ->|].
  destruct (m <? 12); [by apply bool_decide_eq_true in Hok as ->|].
  apply andb_true_iff in Hok as [Hcarry Hok%bool_decide_eq_true]. rewrite Hok. by destruct carry.
Qed.

Lemma leap_year_mod y : leap_year (y + 400) = leap_year y.
Proof.
  unfold leap_year. change 400 with (100 * 4) at 1. rewrite N.Div0.mod_add.
  change 400 with (4 * 100) at 1. rewrite N.Div0.mod_add.
  change (y + 400) with (y + 1 * 400). by rewrite N.Div0.mod_add.
Qed.

Lemma leap_year_era y era : leap_year (y + era * 400) = leap_year y.
Proof.
  induction era as [|era IH] using N.peano_ind; [by rewrite N.mul_0_l, N.add_0_r|].
  replace (y + N.succ era * 400) with (y + era * 400 + 400) by lia. by rewrite leap_year_mod.
Qed.

(** The end of February. *)
Lemma date_of_february year :
  date_of (year + 1) 0 = next_day (date_of year (if leap_year (year + 1) then 365 else 364)) ∧
  (leap_year (year + 1) = true → date_of year 365 = next_day (date_of year 364)).
Proof.
  assert (month_day 364 = (2, 28, true)) as E4 by (by vm_compute).
  assert (month_day 365 = (2, 29, true)) as E5 by (by vm_compute).
  assert (month_day 0 = (3, 1, false)) as E0 by (by vm_compute).
  unfold date_of. rewrite E0, E4, E5. split.
  - destruct (leap_year (year + 1)) eqn:E; rewrite ?E4, ?E5; unfold next_day, days_in_month; by rewrite E.
  - intros E. unfold next_day, days_in_month. by rewrite E.
Qed.

(** * The program's dates *)

Lemma days_to_date_of era y doy :
  y < 400 → year_start y + doy < year_end y →
  ∀ d, d + 719468 = era * 146097 + year_start y + doy → days_to_date d = date_of (y + era * 400) doy.
Proof.
  intros Hy Hdoy d Hd. destruct (year_ends y Hy) as (_ & _ & _ & Hmax & _).
  assert ((d + 719468) / 146097 = era) as Hera by (symmetry; apply (N.div_unique _ _ _ (year_start y + doy)); lia).
  assert (d + 719468 - era * 146097 = year_start y + doy) as Hdoe by lia.
  unfold days_to_date. rewrite Hera, Hdoe.
  fold (year_numerator (year_start y + doy)). rewrite (year_of_day y) by (done || lia).
  fold (year_start y). replace (year_start y + doy - year_start y) with doy by lia.
  unfold date_of, month_day. done.
Qed.

Lemma days_to_date_split d :
  ∃ era y doy, y < 400 ∧ year_start y + doy < year_end y ∧ d + 719468 = era * 146097 + year_start y + doy.
Proof.
  destruct (year_exists ((d + 719468) mod 146097)) as (y & Hy & Hs & He); [by apply N.mod_lt|].
  exists ((d + 719468) / 146097), y, ((d + 719468) mod 146097 - year_start y).
  pose proof (N.div_mod (d + 719468) 146097 ltac:(done)). split_and!; [done|lia|]. lia.
Qed.

(** C35: the log's dates are those of the Gregorian calendar: day 0 is the first of
    January 1970, and the date of the next day number is the day after, across the
    ends of months, leap years and centuries, without bound. *)
Theorem days_to_date_gregorian d :
  days_to_date 0 = (1970, 1, 1) ∧ days_to_date (d + 1) = next_day (days_to_date d).
Proof.
  split; [by vm_compute|].
  destruct (days_to_date_split d) as (era & y & doy & Hy & Hdoy & Hd).
  rewrite (days_to_date_of era y doy Hy Hdoy d Hd).
  destruct (year_ends y Hy) as (_ & _ & _ & Hmax & Hlen).
  rewrite <- (leap_year_era (y + 1) era) in Hlen.
  replace (y + 1 + era * 400) with (y + era * 400 + 1) in Hlen by lia.
  destruct (date_of_february (y + era * 400)) as [Hlast Hfeb].
  destruct (decide (year_start y + (doy + 1) < year_end y)) as [Hin|Hout].
  - rewrite (days_to_date_of era y (doy + 1) Hy Hin (d + 1)) by lia.
    destruct (decide (doy < 364)) as [Hlt|Hge]; [by apply date_of_next|].
    destruct (leap_year (y + era * 400 + 1)); [|lia].
    assert (doy = 364) as -> by lia. by apply Hfeb.
  - assert (doy = if leap_year (y + era * 400 + 1) then 365 else 364) as Hdoy'
      by (destruct (leap_year (y + era * 400 + 1)); lia).
    rewrite Hdoy', <- Hlast. clear Hlast Hfeb.
    destruct (decide (y = 399)) as [->|Hne].
    + rewrite (days_to_date_of (era + 1) 0 0); [f_equal; lia|done|by vm_compute|].
      change (year_end 399) with 146097 in *. change (year_start 0) with 0. lia.
    + assert (year_end y = year_start (y + 1)) as Hye.
      { unfold year_end. by destruct (N.eqb_spec y 399). }
      destruct (year_ends (y + 1)) as (_ & _ & ? & _); [lia|].
      rewrite (days_to_date_of era (y + 1) 0); [f_equal; lia|lia|lia|]. lia.
Qed.

(** * The width of a line *)

Lemma two_digits_check fill :
  forallb (λ i, Nat.eqb (length (pad_left fill 2 (decimal (N.of_nat i)))) 2) (seq 0 100) = true.
Proof. vm_compute. reflexivity. Qed.

Lemma two_digits fill n : n < 100 → length (pad_left fill 2 (decimal n)) = 2%nat.
Proof.
  intros Hn. pose proof (two_digits_check fill) as Hc. rewrite forallb_forall in Hc.
  specialize (Hc (N.to_nat n)). rewrite N2Nat.id in Hc. apply Nat.eqb_eq, Hc, in_seq. lia.
Qed.

(** The months and days of a year. *)
Lemma month_day_range_check :
  forallb (λ i, let '(m, d, _) := month_day (N.of_nat i) in (1 <=? m) && (m <=? 12) && (1 <=? d) && (d <=? 31))
    (seq 0 366) = true.
Proof. vm_compute. reflexivity. Qed.

Lemma days_to_date_range d :
  let '(_, month, day) := days_to_date d in 1 ≤ month ≤ 12 ∧ 1 ≤ day ≤ 31.
Proof.
  destruct (days_to_date_split d) as (era & y & doy & Hy & Hdoy & Hd).
  rewrite (days_to_date_of era y doy Hy Hdoy d Hd).
  destruct (year_ends y Hy) as (_ & _ & _ & _ & Hlen).
  pose proof month_day_range_check as Hc. rewrite forallb_forall in Hc.
  specialize (Hc (N.to_nat doy)). rewrite N2Nat.id in Hc. unfold date_of.
  destruct (month_day doy) as [[m day] carry].
  rewrite !andb_true_iff, !N.leb_le in Hc.
  destruct Hc as [[[? ?] ?] ?]; [apply in_seq; destruct (leap_year (y + 1)); lia|]. done.
Qed.

Lemma month_name_length m : length (month_name m) = 3%nat.
Proof. unfold month_name. by repeat case_match. Qed.

(** A timestamp always has the fifteen bytes RFC 3164 gives it: a month of
    three letters (never the fallback), a day, and a time in fields of two digits. *)
Theorem timestamp_width secs :
  length (format_timestamp secs) = 15%nat ∧
  ∃ month rest, 1 ≤ month ≤ 12 ∧ format_timestamp secs = month_name month ++ rest.
Proof.
  unfold format_timestamp. pose proof (days_to_date_range (secs / 86400)) as Hr.
  destruct (days_to_date (secs / 86400)) as [[year month] day]. destruct Hr as [Hm Hday].
  split; [|by exists month; eexists].
  assert (secs mod 86400 < 86400) as Hsec by (by apply N.mod_lt).
  rewrite !length_app, month_name_length, !two_digits; [done|..].
  - by apply (N.lt_trans _ 60); [apply N.mod_lt|].
  - generalize dependent (secs mod 86400). intros t Ht. div_lia.
  - generalize dependent (secs mod 86400). intros t Ht. div_lia.
  - lia.
Qed.
