(* ===== verification/Main.v ===== *)
(** The program, src/main.rs: the arguments, the start of the server, the client that
    sends a command to the admin socket, the shell, and the slot commands.  Sockets
    are what they do ([AdminSocket]); the benchmark is left out. *)
From stdpp Require Import prelude gmap sorting strings.
From Stdlib Require Import NArith Lia.
From S2P Require Import Prelude.
From S2P Require Import Bytes.
From S2P Require Import Text.
From S2P Require Import BTree.
From S2P Require Import Clock.
From S2P Require Import TimedMap.
From S2P Require Import Store.
From S2P Require Import Tric.
From S2P Require Import DataBus.
From S2P Require Import BusSpec.
From S2P Require Import Sqlite.
From S2P Require Import Instances.
From S2P Require Import Permutive.
From S2P Require Import Buses.
From S2P Require Import Slots.
From S2P Require Import Metrics.
From S2P Require Import Codec.
From S2P Require Import Replies.
From S2P Require Import Modules.
From S2P Require Import Sql.
From S2P Require Import Query.
From S2P Require Import Files.
From S2P Require Import Analyser.
From S2P Require Import Import.
From S2P Require Import Export.
From S2P Require Import Cli.
From S2P Require Import Admin.
From S2P Require Import Supervision.
From S2P Require Import Logger.

(** [std::env::var(..).ok()], and [std::process::id()]. *)
Class Environment : Type := {
  env_var : bytes → option bytes;
  process_id : N;
}.

(** The client's end of the admin socket: the errors of its calls, and what is
    received for a command (or the error of the receive). *)
Class AdminSocket : Type := {
  bind_error : bytes → option bytes;
  connect_fails : bytes → bool;
  send_fails : bytes → bool;
  exchange : bytes → bytes + bytes;
}.

(** What the process changes: the disk, and what it has written. *)
Record Process : Type := mkProcess { disk : Disk; stdout : bytes; stderr : bytes }.

Definition on_disk {A} (m : M Disk A) : M Process A := zoom disk (λ d p, mkProcess d (stdout p) (stderr p)) m.
Definition print (text : bytes) : M Process unit := modify (λ p, mkProcess (disk p) (stdout p ++ text) (stderr p)).
Definition eprint (text : bytes) : M Process unit := modify (λ p, mkProcess (disk p) (stdout p) (stderr p ++ text)).

Section main.
Context `{Environment}.

Definition socket_dir : bytes := default (bs "/var/run/tric") (env_var (bs "TRIC_SOCKET_DIR")).
Definition udp_bind : bytes := default (bs "0.0.0.0:7483") (env_var (bs "TRIC_UDP_BIND")).
Definition base_dir : bytes := default (bs "/var/db/tric") (env_var (bs "TRIC_BASE_DIR")).
Definition instance : bytes := default (bs "default") (env_var (bs "TRIC_INSTANCE")).
Definition env_slot : N := default 0 (parse_u32 (default (bs "0") (env_var (bs "TRIC_SLOT")))).

(** * The server *)

Fixpoint create_directories `{FsEvents} (dirs : list (bytes * bytes)) : M Process unit :=
  match dirs with
  | [] => mret ()
  | (label, path) :: dirs =>
      error ← on_disk (create_dir_all path);
      match error with
      | Some error =>
          eprint (bs "tric: cannot create " ++ label ++ bs " directory " ++ path ++ bs ": " ++ error ++ newline) ;;
          exit_process 1
      | None => create_directories dirs
      end
  end.

(** A server whose modules have been registered, at the start of the supervision
    loop. *)
Record Started `{Rusqlite} : Type := mkStarted {
  started_core : World Core;
  started_bus : PermutiveBus;
  started_cli : CliModule;
  (** The datagram for the system log. *)
  started_log : bytes;
}.

Arguments mkStarted {_} _ _ _ _.
Arguments started_core {_} _.
Arguments started_bus {_} _.
Arguments started_cli {_} _.
Arguments started_log {_} _.

(** [n] is the number of clock readings before the start, [secs] the time of day in
    seconds since 1970. *)
Definition run_server `{Clock, Rusqlite, FsEvents} (secs : N) (n : nat) : M Process Started :=
  create_directories [(bs "socket", socket_dir); (bs "data", base_dir)] ;;
  data_bus ← on_disk (create_permutive_bus base_dir instance env_slot n);
  let metrics := create_metrics in
  match (register_module (bs "server") ;; register_module cli_name) (mkWorld (tick data_bus) create_core) with
  | (Returned _, core) =>
      let local_path := socket_dir ++ bs "/server.sock" in
      let admin_path := socket_dir ++ bs "/admin.sock" in
      mret (mkStarted core (st data_bus) (create_cli (mkCliConfig admin_path None) metrics)
        (log_info (bs "startup; local=" ++ local_path ++ bs " udp=" ++ udp_bind ++ bs " admin=" ++ admin_path) secs))
  | _ => panic
  end.

(** * The client *)

Context `{AdminSocket}.

Definition send_command (command : bytes) : bytes :=
  let admin_path := socket_dir ++ bs "/admin.sock" in
  let client_path := bs "/tmp/tric-cli-" ++ decimal process_id ++ bs ".sock" in
  match bind_error client_path with
  | Some error => bs "error: failed to bind " ++ client_path ++ bs ": " ++ error ++ newline
  | None =>
      if connect_fails admin_path then bs "error: cannot connect to " ++ admin_path ++ newline
      else if send_fails command then bs "error: failed to send command" ++ newline
      else
        match exchange command with
        | inr received => from_utf8_lossy (btake 65536 received)
        | inl error => bs "error: failed to receive response: " ++ error ++ newline
        end
  end.

(** The shell, on what [read_line] gives: a line, or [None] at the end of the input
    and for an error.  The result says whether it has ended. *)
Fixpoint run_shell (reads : list (option bytes)) : M Process bool :=
  print (bs "tric> ") ;;
  match reads with
  | [] => mret false
  | None :: _ => mret true
  | Some line :: reads =>
      let trimmed := trim line in
      if bool_decide (trimmed = []) then run_shell reads
      else if bool_decide (trimmed = bs "exit" ∨ trimmed = bs "quit") then mret true
      else print (send_command trimmed) ;; run_shell reads
  end.

(** * The slots *)

Definition slot_line (entry : N * N) : bytes :=
  let label := if entry.1 =? 0 then bs "  (primary)" else [] in
  bs "  " ++ instance ++ bs "_" ++ decimal entry.1 ++ bs "  " ++ decimal entry.2 ++ bs "B" ++ label ++ newline.

Definition run_slots `{FsEvents} : M Process unit :=
  slots ← gets (λ p, find_instance_slots base_dir instance (disk p));
  if bool_decide (slots = []) then print (bs "no slots for instance '" ++ instance ++ bs "' in " ++ base_dir ++ newline)
  else print (mjoin (slot_line <$> slots)).

(** [path_debug] is the [{:?}] of a path. *)
Definition clone_error_text (path_debug : bytes → bytes) (error : CloneError) : bytes :=
  match error with
  | TargetExists slot => bs "slot " ++ decimal slot ++ bs " already exists"
  | SourceMissing slot => bs "source slot " ++ decimal slot ++ bs " does not exist"
  | CannotCreate target error => bs "cannot create " ++ path_debug target ++ bs ": " ++ error
  end.

(** The arrow of the message is U+2192. *)
Definition arrow : bytes := [Byte.xe2; Byte.x86; Byte.x92].

Definition run_clone `{FsEvents} (path_debug : bytes → bytes) (args : list bytes) : M Process unit :=
  match args !! 1%nat with
  | None => eprint (bs "usage: tric clone <target-slot>" ++ newline) ;; exit_process 1
  | Some target_str =>
      match parse_u32 target_str with
      | None => eprint (bs "error: target slot must be a number" ++ newline) ;; exit_process 1
      | Some target_slot =>
          cloned ← on_disk (create_clone base_dir instance env_slot target_slot);
          match cloned with
          | inr bytes_copied =>
              print (bs "cloned " ++ instance ++ bs "_" ++ decimal env_slot ++ bs " " ++ arrow ++ bs " " ++ instance ++
                     bs "_" ++ decimal target_slot ++ bs "  (" ++ decimal bytes_copied ++ bs "B)" ++ newline)
          | inl error => eprint (bs "error: " ++ clone_error_text path_debug error ++ newline) ;; exit_process 1
          end
      end
  end.

(** * The arguments *)

Definition print_usage : bytes :=
  mjoin ((λ line, bs line ++ newline) <$>
    ["usage: tric <command> [args...]";
     "       tric server                          start daemon";
     "       tric status                          server status";
     "       tric keys [-p prefix]                list keys";
     "       tric inspect <key>                   key metadata";
     "       tric query <SQL>                     SQL query";
     "       tric import -f <path> -F <dialect> [-a]";
     "       tric import -D <old.tric> <new.tric>";
     "       tric export -f <path> [-d] [-F <dialect>]";
     "       tric dump -f <path>                  binary store dump";
     "       tric restore -f <path>               binary store restore";
     "       tric slots                           list instance slots";
     "       tric clone <slot>                    clone current slot";
     "       tric -b                              performance benchmark";
     "       tric shutdown                        stop server";
     "       tric shell                           interactive REPL";
     "       tric -h                              help"]%string).

(** What [main] ends in: it returns, it supervises a server, it waits for input in
    the shell, or it runs the benchmark. *)
Inductive MainResult `{Rusqlite} : Type :=
| Done
| Serving (started : Started)
| ShellWaiting
| Benchmarking.

Definition main `{Clock, Rusqlite, FsEvents} (path_debug : bytes → bytes) (secs : N) (n : nat) (reads : list (option bytes))
  (args : list bytes) : M Process MainResult :=
  match args with
  | [] => eprint print_usage ;; exit_process 1
  | arg :: _ =>
      if bool_decide (arg = bs "server") then started ← run_server secs n; mret (Serving started)
      else if bool_decide (arg = bs "shell") then ended ← run_shell reads; mret (if ended : bool then Done else ShellWaiting)
      else if bool_decide (arg = bs "slots") then run_slots ;; mret Done
      else if bool_decide (arg = bs "clone") then run_clone path_debug args ;; mret Done
      else if bool_decide (arg = bs "benchmark" ∨ arg = bs "-b") then mret Benchmarking
      else if bool_decide (arg = bs "-h") then eprint print_usage ;; mret Done
      else print (send_command (join (bs " ") args)) ;; mret Done
  end.
End main.

(** * What the program does *)

(** A visible ASCII word. *)
Definition visible (w : bytes) : Prop := w ≠ [] ∧ Forall (λ b, graphic b = true) w.
(** The first arguments that are not sent to the server. *)
Definition local_verbs : list bytes :=
  [bs "server"; bs "shell"; bs "slots"; bs "clone"; bs "benchmark"; bs "-b"; bs "-h"].

Lemma graphic_space_join (ws : list bytes) : Forall visible ws → utf8_valid (join (bs " ") ws) = true.
Proof.
  intros Hws. apply utf8_valid_join; [done|]. eapply Forall_impl; [exact Hws|]. intros w [_ Hw]. by apply utf8_valid_graphic.
Qed.

Section runs.
Context {S : Type} `{Clock, !DataBus S, SqlParser, UnicodeTables, FileSystem, Archives, HashOrder}.
Context `{Environment, AdminSocket, Rusqlite, FsEvents}.

(** A command line is served as it was typed: the admin module splits the command
    it receives into the arguments, and what its turn answers is what the program
    prints, when the socket carries both and they fit their buffers. *)
Theorem command_line_served module args n (c : ModuleContext S) n' c' response path_debug secs m reads p :
  args ≠ [] → Forall visible args → head args ∉ Some <$> local_verbs → blen (join (bs " ") args) ≤ 4096 →
  bind_error (bs "/tmp/tric-cli-" ++ decimal process_id ++ bs ".sock") = None →
  connect_fails (socket_dir ++ bs "/admin.sock") = false → send_fails (join (bs " ") args) = false →
  cli_turn module (Some (join (bs " ") args)) (mkWorld n c) = (Returned (Some response), mkWorld n' c') →
  exchange (join (bs " ") args) = inr (text response) → utf8_valid (text response) = true → blen (text response) ≤ 65536 →
  main path_debug secs m reads args p =
    (Returned Done, mkProcess (disk p) (stdout p ++ text response) (stderr p)) ∧
  ∃ w, on_data_bus (dispatch_command module (join (bs " ") args)) w = (Returned response, mkWorld n' c') ∧
    split_whitespace (join (bs " ") args) = args.
Proof.
  intros Hne Hvis Hverb Hlen Hbind Hconn Hsend Hturn Hex Hutf Hbuf. split.
  - destruct args as [|arg args]; [done|]. cbn [head] in Hverb. unfold main.
    assert (∀ v, v ∈ local_verbs → bool_decide (arg = v) = false) as Hno.
    { intros v Hv. apply bool_decide_eq_false. intros ->. apply Hverb. by apply list_elem_of_fmap_2. }
    do 4 (rewrite Hno by (unfold local_verbs; set_solver)).
    rewrite bool_decide_eq_false_2.
    2: { intros [-> | ->]; apply Hverb; apply list_elem_of_fmap_2; unfold local_verbs; set_solver. }
    rewrite Hno by (unfold local_verbs; set_solver).
    assert (send_command (join (bs " ") (arg :: args)) = text response) as ->; [|done].
    unfold send_command. rewrite Hbind, Hconn, Hsend, Hex. unfold btake.
    rewrite take_ge by (unfold blen in Hbuf; lia). by apply from_utf8_lossy_valid.
  - unfold cli_turn in Hturn.
    assert (trim (from_utf8_lossy (btake 4096 (join (bs " ") args))) = join (bs " ") args) as Hcmd.
    { unfold btake. rewrite take_ge by (unfold blen in Hlen; lia). rewrite from_utf8_lossy_valid by (by apply graphic_space_join).
      by apply trim_joined_words. }
    rewrite Hcmd in Hturn. unfold mbind at 1, M_bind at 1 in Hturn.
    destruct (on_core_bus _ _) as [[[]| |] w]; try done. exists w. split; [|by apply split_joined_words].
    unfold mbind, M_bind in Hturn. destruct (on_data_bus _ w) as [[r| |] w'] eqn:E; try done.
    injection Hturn as -> ->. done.
Qed.
End runs.

Section process.
Context `{Environment, AdminSocket, FsEvents}.

(** What the shell prints for a line. *)
Definition shell_answer (line : bytes) : bytes :=
  if bool_decide (trim line = []) then [] else send_command (trim line).

Definition printed (text : bytes) (p : Process) : Process := mkProcess (disk p) (stdout p ++ text) (stderr p).

Lemma run_shell_line line reads p :
  run_shell (Some line :: reads) p =
  (if bool_decide (trim line = []) then run_shell reads (printed (bs "tric> ") p)
   else if bool_decide (trim line = bs "exit" ∨ trim line = bs "quit") then (Returned true, printed (bs "tric> ") p)
   else run_shell reads (printed (send_command (trim line)) (printed (bs "tric> ") p))).
Proof.
  cbn [run_shell]. unfold print, modify, mbind, M_bind. cbv beta iota. by repeat case_match.
Qed.

(** The shell answers line after line, without empty ones, and ends with the first
    exit or quit, or with the input; what follows is not read. *)
Theorem shell_session lines last rest p :
  Forall (λ l, trim l ∉ [bs "exit"; bs "quit"]) lines →
  (∀ l, last = Some l → trim l ∈ [bs "exit"; bs "quit"]) →
  run_shell ((Some <$> lines) ++ last :: rest) p =
  (Returned true, mkProcess (disk p)
     (stdout p ++ mjoin ((λ l, bs "tric> " ++ shell_answer l) <$> lines) ++ bs "tric> ") (stderr p)).
Proof.
  intros Hlines Hlast. revert p. induction Hlines as [|l lines Hl Hlines IH]; intros p.
  - cbn [app fmap list_fmap]. destruct last as [l|]; [|done]. specialize (Hlast l eq_refl).
    assert (trim l = bs "exit" ∨ trim l = bs "quit") as He by set_solver.
    rewrite run_shell_line, bool_decide_eq_false_2 by (by destruct He as [-> | ->]). by rewrite bool_decide_eq_true_2.
  - rewrite !fmap_cons. cbn [app]. rewrite run_shell_line.
    assert (¬ (trim l = bs "exit" ∨ trim l = bs "quit")) as He by set_solver.
    change (mjoin (?x :: ?xs)) with (x ++ mjoin xs). unfold shell_answer at 1. case_bool_decide as Hempty.
    + rewrite IH. unfold printed. cbn [disk stdout stderr]. by rewrite app_nil_r, <- !app_assoc.
    + rewrite bool_decide_eq_false_2 by done. rewrite IH. unfold printed. cbn [disk stdout stderr]. by rewrite <- !app_assoc.
Qed.

Lemma clone_entries_returns source target names : ∀ n d, ∃ n' d', clone_entries source target n names d = (Returned n', d').
Proof.
  induction names as [|name names IH]; intros n d; [by eexists _, _|].
  destruct (clone_entry_run source target n name d) as (n1 & d1 & Hrun & _). destruct (IH n1 d1) as (n2 & d2 & Hrun2).
  exists n2, d2. cbn [clone_entries]. by run_with Hrun.
Qed.

(** A clone either prints a line and returns, or leaves a message, ends the process
    with code 1, and copies nothing. *)
Theorem clone_outcome path_debug args p :
  (∃ line d, run_clone path_debug args p = (Returned (), mkProcess d (stdout p ++ line) (stderr p)) ∧ line ≠ []) ∨
  (∃ message, run_clone path_debug args p = (Exited 1, mkProcess (disk p) (stdout p) (stderr p ++ message)) ∧ message ≠ []).
Proof.
  unfold run_clone. destruct (args !! 1%nat) as [target_str|]; [|right; by eexists].
  destruct (parse_u32 target_str) as [target|]; [|right; by eexists].
  assert (∃ r d, create_clone base_dir instance env_slot target (disk p) = (Returned r, d) ∧
    ((∃ e, r = inl e) → d = disk p)) as (r & d & Hr & Hd).
  { unfold create_clone, gets, mbind, M_bind. destruct (path_exists _ (disk p)); [by eexists _, _|].
    destruct (path_exists _ (disk p)); [|by eexists _, _]. cbn [negb]. unfold create_dir_all.
    destruct (create_dir_error _); [by eexists _, _|]. unfold modify, mbind, M_bind. cbn.
    destruct (read_dir _ _) as [names|]; [|by eexists _, _; split; [done|intros [? ?]]].
    match goal with |- context [clone_entries ?s ?t ?n ?l ?d] => destruct (clone_entries_returns s t l n d) as (k & d' & Hk) end.
    rewrite Hk. eexists _, _; split; [done|by intros [? ?]]. }
  unfold on_disk, zoom, mbind, M_bind. rewrite Hr. destruct r as [error|bytes_copied].
  - right. rewrite Hd by (by eexists). eexists. split; [reflexivity|done].
  - left. eexists _, d. split; [reflexivity|done].
Qed.
End process.
